(** * postexport: the image asset pipeline of [tooling/postexport.py]

    A shallow embedding of the content store, the variant generator, the
    manifest cache and the HTML / CSS reference rewriters, followed by the
    properties of the specification that concern them.

    Conventions of the embedding.

    - A Python [str] is a [string]: the sequence of its UTF-8 code units.
      Every operation below is exact on ASCII text; [lower], [\s] and [\d]
      act on the ASCII range only.
    - [bytes] values (file contents, HTTP bodies) are [string]s as well.
    - Python integers are [Z]; the one floating-point computation of the
      source (the height of a resized variant) is carried out in IEEE-754
      binary64 with [SpecFloat].
    - Paths follow [posixpath]; [os.sep] is ["/"], so
      [.replace(os.sep, "/")] is the identity.  The file system has no
      symbolic links: a path names the file at its normalised absolute
      form.
    - Statements that may raise return a [result]; statements with effects
      on the file system or on the manifest run in the monad [M], which
      threads a [State] and keeps it when an exception is raised. *)

From Stdlib Require Import ZArith Ascii String List Bool Lia.
From Stdlib Require Import Floats.SpecFloat.
From stdpp Require Import base option list gmap strings sorting.

Local Open Scope string_scope.
Local Open Scope list_scope.
Local Open Scope Z_scope.

(** ** Exceptions and results *)

Inductive exn : Type :=
| RequestException      (* requests.get failed, or raise_for_status() did *)
| FileNotFoundError
| IsADirectoryError
| FileExistsError
| NotADirectoryError
| UnidentifiedImageError
| ImageError            (* any other error of the imaging library *)
| ZeroDivisionError
| OverflowError
| ValueError
| KeyError
| JSONDecodeError
| RecursionError
| TypeError
| UnicodeDecodeError.

Inductive result (A : Type) : Type :=
| Ok (a : A)
| Raise (e : exn).
Arguments Ok {A} a.
Arguments Raise {A} e.

Definition is_ok {A} (r : result A) : bool :=
  match r with Ok _ => true | Raise _ => false end.

(** ** Text *)

Module Text.

Definition chars (s : string) : list ascii := list_ascii_of_string s.
Definition str (l : list ascii) : string := string_of_list_ascii l.

Definition code (c : ascii) : Z := Z.of_N (N_of_ascii c).

Definition in_range (lo hi : Z) (c : ascii) : bool :=
  (lo <=? code c) && (code c <=? hi).

Definition is_digit (c : ascii) : bool := in_range 48 57 c.
Definition is_lower_alpha (c : ascii) : bool := in_range 97 122 c.
Definition is_upper_alpha (c : ascii) : bool := in_range 65 90 c.

(** [str.isspace] on the ASCII range, which is also [\s] of [re]. *)
Definition is_space (c : ascii) : bool :=
  in_range 9 13 c || in_range 28 32 c.

Definition char_eqb (a b : ascii) : bool := Ascii.eqb a b.

Definition lower_char (c : ascii) : ascii :=
  if is_upper_alpha c then ascii_of_N (N_of_ascii c + 32) else c.

Definition lower (s : string) : string := str (map lower_char (chars s)).

Fixpoint lstrip_by (P : ascii -> bool) (l : list ascii) : list ascii :=
  match l with
  | c :: l' => if P c then lstrip_by P l' else l
  | [] => []
  end.

Definition rstrip_by (P : ascii -> bool) (l : list ascii) : list ascii :=
  rev (lstrip_by P (rev l)).

Definition strip_by (P : ascii -> bool) (l : list ascii) : list ascii :=
  rstrip_by P (lstrip_by P l).

(** [s.strip()], [s.strip("-")], [s.lstrip("/")], [s.rstrip("/")]. *)
Definition strip (s : string) : string := str (strip_by is_space (chars s)).
Definition strip_char (c : ascii) (s : string) : string :=
  str (strip_by (char_eqb c) (chars s)).
Definition lstrip_char (c : ascii) (s : string) : string :=
  str (lstrip_by (char_eqb c) (chars s)).
Definition rstrip_char (c : ascii) (s : string) : string :=
  str (rstrip_by (char_eqb c) (chars s)).

(** [s.replace(c, "")] for a one-character [c]. *)
Definition remove_char (c : ascii) (s : string) : string :=
  str (List.filter (fun x => negb (char_eqb c x)) (chars s)).

Fixpoint starts_with (p l : list ascii) : bool :=
  match p, l with
  | [], _ => true
  | a :: p', b :: l' => char_eqb a b && starts_with p' l'
  | _ :: _, [] => false
  end.

Definition startswith (s p : string) : bool := starts_with (chars p) (chars s).
Definition endswith (s p : string) : bool :=
  starts_with (rev (chars p)) (rev (chars s)).

(** [sub in s] for strings. *)
Fixpoint contains_at (p l : list ascii) : bool :=
  starts_with p l ||
  match l with
  | [] => false
  | _ :: l' => contains_at p l'
  end.

(** [s.split(sep)] for a one-character separator: never empty. *)
Fixpoint split_on (sep : ascii) (l : list ascii) : list (list ascii) :=
  match l with
  | [] => [[]]
  | c :: l' =>
      if char_eqb sep c then [] :: split_on sep l'
      else match split_on sep l' with
           | w :: ws => (c :: w) :: ws
           | [] => [[c]]
           end
  end.

Definition split (sep : ascii) (s : string) : list string :=
  map str (split_on sep (chars s)).

(** [sep.join(parts)]. *)
Fixpoint join (sep : string) (parts : list string) : string :=
  match parts with
  | [] => ""
  | [p] => p
  | p :: ps => p +:+ sep +:+ join sep ps
  end.

(** [re.sub(r"C{n,}", "-", s)] for a character class [C]: every maximal
    run of at least [n] characters of the class becomes one hyphen; a
    shorter run stays.  [run] holds the run read so far. *)
Definition flush_run (n : nat) (run : list ascii) : list ascii :=
  match run with
  | [] => []
  | _ => if (n <=? length run)%nat then ["-"%char] else run
  end.

Fixpoint sub_runs_from (C : ascii -> bool) (n : nat) (run l : list ascii)
  : list ascii :=
  match l with
  | [] => flush_run n run
  | c :: l' =>
      if C c then sub_runs_from C n (run ++ [c]) l'
      else flush_run n run ++ c :: sub_runs_from C n [] l'
  end.

Definition sub_runs (C : ascii -> bool) (n : nat) (s : string) : string :=
  str (sub_runs_from C n [] (chars s)).

(** Decimal rendering of an integer, as [str(n)] and [f"{n}"] give it. *)
Definition digit_char (d : Z) : ascii := ascii_of_N (Z.to_N (48 + d)).

Fixpoint pos_digits (fuel : nat) (n : Z) (acc : list ascii) : list ascii :=
  match fuel with
  | O => acc
  | S fuel' =>
      if n <? 10 then digit_char n :: acc
      else pos_digits fuel' (n / 10) (digit_char (n mod 10) :: acc)
  end.

Definition str_of_Z (n : Z) : string :=
  if n <? 0 then str ("-"%char :: pos_digits (Z.to_nat (Z.log2 (- n)) + 1) (- n) [])
  else str (pos_digits (Z.to_nat (Z.log2 n) + 1) n []).

(** [int(s)] on a non-empty run of ASCII digits. *)
Definition Z_of_digits (l : list ascii) : Z :=
  fold_left (fun acc c => 10 * acc + (code c - 48)) l 0.

End Text.

(** ** [slugify_name] *)

Definition slug_char (c : ascii) : bool :=
  Text.is_lower_alpha c || Text.is_digit c ||
  Text.char_eqb "."%char c || Text.char_eqb "_"%char c || Text.char_eqb "-"%char c.

Definition slugify_name (name : string) : string :=
  let name := Text.lower (Text.strip name) in
  let name := Text.remove_char ")"%char (Text.remove_char "("%char name) in
  let name := Text.sub_runs Text.is_space 1 name in
  let name := Text.sub_runs (fun c => negb (slug_char c)) 1 name in
  let name := Text.strip_char "-"%char (Text.sub_runs (Text.char_eqb "-"%char) 2 name) in
  if String.eqb name "" then "asset" else name.

(** ** [hashlib.sha1] and [hash12] *)

Module Sha1.

Definition w32 (x : Z) : Z := Z.land x 4294967295.

Definition rotl (n x : Z) : Z :=
  w32 (Z.lor (Z.shiftl x n) (Z.shiftr x (32 - n))).

Fixpoint zeros (n : nat) : list Z :=
  match n with O => [] | S n' => 0 :: zeros n' end.

(** Big-endian bytes of [x], [n] of them. *)
Fixpoint be_bytes (n : nat) (x : Z) : list Z :=
  match n with
  | O => []
  | S n' => Z.land (Z.shiftr x (8 * Z.of_nat n')) 255 :: be_bytes n' x
  end.

Definition pad (msg : list Z) : list Z :=
  let len := Z.of_nat (length msg) in
  let k := (55 - len) mod 64 in
  msg ++ 128 :: zeros (Z.to_nat k) ++ be_bytes 8 (8 * len).

Fixpoint blocks (fuel : nat) (l : list Z) : list (list Z) :=
  match fuel, l with
  | S fuel', _ :: _ => firstn 64 l :: blocks fuel' (skipn 64 l)
  | _, _ => []
  end.

Fixpoint words (fuel : nat) (l : list Z) : list Z :=
  match fuel, l with
  | S fuel', b0 :: b1 :: b2 :: b3 :: l' =>
      (Z.shiftl b0 24 + Z.shiftl b1 16 + Z.shiftl b2 8 + b3) :: words fuel' l'
  | _, _ => []
  end.

(** The message schedule, most recent word first. *)
Fixpoint extend (n : nat) (r : list Z) : list Z :=
  match n with
  | O => r
  | S n' =>
      let w := rotl 1 (Z.lxor (Z.lxor (nth 2 r 0) (nth 7 r 0))
                              (Z.lxor (nth 13 r 0) (nth 15 r 0))) in
      extend n' (w :: r)
  end.

Definition schedule (block : list Z) : list Z :=
  rev (extend 64 (rev (words 16 block))).

Definition round_fk (t : nat) (b c d : Z) : Z * Z :=
  if (t <? 20)%nat then
    (Z.lor (Z.land b c) (Z.land (w32 (Z.lnot b)) d), 1518500249)
  else if (t <? 40)%nat then
    (Z.lxor (Z.lxor b c) d, 1859775393)
  else if (t <? 60)%nat then
    (Z.lor (Z.lor (Z.land b c) (Z.land b d)) (Z.land c d), 2400959708)
  else
    (Z.lxor (Z.lxor b c) d, 3395469782).

Definition regs : Type := Z * Z * Z * Z * Z.

Fixpoint rounds (t : nat) (ws : list Z) (s : regs) : regs :=
  match ws with
  | [] => s
  | w :: ws' =>
      let '(a, b, c, d, e) := s in
      let '(f, k) := round_fk t b c d in
      let temp := w32 (rotl 5 a + f + e + k + w) in
      rounds (S t) ws' (temp, a, rotl 30 b, c, d)
  end.

Definition compress (h : regs) (block : list Z) : regs :=
  let '(h0, h1, h2, h3, h4) := h in
  let '(a, b, c, d, e) := rounds 0 (schedule block) h in
  (w32 (h0 + a), w32 (h1 + b), w32 (h2 + c), w32 (h3 + d), w32 (h4 + e)).

Definition init : regs :=
  (1732584193, 4023233417, 2562383102, 271733878, 3285377520).

Definition digest (msg : list Z) : regs :=
  let p := pad msg in
  fold_left compress (blocks (length p) p) init.

Definition hex_char (d : Z) : ascii :=
  if d <? 10 then ascii_of_N (Z.to_N (48 + d)) else ascii_of_N (Z.to_N (87 + d)).

Fixpoint hex_word (n : nat) (x : Z) : list ascii :=
  match n with
  | O => []
  | S n' => hex_char (Z.land (Z.shiftr x (4 * Z.of_nat n')) 15) :: hex_word n' x
  end.

Definition hexdigest (data : string) : string :=
  let '(h0, h1, h2, h3, h4) := digest (map Text.code (Text.chars data)) in
  Text.str (hex_word 8 h0 ++ hex_word 8 h1 ++ hex_word 8 h2 ++ hex_word 8 h3 ++ hex_word 8 h4).

End Sha1.

(** [hash12(b) = hashlib.sha1(b).hexdigest()[:12]]. *)
Definition hash12 (b : string) : string :=
  Text.str (firstn 12 (Text.chars (Sha1.hexdigest b))).

(** ** [os.path] (POSIX flavour) *)

Module Path.

Import Text.

Definition slash : ascii := "/"%char.
Definition dot : ascii := "."%char.

Fixpoint take_until (c : ascii) (l : list ascii) : list ascii :=
  match l with
  | [] => []
  | x :: l' => if char_eqb c x then [] else x :: take_until c l'
  end.

(** The part of [l] after its last [c] (all of [l] when [c] is absent). *)
Definition after_last (c : ascii) (l : list ascii) : list ascii :=
  rev (take_until c (rev l)).

(** [l[: l.rfind(c) + 1]]. *)
Definition upto_last (c : ascii) (l : list ascii) : list ascii :=
  firstn (length l - length (after_last c l)) l.

Definition has_char (c : ascii) (l : list ascii) : bool :=
  existsb (char_eqb c) l.

Definition basename (p : string) : string := str (after_last slash (chars p)).

Definition dirname (p : string) : string :=
  let head := upto_last slash (chars p) in
  if forallb (char_eqb slash) head then str head
  else str (rstrip_by (char_eqb slash) head).

Definition isabs (p : string) : bool := startswith p "/".

(** Two-argument [os.path.join]. *)
Definition join (a b : string) : string :=
  if startswith b "/" then b
  else if String.eqb a "" || endswith a "/" then a +:+ b
  else a +:+ "/" +:+ b.

(** [os.path.splitext]: the extension starts at the last dot of the last
    component, unless only dots precede it there. *)
Definition splitext (p : string) : string * string :=
  let name := after_last slash (chars p) in
  if has_char dot name then
    let ext := after_last dot name in
    let stem := firstn (length name - length ext - 1) name in
    if forallb (char_eqb dot) stem then (p, "")
    else (str (firstn (length (chars p) - length ext - 1) (chars p)),
          str (dot :: ext))
  else (p, "").

Definition norm_step (initial : nat) (acc : list (list ascii)) (comp : list ascii)
  : list (list ascii) :=
  match comp with
  | [] => acc
  | _ =>
      if String.eqb (str comp) "." then acc
      else if negb (String.eqb (str comp) "..") then acc ++ [comp]
      else match rev acc with
           | [] => if (initial =? 0)%nat then acc ++ [comp] else acc
           | last :: before =>
               if String.eqb (str last) ".." then acc ++ [comp]
               else rev before
           end
  end.

Definition normpath (p : string) : string :=
  let l := chars p in
  match l with
  | [] => "."
  | _ =>
      let initial : nat :=
        if starts_with [slash] l then
          if starts_with [slash; slash] l && negb (starts_with [slash; slash; slash] l)
          then 2%nat else 1%nat
        else 0%nat in
      let comps := fold_left (norm_step initial) (split_on slash l) [] in
      let body := Text.join "/" (map str comps) in
      let path := str (repeat slash initial) +:+ body in
      if String.eqb path "" then "." else path
  end.

Definition abspath (cwd p : string) : string :=
  if isabs p then normpath p else normpath (join cwd p).

Fixpoint common_prefix_len (a b : list string) : nat :=
  match a, b with
  | x :: a', y :: b' => if String.eqb x y then S (common_prefix_len a' b') else O
  | _, _ => O
  end.

Definition parts (p : string) : list string :=
  List.filter (fun x => negb (String.eqb x "")) (Text.split slash p).

(** [os.path.relpath(path, start)] for a non-empty [path]. *)
Definition relpath (cwd path start : string) : string :=
  let start_list := parts (abspath cwd start) in
  let path_list := parts (abspath cwd path) in
  let i := common_prefix_len start_list path_list in
  let rel_list := repeat ".." (length start_list - i) ++ skipn i path_list in
  match rel_list with
  | [] => "."
  | _ => Text.join "/" rel_list
  end.

End Path.

(** ** [urllib.parse] *)

Module Url.

Import Text.

(** [quote(s, safe="/:")]: every byte outside letters, digits, ["_.-~"]
    and the safe characters becomes [%XX]. *)
Definition unreserved (c : ascii) : bool :=
  is_lower_alpha c || is_upper_alpha c || is_digit c ||
  existsb (char_eqb c) (chars "_.-~").

Definition upper_hex (d : N) : ascii :=
  if (d <? 10)%N then ascii_of_N (48 + d) else ascii_of_N (55 + d).

Definition quote_char (safe : list ascii) (c : ascii) : list ascii :=
  if unreserved c || existsb (char_eqb c) safe then [c]
  else let n := N_of_ascii c in ["%"%char; upper_hex (n / 16); upper_hex (n mod 16)].

Definition quote (s safe : string) : string :=
  str (concat (map (quote_char (chars safe)) (chars s))).

Fixpoint take_until_any (stops : list ascii) (l : list ascii) : list ascii :=
  match l with
  | [] => []
  | x :: l' => if existsb (char_eqb x) stops then [] else x :: take_until_any stops l'
  end.

Fixpoint drop_until_any (stops : list ascii) (l : list ascii) : list ascii :=
  match l with
  | [] => []
  | x :: l' => if existsb (char_eqb x) stops then l else drop_until_any stops l'
  end.

(** [_splitparams]: the path up to the first [;] of its last segment. *)
Definition strip_params (path : list ascii) : list ascii :=
  let last := Path.after_last Path.slash path in
  if Path.has_char ";"%char last then
    firstn (length path - length last) path ++ Path.take_until ";"%char last
  else path.

(** [urlparse(url).path] for a URL that starts with [http://] or
    [https://], the only URLs the pipeline parses.  Tabs and line breaks
    are removed first, then scheme, network location, fragment, query and
    parameters are split off in this order. *)
Definition url_path (url : string) : string :=
  let u := List.filter (fun c => negb (existsb (char_eqb c) [ascii_of_N 9; ascii_of_N 10; ascii_of_N 13]))
                  (chars url) in
  let after_scheme := match drop_until_any [":"%char] u with
                      | _ :: r => r
                      | [] => []
                      end in
  let after_netloc :=
    if starts_with [Path.slash; Path.slash] after_scheme
    then drop_until_any (chars "/?#") (skipn 2 after_scheme)
    else after_scheme in
  let no_fragment := Path.take_until "#"%char after_netloc in
  let no_query := Path.take_until "?"%char no_fragment in
  str (strip_params no_query).

End Url.

Definition filename_from_url (url : string) : string :=
  let name := Path.basename (Url.url_path url) in
  if String.eqb name "" then "asset" else name.

(** ** Python floats: [int(h * (target / float(w)))] *)

Module PyFloat.

Definition prec : Z := 53.
Definition emax : Z := 1024.

(** [float(n)] for an integer [n]: nearest binary64, ties to even. *)
Definition of_int (n : Z) : result spec_float :=
  match binary_normalize prec emax n 0 false with
  | S754_infinity _ => Raise OverflowError
  | x => Ok x
  end.

Definition is_zero (x : spec_float) : bool :=
  match x with S754_zero _ => true | _ => false end.

(** [x / y] on floats. *)
Definition truediv (x y : spec_float) : result spec_float :=
  if is_zero y then Raise ZeroDivisionError else Ok (SFdiv prec emax x y).

Definition mul (x y : spec_float) : spec_float := SFmul prec emax x y.

(** [int(x)]: truncation toward zero. *)
Definition to_int (x : spec_float) : result Z :=
  match x with
  | S754_zero _ => Ok 0
  | S754_infinity _ => Raise OverflowError
  | S754_nan => Raise ValueError
  | S754_finite s m e =>
      let a := match e with
               | Z0 => Zpos m
               | Zpos p => Z.shiftl (Zpos m) e
               | Zneg p => Z.shiftr (Zpos m) (Zpos p)
               end in
      Ok (if s then - a else a)
  end.

End PyFloat.

Definition result_bind {A B} (r : result A) (k : A -> result B) : result B :=
  match r with Ok a => k a | Raise e => Raise e end.

(** The size [make_variants] passes to [im.resize] for a requested width
    [target] below the natural width [w]:
    [ratio = target / float(w); size = (target, max(1, int(h * ratio)))]. *)
Definition variant_height (w h target : Z) : result Z :=
  result_bind (PyFloat.of_int w) (fun fw =>
  result_bind (PyFloat.of_int target) (fun ft =>
  result_bind (PyFloat.truediv ft fw) (fun ratio =>
  result_bind (PyFloat.of_int h) (fun fh =>
  result_bind (PyFloat.to_int (PyFloat.mul fh ratio)) (fun i =>
  Ok (Z.max 1 i)))))).

(** ** The state of a run: file system, clock, manifest, imaging calls *)

(** One record of the manifest:
    [{"original": ..., "variants": [...], "ts": ...}]. *)
Record Entry : Type := {
  original : string;
  variants : list string;
  ts : Z;
}.

(** Calls made to the imaging library, in order. *)
Inductive pil_call : Type :=
| PilOpen (path : string)
| PilResizeSave (src : string) (size : Z * Z) (out_path format : string) (quality : option Z)
| PilSave (src out_path format : string) (quality : Z).

Record State : Type := {
  cwd : string;                   (* os.getcwd() *)
  files : gmap string string;     (* regular files: absolute path to bytes *)
  dirs : gset string;             (* directories, by absolute path *)
  clock : Z;                      (* int(time.time()) *)
  manifest : gmap string Entry;   (* manifest["images"], one shared dict *)
  pil_calls : list pil_call;
}.

Definition set_files (f : gmap string string) (st : State) : State :=
  {| cwd := cwd st; files := f; dirs := dirs st; clock := clock st;
     manifest := manifest st; pil_calls := pil_calls st |}.
Definition set_dirs (d : gset string) (st : State) : State :=
  {| cwd := cwd st; files := files st; dirs := d; clock := clock st;
     manifest := manifest st; pil_calls := pil_calls st |}.
Definition set_manifest (m : gmap string Entry) (st : State) : State :=
  {| cwd := cwd st; files := files st; dirs := dirs st; clock := clock st;
     manifest := m; pil_calls := pil_calls st |}.
Definition set_pil_calls (l : list pil_call) (st : State) : State :=
  {| cwd := cwd st; files := files st; dirs := dirs st; clock := clock st;
     manifest := manifest st; pil_calls := l |}.
Definition set_clock (t : Z) (st : State) : State :=
  {| cwd := cwd st; files := files st; dirs := dirs st; clock := t;
     manifest := manifest st; pil_calls := pil_calls st |}.

(** What the run takes from outside: the network, the imaging library
    and the HTML parser. *)
Record Tag : Type := {
  tag_name : string;
  attrs : gmap string string;
}.

Record Env : Type := {
  (* requests.get(url, timeout=30); raise_for_status(); r.content *)
  requests_get : string -> result string;
  (* Image.open on the bytes of a file, then .size *)
  image_size : string -> result (Z * Z);
  (* im.resize(size, LANCZOS) then .save(path, format, [quality]): the bytes written *)
  resize_save : string -> Z * Z -> string -> option Z -> result string;
  (* im.save(path, format, quality): the bytes written *)
  image_save : string -> string -> Z -> result string;
  (* the text read from a file opened with errors="ignore" *)
  decode_ignore : string -> string;
  (* BeautifulSoup(html, "lxml"): the tags of the document, in document order *)
  BeautifulSoup : string -> list Tag;
  (* soup.prettify() *)
  prettify : list Tag -> string;
  (* zipfile.ZipFile(bytes).extractall: the regular files of the archive,
     by sanitised relative name *)
  zip_entries : string -> result (list (string * string));
}.

(** The state-and-exception monad: an exception keeps the state reached. *)
Definition M (A : Type) : Type := State -> result A * State.

Definition ret {A} (a : A) : M A := fun st => (Ok a, st).
Definition raise {A} (e : exn) : M A := fun st => (Raise e, st).
Definition bind {A B} (c : M A) (k : A -> M B) : M B :=
  fun st => match c st with
            | (Ok a, st') => k a st'
            | (Raise e, st') => (Raise e, st')
            end.
Definition lift {A} (r : result A) : M A := fun st => (r, st).
Definition gets {A} (f : State -> A) : M A := fun st => (Ok (f st), st).
Definition modify (f : State -> State) : M unit := fun st => (Ok tt, f st).

(** [try: c except Exception: return h]. *)
Definition try_except {A} (c : M A) (h : A) : M A :=
  fun st => match c st with
            | (Ok a, st') => (Ok a, st')
            | (Raise _, st') => (Ok h, st')
            end.

Declare Scope monad_scope.
Delimit Scope monad_scope with M.
Notation "'let*' x ':=' c 'in' k" := (bind c (fun x => k))
  (at level 10, x pattern, c at level 100, k at level 200) : monad_scope.
Local Open Scope monad_scope.

(** [for x in l: body x], the results collected. *)
Fixpoint mapM {A B} (f : A -> M B) (l : list A) : M (list B) :=
  match l with
  | [] => ret []
  | x :: l' => let* y := f x in let* ys := mapM f l' in ret (y :: ys)
  end.

(** *** File system *)

Definition fs_key (st : State) (p : string) : string := Path.abspath (cwd st) p.

Definition is_file (st : State) (p : string) : bool :=
  negb (String.eqb p "") && bool_decide (is_Some (files st !! fs_key st p)).

Definition is_dir (st : State) (p : string) : bool :=
  negb (String.eqb p "") && bool_decide (fs_key st p ∈ dirs st).

(** [os.path.exists(p)]. *)
Definition path_exists (st : State) (p : string) : bool := is_file st p || is_dir st p.

(** [open(p, "rb").read()]. *)
Definition read_file (p : string) : M string := fun st =>
  if is_dir st p then (Raise IsADirectoryError, st)
  else if String.eqb p "" then (Raise FileNotFoundError, st)
  else match files st !! fs_key st p with
       | Some data => (Ok data, st)
       | None => (Raise FileNotFoundError, st)
       end.

(** [open(p, "wb").write(data)]. *)
Definition write_file (p data : string) : M unit := fun st =>
  if is_dir st p then (Raise IsADirectoryError, st)
  else if String.eqb p "" then (Raise FileNotFoundError, st)
  else if bool_decide (Path.dirname (fs_key st p) ∈ dirs st)
       then (Ok tt, set_files (<[fs_key st p := data]> (files st)) st)
       else (Raise FileNotFoundError, st).

(** A directory and the directories above it. *)
Fixpoint ancestors (fuel : nat) (p : string) : list string :=
  match fuel with
  | O => [p]
  | S fuel' =>
      let d := Path.dirname p in
      if String.eqb d p || String.eqb d "" then [p] else p :: ancestors fuel' d
  end.

(** [ensure_dir(p)], that is [os.makedirs(p, exist_ok=True)]. *)
Definition ensure_dir (p : string) : M unit := fun st =>
  if String.eqb p "" then (Raise FileNotFoundError, st)
  else
    let up := ancestors (String.length (fs_key st p)) (fs_key st p) in
    if existsb (fun d => bool_decide (is_Some (files st !! d))) up
    then (Raise FileExistsError, st)
    else (Ok tt, set_dirs (list_to_set up ∪ dirs st) st).

(** [shutil.copy2(src, dst)] between regular files. *)
Definition copy2 (src dst : string) : M unit :=
  let* data := read_file src in write_file dst data.

Definition log_pil (c : pil_call) : M unit :=
  modify (fun st => set_pil_calls (pil_calls st ++ [c]) st).

(** ** Configuration ([CONFIG_DEFAULT]) and format mapping *)

Record Config : Type := {
  output_dir : string;
  image_dir : string;
  image_variants : list Z;
  image_format : string;
  quality : Z;
  download_images : bool;
  format_html : bool;
  format_css_js : bool;
}.

Definition CONFIG_DEFAULT : Config := {|
  output_dir := "dist";
  image_dir := "images";
  image_variants := [480; 800; 1200; 1600; 2000];
  image_format := "webp";
  quality := 82;
  download_images := true;
  format_html := true;
  format_css_js := true;
|}.

Definition upper_char (c : ascii) : ascii :=
  if Text.is_lower_alpha c then ascii_of_N (N_of_ascii c - 32) else c.
Definition upper (s : string) : string := Text.str (map upper_char (Text.chars s)).

Definition PIL_FORMAT : list (string * string) :=
  [("jpg", "JPEG"); ("jpeg", "JPEG"); ("png", "PNG"); ("webp", "WEBP")].

Fixpoint assoc (k : string) (l : list (string * string)) : option string :=
  match l with
  | [] => None
  | (k', v) :: l' => if String.eqb k k' then Some v else assoc k l'
  end.

Definition pil_format_for (ext : string) : string :=
  match assoc (Text.lower ext) PIL_FORMAT with
  | Some f => f
  | None => upper ext
  end.

(** ** Content store and variant generator *)

(** [variants.sort(key=lambda t: t[0])]: a stable sort on the width. *)
Fixpoint insert_by_width (x : Z * string) (l : list (Z * string)) : list (Z * string) :=
  match l with
  | [] => [x]
  | y :: l' => if fst x <=? fst y then x :: l else y :: insert_by_width x l'
  end.

Definition sort_by_width (l : list (Z * string)) : list (Z * string) :=
  fold_right insert_by_width [] l.

Section Pipeline.

Variable env : Env.

(** [f"{h}-{base}"]. *)
Definition stored_name (h base : string) : string := h +:+ "-" +:+ base.

(** The last lines of [download_remote_image] and [import_local_image]:
    hash the bytes, name the destination, write it unless a file of that
    name exists, return the path and the hash. *)
Definition store_bytes (dest_dir data base : string) : M (string * string) :=
  let h := hash12 data in
  let out := Path.join dest_dir (stored_name h base) in
  let* present := gets (fun st => path_exists st out) in
  let* _ := (if present then ret tt else write_file out data) in
  ret (out, h).

Definition download_remote_image (url dest_dir : string) : M (string * string) :=
  let* data := lift (requests_get env url) in
  let* _ := ensure_dir dest_dir in
  store_bytes dest_dir data (slugify_name (filename_from_url url)).

Definition import_local_image (local_path dest_dir : string) : M (string * string) :=
  let* _ := ensure_dir dest_dir in
  let* data := read_file local_path in
  store_bytes dest_dir data (slugify_name (Path.basename local_path)).

(** [f"{stem}-{width}w.{ext}"]. *)
Definition variant_name (stem : string) (width : Z) (ext : string) : string :=
  stem +:+ "-" +:+ Text.str_of_Z width +:+ "w." +:+ ext.

(** [ext.lower() in ("webp", "jpeg", "jpg", "png")]. *)
Definition takes_quality (ext : string) : bool :=
  existsb (String.eqb (Text.lower ext)) ["webp"; "jpeg"; "jpg"; "png"].

(** The body of [for target in widths], for one [target]. *)
Definition make_one_variant (img_path data out_dir stem ext : string) (w h qual target : Z)
  : M (list (Z * string)) :=
  if w <=? target then ret []
  else
    let* height := lift (variant_height w h target) in
    let size := (target, height) in
    let out_path := Path.join out_dir (variant_name stem target ext) in
    let save_quality := if takes_quality ext then Some qual else None in
    let* _ := log_pil (PilResizeSave img_path size out_path (pil_format_for ext) save_quality) in
    let* bytes := lift (resize_save env data size (pil_format_for ext) save_quality) in
    let* _ := write_file out_path bytes in
    ret [(target, out_path)].

(** [stem] and [ext] of [make_variants]. *)
Definition variant_stem (img_path : string) : string :=
  slugify_name (fst (Path.splitext (Path.basename img_path))).

Definition variant_ext (fmt img_path : string) : string :=
  if String.eqb fmt "keep"
  then Text.lstrip_char "."%char (snd (Path.splitext img_path))
  else fmt.

Definition make_variants (img_path out_dir : string) (widths : list Z) (fmt : string) (qual : Z)
  : M (list (Z * string)) :=
  let* _ := ensure_dir out_dir in
  let* _ := log_pil (PilOpen img_path) in
  let* data := read_file img_path in
  let* wh := lift (image_size env data) in
  let '(w, h) := wh in
  let stem := variant_stem img_path in
  let ext := variant_ext fmt img_path in
  let* made := mapM (make_one_variant img_path data out_dir stem ext w h qual) widths in
  let largest_path := Path.join out_dir (variant_name stem w ext) in
  let* _ := (if String.eqb fmt "keep" then copy2 img_path largest_path
             else
               let* _ := log_pil (PilSave img_path largest_path (pil_format_for ext) qual) in
               let* bytes := lift (image_save env data (pil_format_for ext) qual) in
               write_file largest_path bytes) in
  ret (sort_by_width (concat made ++ [(w, largest_path)])).

(** ** Manifest cache *)

(** The test [entry and all(os.path.exists(p) for p in entry.get("variants", []))],
    with the recorded paths when it holds.  A record of the manifest is a
    dict with three keys, so [entry] is true as soon as it is there. *)
Definition cache_hit (st : State) (content_hash : string) : option (list string) :=
  match manifest st !! content_hash with
  | Some entry => if forallb (path_exists st) (variants entry) then Some (variants entry) else None
  | None => None
  end.

Definition ensure_variants_with_cache
    (downloaded_path content_hash var_dir : string) (widths : list Z) (fmt : string) (qual : Z)
  : M (list string) :=
  let* hit := gets (fun st => cache_hit st content_hash) in
  match hit with
  | Some recorded => ret recorded
  | None =>
      let* pairs := make_variants downloaded_path var_dir widths fmt qual in
      let variant_paths := map snd pairs in
      let* _ := modify (fun st =>
        set_manifest (<[content_hash := {| original := downloaded_path;
                                           variants := variant_paths;
                                           ts := clock st |}]> (manifest st)) st) in
      ret variant_paths
  end.

End Pipeline.

(** ** Widths read back from file names *)

Module Width.

Import Text.

Fixpoint take_digits (l : list ascii) : list ascii :=
  match l with
  | c :: l' => if is_digit c then c :: take_digits l' else []
  | [] => []
  end.

(** [-(\d+)w\.] at the head of [l]: the digits and what follows the dot.
    [\d+] takes the whole run of digits, since ["w"] is no digit. *)
Definition match_head (l : list ascii) : option (list ascii * list ascii) :=
  match l with
  | c :: l1 =>
      if char_eqb "-"%char c then
        let ds := take_digits l1 in
        match ds, skipn (length ds) l1 with
        | _ :: _, c1 :: c2 :: rest =>
            if char_eqb "w"%char c1 && char_eqb "."%char c2 then Some (ds, rest) else None
        | _, _ => None
        end
      else None
  | [] => None
  end.

(** [[^.]+$]: a non-empty suffix without a dot, up to the end of the string. *)
Definition dotless_suffix (l : list ascii) : bool :=
  match l with
  | [] => false
  | _ => forallb (fun c => negb (char_eqb "."%char c)) l
  end.

(** [re.search(r"-(\d+)w\.", name)], group 1 as an integer. *)
Fixpoint search (l : list ascii) : option Z :=
  match match_head l with
  | Some (ds, _) => Some (Z_of_digits ds)
  | None => match l with
            | [] => None
            | _ :: l' => search l'
            end
  end.

(** [re.search(r"-(\d+)w\.[^.]+$", name)], group 1 as an integer. *)
Fixpoint search_anchored (l : list ascii) : option Z :=
  match match_head l with
  | Some (ds, rest) =>
      if dotless_suffix rest then Some (Z_of_digits ds)
      else match l with
           | [] => None
           | _ :: l' => search_anchored l'
           end
  | None => match l with
            | [] => None
            | _ :: l' => search_anchored l'
            end
  end.

End Width.

(** [width_of] of the CSS rewriter. *)
Definition width_of (path : string) : Z :=
  match Width.search (Text.chars (Path.basename path)) with
  | Some n => n
  | None => 0
  end.

(** [max(variant_paths, key=width_of)]: the first path of greatest key. *)
Fixpoint max_from (best : string) (l : list string) : string :=
  match l with
  | [] => best
  | p :: l' => if width_of best <? width_of p then max_from p l' else max_from best l'
  end.

Definition max_by_width (l : list string) : option string :=
  match l with
  | [] => None
  | p :: l' => Some (max_from p l')
  end.

(** The pairs the HTML rewriter rebuilds from the variant paths. *)
Definition pairs_of_paths (variant_paths : list string) : list (Z * string) :=
  sort_by_width
    (omap (fun p => match Width.search_anchored (Text.chars (Path.basename p)) with
                    | Some n => Some (n, p)
                    | None => None
                    end) variant_paths).

(** ** [CSS_URL_RE]

    The pattern reads: the letters [url], an opening parenthesis, an
    optional single or double quote (group 1), one or more characters
    that are neither a closing parenthesis nor white space (group 2),
    group 1 again, a closing parenthesis. *)

Record Match : Type := {
  group0 : string;   (* the whole token *)
  group1 : string;   (* the opening quote, or empty *)
  group2 : string;   (* the URL *)
}.

Module CssRe.

Import Text.

Definition dquote : ascii := ascii_of_N 34.

Definition url_char (c : ascii) : bool :=
  negb (char_eqb ")"%char c) && negb (is_space c).

Fixpoint take_url_chars (l : list ascii) : list ascii :=
  match l with
  | c :: l' => if url_char c then c :: take_url_chars l' else []
  | [] => []
  end.

(** Group 2 is greedy and gives characters back one at a time until the
    closing quote and parenthesis follow: [k] characters are tried, then
    [k - 1], down to one. *)
Fixpoint backtrack (q l : list ascii) (k : nat) : option (list ascii) :=
  match k with
  | O => None
  | S k' =>
      if starts_with (q ++ [")"%char]) (skipn k l) then Some (firstn k l)
      else backtrack q l k'
  end.

Definition match_with_quote (q l : list ascii) : option Match :=
  match backtrack q l (length (take_url_chars l)) with
  | Some g2 =>
      Some {| group0 := str (chars "url(" ++ q ++ g2 ++ q ++ [")"%char]);
              group1 := str q; group2 := str g2 |}
  | None => None
  end.

(** A match that starts at the head of [l]: the quoted form first, then
    the form with an empty group 1. *)
Definition match_here (l : list ascii) : option Match :=
  if starts_with (chars "url(") l then
    let r := skipn 4 l in
    match r with
    | c :: r' =>
        if char_eqb dquote c || char_eqb "'"%char c then
          match match_with_quote [c] r' with
          | Some m => Some m
          | None => match_with_quote [] r
          end
        else match_with_quote [] r
    | [] => None
    end
  else None.

(** The text cut at the non-overlapping matches, from the left. *)
Fixpoint scan (fuel : nat) (l : list ascii) : list (ascii + Match) :=
  match fuel, l with
  | S fuel', c :: l' =>
      match match_here l with
      | Some m => inr m :: scan fuel' (skipn (String.length (group0 m)) l)
      | None => inl c :: scan fuel' l'
      end
  | _, _ => []
  end.

Definition tokens (css : string) : list (ascii + Match) :=
  scan (String.length css) (chars css).

End CssRe.

Section Rewriters.

Variable env : Env.
Variable cfg : Config.
Variable dist_root : string.

Definition img_dir : string := Path.join dist_root (image_dir cfg).
Definition orig_dir : string := Path.join img_dir "original".
Definition var_dir : string := Path.join img_dir "responsive".

Definition is_remote (src_abs : string) : bool :=
  Text.startswith src_abs "http://" || Text.startswith src_abs "https://".

Definition scheme_fix (src_abs : string) : string :=
  if Text.startswith src_abs "//" then "https:" +:+ src_abs else src_abs.

(** The local file a reference stands for: next to the referring
    document first, then under the root of the output tree. *)
Definition local_candidate (doc_dir src_abs : string) : M (option string) :=
  let first := Path.normpath (Path.join doc_dir src_abs) in
  let* found := gets (fun st => path_exists st first) in
  if found then ret (Some first)
  else
    let second := Path.join dist_root (Text.lstrip_char "/"%char src_abs) in
    let* found := gets (fun st => path_exists st second) in
    ret (if found then Some second else None).

(** The statements that open both [repl] and [process_one_image_url]:
    a remote reference is downloaded, a local one is looked up and
    imported; [None] when no local file is found. *)
Definition resolve_source (doc_dir src_abs : string) : M (option (string * string)) :=
  if is_remote src_abs then
    let* r := download_remote_image env src_abs orig_dir in ret (Some r)
  else
    let* c := local_candidate doc_dir src_abs in
    match c with
    | None => ret None
    | Some p => let* r := import_local_image p orig_dir in ret (Some r)
    end.

Definition cached_variants (downloaded h : string) : M (list string) :=
  ensure_variants_with_cache env downloaded h var_dir
    (image_variants cfg) (image_format cfg) (quality cfg).

(** *** CSS *)

(** The body of [repl] inside [try]; [None] stands for [return m.group(0)]. *)
Definition css_resolve (css_dir : string) (m : Match) : M (option string) :=
  let* ingested := resolve_source css_dir (scheme_fix (group2 m)) in
  match ingested with
  | None => ret None
  | Some (downloaded, h) =>
      let* variant_paths := cached_variants downloaded h in
      match max_by_width variant_paths with
      | None => ret None
      | Some largest =>
          let* wd := gets cwd in
          let relv := Path.relpath wd largest css_dir in
          ret (Some ("url(" +:+ Url.quote relv "/:" +:+ ")"))
      end
  end.

Definition css_repl (css_dir : string) (m : Match) : M string :=
  let* r := try_except (css_resolve css_dir m) None in
  ret (match r with Some s => s | None => group0 m end).

Definition css_piece (css_dir : string) (t : ascii + Match) : M string :=
  match t with
  | inl c => ret (String c "")
  | inr m => css_repl css_dir m
  end.

Definition css_sub (css_dir css : string) : M string :=
  let* pieces := mapM (css_piece css_dir) (CssRe.tokens css) in
  ret (Text.join "" pieces).

Definition rewrite_css_urls (file_path : string) : M unit :=
  let* data := read_file file_path in
  let css := decode_ignore env data in
  let* new_css := css_sub (Path.dirname file_path) css in
  if String.eqb new_css css then ret tt else write_file file_path new_css.

(** *** HTML *)

Definition process_one_image_url (html_dir src_abs : string) : M (option (list (Z * string))) :=
  let* ingested := resolve_source html_dir (scheme_fix src_abs) in
  match ingested with
  | None => ret None
  | Some (downloaded, h) =>
      let* variant_paths := cached_variants downloaded h in
      match variant_paths with
      | [] => ret None
      | _ => ret (Some (pairs_of_paths variant_paths))
      end
  end.

Definition DEFAULT_SIZES : string := "(max-width: 1200px) 100vw, 1200px".

(** [tag.get(name)] as a truth value: present and not empty. *)
Definition truthy_attr (tag : Tag) (name : string) : option string :=
  match attrs tag !! name with
  | Some v => if String.eqb v "" then None else Some v
  | None => None
  end.

Definition set_attr (name value : string) (tag : Tag) : Tag :=
  {| tag_name := tag_name tag; attrs := <[name := value]> (attrs tag) |}.

Definition rel_quoted (wd html_dir p : string) : string :=
  Url.quote (Path.relpath wd p html_dir) "/:".

Definition srcset_part (wd html_dir : string) (wp : Z * string) : string :=
  rel_quoted wd html_dir (snd wp) +:+ " " +:+ Text.str_of_Z (fst wp) +:+ "w".

Definition srcset_of (wd html_dir : string) (pairs : list (Z * string)) : string :=
  Text.join ", " (map (srcset_part wd html_dir) pairs).

Definition mid_index (n : nat) : nat := Nat.min (n / 2) (n - 1).

(** The body of [for img in soup.find_all("img")]: the tag afterwards,
    and whether it set [changed]. *)
Definition rewrite_img (html_dir : string) (img : Tag) : M (Tag * bool) :=
  if negb (download_images cfg) then ret (img, false)
  else match truthy_attr img "src" with
  | None => ret (img, false)
  | Some src =>
      let* r := process_one_image_url html_dir src in
      match r with
      | None | Some [] => ret (img, false)
      | Some ((_ :: _) as pairs) =>
          let* wd := gets cwd in
          let mid := snd (nth (mid_index (length pairs)) pairs (0, "")) in
          let img1 := set_attr "src" (rel_quoted wd html_dir mid) img in
          let img2 := set_attr "srcset" (srcset_of wd html_dir pairs) img1 in
          let img3 := match truthy_attr img2 "sizes" with
                      | Some _ => img2
                      | None => set_attr "sizes" DEFAULT_SIZES img2
                      end in
          ret (img3, true)
      end
  end.

(** [first.split()[0]] for a [first] that starts with no white space. *)
Fixpoint take_word (l : list ascii) : list ascii :=
  match l with
  | c :: l' => if Text.is_space c then [] else c :: take_word l'
  | [] => []
  end.

Definition ws_split_first (s : string) : string := Text.str (take_word (Text.chars s)).

(** The body of [for source in soup.find_all("source")]. *)
Definition rewrite_source (html_dir : string) (source : Tag) : M (Tag * bool) :=
  if negb (download_images cfg) then ret (source, false)
  else match truthy_attr source "srcset" with
  | None => ret (source, false)
  | Some srcset =>
      let first := Text.strip (hd "" (Text.split ","%char srcset)) in
      if String.eqb first "" then ret (source, false)
      else
        let first_url := ws_split_first first in
        let* r := process_one_image_url html_dir first_url in
        match r with
        | None | Some [] => ret (source, false)
        | Some pairs =>
            let* wd := gets cwd in
            ret (set_attr "srcset" (srcset_of wd html_dir pairs) source, true)
        end
  end.

Definition on_tags (name : string) (body : Tag -> M (Tag * bool)) (soup : list Tag)
  : M (list (Tag * bool)) :=
  mapM (fun t => if String.eqb (tag_name t) name then body t else ret (t, false)) soup.

(** The two loops of [rewrite_img_tags]: the soup afterwards, and [changed]. *)
Definition rewrite_soup (html_dir : string) (soup : list Tag) : M (list Tag * bool) :=
  let* imgs := on_tags "img" (rewrite_img html_dir) soup in
  let* sources := on_tags "source" (rewrite_source html_dir) (map fst imgs) in
  ret (map fst sources, existsb snd imgs || existsb snd sources).

Definition rewrite_img_tags (file_path : string) : M unit :=
  let* data := read_file file_path in
  let soup := BeautifulSoup env (decode_ignore env data) in
  let* r := rewrite_soup (Path.dirname file_path) soup in
  if snd r then write_file file_path (prettify env (fst r)) else ret tt.

End Rewriters.

(** ** Vocabulary of the statements *)

(** The natural size of the image stored at [img_path]. *)
Definition natural_size (env : Env) (st : State) (img_path : string) : option (Z * Z) :=
  match files st !! fs_key st img_path with
  | Some data => match image_size env data with
                 | Ok wh => Some wh
                 | Raise _ => None
                 end
  | None => None
  end.

Definition widths_of (l : list (Z * string)) : list Z := map fst l.


(** Where an image comes from, and the ingestion of either kind. *)
Inductive Source : Type :=
| Remote (url : string)
| Local (path : string).

Definition ingest (env : Env) (s : Source) (dest_dir : string) : M (string * string) :=
  match s with
  | Remote url => download_remote_image env url dest_dir
  | Local path => import_local_image path dest_dir
  end.

(** The raw bytes behind a source, when it can be read. *)
Definition source_bytes (env : Env) (st : State) (s : Source) : option string :=
  match s with
  | Remote url => match requests_get env url with
                  | Ok data => Some data
                  | Raise _ => None
                  end
  | Local path => files st !! fs_key st path
  end.

(** The file name a source contributes to the stored name. *)
Definition source_name (s : Source) : string :=
  match s with
  | Remote url => filename_from_url url
  | Local path => Path.basename path
  end.

(** The height in the words of the specification:
    [round(height * width_target / natural_width)], minimum 1, with the
    quotient rounded to the nearest integer and ties to the even one. *)
Definition round_half_even (n d : Z) : Z :=
  let q := n / d in
  let r := n mod d in
  if 2 * r <? d then q
  else if d <? 2 * r then q + 1
  else if Z.even q then q else q + 1.

Definition spec_variant_height (w h target : Z) : Z :=
  Z.max 1 (round_half_even (h * target) w).

(** The file-name pattern of the HTML rewriter, spelled out: a hyphen, one
    or more digits, [w.], then a non-empty suffix without a dot that
    reaches the end of the name; [n] is the number the digits denote. *)
Definition width_pattern (name : list ascii) (n : Z) : Prop :=
  exists pre ds suf,
    name = pre ++ "-"%char :: ds ++ "w"%char :: "."%char :: suf
    /\ ds <> [] /\ Forall (fun c => Text.is_digit c = true) ds
    /\ suf <> [] /\ Forall (fun c => c <> "."%char) suf
    /\ n = Text.Z_of_digits ds.

(** The bytes of the regular file at [p], when there is one. *)
Definition file_content (st : State) (p : string) : option string :=
  match read_file p st with
  | (Ok data, _) => Some data
  | (Raise _, _) => None
  end.

(** The directories [ensure_dir(p)] makes sure of. *)
Definition dirs_above (st : State) (p : string) : gset string :=
  list_to_set (ancestors (String.length (fs_key st p)) (fs_key st p)).

(** The pairs of [make_variants] before they are sorted: one per requested
    width below the natural width [w], then the one of width [w]. *)
Definition ladder (img_path out_dir : string) (widths : list Z) (fmt : string) (w : Z)
  : list (Z * string) :=
  map (fun t => (t, Path.join out_dir
                      (variant_name (variant_stem img_path) t (variant_ext fmt img_path))))
      (List.filter (fun t => t <? w) widths)
  ++ [(w, Path.join out_dir
            (variant_name (variant_stem img_path) w (variant_ext fmt img_path)))].

(** The imaging calls made so far stay in the log while [c] runs. *)
Definition pil_grows {A} (c : M A) : Prop :=
  forall st r st', c st = (r, st') -> exists more, pil_calls st' = pil_calls st ++ more.

(** The working directory and the files present stay while [c] runs. *)
Definition fs_grows {A} (c : M A) : Prop :=
  forall st r st', c st = (r, st') ->
    cwd st' = cwd st /\ forall k, is_Some (files st !! k) -> is_Some (files st' !! k).

(** The characters of the width pattern. *)
Definition dash : ascii := "-"%char.
Definition dotc : ascii := "."%char.
Definition wc : ascii := "w"%char.

(** ** [json]: values, [json.loads] and [json.dumps(..., indent=2)] *)

Unset Elimination Schemes.
Inductive json : Type :=
| JNull
| JBool (b : bool)
| JInt (n : Z)
| JFloat (lexeme : string)
| JStr (s : string)
| JArr (items : list json)
| JObj (members : list (string * json)).
Set Elimination Schemes.

Module Json.

Import Text.

Definition dquote : ascii := ascii_of_N 34.
Definition backslash : ascii := ascii_of_N 92.

Definition is_ws (c : ascii) : bool :=
  existsb (fun n => (N_of_ascii c =? n)%N) [32; 9; 10; 13]%N.

Fixpoint skip_ws (l : list ascii) : list ascii :=
  match l with
  | c :: l' => if is_ws c then skip_ws l' else l
  | [] => []
  end.

Definition hex_value (c : ascii) : option Z :=
  if is_digit c then Some (code c - 48)
  else if in_range 97 102 c then Some (code c - 87)
  else if in_range 65 70 c then Some (code c - 55)
  else None.

Definition hex4 (l : list ascii) : option (Z * list ascii) :=
  match l with
  | a :: b :: c :: d :: rest =>
      match hex_value a, hex_value b, hex_value c, hex_value d with
      | Some x, Some y, Some z, Some w => Some (((x * 16 + y) * 16 + z) * 16 + w, rest)
      | _, _, _, _ => None
      end
  | _ => None
  end.

Definition byte (n : Z) : ascii := ascii_of_N (Z.to_N n).

(** The UTF-8 code units of a code point. *)
Definition utf8 (cp : Z) : list ascii :=
  if cp <? 128 then [byte cp]
  else if cp <? 2048 then [byte (192 + cp / 64); byte (128 + cp mod 64)]
  else if cp <? 65536 then
    [byte (224 + cp / 4096); byte (128 + (cp / 64) mod 64); byte (128 + cp mod 64)]
  else
    [byte (240 + cp / 262144); byte (128 + (cp / 4096) mod 64);
     byte (128 + (cp / 64) mod 64); byte (128 + cp mod 64)].

(** A [\uXXXX] escape, with the low half of a surrogate pair when it follows. *)
Definition unicode_escape (l : list ascii) : option (list ascii * list ascii) :=
  match hex4 l with
  | Some (hi, rest) =>
      if (55296 <=? hi) && (hi <=? 56319) then
        match rest with
        | b :: u :: rest' =>
            if char_eqb backslash b && char_eqb "u"%char u then
              match hex4 rest' with
              | Some (lo, rest'') =>
                  if (56320 <=? lo) && (lo <=? 57343)
                  then Some (utf8 (65536 + (hi - 55296) * 1024 + (lo - 56320)), rest'')
                  else Some (utf8 hi, rest)
              | None => Some (utf8 hi, rest)
              end
            else Some (utf8 hi, rest)
        | _ => Some (utf8 hi, rest)
        end
      else Some (utf8 hi, rest)
  | None => None
  end.

Definition simple_escape (c : ascii) : option ascii :=
  if char_eqb dquote c then Some dquote
  else if char_eqb backslash c then Some backslash
  else if char_eqb "/"%char c then Some "/"%char
  else if char_eqb "b"%char c then Some (byte 8)
  else if char_eqb "f"%char c then Some (byte 12)
  else if char_eqb "n"%char c then Some (byte 10)
  else if char_eqb "r"%char c then Some (byte 13)
  else if char_eqb "t"%char c then Some (byte 9)
  else None.

(** [scanstring], after the opening quote, in strict mode. *)
Fixpoint scan_string (fuel : nat) (acc l : list ascii) : result (string * list ascii) :=
  match fuel with
  | O => Raise RecursionError
  | S fuel' =>
      match l with
      | [] => Raise JSONDecodeError
      | c :: l' =>
          if char_eqb dquote c then Ok (str acc, l')
          else if char_eqb backslash c then
            match l' with
            | [] => Raise JSONDecodeError
            | e :: l'' =>
                if char_eqb "u"%char e then
                  match unicode_escape l'' with
                  | Some (units, rest) => scan_string fuel' (acc ++ units) rest
                  | None => Raise JSONDecodeError
                  end
                else match simple_escape e with
                     | Some x => scan_string fuel' (acc ++ [x]) l''
                     | None => Raise JSONDecodeError
                     end
            end
          else if code c <? 32 then Raise JSONDecodeError
          else scan_string fuel' (acc ++ [c]) l'
      end
  end.

(** [NUMBER_RE]: an integer part, an optional fraction, an optional exponent. *)
Definition int_part (l : list ascii) : option (list ascii * list ascii) :=
  let '(sign, l1) := match l with
                     | c :: l' => if char_eqb "-"%char c then ([c], l') else ([], l)
                     | [] => ([], l)
                     end in
  match l1 with
  | c :: l2 =>
      if char_eqb "0"%char c then Some (sign ++ [c], l2)
      else if is_digit c then
        let ds := Width.take_digits l1 in Some (sign ++ ds, skipn (length ds) l1)
      else None
  | [] => None
  end.

Definition frac_part (l : list ascii) : list ascii * list ascii :=
  match l with
  | c :: l1 =>
      if char_eqb "."%char c then
        match Width.take_digits l1 with
        | [] => ([], l)
        | ds => (c :: ds, skipn (length ds) l1)
        end
      else ([], l)
  | [] => ([], l)
  end.

Definition exp_part (l : list ascii) : list ascii * list ascii :=
  match l with
  | c :: l1 =>
      if char_eqb "e"%char c || char_eqb "E"%char c then
        let '(sign, l2) := match l1 with
                           | s :: l' => if char_eqb "-"%char s || char_eqb "+"%char s
                                        then ([s], l') else ([], l1)
                           | [] => ([], l1)
                           end in
        match Width.take_digits l2 with
        | [] => ([], l)
        | ds => (c :: sign ++ ds, skipn (length ds) l2)
        end
      else ([], l)
  | [] => ([], l)
  end.

Definition Z_of_int_lexeme (l : list ascii) : Z :=
  match l with
  | c :: ds => if char_eqb "-"%char c then - Z_of_digits ds else Z_of_digits l
  | [] => 0
  end.

Definition scan_number (l : list ascii) : option (json * list ascii) :=
  match int_part l with
  | Some (i, l1) =>
      let '(f, l2) := frac_part l1 in
      let '(e, l3) := exp_part l2 in
      match f, e with
      | [], [] => Some (JInt (Z_of_int_lexeme i), l3)
      | _, _ => Some (JFloat (str (i ++ f ++ e)), l3)
      end
  | None => None
  end.

Definition literal (word : string) (v : json) (l : list ascii) : option (json * list ascii) :=
  if starts_with (chars word) l then Some (v, skipn (String.length word) l) else None.

Definition first_of {A} (l : list (option A)) : option A :=
  fold_right (fun o rest => match o with Some a => Some a | None => rest end) None l.

(** [scan_once], [JSONObject] and [JSONArray]. *)
Fixpoint scan_once (fuel : nat) (l : list ascii) : result (json * list ascii) :=
  match fuel with
  | O => Raise RecursionError
  | S fuel' =>
      match l with
      | [] => Raise JSONDecodeError
      | c :: l' =>
          if char_eqb dquote c then
            result_bind (scan_string fuel' [] l') (fun '(s, rest) => Ok (JStr s, rest))
          else if char_eqb "{"%char c then
            match skip_ws l' with
            | c1 :: l1 =>
                if char_eqb "}"%char c1 then Ok (JObj [], l1)
                else if char_eqb dquote c1 then
                  result_bind (scan_members fuel' l1) (fun '(kv, rest) => Ok (JObj kv, rest))
                else Raise JSONDecodeError
            | [] => Raise JSONDecodeError
            end
          else if char_eqb "["%char c then
            match skip_ws l' with
            | c1 :: l1 =>
                if char_eqb "]"%char c1 then Ok (JArr [], l1)
                else result_bind (scan_items fuel' (c1 :: l1)) (fun '(xs, rest) => Ok (JArr xs, rest))
            | [] => Raise JSONDecodeError
            end
          else
            match first_of [literal "null" JNull l; literal "true" (JBool true) l;
                            literal "false" (JBool false) l; scan_number l;
                            literal "NaN" (JFloat "NaN") l;
                            literal "Infinity" (JFloat "Infinity") l;
                            literal "-Infinity" (JFloat "-Infinity") l] with
            | Some r => Ok r
            | None => Raise JSONDecodeError
            end
      end
  end

(** The members of an object, from just after the quote that opens a key. *)
with scan_members (fuel : nat) (l : list ascii) : result (list (string * json) * list ascii) :=
  match fuel with
  | O => Raise RecursionError
  | S fuel' =>
      result_bind (scan_string fuel' [] l) (fun '(key, l1) =>
      match skip_ws l1 with
      | c :: l2 =>
          if char_eqb ":"%char c then
            result_bind (scan_once fuel' (skip_ws l2)) (fun '(value, l3) =>
            match skip_ws l3 with
            | c1 :: l4 =>
                if char_eqb "}"%char c1 then Ok ([(key, value)], l4)
                else if char_eqb ","%char c1 then
                  match skip_ws l4 with
                  | c2 :: l5 =>
                      if char_eqb dquote c2 then
                        result_bind (scan_members fuel' l5) (fun '(kv, rest) =>
                        Ok ((key, value) :: kv, rest))
                      else Raise JSONDecodeError
                  | [] => Raise JSONDecodeError
                  end
                else Raise JSONDecodeError
            | [] => Raise JSONDecodeError
            end)
          else Raise JSONDecodeError
      | [] => Raise JSONDecodeError
      end)
  end

(** The items of an array, from the first character of an item. *)
with scan_items (fuel : nat) (l : list ascii) : result (list json * list ascii) :=
  match fuel with
  | O => Raise RecursionError
  | S fuel' =>
      result_bind (scan_once fuel' l) (fun '(value, l1) =>
      match skip_ws l1 with
      | c :: l2 =>
          if char_eqb "]"%char c then Ok ([value], l2)
          else if char_eqb ","%char c then
            result_bind (scan_items fuel' (skip_ws l2)) (fun '(xs, rest) => Ok (value :: xs, rest))
          else Raise JSONDecodeError
      | [] => Raise JSONDecodeError
      end)
  end.

(** [json.loads(text)]. *)
Definition loads (text : string) : result json :=
  let l := chars text in
  result_bind (scan_once (2 * length l + 2) (skip_ws l)) (fun '(v, rest) =>
  match skip_ws rest with
  | [] => Ok v
  | _ => Raise JSONDecodeError
  end).

(** [dict(pairs)[key]]: the last member of that name. *)
Fixpoint member (key : string) (kv : list (string * json)) : option json :=
  match kv with
  | [] => None
  | (k, v) :: kv' =>
      match member key kv' with
      | Some v' => Some v'
      | None => if String.eqb k key then Some v else None
      end
  end.

(** *** Printing *)

Definition lower_hex (d : Z) : ascii := Sha1.hex_char d.

Definition escape_ascii (c : ascii) : list ascii :=
  if char_eqb dquote c then [backslash; dquote]
  else if char_eqb backslash c then [backslash; backslash]
  else if (code c =? 10) then [backslash; "n"%char]
  else if (code c =? 13) then [backslash; "r"%char]
  else if (code c =? 9) then [backslash; "t"%char]
  else if (code c =? 8) then [backslash; "b"%char]
  else if (code c =? 12) then [backslash; "f"%char]
  else if code c <? 32 then
    [backslash; "u"%char; "0"%char; "0"%char; lower_hex (code c / 16); lower_hex (code c mod 16)]
  else [c].

Definition u_escape (cp : Z) : list ascii :=
  [backslash; "u"%char; lower_hex (cp / 4096); lower_hex ((cp / 256) mod 16);
   lower_hex ((cp / 16) mod 16); lower_hex (cp mod 16)].

Definition cont (c : ascii) : Z := code c - 128.

(** [ensure_ascii]: a character outside ASCII is written as [\uXXXX]
    (two of them above the basic plane). *)
Fixpoint escape_units (l : list ascii) : list ascii :=
  match l with
  | [] => []
  | c :: l1 =>
      if code c <? 128 then escape_ascii c ++ escape_units l1
      else match l1 with
      | c1 :: l2 =>
          if code c <? 224 then u_escape ((code c - 192) * 64 + cont c1) ++ escape_units l2
          else match l2 with
          | c2 :: l3 =>
              if code c <? 240 then
                u_escape (((code c - 224) * 64 + cont c1) * 64 + cont c2) ++ escape_units l3
              else match l3 with
              | c3 :: l4 =>
                  let v := (((code c - 240) * 64 + cont c1) * 64 + cont c2) * 64 + cont c3 - 65536 in
                  u_escape (55296 + v / 1024) ++ u_escape (56320 + v mod 1024) ++ escape_units l4
              | [] => []
              end
          | [] => []
          end
      | [] => []
      end
  end.

Definition quote_string (s : string) : string :=
  str (dquote :: escape_units (chars s) ++ [dquote]).

Definition indent (n : nat) : string := str (repeat " "%char (2 * n)).

Definition newline : string := String (byte 10) "".

Fixpoint dumps_at (depth : nat) (v : json) : string :=
  match v with
  | JNull => "null"
  | JBool true => "true"
  | JBool false => "false"
  | JInt n => str_of_Z n
  | JFloat lexeme => lexeme
  | JStr s => quote_string s
  | JArr [] => "[]"
  | JArr items =>
      "[" +:+ newline +:+
      Text.join ("," +:+ newline)
        (map (fun x => indent (S depth) +:+ dumps_at (S depth) x) items)
      +:+ newline +:+ indent depth +:+ "]"
  | JObj [] => "{}"
  | JObj members =>
      "{" +:+ newline +:+
      Text.join ("," +:+ newline)
        (map (fun kv => indent (S depth) +:+ quote_string (fst kv) +:+ ": "
                        +:+ dumps_at (S depth) (snd kv)) members)
      +:+ newline +:+ indent depth +:+ "}"
  end.

(** [json.dumps(v, indent=2)]. *)
Definition dumps (v : json) : string := dumps_at 0 v.

(** Validity of a sequence of UTF-8 code units, as the strict decoder
    checks it. *)
Definition is_cont (c : ascii) : bool := in_range 128 191 c.

Fixpoint utf8_valid (l : list ascii) : bool :=
  match l with
  | [] => true
  | c :: l1 =>
      if code c <? 128 then utf8_valid l1
      else match l1 with
      | c1 :: l2 =>
          if in_range 194 223 c then is_cont c1 && utf8_valid l2
          else match l2 with
          | c2 :: l3 =>
              if in_range 224 239 c then
                is_cont c1 && is_cont c2
                && negb ((code c =? 224) && (code c1 <? 160))
                && negb ((code c =? 237) && (159 <? code c1))
                && utf8_valid l3
              else match l3 with
              | c3 :: l4 =>
                  in_range 240 244 c && is_cont c1 && is_cont c2 && is_cont c3
                  && negb ((code c =? 240) && (code c1 <? 144))
                  && negb ((code c =? 244) && (143 <? code c1))
                  && utf8_valid l4
              | [] => false
              end
          | [] => false
          end
      | [] => false
      end
  end.

End Json.

(** ** The manifest on disk *)

Definition manifest_path (dist_root : string) : string :=
  Path.join (Path.join dist_root "images") "manifest.json".

(** [{"images": {}}]. *)
Definition EMPTY_MANIFEST : json := JObj [("images", JObj [])].

(** [json.load(f)] on a file opened with [encoding="utf-8"]: the bytes are
    decoded strictly, then parsed.  (The newline translation of text mode
    does not change the outcome: line breaks are white space between
    tokens and errors inside strings, before and after it.) *)
Definition json_load (data : string) : result json :=
  if Json.utf8_valid (Text.chars data) then Json.loads data
  else Raise UnicodeDecodeError.

Definition load_manifest (dist_root : string) : M json :=
  let p := manifest_path dist_root in
  let* present := gets (fun st => path_exists st p) in
  if present then
    let* data := read_file p in
    lift (json_load data)
  else ret EMPTY_MANIFEST.

(** The typed view of a manifest: the records under ["images"]. *)
Fixpoint strings_of (items : list json) : option (list string) :=
  match items with
  | [] => Some []
  | JStr s :: items' => match strings_of items' with
                        | Some l => Some (s :: l)
                        | None => None
                        end
  | _ => None
  end.

Definition entry_of_json (j : json) : option Entry :=
  match j with
  | JObj kv =>
      match Json.member "original" kv, Json.member "variants" kv, Json.member "ts" kv with
      | Some (JStr o), Some (JArr vs), Some (JInt t) =>
          match strings_of vs with
          | Some l => Some {| original := o; variants := l; ts := t |}
          | None => None
          end
      | _, _, _ => None
      end
  | _ => None
  end.

Fixpoint entries_of (kv : list (string * json)) : option (gmap string Entry) :=
  match kv with
  | [] => Some ∅
  | (h, j) :: kv' =>
      match entry_of_json j, entries_of kv' with
      | Some e, Some m => Some (match m !! h with Some _ => m | None => <[h := e]> m end)
      | _, _ => None
      end
  end.

Definition manifest_of_json (j : json) : option (gmap string Entry) :=
  match j with
  | JObj kv => match Json.member "images" kv with
               | Some (JObj es) => entries_of es
               | _ => None
               end
  | _ => None
  end.

Definition json_of_entry (e : Entry) : json :=
  JObj [("original", JStr (original e));
        ("variants", JArr (map JStr (variants e)));
        ("ts", JInt (ts e))].

Definition json_of_manifest (m : gmap string Entry) : json :=
  JObj [("images", JObj (map (fun he => (fst he, json_of_entry (snd he))) (map_to_list m)))].

Definition save_manifest (dist_root : string) : M unit :=
  let* _ := ensure_dir (Path.join dist_root "images") in
  let* m := gets manifest in
  write_file (manifest_path dist_root) (Json.dumps (json_of_manifest m)).

(** ** [copy_src] and the tree walks *)

(** [p] lies strictly below the directory [d]. *)
Definition below (d p : string) : bool :=
  Text.startswith p (if Text.endswith d "/" then d else d +:+ "/")
  && negb (String.eqb p d).

Definition relative_to (d p : string) : string :=
  Text.lstrip_char "/"%char (Text.str (skipn (String.length d) (Text.chars p))).

(** [shutil.rmtree(d)]. *)
Definition rmtree (d : string) : M unit := fun st =>
  let k := fs_key st d in
  if is_dir st d then
    let keep := fun p : string => negb (String.eqb p k || below k p) in
    (Ok tt,
     set_dirs (list_to_set (List.filter keep (elements (dirs st))))
       (set_files (list_to_map (List.filter (fun kv => keep (fst kv)) (map_to_list (files st)))) st))
  else (Raise (if is_file st d then NotADirectoryError else FileNotFoundError), st).

(** [shutil.copytree(src, dst)]. *)
Definition copytree (src dst : string) : M unit :=
  let* st := gets (fun st => st) in
  let s := fs_key st src in
  if negb (is_dir st src) then raise (if is_file st src then NotADirectoryError else FileNotFoundError)
  else if path_exists st dst then raise FileExistsError
  else
    let* _ := ensure_dir dst in
    let* _ := mapM (fun d => ensure_dir (Path.join dst (relative_to s d)))
                   (List.filter (below s) (elements (dirs st))) in
    let* _ := mapM (fun kv => write_file (Path.join dst (relative_to s (fst kv))) (snd kv))
                   (List.filter (fun kv => below s (fst kv)) (map_to_list (files st))) in
    ret tt.

Section Main.

Variable env : Env.

(** [ZipFile(src).extractall(outdir)]. *)
Definition extractall (src outdir : string) : M unit :=
  let* data := read_file src in
  let* entries := lift (zip_entries env data) in
  let* _ := mapM (fun kv =>
              let target := Path.join outdir (fst kv) in
              let* _ := ensure_dir (Path.dirname target) in
              write_file target (snd kv)) entries in
  ret tt.

Definition copy_src (src outdir : string) : M unit :=
  let* zipped := gets (fun st => Text.endswith (Text.lower src) ".zip" && is_file st src) in
  if zipped then extractall src outdir
  else
    let* present := gets (fun st => path_exists st outdir) in
    let* _ := (if present then rmtree outdir else ret tt) in
    copytree src outdir.

(** [os.walk(dist_root)], the files whose lower-cased name ends in [suffix]. *)
Definition walk (suffix dist_root : string) (st : State) : list string :=
  List.filter (fun p => below (fs_key st dist_root) p
                        && Text.endswith (Text.lower (Path.basename p)) suffix)
              (map fst (map_to_list (files st))).

(** The passes of [main] that the image pipeline does not cover. *)
Record Collaborators : Type := {
  find_and_fix_extensionless_html : string -> M (list (string * string));
  rewrite_links_in_html : string -> list (string * string) -> string -> M unit;
  ensure_index : string -> M unit;
  (* load_format_cache; format_code; save_format_cache *)
  format_pass : string -> bool -> bool -> M unit;
}.

Variable others : Collaborators.

(** [main], from the parsed arguments and the loaded configuration.  The
    manifest is kept in its typed view: a manifest file that parses but
    has another shape than the one [save_manifest] writes stops the model
    with [TypeError] when it is loaded. *)
Definition main (cfg : Config) (input output : string) : M unit :=
  let* wd := gets cwd in
  let dist_root := Path.abspath wd (if String.eqb output "" then output_dir cfg else output) in
  let src := Path.abspath wd input in
  let* j := load_manifest dist_root in
  let* _ := (match manifest_of_json j with
             | Some m => modify (set_manifest m)
             | None => raise TypeError
             end) in
  let* _ := copy_src src dist_root in
  let* renamed := find_and_fix_extensionless_html others dist_root in
  let* htmls := gets (walk ".html" dist_root) in
  let* _ := mapM (fun p => rewrite_links_in_html others p renamed dist_root) htmls in
  let* _ := ensure_index others dist_root in
  let* _ := (if download_images cfg then
               let* htmls := gets (walk ".html" dist_root) in
               let* _ := mapM (rewrite_img_tags env cfg dist_root) htmls in
               let* csss := gets (walk ".css" dist_root) in
               let* _ := mapM (rewrite_css_urls env cfg dist_root) csss in
               ret tt
             else ret tt) in
  let* _ := (if format_html cfg || format_css_js cfg
             then format_pass others dist_root (format_html cfg) (format_css_js cfg)
             else ret tt) in
  save_manifest dist_root.

End Main.

(** ** Vocabulary for comparing two runs *)

(** The files of a state other than [skip], with their bytes. *)
Definition files_except (skip : string) (st : State) : list (string * string) :=
  List.filter (fun kv => negb (String.eqb (fst kv) skip)) (map_to_list (files st)).

(** The variant paths recorded under [h] in the manifest file of
    [dist_root], as a run that starts in [st] loads them. *)
Definition loaded_variants (dist_root h : string) (st : State) : option (list string) :=
  match fst (load_manifest dist_root st) with
  | Ok j => match manifest_of_json j with
            | Some m => variants <$> m !! h
            | None => None
            end
  | Raise _ => None
  end.

(** ** A sample site

    A small exported tree, a network with one reachable image, and an
    imaging library that reads the size of three known images. *)

Module Sample.

Definition wide : string := "JPEG 1600x900 hero".
Definition photo : string := "PNG 1000x666 photo".
Definition small : string := "PNG 300x200 logo".

Definition img (l : list (string * string)) : Tag :=
  {| tag_name := "img"; attrs := list_to_map l |}.

Definition index_html : string := "<img src='img/hero.jpg'><img src='img/logo'>".
Definition index_soup : list Tag := [img [("src", "img/hero.jpg")]; img [("src", "img/logo")]].

Definition page_html : string := "<img src='img/hero.jpg'>".
Definition page_soup : list Tag := [img [("src", "img/hero.jpg")]].

Definition env : Env := {|
  requests_get := fun url =>
    if String.eqb url "https://cdn.example.com/photo.png" then Ok photo
    else Raise RequestException;
  image_size := fun data =>
    if String.eqb data wide then Ok (1600, 900)
    else if String.eqb data photo then Ok (1000, 666)
    else if String.eqb data small then Ok (300, 200)
    else Raise UnidentifiedImageError;
  resize_save := fun data size fmt q =>
    Ok ("resized " +:+ fmt +:+ " " +:+ Text.str_of_Z (fst size) +:+ "x"
        +:+ Text.str_of_Z (snd size) +:+ " of " +:+ data);
  image_save := fun data fmt q => Ok ("saved " +:+ fmt +:+ " of " +:+ data);
  decode_ignore := fun data => data;
  BeautifulSoup := fun html =>
    if String.eqb html index_html then index_soup
    else if String.eqb html page_html then page_soup
    else [];
  prettify := fun soup =>
    Text.join "" (map (fun t =>
      "<" +:+ tag_name t +:+
      Text.join "" (map (fun kv => " " +:+ fst kv +:+ "='" +:+ snd kv +:+ "'")
                        (map_to_list (attrs t))) +:+ ">") soup);
  zip_entries := fun _ => Raise ValueError;
|}.

(** The exported tree, already copied to [/site]. *)
Definition site : State := {|
  cwd := "/";
  files := list_to_map [
    ("/site/index.html", index_html);
    ("/site/css/site.css", "body{background:url(../img/bg-1200w.min.jpg)}");
    ("/site/img/hero.jpg", wide);
    ("/site/img/hero-copy.jpg", wide);
    ("/site/img/Hero.JPG", wide);
    ("/site/img/photo.png", photo);
    ("/site/img/bg-1200w.min.jpg", wide);
    ("/site/img/logo", small);
    ("/site/img/broken.png", "not an image")];
  dirs := list_to_set ["/"; "/site"; "/site/css"; "/site/img"];
  clock := 1700000000;
  manifest := ∅;
  pil_calls := [];
|}.

Definition cfg : Config := CONFIG_DEFAULT.

Definition cfg_keep : Config := {|
  output_dir := "dist";
  image_dir := "images";
  image_variants := [480; 800; 1200; 1600; 2000];
  image_format := "keep";
  quality := 82;
  download_images := true;
  format_html := true;
  format_css_js := true;
|}.

(** The site after a run that was interrupted while it wrote the
    manifest: the file is there and holds an opening brace only. *)
Definition interrupted : State :=
  set_dirs ({[ "/site/images" ]} ∪ dirs site)
    (set_files (<["/site/images/manifest.json" := "{"]> (files site)) site).

(** An export folder that has not been processed yet, seen from [/work]. *)
Definition export : State := {|
  cwd := "/work";
  files := list_to_map [
    ("/work/export/index.html", page_html);
    ("/work/export/css/site.css", "body{background:url(../img/hero.jpg)}");
    ("/work/export/img/hero.jpg", wide)];
  dirs := list_to_set ["/"; "/work"; "/work/export"; "/work/export/css"; "/work/export/img"];
  clock := 1700000000;
  manifest := ∅;
  pil_calls := [];
|}.

(** Formatting switched off. *)
Definition cfg_plain : Config := {|
  output_dir := "dist";
  image_dir := "images";
  image_variants := [480; 800; 1200; 1600; 2000];
  image_format := "webp";
  quality := 82;
  download_images := true;
  format_html := false;
  format_css_js := false;
|}.

(** On [export] the other passes change nothing: every file has an
    extension, so nothing is renamed and no link is rewritten, and
    [index.html] exists. *)
Definition idle : Collaborators := {|
  find_and_fix_extensionless_html := fun _ => ret [];
  rewrite_links_in_html := fun _ _ _ => ret tt;
  ensure_index := fun _ => ret tt;
  format_pass := fun _ _ _ => ret tt;
|}.

End Sample.
(** ** Further vocabulary *)

(** A reference that is local and names nothing that exists, neither next
    to the referring document nor under the root of the output tree: the
    case in which [repl] returns [m.group(0)] and [process_one_image_url]
    returns [None] before anything is imported. *)
Definition names_nothing (dist_root : string) (st : State) (doc_dir ref : string) : bool :=
  negb (is_remote (scheme_fix ref))
  && negb (path_exists st (Path.normpath (Path.join doc_dir (scheme_fix ref))))
  && negb (path_exists st (Path.join dist_root (Text.lstrip_char "/"%char (scheme_fix ref)))).

(** The default configuration with the image pass switched off. *)
Definition CONFIG_NO_IMAGES : Config := {|
  output_dir := "dist";
  image_dir := "images";
  image_variants := [480; 800; 1200; 1600; 2000];
  image_format := "webp";
  quality := 82;
  download_images := false;
  format_html := true;
  format_css_js := true;
|}.

(** The text a piece of the cut CSS stands for: a character outside the
    matches, or the whole of a match. *)
Definition piece_text (t : ascii + Match) : string :=
  match t with
  | inl c => String c ""
  | inr m => group0 m
  end.

(** ** Further samples *)

Module Demo.

(** A style sheet whose references name nothing in the sample site. *)
Definition stale_css : string := "a{background:url('gone.png')} b{mask:url(#clip)}".

Definition stale : State :=
  set_files (<["/site/css/stale.css" := stale_css]> (files Sample.site)) Sample.site.

End Demo.

(** No two hyphens in a row. *)
Fixpoint single_hyphens (l : list ascii) : bool :=
  match l with
  | a :: (b :: _) as t =>
      negb (Text.char_eqb "-"%char a && Text.char_eqb "-"%char b) && single_hyphens t
  | _ => true
  end.

(** The value of [name] in [slugify_name] before the final [or "asset"]. *)
Definition slug_body (name : string) : list ascii :=
  Text.strip_by (Text.char_eqb "-"%char)
    (Text.chars
       (Text.sub_runs (Text.char_eqb "-"%char) 2
          (Text.sub_runs (fun c => negb (slug_char c)) 1
             (Text.sub_runs Text.is_space 1
                (Text.remove_char ")"%char
                   (Text.remove_char "("%char (Text.lower (Text.strip name)))))))).

(** The shape of a slug, on its characters: not empty, characters of the
    slug alphabet only, no hyphen at either end, no two hyphens in a row. *)
Definition slug_shaped (l : list ascii) : bool :=
  match l with [] => false | _ => true end
  && forallb slug_char l
  && negb (Text.starts_with ["-"%char] l)
  && negb (Text.starts_with ["-"%char] (rev l))
  && single_hyphens l.

(** A lower-case hexadecimal digit. *)
Definition is_hex (c : ascii) : bool := Text.is_digit c || Text.in_range 97 102 c.

(** No path separator among the characters. *)
Definition slashless (l : list ascii) : bool :=
  forallb (fun c => negb (Text.char_eqb "/"%char c)) l.

(** A text is empty or starts with a character that [P] rejects. *)
Definition stops (P : ascii -> bool) (r : list ascii) : Prop :=
  match r with
  | [] => True
  | c :: _ => P c = false
  end.

(** ** The passes of [main] around the image pipeline *)

Module Passes.

(** *** [rewrite_links_in_html] *)

Definition is_alpha (c : ascii) : bool := Text.is_lower_alpha c || Text.is_upper_alpha c.

(** [[a-zA-Z0-9+.-]]. *)
Definition scheme_char (c : ascii) : bool :=
  is_alpha c || Text.is_digit c
  || Text.char_eqb "+"%char c || Text.char_eqb "."%char c || Text.char_eqb "-"%char c.

(** [re.match(r'^[a-zA-Z][a-zA-Z0-9+.-]*:', val)]: the star takes the
    whole run, since the colon is not in the class. *)
Definition has_scheme (val : string) : bool :=
  match Text.chars val with
  | c :: rest => is_alpha c && Text.starts_with [":"%char] (Text.lstrip_by scheme_char rest)
  | [] => false
  end.

(** [while norm.startswith("./"): norm = norm[2:]]. *)
Fixpoint drop_dot_slash (l : list ascii) : list ascii :=
  match l with
  | a :: b :: l' =>
      if Text.char_eqb "."%char a && Text.char_eqb "/"%char b then drop_dot_slash l' else l
  | _ => l
  end.

(** [s.find(c)], [None] for [-1]. *)
Fixpoint find_char (c : ascii) (l : list ascii) : option nat :=
  match l with
  | [] => None
  | x :: l' => if Text.char_eqb c x then Some O else option_map S (find_char c l')
  end.

(** [norm.split("#",1)[0].split("?",1)[0]] of [fix_link]. *)
Definition link_base (val : string) : string :=
  let norm := Text.lstrip_by (Text.char_eqb "/"%char) (drop_dot_slash (Text.chars val)) in
  Text.str (Path.take_until "?"%char (Path.take_until "#"%char norm)).

Definition fix_link (renamed_map : gmap string string) (val : string) : string :=
  if has_scheme val then val
  else if Text.startswith val "#" || Text.startswith val "data:" then val
  else
    match renamed_map !! link_base val with
    | Some target =>
        let l := Text.chars val in
        let prefix := if Text.startswith val "/" then "/" else "" in
        let qpos := find_char "?"%char l in
        let hpos := find_char "#"%char l in
        let q := match qpos, hpos with
                 | Some i, None => Text.str (skipn i l)
                 | Some i, Some j =>
                     if (i <? j)%nat then Text.str (firstn (j - i) (skipn i l)) else ""
                 | None, _ => ""
                 end in
        let h := match hpos with
                 | Some j => Text.str (skipn j l)
                 | None => ""
                 end in
        prefix +:+ target +:+ q +:+ h
    | None => val
    end.

(** [ATTR_PATTERN]: at a word boundary, one of the names [href], [src],
    [action] in any case, white space, an equals sign, white space and a
    quote (group [attr]); one or more characters that are no quote
    (group [val]); a quote (group 3). *)
Record AttrMatch : Type := {
  attr : list ascii;
  val : list ascii;
  closing : ascii;
  after : list ascii;   (* the text that follows the match *)
}.

(** [\w] on the ASCII range. *)
Definition is_word (c : ascii) : bool :=
  is_alpha c || Text.is_digit c || Text.char_eqb "_"%char c.

Definition is_quote (c : ascii) : bool :=
  Text.char_eqb CssRe.dquote c || Text.char_eqb "'"%char c.

(** A literal of lower-case letters at the head of [l], in any case. *)
Fixpoint starts_with_nocase (p l : list ascii) : bool :=
  match p, l with
  | [], _ => true
  | a :: p', b :: l' => Text.char_eqb a (Text.lower_char b) && starts_with_nocase p' l'
  | _ :: _, [] => false
  end.

Fixpoint take_unquoted (l : list ascii) : list ascii :=
  match l with
  | c :: l' => if is_quote c then [] else c :: take_unquoted l'
  | [] => []
  end.

(** What follows the attribute name: white space, the equals sign, white
    space, a quote, the value, a quote.  Each greedy run is followed by a
    character outside its class, so no shorter run can succeed where the
    whole run fails. *)
Definition match_after_name (l r : list ascii) : option AttrMatch :=
  match Text.lstrip_by Text.is_space r with
  | e :: r1 =>
      if Text.char_eqb "="%char e then
        match Text.lstrip_by Text.is_space r1 with
        | q :: r2 =>
            if is_quote q then
              let v := take_unquoted r2 in
              match v, skipn (length v) r2 with
              | _ :: _, q3 :: rest =>
                  Some {| attr := firstn (length l - length r2) l; val := v;
                          closing := q3; after := rest |}
              | _, _ => None
              end
            else None
        | [] => None
        end
      else None
  | [] => None
  end.

Fixpoint match_names (names : list string) (l : list ascii) : option AttrMatch :=
  match names with
  | [] => None
  | name :: names' =>
      if starts_with_nocase (Text.chars name) l then
        match match_after_name l (skipn (String.length name) l) with
        | Some m => Some m
        | None => match_names names' l
        end
      else match_names names' l
  end.

(** A match that starts at the head of [l]; [prev] is the character
    before it, which [\b] looks at. *)
Definition match_attr_here (prev : option ascii) (l : list ascii) : option AttrMatch :=
  if match prev with Some p => is_word p | None => false end then None
  else match_names ["href"; "src"; "action"] l.

(** The text cut at the non-overlapping matches, from the left. *)
Fixpoint scan_attrs (fuel : nat) (prev : option ascii) (l : list ascii)
  : list (ascii + AttrMatch) :=
  match fuel, l with
  | S fuel', c :: l' =>
      match match_attr_here prev l with
      | Some m => inr m :: scan_attrs fuel' (Some (closing m)) (after m)
      | None => inl c :: scan_attrs fuel' (Some c) l'
      end
  | _, _ => []
  end.

(** [repl] of [rewrite_links_in_html]. *)
Definition link_repl (renamed_map : gmap string string) (t : ascii + AttrMatch) : string :=
  match t with
  | inl c => String c ""
  | inr m => Text.str (attr m) +:+ fix_link renamed_map (Text.str (val m))
             +:+ String (closing m) ""
  end.

(** [ATTR_PATTERN.sub(repl, text)]. *)
Definition sub_links (renamed_map : gmap string string) (text : string) : string :=
  Text.join "" (map (link_repl renamed_map)
                    (scan_attrs (String.length text) None (Text.chars text))).

Section WithEnv.

Variable env : Env.

Definition rewrite_links_in_html (file_path : string) (renamed_map : gmap string string)
    (dist_root : string) : M unit :=
  let* data := read_file file_path in
  let text := decode_ignore env data in
  let new_text := sub_links renamed_map text in
  if String.eqb new_text text then ret tt else write_file file_path new_text.

End WithEnv.

End Passes.

(** *** [ensure_index] *)

Module Index.

Definition dq : string := String CssRe.dquote "".

(** The horizontal ellipsis, as UTF-8 writes it. *)
Definition ellipsis : string :=
  String (ascii_of_N 226) (String (ascii_of_N 128) (String (ascii_of_N 166) "")).

Definition index_meta (cand : string) : string :=
  if String.eqb cand "" then ""
  else "<meta http-equiv=" +:+ dq +:+ "refresh" +:+ dq +:+ " content=" +:+ dq
       +:+ "0; url=" +:+ cand +:+ dq +:+ ">".

Definition index_page (cand : string) : string :=
  "<!doctype html><html><head><meta charset='utf-8'>" +:+ index_meta cand
  +:+ "<title>Index</title></head><body><p>Loading" +:+ ellipsis
  +:+ " <a href='" +:+ cand +:+ "'>Continue</a></p></body></html>".

(** [all_html]: the pages below the root, relative to it, in the order
    of the walk. *)
Definition html_pages (dist_root : string) (st : State) : list string :=
  map (fun p => Path.relpath (cwd st) p dist_root) (walk ".html" dist_root st).

Definition named (preferred p : string) : bool := String.eqb (Path.basename p) preferred.

(** [cand]. *)
Definition choose_index (preferred : string) (all_html : list string) : string :=
  if negb (String.eqb preferred "") && existsb (named preferred) all_html
  then match List.find (named preferred) all_html with
       | Some p => p
       | None => ""
       end
  else hd "" all_html.

Definition ensure_index (dist_root preferred : string) : M unit :=
  let index_path := Path.join dist_root "index.html" in
  let* present := gets (fun st => path_exists st index_path) in
  if present then ret tt
  else
    let* all_html := gets (html_pages dist_root) in
    write_file index_path (index_page (choose_index preferred all_html)).

End Index.

Module Demo2.

(** A site without [index.html]. *)
Definition pages : State := {|
  cwd := "/";
  files := list_to_map [
    ("/site/home.html", "<html><a href='blog/about.html'>about</a></html>");
    ("/site/blog/about.html", "<html>about</html>");
    ("/site/css/site.css", "a{color:red}")];
  dirs := list_to_set ["/"; "/site"; "/site/blog"; "/site/css"];
  clock := 1700000000;
  manifest := ∅;
  pil_calls := [];
|}.

End Demo2.

(** ** Frames: what a computation may do to the state *)

(** Every run of [c] takes a state to one related to it by [R]. *)
Definition steps_in {A} (R : State -> State -> Prop) (c : M A) : Prop :=
  forall st r st', c st = (r, st') -> R st st'.

(** [st'] has everything [st] has: the same working directory, manifest,
    imaging log and clock, every file path and every directory of [st]. *)
Definition extends (st st' : State) : Prop :=
  cwd st' = cwd st /\ manifest st' = manifest st
  /\ pil_calls st' = pil_calls st /\ clock st' = clock st
  /\ (forall k, is_Some (files st !! k) -> is_Some (files st' !! k))
  /\ dirs st ⊆ dirs st'.

(** Only files and directories differ. *)
Definition same_records (st st' : State) : Prop :=
  cwd st' = cwd st /\ manifest st' = manifest st
  /\ pil_calls st' = pil_calls st /\ clock st' = clock st.

Module Demo3.

(** An archive with two members, and an output tree left by an earlier
    run whose manifest records one variant. *)
Definition archive : string := "PK demo".

Definition env : Env := {|
  requests_get := requests_get Sample.env;
  image_size := image_size Sample.env;
  resize_save := resize_save Sample.env;
  image_save := image_save Sample.env;
  decode_ignore := decode_ignore Sample.env;
  BeautifulSoup := BeautifulSoup Sample.env;
  prettify := prettify Sample.env;
  zip_entries := fun data =>
    if String.eqb data archive
    then Ok [("index.html", Sample.page_html); ("img/hero.jpg", Sample.wide)]
    else Raise ValueError;
|}.

Definition variant : string := "/work/dist/images/responsive/0ddcdc8036c6-hero-480w.webp".

Definition earlier : State := {|
  cwd := "/work";
  files := list_to_map [
    ("/work/site.zip", archive);
    ("/work/export/index.html", Sample.page_html);
    ("/work/export/img/hero.jpg", Sample.wide);
    ("/work/dist/index.html", Sample.page_html);
    ("/work/dist/img/hero.jpg", Sample.wide);
    (variant, "resized")];
  dirs := list_to_set ["/"; "/work"; "/work/export"; "/work/export/img"; "/work/dist";
                       "/work/dist/img"; "/work/dist/images"; "/work/dist/images/responsive"];
  clock := 1700003600;
  manifest := {[ "0ddcdc8036c6" :=
                   {| original := "/work/dist/images/original/0ddcdc8036c6-hero.jpg";
                      variants := [variant]; ts := 1700000000 |} ]};
  pil_calls := [];
|}.

End Demo3.

(** *** [find_and_fix_extensionless_html] *)

Module Extensionless.

(** [for x in l: acc = f(acc, x)]. *)
Fixpoint foldM {A B} (f : B -> A -> M B) (acc : B) (l : list A) : M B :=
  match l with
  | [] => ret acc
  | x :: l' => let* acc' := f acc x in foldM f acc' l'
  end.

(** [os.rename(src, dst)] for a regular file [src]: a file at [dst] is
    replaced. *)
Definition rename (src dst : string) : M unit := fun st =>
  match files st !! fs_key st src with
  | None => (Raise FileNotFoundError, st)
  | Some data =>
      if is_dir st dst then (Raise IsADirectoryError, st)
      else if bool_decide (Path.dirname (fs_key st dst) ∈ dirs st)
      then (Ok tt, set_files (<[fs_key st dst := data]> (delete (fs_key st src) (files st))) st)
      else (Raise FileNotFoundError, st)
  end.

(** ["." in name] for the file name of a path. *)
Definition has_extension (full : string) : bool :=
  Path.has_char Path.dot (Text.chars (Path.basename full)).

Section WithEnv.

Variable env : Env.

(** The test on the decoded, lower-cased head of the file. *)
Definition html_head (data : string) : bool :=
  let head := Text.chars (Text.lower (decode_ignore env (Text.str (firstn 4096 (Text.chars data))))) in
  Text.contains_at (Text.chars "<!doctype html") head
  || (Text.contains_at (Text.chars "<html") head
      && Text.contains_at (Text.chars "</html>") head).

Definition looks_like_html (path : string) : M bool :=
  try_except (let* data := read_file path in ret (html_head data)) false.

(** The body of the inner loop, for one file. *)
Definition fix_one (dist_root : string) (renamed : gmap string string) (full : string)
  : M (gmap string string) :=
  if has_extension full then ret renamed
  else
    let* html := looks_like_html full in
    if html then
      let new_full := full +:+ ".html" in
      let* _ := rename full new_full in
      let* wd := gets cwd in
      ret (<[Path.relpath wd full dist_root := Path.relpath wd new_full dist_root]> renamed)
    else ret renamed.

Definition find_and_fix_extensionless_html (dist_root : string) : M (gmap string string) :=
  let* found := gets (walk "" dist_root) in
  foldM (fix_one dist_root) ∅ found.

(** A file without a dot in its name and with the head of an HTML
    document. *)
Definition html_file (st : State) (k : string) : Prop :=
  has_extension k = false
  /\ exists data, files st !! k = Some data /\ is_dir st k = false /\ html_head data = true.

(** A file that the pass renames: such a file below the root. *)
Definition renamable (dist_root : string) (st : State) (k : string) : Prop :=
  k ∈ walk "" dist_root st /\ html_file st k.

End WithEnv.

(** The paths of the files are the keys they are stored under, and so
    are they with [.html] appended. *)
Definition keys_normal (st : State) : bool :=
  forallb (fun kv => String.eqb (fs_key st (fst kv)) (fst kv)
                     && String.eqb (fs_key st (fst kv +:+ ".html")) (fst kv +:+ ".html"))
          (map_to_list (files st)).

End Extensionless.

Module Demo4.

(** A site with two pages that were exported without extension. *)
Definition bare : State := {|
  cwd := "/";
  files := list_to_map [
    ("/site/index.html", "<html><a href='about'>about</a></html>");
    ("/site/about", "<!DOCTYPE html><html>about</html>");
    ("/site/about.html", "<html>an older page</html>");
    ("/site/blog/post", "<HTML><body>post</body></HTML>");
    ("/site/LICENSE", "Permission is hereby granted")];
  dirs := list_to_set ["/"; "/site"; "/site/blog"];
  clock := 1700000000;
  manifest := ∅;
  pil_calls := [];
|}.

End Demo4.

(** *** [format_code] *)

Module Format.

Section WithFormatters.

Variable env : Env.
(* import jsbeautifier succeeded *)
Variable have_jsb : bool.
(* BeautifulSoup(text, "html.parser") *)
Variable html_parser : string -> list Tag.
(* jsbeautifier.beautify_css(txt, opts) and jsbeautifier.beautify(txt, opts) *)
Variable beautify_css : string -> result string.
Variable beautify : string -> result string.

(** [cur_hash], [None] when the file cannot be read. *)
Definition file_hash (p : string) : M (option string) :=
  try_except (let* data := read_file p in ret (Some (Sha1.hexdigest data))) None.

(** [key in format_cache and format_cache[key] == cur_hash], on a cache
    whose values are strings. *)
Definition entry_matches (entry cur_hash : option string) : bool :=
  match entry, cur_hash with
  | Some h, Some h' => String.eqb h h'
  | _, _ => false
  end.

Definition cached (format_cache : option (gmap string string)) (key : string)
    (cur_hash : option string) : bool :=
  match format_cache with
  | Some c => entry_matches (c !! key) cur_hash
  | None => false
  end.

(** The two formatting branches. *)
Definition format_file (format_html format_css_js : bool) (p low : string) : M unit :=
  if format_html && Text.endswith low ".html" then
    let* data := read_file p in
    write_file p (prettify env (html_parser (decode_ignore env data)))
  else if format_css_js && have_jsb && (Text.endswith low ".css" || Text.endswith low ".js") then
    let* data := read_file p in
    let txt := decode_ignore env data in
    let* formatted := lift (if Text.endswith low ".css" then beautify_css txt else beautify txt) in
    write_file p formatted
  else ret tt.

(** The body of the inner loop, for one file; the cache object is passed
    along. *)
Definition format_one (dist_root : string) (format_html format_css_js : bool)
    (format_cache : option (gmap string string)) (p : string)
  : M (option (gmap string string)) :=
  let low := Text.lower (Path.basename p) in
  let* cur_hash := file_hash p in
  let* wd := gets cwd in
  let key := Path.relpath wd p dist_root in
  if cached format_cache key cur_hash then ret format_cache
  else
    try_except
      (let* _ := format_file format_html format_css_js p low in
       let* data := read_file p in
       ret (match format_cache with
            | Some c => Some (<[key := Sha1.hexdigest data]> c)
            | None => None
            end))
      format_cache.

Definition format_code (dist_root : string) (format_html format_css_js : bool)
    (format_cache : option (gmap string string)) : M (option (gmap string string)) :=
  let* found := gets (walk "" dist_root) in
  Extensionless.foldM (format_one dist_root format_html format_css_js) format_cache found.

(** What the formatters make of a file: the new text, [None] when no
    formatter applies to the file name, or the formatter's exception. *)
Definition formatted (format_html format_css_js : bool) (low data : string)
  : result (option string) :=
  if format_html && Text.endswith low ".html" then
    Ok (Some (prettify env (html_parser (decode_ignore env data))))
  else if format_css_js && have_jsb && (Text.endswith low ".css" || Text.endswith low ".js") then
    match (if Text.endswith low ".css" then beautify_css (decode_ignore env data)
           else beautify (decode_ignore env data)) with
    | Ok f => Ok (Some f)
    | Raise e => Raise e
    end
  else Ok None.

(** One turn of the loop seen from the file: its content and its cache
    entry before, and after. *)
Definition turn (format_html format_css_js : bool) (low : string) (writable : bool)
    (content entry : option string) : option string * option string :=
  match content with
  | None => (content, entry)
  | Some d =>
      if entry_matches entry (Some (Sha1.hexdigest d)) then (content, entry)
      else match formatted format_html format_css_js low d with
           | Raise _ => (content, entry)
           | Ok None => (content, Some (Sha1.hexdigest d))
           | Ok (Some d') =>
               if writable then (Some d', Some (Sha1.hexdigest d')) else (content, entry)
           end
  end.

End WithFormatters.

(** What [open(p, "rb").read()] gives in [st], if anything. *)
Definition readable (st : State) (p : string) : option string :=
  if is_dir st p || String.eqb p "" then None else files st !! fs_key st p.

(** The directory of [p] exists, so that [open(p, "w")] succeeds on a
    path that is no directory. *)
Definition writable (st : State) (p : string) : bool :=
  bool_decide (Path.dirname (fs_key st p) ∈ dirs st).

(** The state with the content of [p] set, and the cache with the entry
    of [key] set. *)
Definition put_content (st : State) (p : string) (content : option string) : State :=
  match content with
  | Some d => set_files (<[fs_key st p := d]> (files st)) st
  | None => st
  end.

Definition put_entry (c : gmap string string) (key : string) (entry : option string)
  : gmap string string :=
  match entry with
  | Some h => <[key := h]> c
  | None => c
  end.

(** The files below the root are stored under their own paths, and no
    two of them have the same path relative to the root. *)
Definition well_keyed (dist_root : string) (st : State) : bool :=
  let l := walk "" dist_root st in
  forallb (fun k => String.eqb (fs_key st k) k) l
  && forallb (fun k1 =>
       forallb (fun k2 =>
         implb (String.eqb (Path.relpath (cwd st) k1 dist_root)
                           (Path.relpath (cwd st) k2 dist_root))
               (String.eqb k1 k2)) l) l.

End Format.

Module Demo5.

(** Formatters that mark what they did; the one for scripts fails. *)
Definition html_parser (text : string) : list Tag :=
  [{| tag_name := "html"; attrs := {[ "data-len" := Text.str_of_Z (Z.of_nat (String.length text)) ]} |}].

Definition beautify_css (txt : string) : result string := Ok (txt +:+ " /* formatted */").

Definition beautify (txt : string) : result string := Raise ValueError.

Definition tree : State := {|
  cwd := "/";
  files := list_to_map [
    ("/site/index.html", "<html><body>hello</body></html>");
    ("/site/css/site.css", "a{color:red}");
    ("/site/js/app.js", "function f(){return 1}");
    ("/site/img/logo.png", "PNG 300x200 logo")];
  dirs := list_to_set ["/"; "/site"; "/site/css"; "/site/js"; "/site/img"];
  clock := 1700000000;
  manifest := ∅;
  pil_calls := [];
|}.

End Demo5.

(** Only the content of files differs: records and directories are the
    same. *)
Definition same_tree (st st' : State) : Prop :=
  same_records st st' /\ dirs st' = dirs st.

(** The records of the manifest are the same. *)
Definition same_manifest (st st' : State) : Prop := manifest st' = manifest st.

(** ** The manifest file read back *)

Module Persist.

Import Text Json.

(** Characters that [json.dumps] writes as they are or with an escape of
    its own, so that the text never needs [ensure_ascii]. *)
Definition plain_char (c : ascii) : bool := code c <? 128.

Definition plain (s : string) : bool := forallb plain_char (chars s).

Definition plain_entry (e : Entry) : bool :=
  plain (original e) && forallb plain (variants e).

Definition plain_manifest (m : gmap string Entry) : bool :=
  forallb (fun he => plain (fst he) && plain_entry (snd he)) (map_to_list m).

(** What follows a value in the text of [json.dumps]: a comma, a line
    break or the end. *)
Definition value_end (l : list ascii) : bool :=
  match l with
  | [] => true
  | c :: _ => char_eqb ","%char c || is_ws c
  end.

Definition starts_value (c : ascii) : bool :=
  negb (is_ws c) && negb (char_eqb "]"%char c).

(** The items of an array after the first one, and the members of an
    object after the first one, as [dumps_at] writes them. *)
Definition more_items (d : nat) (xs : list json) : list ascii :=
  flat_map (fun y => chars ("," +:+ newline) ++ chars (indent d +:+ dumps_at d y)) xs.

Definition more_members (d : nat) (kv : list (string * json)) : list ascii :=
  flat_map (fun m => chars ("," +:+ newline)
                     ++ chars (indent d +:+ quote_string (fst m) +:+ ": " +:+ dumps_at d (snd m)))
           kv.

Definition closing (d : nat) (c : ascii) : list ascii :=
  chars newline ++ chars (indent d) ++ [c].

(** The text of [v] at depth [d] is plain, starts a value, and the
    scanner reads [v] back from it. *)
Definition reads_back (d : nat) (v : json) : Prop :=
  forallb plain_char (chars (dumps_at d v)) = true
  /\ (exists c l, chars (dumps_at d v) = c :: l /\ starts_value c = true)
  /\ forall fuel rest,
       (length (chars (dumps_at d v)) <= fuel)%nat -> value_end rest = true ->
       scan_once fuel (chars (dumps_at d v) ++ rest) = Ok (v, rest).

End Persist.

Module Demo6.

(** The site with one image on record. *)
Definition recorded : State :=
  set_manifest
    (<["0ddcdc8036c6" := {| original := "/site/images/0ddcdc8036c6-bg-1200w.min.jpg";
                            variants := ["/site/images/responsive/0ddcdc8036c6-bg-1200w.min-480w.webp";
                                         "/site/images/responsive/0ddcdc8036c6-bg-1200w.min-800w.webp"];
                            ts := 1700000000 |}]> ∅)
    Sample.site.

End Demo6.

(** * Checks of the embedding against the Python library on sample inputs *)

Example slugify_hero : slugify_name "  My Hero (1).JPG " = "my-hero-1.jpg".
Proof. reflexivity. Qed.

Example slugify_empty : slugify_name "(((" = "asset".
Proof. reflexivity. Qed.

Example slugify_runs : slugify_name "a -- b__c%%d" = "a-b__c-d".
Proof. reflexivity. Qed.

Example str_of_Z_ex : map Text.str_of_Z [0; 7; 10; 480; 1000; -25] = ["0"; "7"; "10"; "480"; "1000"; "-25"].
Proof. reflexivity. Qed.

Example sha1_empty : Sha1.hexdigest "" = "da39a3ee5e6b4b0d3255bfef95601890afd80709".
Proof. vm_compute. reflexivity. Qed.

Example sha1_abc : Sha1.hexdigest "abc" = "a9993e364706816aba3e25717850c26c9cd0d89d".
Proof. vm_compute. reflexivity. Qed.

Example sha1_two_blocks :
  Sha1.hexdigest "abcdbcdecdefdefgefghfghighijhijkijkljklmklmnlmnomnopnopq"
  = "84983e441c3bd26ebaae4aa1f95129e5e54670f1".
Proof. vm_compute. reflexivity. Qed.

Example hash12_abc : hash12 "abc" = "a9993e364706".
Proof. vm_compute. reflexivity. Qed.

Example basename_ex : Path.basename "/d/images/original/ab12-hero.jpg" = "ab12-hero.jpg".
Proof. reflexivity. Qed.

Example dirname_ex : map Path.dirname ["/d/css/site.css"; "/x"; "x"; "//a"] = ["/d/css"; "/"; ""; "//"].
Proof. reflexivity. Qed.

Example splitext_ex :
  map Path.splitext ["/d/a.b/hero.tar.gz"; "/d/a.b/hero"; ".bashrc"; "x-480w."; "..x"]
  = [("/d/a.b/hero.tar", ".gz"); ("/d/a.b/hero", ""); (".bashrc", ""); ("x-480w", "."); ("..x", "")].
Proof. reflexivity. Qed.

Example normpath_ex :
  map Path.normpath ["/d/css/../img/hero.jpg"; "a//b/./c/"; "../x"; "/../x"; "//a/b"; "///a"; ""; "a/.."]
  = ["/d/img/hero.jpg"; "a/b/c"; "../x"; "/x"; "//a/b"; "/a"; "."; "."].
Proof. reflexivity. Qed.

Example join_ex : map (Path.join "/d/css") ["x.png"; "/x.png"; ""] = ["/d/css/x.png"; "/x.png"; "/d/css/"].
Proof. reflexivity. Qed.

Example relpath_ex :
  map (fun p => Path.relpath "/" p "/d/css") ["/d/images/responsive/h-1200w.webp"; "/d/css/a.png"; "/d/css"]
  = ["../images/responsive/h-1200w.webp"; "a.png"; "."].
Proof. reflexivity. Qed.

Example quote_ex : Url.quote "../images/responsive/a b-480w.webp" "/:" = "../images/responsive/a%20b-480w.webp".
Proof. reflexivity. Qed.

Example url_path_ex :
  map Url.url_path ["https://cdn.example.com/a/photo.png?x=1#f"; "http://h"; "https://h/a/b;p=1"; "https://h/"]
  = ["/a/photo.png"; ""; "/a/b"; "/"].
Proof. reflexivity. Qed.

Example variant_height_ex :
  map (fun '(w, h, t) => variant_height w h t)
      [(1000, 666, 800); (10, 19, 1); (49, 98, 1); (2, 3, 1); (1600, 900, 480); (4000, 1, 480)]
  = [Ok 532; Ok 1; Ok 1; Ok 1; Ok 270; Ok 1].
Proof. vm_compute. reflexivity. Qed.

Example width_search_ex :
  map width_of ["/r/ab-hero-480w.webp"; "/r/ab-bg-1200w.min-480w.webp"; "/r/ab-hero.webp"]
  = [480; 1200; 0].
Proof. reflexivity. Qed.

Example pairs_of_paths_ex :
  pairs_of_paths ["/r/ab-bg-1200w.min-800w.webp"; "/r/ab-bg-1200w.min-480w.webp"; "/r/ab-x-300w."; "/r/n.png"]
  = [(480, "/r/ab-bg-1200w.min-480w.webp"); (800, "/r/ab-bg-1200w.min-800w.webp")].
Proof. reflexivity. Qed.

Example css_tokens_ex :
  omap (fun t => match t with inr m => Some (group0 m, group1 m, group2 m) | inl _ => None end)
       (CssRe.tokens "a{background:url(../img/hero.jpg)} b{x:url('a b')} c{y:url('q.png')} d{z:url('r.png)}")
  = [("url(../img/hero.jpg)", "", "../img/hero.jpg"); ("url('q.png')", "'", "q.png");
     ("url('r.png)", "", "'r.png")].
Proof. vm_compute. reflexivity. Qed.

(** * Properties *)

#[local] Set Warnings "-clear-no-such-hyp".

Local Open Scope monad_scope.

(** ** Reasoning about [M] *)

Lemma bind_Ok_inv {A B} (c : M A) (k : A -> M B) st b st' :
  bind c k st = (Ok b, st') ->
  exists a st1, c st = (Ok a, st1) /\ k a st1 = (Ok b, st').
Proof.
  unfold bind. destruct (c st) as [[a|e] st1]; intros H; [eauto | discriminate].
Qed.

Lemma bind_Raise_inv {A B} (c : M A) (k : A -> M B) st e st' :
  bind c k st = (Raise e, st') ->
  c st = (Raise e, st') \/ exists a st1, c st = (Ok a, st1) /\ k a st1 = (Raise e, st').
Proof.
  unfold bind. destruct (c st) as [[a|e0] st1]; intros H; [right; eauto | left; injection H as -> ->; reflexivity].
Qed.

Lemma bind_Ok_step {A B} (c : M A) (k : A -> M B) st a st1 :
  c st = (Ok a, st1) -> bind c k st = k a st1.
Proof. unfold bind. intros ->. reflexivity. Qed.

Lemma bind_Raise_step {A B} (c : M A) (k : A -> M B) st e st1 :
  c st = (Raise e, st1) -> bind c k st = (Raise e, st1).
Proof. unfold bind. intros ->. reflexivity. Qed.

Ltac inv_ret H :=
  match type of H with
  | ret _ _ = (Ok _, _) => unfold ret in H; injection H as ? ?; subst
  | lift _ _ = (Ok _, _) => unfold lift in H; injection H as ? ?; subst
  | gets _ _ = (Ok _, _) => unfold gets in H; injection H as ? ?; subst
  | modify _ _ = (Ok _, _) => unfold modify in H; injection H as ? ?; subst
  end.

Tactic Notation "inv_bind" hyp(H) "as" simple_intropattern(a) ident(s) ident(H1) ident(H2) :=
  apply bind_Ok_inv in H as (a & s & H1 & H2).

(** ** File-system steps *)

Lemma ensure_dir_Ok_exact p st u st' :
  ensure_dir p st = (Ok u, st') ->
  st' = set_dirs (dirs_above st p ∪ dirs st) st.
Proof.
  unfold ensure_dir. repeat case_match; intros Hrun; try discriminate.
  injection Hrun as _ <-. reflexivity.
Qed.

Lemma ensure_dir_Ok p st u st' :
  ensure_dir p st = (Ok u, st') ->
  exists d, st' = set_dirs (d ∪ dirs st) st.
Proof. intros H. apply ensure_dir_Ok_exact in H. eauto. Qed.

Lemma read_file_Ok p st data st' :
  read_file p st = (Ok data, st') ->
  st' = st /\ files st !! fs_key st p = Some data.
Proof.
  unfold read_file. repeat case_match; intros Hrun; try discriminate.
  injection Hrun as <- <-. auto.
Qed.

Lemma write_file_Ok p data st u st' :
  write_file p data st = (Ok u, st') ->
  st' = set_files (<[fs_key st p := data]> (files st)) st /\ p <> "".
Proof.
  unfold write_file. repeat case_match; intros Hrun; try discriminate.
  injection Hrun as _ <-. split; [reflexivity|].
  intros ->. discriminate.
Qed.

Lemma log_pil_Ok c st u st' :
  log_pil c st = (Ok u, st') -> st' = set_pil_calls (pil_calls st ++ [c]) st.
Proof. unfold log_pil, modify. intros H. injection H as _ <-. reflexivity. Qed.

(** ** Sorting by width *)

Lemma insert_by_width_head x l :
  Forall (fun y => fst x <= fst y) l -> insert_by_width x l = x :: l.
Proof.
  destruct l as [|y l]; [reflexivity|].
  intros H. apply Forall_cons in H as [H _]. simpl.
  apply Z.leb_le in H. rewrite H. reflexivity.
Qed.

Lemma sort_by_width_sorted l :
  StronglySorted (fun x y => fst x <= fst y) l -> sort_by_width l = l.
Proof.
  induction 1 as [|x l Hs IH Hx]; [reflexivity|].
  simpl. rewrite IH. apply insert_by_width_head. exact Hx.
Qed.

Lemma insert_by_width_elem x y l : x ∈ insert_by_width y l <-> x = y \/ x ∈ l.
Proof.
  induction l as [|z l IH]; simpl.
  - rewrite list_elem_of_singleton, elem_of_nil. tauto.
  - destruct (fst y <=? fst z).
    + rewrite elem_of_cons. tauto.
    + rewrite !elem_of_cons, IH. tauto.
Qed.

Lemma sort_by_width_elem x l : x ∈ l -> x ∈ sort_by_width l.
Proof.
  induction l as [|y l IH]; simpl; [trivial|].
  rewrite elem_of_cons, insert_by_width_elem. intros [->|H]; [left; reflexivity | right; auto].
Qed.

Lemma StronglySorted_lt_filter (P : Z -> bool) l :
  StronglySorted Z.lt l -> StronglySorted Z.lt (List.filter P l).
Proof.
  induction 1 as [|x l Hs IH Hx]; simpl; [constructor|].
  destruct (P x); [|exact IH].
  constructor; [exact IH|].
  rewrite Forall_forall in *. intros y Hy. apply Hx.
  apply list_elem_of_In. apply list_elem_of_In in Hy.
  apply filter_In in Hy as [Hy _]. exact Hy.
Qed.

(** ** The variant generator *)

Section Generator.

Variable env : Env.

Lemma make_one_variant_Ok img_path data out_dir stem ext w h qual target st made st' :
  make_one_variant env img_path data out_dir stem ext w h qual target st = (Ok made, st') ->
  made = (if target <? w then [(target, Path.join out_dir (variant_name stem target ext))] else [])
  /\ cwd st' = cwd st.
Proof.
  unfold make_one_variant.
  destruct (Z.leb_spec w target) as [Hge|Hlt].
  - intros H. inv_ret H. split; [|reflexivity].
    destruct (Z.ltb_spec target w); [lia | reflexivity].
  - intros H. inv_bind H as height s1 H1 H. inv_ret H1.
    inv_bind H as u s2 H2 H. apply log_pil_Ok in H2. subst s2.
    inv_bind H as bytes s3 H3 H. inv_ret H3.
    inv_bind H as u' s4 H4 H. apply write_file_Ok in H4 as [-> _]. inv_ret H.
    split; [|reflexivity].
    destruct (Z.ltb_spec target w); [reflexivity | lia].
Qed.

Lemma make_all_variants_Ok img_path data out_dir stem ext w h qual widths :
  forall st made st',
  mapM (make_one_variant env img_path data out_dir stem ext w h qual) widths st = (Ok made, st') ->
  concat made
  = map (fun t => (t, Path.join out_dir (variant_name stem t ext)))
        (List.filter (fun t => t <? w) widths)
  /\ cwd st' = cwd st.
Proof.
  induction widths as [|t widths IH]; intros st made st' H; simpl in H.
  - inv_ret H. auto.
  - inv_bind H as one s1 H1 H. apply make_one_variant_Ok in H1 as [-> Hc].
    inv_bind H as rest s2 H2 H. apply IH in H2 as [Hm Hc']. inv_ret H. simpl.
    split; [|congruence].
    rewrite Hm. destruct (t <? w); reflexivity.
Qed.

(** What [make_variants] returns when it returns. *)
Lemma make_variants_Ok img_path out_dir widths fmt qual st pairs st' :
  make_variants env img_path out_dir widths fmt qual st = (Ok pairs, st') ->
  exists w h,
    natural_size env st img_path = Some (w, h)
    /\ pairs = sort_by_width (ladder img_path out_dir widths fmt w).
Proof.
  unfold make_variants. intros H.
  inv_bind H as u s1 H1 H. apply ensure_dir_Ok in H1 as [d ->].
  inv_bind H as u1 s2 H2 H. apply log_pil_Ok in H2. subst s2.
  inv_bind H as data s3 H3 H. apply read_file_Ok in H3 as [-> Hdata].
  inv_bind H as [w h] s4 H4 H. unfold lift in H4. injection H4 as Hsize <-.
  inv_bind H as made s5 H5 H. apply make_all_variants_Ok in H5 as [Hm _].
  inv_bind H as u2 s6 H6 H. inv_ret H.
  exists w, h. split.
  - unfold natural_size. unfold fs_key in *. simpl in Hdata. rewrite Hdata, Hsize. reflexivity.
  - rewrite Hm. reflexivity.
Qed.

End Generator.

Lemma filter_lt_bound (w : Z) widths :
  Forall (fun t => t < w) (List.filter (fun t => t <? w) widths).
Proof.
  rewrite Forall_forall. intros t Ht. apply list_elem_of_In in Ht.
  apply filter_In in Ht as [_ Ht]. apply Z.ltb_lt. exact Ht.
Qed.

Lemma ladder_sorted (f : Z -> string) (w : Z) (p : string) widths :
  StronglySorted Z.lt widths ->
  StronglySorted (fun x y : Z * string => fst x <= fst y)
    (map (fun t => (t, f t)) (List.filter (fun t => t <? w) widths) ++ [(w, p)]).
Proof.
  intros Hs. pose proof (filter_lt_bound w widths) as Hb.
  apply (StronglySorted_lt_filter (fun t => t <? w)) in Hs.
  induction Hs as [|x l Hs IH Hx]; simpl.
  - repeat constructor.
  - apply Forall_cons in Hb as [Hxw Hb]. constructor; [apply IH, Hb|].
    rewrite Forall_app, Forall_singleton. split; simpl; [|lia].
    rewrite Forall_map. rewrite Forall_forall in *. intros y Hy. simpl.
    specialize (Hx y Hy). lia.
Qed.

(** C7. For every successful variant generation with a strictly ascending
    list of requested widths, the returned pairs have strictly ascending
    widths, a requested width at or above the natural width yields no
    entry (the only entry at the natural width is the one appended for
    the natural size), and the last width is the natural width; for
    requested widths 480, 800, 1200, 1600, 2000 and natural width 1000
    the widths are exactly 480, 800, 1000. *)
Theorem C7_width_ladder env img_path out_dir widths fmt qual st pairs st' w h :
  natural_size env st img_path = Some (w, h) ->
  StronglySorted Z.lt widths ->
  make_variants env img_path out_dir widths fmt qual st = (Ok pairs, st') ->
  widths_of pairs = List.filter (fun t => t <? w) widths ++ [w]
  /\ StronglySorted Z.lt (widths_of pairs)
  /\ (forall t, t ∈ widths -> w < t -> t ∉ widths_of pairs)
  /\ length (List.filter (Z.eqb w) (widths_of pairs)) = 1%nat
  /\ last (widths_of pairs) = Some w
  /\ (widths = [480; 800; 1200; 1600; 2000] -> w = 1000 ->
      widths_of pairs = [480; 800; 1000]).
Proof.
  intros Hn Hs H.
  apply make_variants_Ok in H as (w' & h' & Hn' & ->).
  rewrite Hn in Hn'. injection Hn' as <- <-.
  rewrite sort_by_width_sorted by (apply ladder_sorted, Hs).
  assert (Hw : widths_of (ladder img_path out_dir widths fmt w)
          = List.filter (fun t => t <? w) widths ++ [w]).
  { unfold widths_of, ladder. rewrite map_app, map_map. simpl. rewrite map_id. reflexivity. }
  rewrite Hw. clear Hw.
  pose proof (filter_lt_bound w widths) as Hb.
  split; [reflexivity|]. split; [|split; [|split; [|split]]].
  - apply StronglySorted_app. split; [|split].
    + intros x y Hx Hy. apply list_elem_of_singleton in Hy as ->.
      rewrite Forall_forall in Hb. auto.
    + apply StronglySorted_lt_filter, Hs.
    + repeat constructor.
  - intros t _ Hlt Hin. apply elem_of_app in Hin as [Hin|Hin].
    + rewrite Forall_forall in Hb. specialize (Hb t Hin). lia.
    + apply list_elem_of_singleton in Hin. lia.
  - rewrite List.filter_app, length_app. simpl. rewrite Z.eqb_refl. simpl.
    assert (Hnone : List.filter (Z.eqb w) (List.filter (fun t => t <? w) widths) = []).
    { induction Hb as [|x l Hx Hb IH]; [reflexivity|]. simpl.
      destruct (Z.eqb_spec w x); [lia | exact IH]. }
    rewrite Hnone. reflexivity.
  - apply last_snoc.
  - intros -> ->. reflexivity.
Qed.

(** ** The imaging calls only accumulate *)

Lemma pil_grows_pure {A} (c : M A) :
  (forall st, snd (c st) = st) -> pil_grows c.
Proof.
  intros Hc st r st' H. exists []. rewrite app_nil_r.
  specialize (Hc st). rewrite H in Hc. simpl in Hc. subst. reflexivity.
Qed.

Lemma pil_grows_bind {A B} (c : M A) (k : A -> M B) :
  pil_grows c -> (forall a, pil_grows (k a)) -> pil_grows (bind c k).
Proof.
  intros Hc Hk st r st' H. unfold bind in H.
  destruct (c st) as [[a|e] st1] eqn:E.
  - destruct (Hc _ _ _ E) as [m1 H1]. destruct (Hk a _ _ _ H) as [m2 H2].
    exists (m1 ++ m2). rewrite H2, H1, app_assoc. reflexivity.
  - injection H as _ <-. exact (Hc _ _ _ E).
Qed.

Lemma pil_grows_same_calls {A} (c : M A) :
  (forall st, pil_calls (snd (c st)) = pil_calls st) -> pil_grows c.
Proof.
  intros Hc st r st' H. exists []. rewrite app_nil_r.
  specialize (Hc st). rewrite H in Hc. exact Hc.
Qed.

Lemma pil_grows_ret {A} (a : A) : pil_grows (ret a).
Proof. apply pil_grows_pure. reflexivity. Qed.
Lemma pil_grows_lift {A} (r : result A) : pil_grows (lift r).
Proof. apply pil_grows_pure. reflexivity. Qed.
Lemma pil_grows_gets {A} (f : State -> A) : pil_grows (gets f).
Proof. apply pil_grows_pure. reflexivity. Qed.
Lemma pil_grows_read p : pil_grows (read_file p).
Proof. apply pil_grows_pure. intros st. unfold read_file. repeat case_match; reflexivity. Qed.
Lemma pil_grows_write p d : pil_grows (write_file p d).
Proof.
  apply pil_grows_same_calls. intros st. unfold write_file. repeat case_match; reflexivity.
Qed.
Lemma pil_grows_ensure_dir p : pil_grows (ensure_dir p).
Proof.
  apply pil_grows_same_calls. intros st. unfold ensure_dir. repeat case_match; reflexivity.
Qed.
Lemma pil_grows_log c : pil_grows (log_pil c).
Proof. intros st r st' H. unfold log_pil, modify in H. injection H as _ <-. eauto. Qed.

Lemma pil_grows_mapM {A B} (f : A -> M B) l :
  (forall x, pil_grows (f x)) -> pil_grows (mapM f l).
Proof.
  intros Hf. induction l as [|x l IH]; simpl.
  - apply pil_grows_ret.
  - apply pil_grows_bind; [apply Hf|]. intros y.
    apply pil_grows_bind; [apply IH|]. intros ys. apply pil_grows_ret.
Qed.

Create HintDb pil discriminated.
#[local] Hint Resolve pil_grows_ret pil_grows_lift pil_grows_gets pil_grows_read
  pil_grows_write pil_grows_ensure_dir pil_grows_log : pil.

Ltac pil_steps :=
  repeat first
    [ apply pil_grows_bind; [|intros ?]
    | solve [auto with pil]
    | match goal with |- pil_grows (if ?b then _ else _) => destruct b end
    | match goal with |- pil_grows (match ?x with _ => _ end) => destruct x end ].

Lemma pil_grows_make_one env img_path data out_dir stem ext w h qual target :
  pil_grows (make_one_variant env img_path data out_dir stem ext w h qual target).
Proof. unfold make_one_variant. pil_steps. Qed.

Lemma make_variants_calls env img_path out_dir widths fmt qual st pairs st' :
  make_variants env img_path out_dir widths fmt qual st = (Ok pairs, st') ->
  exists more, pil_calls st' = pil_calls st ++ PilOpen img_path :: more.
Proof.
  unfold make_variants. intros H.
  inv_bind H as u s1 H1 H. apply ensure_dir_Ok in H1 as [d ->].
  inv_bind H as u1 s2 H2 H. apply log_pil_Ok in H2. subst s2.
  assert (Hrest : pil_grows
    (let* data := read_file img_path in
     let* wh := lift (image_size env data) in
     let '(w, h) := wh in
     let stem := slugify_name (Path.splitext (Path.basename img_path)).1 in
     let ext := if (fmt =? "keep")%string
                then Text.lstrip_char "." (Path.splitext img_path).2 else fmt in
     let* made := mapM (make_one_variant env img_path data out_dir stem ext w h qual) widths in
     let largest_path := Path.join out_dir (variant_name stem w ext) in
     let* _ := if (fmt =? "keep")%string then copy2 img_path largest_path
               else let* _ := log_pil (PilSave img_path largest_path (pil_format_for ext) qual) in
                    let* bytes := lift (image_save env data (pil_format_for ext) qual) in
                    write_file largest_path bytes in
     ret (sort_by_width (concat made ++ [(w, largest_path)])))).
  { apply pil_grows_bind; [auto with pil|]. intros data.
    apply pil_grows_bind; [auto with pil|]. intros [w h].
    apply pil_grows_bind; [apply pil_grows_mapM; intros; apply pil_grows_make_one|]. intros made.
    unfold copy2. pil_steps. }
  destruct (Hrest _ _ _ H) as [more Hm]. exists more.
  rewrite Hm. simpl. rewrite <- app_assoc. reflexivity.
Qed.

(** ** The manifest cache *)

Lemma cache_hit_Some st h recorded :
  cache_hit st h = Some recorded <->
  exists entry, manifest st !! h = Some entry /\ variants entry = recorded
                /\ Forall (fun p => path_exists st p = true) recorded.
Proof.
  unfold cache_hit. split.
  - destruct (manifest st !! h) as [entry|]; [|discriminate].
    destruct (forallb (path_exists st) (variants entry)) eqn:E; [|discriminate].
    intros [= <-]. exists entry. repeat split.
    rewrite Forall_forall. intros p Hp. rewrite forallb_forall in E.
    apply E, list_elem_of_In, Hp.
  - intros (entry & -> & <- & Hall).
    assert (E : forallb (path_exists st) (variants entry) = true).
    { rewrite forallb_forall. intros p Hp. rewrite Forall_forall in Hall.
      apply Hall, list_elem_of_In, Hp. }
    rewrite E. reflexivity.
Qed.

Lemma C5_hit_or_miss env downloaded h var_dir widths fmt qual st :
  (forall recorded,
     cache_hit st h = Some recorded ->
     ensure_variants_with_cache env downloaded h var_dir widths fmt qual st = (Ok recorded, st))
  /\ (cache_hit st h = None ->
      ensure_variants_with_cache env downloaded h var_dir widths fmt qual st
      = match make_variants env downloaded var_dir widths fmt qual st with
        | (Ok pairs, st1) =>
            (Ok (map snd pairs),
             set_manifest (<[h := {| original := downloaded;
                                     variants := map snd pairs;
                                     ts := clock st1 |}]> (manifest st1)) st1)
        | (Raise e, st1) => (Raise e, st1)
        end).
Proof.
  split.
  - intros recorded Hhit. unfold ensure_variants_with_cache.
    rewrite (bind_Ok_step _ _ st (cache_hit st h) st) by reflexivity.
    rewrite Hhit. reflexivity.
  - intros Hmiss. unfold ensure_variants_with_cache.
    rewrite (bind_Ok_step _ _ st (cache_hit st h) st) by reflexivity.
    rewrite Hmiss.
    destruct (make_variants env downloaded var_dir widths fmt qual st) as [[pairs|e] st1] eqn:E.
    + rewrite (bind_Ok_step _ _ _ _ _ E). reflexivity.
    + rewrite (bind_Raise_step _ _ _ _ _ E). reflexivity.
Qed.

(** C5. [ensure_variants_with_cache] returns the recorded variant paths
    unchanged, and changes nothing (no call to the variant generator, no
    file, no manifest update), exactly when the content hash is in the
    manifest and every recorded path exists; otherwise it runs the variant
    generator and, when that succeeds, records the original path, the fresh
    paths and the time under the content hash and returns the fresh
    paths. *)
Theorem C5_resolve_or_generate env downloaded h var_dir widths fmt qual st :
  (forall recorded,
     cache_hit st h = Some recorded <->
     exists entry, manifest st !! h = Some entry /\ variants entry = recorded
                   /\ Forall (fun p => path_exists st p = true) recorded)
  /\ (forall recorded,
        cache_hit st h = Some recorded ->
        ensure_variants_with_cache env downloaded h var_dir widths fmt qual st
        = (Ok recorded, st))
  /\ (cache_hit st h = None ->
        match make_variants env downloaded var_dir widths fmt qual st with
        | (Ok pairs, st1) =>
            ensure_variants_with_cache env downloaded h var_dir widths fmt qual st
            = (Ok (map snd pairs),
               set_manifest (<[h := {| original := downloaded;
                                       variants := map snd pairs;
                                       ts := clock st1 |}]> (manifest st1)) st1)
            /\ (length (pil_calls st) < length (pil_calls st1))%nat
        | (Raise e, st1) =>
            ensure_variants_with_cache env downloaded h var_dir widths fmt qual st
            = (Raise e, st1)
        end).
Proof.
  split; [intros recorded; apply cache_hit_Some|]. split.
  - exact (proj1 (C5_hit_or_miss env downloaded h var_dir widths fmt qual st)).
  - intros Hmiss.
    pose proof (proj2 (C5_hit_or_miss env downloaded h var_dir widths fmt qual st) Hmiss) as Hrun.
    destruct (make_variants env downloaded var_dir widths fmt qual st) as [[pairs|e] st1] eqn:E.
    + split; [exact Hrun|].
      apply make_variants_calls in E as [more ->]. rewrite length_app. simpl. lia.
    + exact Hrun.
Qed.

Lemma C7_width_ladder_witness :
  natural_size Sample.env Sample.site "/site/img/hero.jpg" = Some (1600, 900)
  /\ StronglySorted Z.lt [480; 800; 1200; 1600; 2000]
  /\ exists pairs st',
       make_variants Sample.env "/site/img/hero.jpg" "/site/images/responsive"
         [480; 800; 1200; 1600; 2000] "webp" 82 Sample.site = (Ok pairs, st')
       /\ widths_of pairs = [480; 800; 1200; 1600]
       /\ last (widths_of pairs) = Some 1600.
Proof.
  assert (Hn : natural_size Sample.env Sample.site "/site/img/hero.jpg" = Some (1600, 900))
    by (vm_compute; reflexivity).
  assert (Hs : StronglySorted Z.lt [480; 800; 1200; 1600; 2000])
    by (repeat constructor; lia).
  split; [exact Hn|]. split; [exact Hs|].
  destruct (make_variants Sample.env "/site/img/hero.jpg" "/site/images/responsive"
              [480; 800; 1200; 1600; 2000] "webp" 82 Sample.site) as [[pairs|e] st'] eqn:E;
    [|vm_compute in E; discriminate].
  exists pairs, st'. split; [reflexivity|].
  destruct (C7_width_ladder _ _ _ _ _ _ _ _ _ _ _ Hn Hs E) as (Hw & _ & _ & _ & Hl & _).
  split; [rewrite Hw; reflexivity | exact Hl].
Defined.

Lemma C5_resolve_or_generate_witness :
  let st := snd (ensure_variants_with_cache Sample.env "/site/img/hero.jpg" "0ddcdc8036c6"
                   "/site/images/responsive" [480; 800] "webp" 82 Sample.site) in
  cache_hit Sample.site "0ddcdc8036c6" = None
  /\ cache_hit st "0ddcdc8036c6"
     = Some ["/site/images/responsive/hero-480w.webp"; "/site/images/responsive/hero-800w.webp";
             "/site/images/responsive/hero-1600w.webp"]
  /\ ensure_variants_with_cache Sample.env "/site/img/hero.jpg" "0ddcdc8036c6"
       "/site/images/responsive" [480; 800] "webp" 82 st
     = (Ok ["/site/images/responsive/hero-480w.webp"; "/site/images/responsive/hero-800w.webp";
            "/site/images/responsive/hero-1600w.webp"], st).
Proof.
  intros st.
  assert (Hm : cache_hit Sample.site "0ddcdc8036c6" = None) by (vm_compute; reflexivity).
  assert (Hh : cache_hit st "0ddcdc8036c6"
     = Some ["/site/images/responsive/hero-480w.webp"; "/site/images/responsive/hero-800w.webp";
             "/site/images/responsive/hero-1600w.webp"]) by (vm_compute; reflexivity).
  split; [exact Hm|]. split; [exact Hh|].
  exact (proj1 (proj2 (C5_resolve_or_generate Sample.env "/site/img/hero.jpg" "0ddcdc8036c6"
                         "/site/images/responsive" [480; 800] "webp" 82 st)) _ Hh).
Defined.

(** ** The HTML rewriter and a failed fetch *)

Section HtmlFailure.

Variable env : Env.
Variable cfg : Config.
Variable dist_root html_dir : string.

Lemma download_fails url dest e st :
  requests_get env url = Raise e ->
  download_remote_image env url dest st = (Raise e, st).
Proof. intros H. unfold download_remote_image, bind, lift. rewrite H. reflexivity. Qed.

Lemma resolve_remote_fails src_abs e st :
  is_remote src_abs = true ->
  requests_get env src_abs = Raise e ->
  resolve_source env cfg dist_root html_dir src_abs st = (Raise e, st).
Proof.
  intros Hr He. unfold resolve_source. rewrite Hr.
  apply bind_Raise_step, download_fails, He.
Qed.

Lemma process_remote_fails src e st :
  is_remote (scheme_fix src) = true ->
  requests_get env (scheme_fix src) = Raise e ->
  process_one_image_url env cfg dist_root html_dir src st = (Raise e, st).
Proof.
  intros Hr He. unfold process_one_image_url.
  apply bind_Raise_step, resolve_remote_fails; assumption.
Qed.

(** C1, on the code: when the first [img] element of a document names a
    remote source whose fetch fails, [rewrite_img_tags] does not skip the
    element: the exception of the fetch leaves the two loops, no later
    element is looked at and the rewriting of the document is aborted. *)
Theorem C1_fetch_failure_aborts_document img rest src e st :
  download_images cfg = true ->
  tag_name img = "img" ->
  truthy_attr img "src" = Some src ->
  is_remote (scheme_fix src) = true ->
  requests_get env (scheme_fix src) = Raise e ->
  rewrite_soup env cfg dist_root html_dir (img :: rest) st = (Raise e, st).
Proof.
  intros Hd Hn Hs Hr He. unfold rewrite_soup, on_tags. simpl mapM. rewrite Hn. simpl.
  apply bind_Raise_step, bind_Raise_step.
  unfold rewrite_img. rewrite Hd, Hs. simpl.
  apply bind_Raise_step, process_remote_fails; assumption.
Qed.

End HtmlFailure.

Lemma C1_fetch_failure_aborts_document_witness :
  let broken := Sample.img [("src", "https://cdn.example.com/missing.png")] in
  let fine := Sample.img [("src", "img/hero.jpg")] in
  download_images Sample.cfg = true
  /\ tag_name broken = "img"
  /\ truthy_attr broken "src" = Some "https://cdn.example.com/missing.png"
  /\ is_remote (scheme_fix "https://cdn.example.com/missing.png") = true
  /\ requests_get Sample.env (scheme_fix "https://cdn.example.com/missing.png") = Raise RequestException
  /\ rewrite_soup Sample.env Sample.cfg "/site" "/site" [broken; fine] Sample.site
     = (Raise RequestException, Sample.site)
  /\ is_ok (fst (rewrite_soup Sample.env Sample.cfg "/site" "/site" [fine] Sample.site)) = true.
Proof.
  intros broken fine.
  assert (H1 : download_images Sample.cfg = true) by reflexivity.
  assert (H2 : tag_name broken = "img") by reflexivity.
  assert (H3 : truthy_attr broken "src" = Some "https://cdn.example.com/missing.png")
    by (vm_compute; reflexivity).
  assert (H4 : is_remote (scheme_fix "https://cdn.example.com/missing.png") = true)
    by (vm_compute; reflexivity).
  assert (H5 : requests_get Sample.env (scheme_fix "https://cdn.example.com/missing.png")
               = Raise RequestException) by (vm_compute; reflexivity).
  split; [exact H1|]. split; [exact H2|]. split; [exact H3|].
  split; [exact H4|]. split; [exact H5|]. split.
  - exact (C1_fetch_failure_aborts_document Sample.env Sample.cfg "/site" "/site"
             broken [fine] _ _ Sample.site H1 H2 H3 H4 H5).
  - vm_compute. reflexivity.
Defined.

(** ** The content store *)

Lemma append_inj_l (a x y : string) : a +:+ x = a +:+ y -> x = y.
Proof. induction a as [|c a IH]; simpl; [trivial|]. intros [= H]. auto. Qed.

Lemma hex_char_not_slash d : 0 <= d < 16 -> Sha1.hex_char d <> "/"%char.
Proof.
  intros Hd.
  assert (Hcases : d = 0 \/ d = 1 \/ d = 2 \/ d = 3 \/ d = 4 \/ d = 5 \/ d = 6 \/ d = 7
                   \/ d = 8 \/ d = 9 \/ d = 10 \/ d = 11 \/ d = 12 \/ d = 13 \/ d = 14
                   \/ d = 15) by lia.
  repeat (destruct Hcases as [->|Hcases]; [vm_compute; discriminate|]).
  subst d. vm_compute. discriminate.
Qed.

(** A content hash starts with a hexadecimal digit. *)
Lemma hash12_head data : exists c rest, hash12 data = String c rest /\ c <> "/"%char.
Proof.
  unfold hash12, Sha1.hexdigest.
  destruct (Sha1.digest _) as [[[[h0 h1] h2] h3] h4].
  unfold Text.chars, Text.str. rewrite list_ascii_of_string_of_list_ascii.
  cbn [Sha1.hex_word app firstn string_of_list_ascii].
  eexists _, _. split; [reflexivity|].
  apply hex_char_not_slash.
  change 15 with (Z.ones 4). rewrite Z.land_ones by lia.
  apply Z.mod_pos_bound. reflexivity.
Qed.

Lemma join_stored_inj dest h b1 b2 :
  Path.join dest (stored_name (hash12 h) b1) = Path.join dest (stored_name (hash12 h) b2) ->
  b1 = b2.
Proof.
  destruct (hash12_head h) as (c & rest & -> & Hc).
  assert (Hs : forall b, Text.startswith (stored_name (String c rest) b) "/" = false).
  { intros b.
    assert (E : Text.char_eqb "/" c = false).
    { destruct (Text.char_eqb "/" c) eqn:E; [|reflexivity].
      apply Ascii.eqb_eq in E. congruence. }
    unfold Text.startswith, stored_name, Text.chars.
    change (String c rest +:+ "-" +:+ b) with (String c (rest +:+ "-" +:+ b)).
    cbn [list_ascii_of_string]. cbn [Text.starts_with]. rewrite E. reflexivity. }
  unfold Path.join. rewrite !Hs.
  destruct (String.eqb dest "" || Text.endswith dest "/"); intros H.
  - apply append_inj_l in H. unfold stored_name in H.
    apply append_inj_l, append_inj_l in H. exact H.
  - apply append_inj_l, append_inj_l in H. unfold stored_name in H.
    apply append_inj_l, append_inj_l in H. exact H.
Qed.

Section Store.

Variable env : Env.

Lemma set_dirs_same st : set_dirs (dirs st) st = st.
Proof. destruct st. reflexivity. Qed.

Lemma path_exists_more_dirs d st p :
  path_exists st p = true -> path_exists (set_dirs (d ∪ dirs st) st) p = true.
Proof.
  unfold path_exists, is_file, is_dir, fs_key. simpl.
  intros H. apply orb_true_iff in H as [H|H]; apply orb_true_iff; [left; exact H|right].
  apply andb_true_iff in H as [H1 H2]. apply andb_true_iff. split; [exact H1|].
  apply bool_decide_eq_true in H2. apply bool_decide_eq_true. set_solver.
Qed.

Lemma store_bytes_Ok dest data base st out h st' :
  store_bytes dest data base st = (Ok (out, h), st') ->
  h = hash12 data
  /\ out = Path.join dest (stored_name (hash12 data) base)
  /\ path_exists st' out = true
  /\ cwd st' = cwd st /\ dirs st' = dirs st
  /\ (path_exists st out = true -> st' = st).
Proof.
  unfold store_bytes. intros H.
  inv_bind H as present s1 H1 H. unfold gets in H1. injection H1 as <- <-.
  destruct (path_exists st (Path.join dest (stored_name (hash12 data) base))) eqn:E.
  - inv_bind H as u s2 H2 H. inv_ret H2. inv_ret H. repeat split; auto.
  - inv_bind H as u s2 H2 H. inv_ret H.
    apply write_file_Ok in H2 as [-> Hne].
    split; [reflexivity|]. split; [reflexivity|].
    split; [|split; [reflexivity|split; [reflexivity|congruence]]].
    unfold path_exists, is_file, fs_key. simpl.
    apply orb_true_iff. left. apply andb_true_iff. split.
    + apply negb_true_iff, String.eqb_neq, Hne.
    + apply bool_decide_eq_true. unfold fs_key. rewrite lookup_insert_eq. eauto.
Qed.

(** Either ingestion makes the destination directory, then stores the
    bytes of the source under the slug of its name. *)
Lemma ingest_Ok s dest data st out h st' :
  source_bytes env st s = Some data ->
  ingest env s dest st = (Ok (out, h), st') ->
  exists st_a,
    ensure_dir dest st = (Ok tt, st_a)
    /\ store_bytes dest data (slugify_name (source_name s)) st_a = (Ok (out, h), st').
Proof.
  destruct s as [url|path]; simpl; intros Hb H.
  - unfold download_remote_image in H.
    destruct (requests_get env url) as [d|e] eqn:E; [|discriminate]. injection Hb as ->.
    inv_bind H as d' s1 H1 H. inv_ret H1.
    inv_bind H as u s2 H2 H. destruct u. eauto.
  - unfold import_local_image in H.
    inv_bind H as u s1 H1 H. destruct u.
    inv_bind H as d s2 H2 H. apply read_file_Ok in H2 as [-> H2].
    exists s1. split; [exact H1|].
    apply ensure_dir_Ok_exact in H1. subst s1. unfold fs_key in *. simpl in H2.
    rewrite Hb in H2. injection H2 as <-. exact H.
Qed.

Lemma ensure_dir_idle p st u st' :
  ensure_dir p st = (Ok u, st') -> dirs_above st p ⊆ dirs st -> st' = st.
Proof.
  intros H Hsub. apply ensure_dir_Ok_exact in H. subst st'.
  assert (Hd : dirs_above st p ∪ dirs st = dirs st) by set_solver.
  rewrite Hd. apply set_dirs_same.
Qed.

(** C2, as the code has it. Two ingestions of the same bytes, local or
    remote, yield the same content hash, and each stored path is the
    destination directory joined with the hash, a hyphen and the slug of
    the source's file name. When the two slugs are equal the paths are
    equal and the second ingestion changes nothing at all: one stored
    original, not rewritten; when the slugs differ the paths differ.
    Ingesting content whose destination already exists never rewrites
    it. *)
Theorem C2_content_addressing dest s1 s2 data st out1 h1 st1 out2 h2 st2 :
  source_bytes env st s1 = Some data ->
  source_bytes env st1 s2 = Some data ->
  ingest env s1 dest st = (Ok (out1, h1), st1) ->
  ingest env s2 dest st1 = (Ok (out2, h2), st2) ->
  h1 = hash12 data /\ h2 = hash12 data
  /\ out1 = Path.join dest (stored_name (hash12 data) (slugify_name (source_name s1)))
  /\ out2 = Path.join dest (stored_name (hash12 data) (slugify_name (source_name s2)))
  /\ (slugify_name (source_name s1) = slugify_name (source_name s2) ->
      out1 = out2 /\ st2 = st1)
  /\ (out1 = out2 -> slugify_name (source_name s1) = slugify_name (source_name s2))
  /\ (path_exists st out1 = true -> files st1 = files st).
Proof.
  intros Hb1 Hb2 H1 H2.
  destruct (ingest_Ok _ _ _ _ _ _ _ Hb1 H1) as (st_a & Hd1 & Hs1).
  destruct (ingest_Ok _ _ _ _ _ _ _ Hb2 H2) as (st_b & Hd2 & Hs2).
  destruct (store_bytes_Ok _ _ _ _ _ _ _ Hs1) as (-> & -> & Hex1 & Hc1 & Hdirs1 & Hkeep1).
  destruct (store_bytes_Ok _ _ _ _ _ _ _ Hs2) as (-> & -> & Hex2 & Hc2 & Hdirs2 & Hkeep2).
  pose proof (ensure_dir_Ok_exact _ _ _ _ Hd1) as Ea.
  split; [reflexivity|]. split; [reflexivity|]. split; [reflexivity|].
  split; [reflexivity|]. split; [|split].
  - intros Hslug. rewrite <- Hslug in *. split; [reflexivity|].
    assert (Hidle : st_b = st1).
    { apply (ensure_dir_idle _ _ _ _ Hd2).
      assert (Hk : fs_key st1 dest = fs_key st dest).
      { unfold fs_key. rewrite Hc1, Ea. reflexivity. }
      unfold dirs_above. rewrite Hk, Hdirs1, Ea. simpl. unfold dirs_above. set_solver. }
    subst st_b. apply Hkeep2, Hex1.
  - apply join_stored_inj.
  - intros Hex. rewrite (Hkeep1 (eq_ind_r (fun s => path_exists s _ = true)
                                   (path_exists_more_dirs _ _ _ Hex) Ea)).
    rewrite Ea. reflexivity.
Qed.

End Store.

Lemma C2_content_addressing_witness :
  let orig := "/site/images/original" in
  let s1 := Local "/site/img/hero.jpg" in
  let s2 := Local "/site/img/Hero.JPG" in
  let st1 := snd (ingest Sample.env s1 orig Sample.site) in
  let st2 := snd (ingest Sample.env s2 orig st1) in
  source_bytes Sample.env Sample.site s1 = Some Sample.wide
  /\ source_bytes Sample.env st1 s2 = Some Sample.wide
  /\ ingest Sample.env s1 orig Sample.site
     = (Ok ("/site/images/original/0ddcdc8036c6-hero.jpg", "0ddcdc8036c6"), st1)
  /\ ingest Sample.env s2 orig st1
     = (Ok ("/site/images/original/0ddcdc8036c6-hero.jpg", "0ddcdc8036c6"), st2)
  /\ st2 = st1.
Proof.
  intros orig s1 s2 st1 st2.
  assert (Hb1 : source_bytes Sample.env Sample.site s1 = Some Sample.wide)
    by (vm_compute; reflexivity).
  assert (Hb2 : source_bytes Sample.env st1 s2 = Some Sample.wide)
    by (vm_compute; reflexivity).
  assert (H1 : ingest Sample.env s1 orig Sample.site
     = (Ok ("/site/images/original/0ddcdc8036c6-hero.jpg", "0ddcdc8036c6"), st1))
    by (vm_compute; reflexivity).
  assert (H2 : ingest Sample.env s2 orig st1
     = (Ok ("/site/images/original/0ddcdc8036c6-hero.jpg", "0ddcdc8036c6"), st2))
    by (vm_compute; reflexivity).
  split; [exact Hb1|]. split; [exact Hb2|]. split; [exact H1|]. split; [exact H2|].
  destruct (C2_content_addressing Sample.env _ _ _ _ _ _ _ _ _ _ _ Hb1 Hb2 H1 H2)
    as (_ & _ & _ & _ & Hsame & _ & _).
  apply Hsame. vm_compute. reflexivity.
Defined.

(** C2 as stated fails: two local files with the same bytes and different
    names are stored twice, under two different original paths. *)
Lemma C2_same_bytes_two_originals :
  let orig := "/site/images/original" in
  let r1 := import_local_image "/site/img/hero.jpg" orig Sample.site in
  let r2 := import_local_image "/site/img/hero-copy.jpg" orig (snd r1) in
  files Sample.site !! "/site/img/hero.jpg" = files Sample.site !! "/site/img/hero-copy.jpg"
  /\ fst r1 = Ok ("/site/images/original/0ddcdc8036c6-hero.jpg", "0ddcdc8036c6")
  /\ fst r2 = Ok ("/site/images/original/0ddcdc8036c6-hero-copy.jpg", "0ddcdc8036c6")
  /\ List.filter (below orig) (map fst (map_to_list (files (snd r2))))
     = ["/site/images/original/0ddcdc8036c6-hero-copy.jpg";
        "/site/images/original/0ddcdc8036c6-hero.jpg"].
Proof. vm_compute. repeat split; reflexivity. Qed.

(** ** Loading the manifest *)

Lemma file_content_read st p data :
  file_content st p = Some data -> read_file p st = (Ok data, st).
Proof.
  unfold file_content. destruct (read_file p st) as [[d|e] st'] eqn:E; [|discriminate].
  intros [= ->]. apply read_file_Ok in E as [-> _]. reflexivity.
Qed.

Lemma file_content_exists st p data :
  file_content st p = Some data -> path_exists st p = true.
Proof.
  unfold file_content, read_file, path_exists, is_file.
  destruct (is_dir st p); [discriminate|].
  destruct (String.eqb p ""); [discriminate|].
  destruct (files st !! fs_key st p) eqn:E; [|discriminate].
  intros _. reflexivity.
Qed.

(** C3, as the code has it. Without a manifest file the run starts from
    the empty mapping. With a manifest file, [load_manifest] returns what
    the decoder returns: the parsed value when the file parses, and the
    decoder's exception, not the empty mapping, when it does not. *)
Theorem C3_manifest_load dist_root st :
  (path_exists st (manifest_path dist_root) = false ->
     load_manifest dist_root st = (Ok EMPTY_MANIFEST, st))
  /\ (forall data,
        file_content st (manifest_path dist_root) = Some data ->
        load_manifest dist_root st = (json_load data, st))
  /\ (forall data e,
        file_content st (manifest_path dist_root) = Some data ->
        json_load data = Raise e ->
        load_manifest dist_root st = (Raise e, st)
        /\ load_manifest dist_root st <> (Ok EMPTY_MANIFEST, st)).
Proof.
  assert (Hfile : forall data,
        file_content st (manifest_path dist_root) = Some data ->
        load_manifest dist_root st = (json_load data, st)).
  { intros data Hc. unfold load_manifest.
    rewrite (bind_Ok_step _ _ st true st)
      by (unfold gets; rewrite (file_content_exists _ _ _ Hc); reflexivity).
    rewrite (bind_Ok_step _ _ _ _ _ (file_content_read _ _ _ Hc)). reflexivity. }
  split; [|split].
  - intros Habsent. unfold load_manifest.
    rewrite (bind_Ok_step _ _ st false st) by (unfold gets; rewrite Habsent; reflexivity).
    reflexivity.
  - exact Hfile.
  - intros data e Hc He. rewrite (Hfile _ Hc), He. split; [reflexivity | discriminate].
Qed.

Lemma C3_manifest_load_witness :
  file_content Sample.interrupted (manifest_path "/site") = Some "{"
  /\ json_load "{" = Raise JSONDecodeError
  /\ load_manifest "/site" Sample.interrupted = (Raise JSONDecodeError, Sample.interrupted).
Proof.
  assert (Hc : file_content Sample.interrupted (manifest_path "/site") = Some "{")
    by (vm_compute; reflexivity).
  assert (He : json_load "{" = Raise JSONDecodeError) by (vm_compute; reflexivity).
  split; [exact Hc|]. split; [exact He|].
  exact (proj1 (proj2 (proj2 (C3_manifest_load "/site" Sample.interrupted)) _ _ Hc He)).
Defined.

(** C3 as stated fails: a manifest file that exists and does not parse
    makes [load_manifest] raise; the run does not start from the empty
    mapping. *)
Lemma C3_unparsable_manifest_raises :
  path_exists Sample.interrupted (manifest_path "/site") = true
  /\ is_ok (json_load "{") = false
  /\ fst (load_manifest "/site" Sample.interrupted) = Raise JSONDecodeError
  /\ fst (load_manifest "/site" Sample.interrupted) <> Ok EMPTY_MANIFEST
  /\ fst (main Sample.env Sample.idle Sample.cfg_plain "/site/export" "/site" Sample.interrupted)
     = Raise JSONDecodeError.
Proof.
  split; [vm_compute; reflexivity|]. split; [vm_compute; reflexivity|].
  split; [vm_compute; reflexivity|]. split; [vm_compute; discriminate|].
  vm_compute; reflexivity.
Qed.

(** ** The height of a resized variant *)

Lemma variant_height_min w h t hh : variant_height w h t = Ok hh -> 1 <= hh.
Proof.
  unfold variant_height, result_bind.
  repeat (case_match; try discriminate). intros [= <-]. lia.
Qed.

Section Heights.

Variable env : Env.

Lemma member_kept {A} (c : M A) call st r st' :
  pil_grows c -> c st = (r, st') -> call ∈ pil_calls st -> call ∈ pil_calls st'.
Proof.
  intros Hg H Hin. destruct (Hg _ _ _ H) as [more ->]. apply elem_of_app. left. exact Hin.
Qed.

Lemma make_one_variant_call img_path data out_dir stem ext w h qual target st made st' :
  make_one_variant env img_path data out_dir stem ext w h qual target st = (Ok made, st') ->
  target < w ->
  exists hh, variant_height w h target = Ok hh
    /\ PilResizeSave img_path (target, hh)
         (Path.join out_dir (variant_name stem target ext)) (pil_format_for ext)
         (if takes_quality ext then Some qual else None) ∈ pil_calls st'.
Proof.
  unfold make_one_variant. intros H Hlt.
  destruct (Z.leb_spec w target) as [Hge|_]; [lia|].
  inv_bind H as height s1 H1 H. unfold lift in H1. injection H1 as Hh <-.
  inv_bind H as u s2 H2 H. apply log_pil_Ok in H2. subst s2.
  exists height. split; [exact Hh|].
  refine (member_kept _ _ _ _ _ _ H _).
  - pil_steps.
  - simpl. apply elem_of_app. right. apply list_elem_of_singleton. reflexivity.
Qed.

Lemma make_all_variants_calls img_path data out_dir stem ext w h qual widths :
  forall st made st',
  mapM (make_one_variant env img_path data out_dir stem ext w h qual) widths st = (Ok made, st') ->
  forall target, target ∈ widths -> target < w ->
  exists hh, variant_height w h target = Ok hh
    /\ PilResizeSave img_path (target, hh)
         (Path.join out_dir (variant_name stem target ext)) (pil_format_for ext)
         (if takes_quality ext then Some qual else None) ∈ pil_calls st'.
Proof.
  induction widths as [|t widths IH]; intros st made st' H target Hin Hlt.
  - apply elem_of_nil in Hin. contradiction.
  - simpl in H. inv_bind H as one s1 H1 H. inv_bind H as rest s2 H2 H. inv_ret H.
    apply elem_of_cons in Hin as [->|Hin].
    + destruct (make_one_variant_call _ _ _ _ _ _ _ _ _ _ _ _ H1 Hlt) as (hh & Hh & Hc).
      exists hh. split; [exact Hh|].
      refine (member_kept _ _ _ _ _ _ H2 Hc).
      apply pil_grows_mapM. intros x. apply pil_grows_make_one.
    + exact (IH _ _ _ H2 _ Hin Hlt).
Qed.

End Heights.

(** C6, as the code has it. For a source image of natural size (w, h) and
    a requested width t below w, a successful run of the variant generator
    has resized to (t, max(1, int(h * (t / float(w))))): the product is
    computed in binary64 and truncated toward zero, not rounded to the
    nearest integer; the height is at least 1. *)
Theorem C6_resize_height env img_path out_dir widths fmt qual st pairs st' w h t :
  natural_size env st img_path = Some (w, h) ->
  make_variants env img_path out_dir widths fmt qual st = (Ok pairs, st') ->
  t ∈ widths -> t < w ->
  exists hh out_path format quality_kw,
    variant_height w h t = Ok hh
    /\ 1 <= hh
    /\ PilResizeSave img_path (t, hh) out_path format quality_kw ∈ pil_calls st'
    /\ (t, out_path) ∈ pairs.
Proof.
  intros Hn H Hin Hlt.
  pose proof (make_variants_Ok _ _ _ _ _ _ _ _ _ H) as (w' & h' & Hn' & Hpairs).
  rewrite Hn in Hn'. injection Hn' as <- <-.
  unfold make_variants in H.
  inv_bind H as u s1 H1 H. apply ensure_dir_Ok in H1 as [d ->].
  inv_bind H as u1 s2 H2 H. apply log_pil_Ok in H2. subst s2.
  inv_bind H as data s3 H3 H. apply read_file_Ok in H3 as [-> Hdata].
  inv_bind H as [w0 h0] s4 H4 H. unfold lift in H4. injection H4 as Hsize <-.
  assert (Hwh : (w0, h0) = (w, h)).
  { unfold natural_size, fs_key in Hn. unfold fs_key in Hdata. simpl in Hdata.
    rewrite Hdata, Hsize in Hn. congruence. }
  injection Hwh as -> ->.
  inv_bind H as made s5 H5 H.
  destruct (make_all_variants_calls _ _ _ _ _ _ _ _ _ _ _ _ _ H5 t Hin Hlt) as (hh & Hh & Hc).
  exists hh. eexists _, _, _. split; [exact Hh|]. split; [exact (variant_height_min _ _ _ _ Hh)|].
  split.
  - refine (member_kept _ _ _ _ _ _ H Hc). unfold copy2. pil_steps.
  - rewrite Hpairs. apply sort_by_width_elem. unfold ladder.
    apply elem_of_app. left. apply list_elem_of_fmap.
    exists t. split; [reflexivity|].
    apply list_elem_of_In, filter_In. split; [apply list_elem_of_In, Hin | apply Z.ltb_lt, Hlt].
Qed.

Lemma C6_resize_height_witness :
  natural_size Sample.env Sample.site "/site/img/photo.png" = Some (1000, 666)
  /\ 800 ∈ [480; 800; 1200; 1600; 2000]
  /\ 800 < 1000
  /\ exists pairs st',
       make_variants Sample.env "/site/img/photo.png" "/site/images/responsive"
         [480; 800; 1200; 1600; 2000] "webp" 82 Sample.site = (Ok pairs, st')
       /\ exists hh out_path format quality_kw,
            variant_height 1000 666 800 = Ok hh
            /\ 1 <= hh
            /\ PilResizeSave "/site/img/photo.png" (800, hh) out_path format quality_kw
               ∈ pil_calls st'
            /\ (800, out_path) ∈ pairs.
Proof.
  assert (Hn : natural_size Sample.env Sample.site "/site/img/photo.png" = Some (1000, 666))
    by (vm_compute; reflexivity).
  assert (Hin : 800 ∈ [480; 800; 1200; 1600; 2000]) by set_solver.
  assert (Hlt : 800 < 1000) by lia.
  split; [exact Hn|]. split; [exact Hin|]. split; [exact Hlt|].
  destruct (make_variants Sample.env "/site/img/photo.png" "/site/images/responsive"
              [480; 800; 1200; 1600; 2000] "webp" 82 Sample.site) as [[pairs|e] st'] eqn:E;
    [|vm_compute in E; discriminate].
  exists pairs, st'. split; [reflexivity|].
  exact (C6_resize_height _ _ _ _ _ _ _ _ _ _ _ _ Hn E Hin Hlt).
Defined.

(** C6 as stated fails: for a 1000 x 666 image and the requested width
    800 the specification's rounding gives 533 (from 532.8), the variant
    generator resizes to 800 x 532. *)
Lemma C6_height_is_truncated :
  spec_variant_height 1000 666 800 = 533
  /\ variant_height 1000 666 800 = Ok 532
  /\ nth 2 (pil_calls (snd (make_variants Sample.env "/site/img/photo.png"
                              "/site/images/responsive" [480; 800; 1200; 1600; 2000]
                              "webp" 82 Sample.site))) (PilOpen "")
     = PilResizeSave "/site/img/photo.png" (800, 532)
         "/site/images/responsive/photo-800w.webp" "WEBP" (Some 82).
Proof.
  split; [vm_compute; reflexivity|]. split; vm_compute; reflexivity.
Qed.

(** ** The attributes written on an [img] element *)

Lemma truthy_attr_Some tag name v :
  attrs tag !! name = Some v -> v <> "" -> truthy_attr tag name = Some v.
Proof.
  intros H Hne. unfold truthy_attr. rewrite H.
  apply String.eqb_neq in Hne. rewrite Hne. reflexivity.
Qed.

Lemma mid_index_lt n : (0 < n)%nat -> (mid_index n < n)%nat.
Proof. unfold mid_index. lia. Qed.

(** C8, as the code has it. For an [img] element whose source resolves to
    a non-empty list of pairs, the rewriter sets [src] to the quoted
    relative path of the pair at index len//2 (clamped to the last index),
    sets [srcset] to every pair rendered as the quoted relative path, a
    space, the width and [w], joined by a comma and a space, and sets the
    default [sizes] when the element has no [sizes] attribute or an empty
    one; a non-empty [sizes] is kept. *)
Theorem C8_img_rewrite env cfg dist_root html_dir img src pairs st st' :
  download_images cfg = true ->
  attrs img !! "src" = Some src ->
  src <> "" ->
  process_one_image_url env cfg dist_root html_dir src st = (Ok (Some pairs), st') ->
  pairs <> [] ->
  exists mid img',
    pairs !! Nat.min (length pairs / 2) (length pairs - 1) = Some mid
    /\ rewrite_img env cfg dist_root html_dir img st = (Ok (img', true), st')
    /\ tag_name img' = tag_name img
    /\ attrs img'
       = let rel := fun p => Url.quote (Path.relpath (cwd st') p html_dir) "/:" in
         let written :=
           <["srcset" := Text.join ", "
                (map (fun wp => rel (snd wp) +:+ " " +:+ Text.str_of_Z (fst wp) +:+ "w") pairs)]>
             (<["src" := rel (snd mid)]> (attrs img)) in
         match attrs img !! "sizes" with
         | Some v => if String.eqb v "" then <["sizes" := DEFAULT_SIZES]> written else written
         | None => <["sizes" := DEFAULT_SIZES]> written
         end.
Proof.
  intros Hd Hsrc Hne Hp Hpairs.
  assert (Hlt : (mid_index (length pairs) < length pairs)%nat).
  { apply mid_index_lt. destruct pairs; [contradiction | simpl; lia]. }
  destruct (lookup_lt_is_Some_2 pairs _ Hlt) as [mid Hmid].
  exists mid.
  assert (Hrun : exists img',
    rewrite_img env cfg dist_root html_dir img st = (Ok (img', true), st')
    /\ img' = let img2 := set_attr "srcset" (srcset_of (cwd st') html_dir pairs)
                            (set_attr "src" (rel_quoted (cwd st') html_dir (snd mid)) img) in
              match truthy_attr img2 "sizes" with
              | Some _ => img2
              | None => set_attr "sizes" DEFAULT_SIZES img2
              end).
  { eexists. split; [|reflexivity].
    unfold rewrite_img. rewrite Hd, (truthy_attr_Some _ _ _ Hsrc Hne).
    change (negb true) with false. cbv iota.
    rewrite (bind_Ok_step _ _ _ _ _ Hp).
    destruct pairs as [|p0 pairs0] eqn:Ep; [contradiction|]. rewrite <- Ep in *.
    rewrite (bind_Ok_step _ _ st' (cwd st') st') by reflexivity.
    rewrite (nth_lookup_Some _ _ _ _ Hmid). reflexivity. }
  destruct Hrun as (img' & Hrun & ->). eexists. split; [exact Hmid|]. split; [exact Hrun|].
  unfold truthy_attr, set_attr. simpl attrs.
  rewrite lookup_insert_ne by discriminate. rewrite lookup_insert_ne by discriminate.
  unfold rel_quoted, srcset_of, srcset_part.
  destruct (attrs img !! "sizes") as [v|] eqn:Es.
  - destruct (String.eqb v ""); split; reflexivity.
  - split; reflexivity.
Qed.

Lemma C8_img_rewrite_witness :
  let img := Sample.img [("src", "img/hero.jpg"); ("sizes", "50vw")] in
  let pairs := [(480, "/site/images/responsive/0ddcdc8036c6-hero-480w.webp");
                (800, "/site/images/responsive/0ddcdc8036c6-hero-800w.webp");
                (1200, "/site/images/responsive/0ddcdc8036c6-hero-1200w.webp");
                (1600, "/site/images/responsive/0ddcdc8036c6-hero-1600w.webp")] in
  let st' := snd (process_one_image_url Sample.env Sample.cfg "/site" "/site" "img/hero.jpg"
                    Sample.site) in
  download_images Sample.cfg = true
  /\ attrs img !! "src" = Some "img/hero.jpg"
  /\ "img/hero.jpg" <> ""
  /\ process_one_image_url Sample.env Sample.cfg "/site" "/site" "img/hero.jpg" Sample.site
     = (Ok (Some pairs), st')
  /\ pairs <> []
  /\ exists img',
       rewrite_img Sample.env Sample.cfg "/site" "/site" img Sample.site = (Ok (img', true), st')
       /\ map_to_list (attrs img')
          = [("sizes", "50vw");
             ("srcset", "images/responsive/0ddcdc8036c6-hero-480w.webp 480w, images/responsive/0ddcdc8036c6-hero-800w.webp 800w, images/responsive/0ddcdc8036c6-hero-1200w.webp 1200w, images/responsive/0ddcdc8036c6-hero-1600w.webp 1600w");
             ("src", "images/responsive/0ddcdc8036c6-hero-1200w.webp")].
Proof.
  intros img pairs st'.
  assert (H1 : download_images Sample.cfg = true) by reflexivity.
  assert (H2 : attrs img !! "src" = Some "img/hero.jpg") by (vm_compute; reflexivity).
  assert (H3 : "img/hero.jpg" <> "") by discriminate.
  assert (H4 : process_one_image_url Sample.env Sample.cfg "/site" "/site" "img/hero.jpg"
                 Sample.site = (Ok (Some pairs), st')) by (vm_compute; reflexivity).
  assert (H5 : pairs <> []) by discriminate.
  split; [exact H1|]. split; [exact H2|]. split; [exact H3|]. split; [exact H4|].
  split; [exact H5|].
  destruct (C8_img_rewrite Sample.env Sample.cfg "/site" "/site" img _ _ _ _ H1 H2 H3 H4 H5)
    as (mid & img' & Hmid & Hrun & _ & Hattrs).
  exists img'. split; [exact Hrun|].
  injection Hmid as <-. rewrite Hattrs. vm_compute. reflexivity.
Defined.

(** C8 as stated fails on the [sizes] rule: an element that has a [sizes]
    attribute, with an empty value, gets the default one. *)
Lemma C8_empty_sizes_replaced :
  let img := Sample.img [("src", "img/hero.jpg"); ("sizes", "")] in
  attrs img !! "sizes" = Some ""
  /\ match fst (rewrite_img Sample.env Sample.cfg "/site" "/site" img Sample.site) with
     | Ok (img', changed) =>
         changed = true /\ attrs img' !! "sizes" = Some "(max-width: 1200px) 100vw, 1200px"
     | Raise _ => False
     end.
Proof. vm_compute. split; [reflexivity|]. split; reflexivity. Qed.

(** ** The file-name pattern of the HTML rewriter *)

Module WidthFacts.

Import Text Width.

#[local] Arguments char_eqb : simpl never.
#[local] Arguments is_digit : simpl never.

Lemma char_eqb_eq a b : char_eqb a b = true <-> a = b.
Proof. unfold char_eqb. apply Ascii.eqb_eq. Qed.

Lemma take_digits_prefix l : l = take_digits l ++ skipn (length (take_digits l)) l.
Proof.
  induction l as [|c l IH]; [reflexivity|]. simpl.
  destruct (is_digit c); [|reflexivity]. simpl. f_equal. exact IH.
Qed.

Lemma take_digits_digits l : Forall (fun c => is_digit c = true) (take_digits l).
Proof.
  induction l as [|c l IH]; simpl; [constructor|].
  destruct (is_digit c) eqn:E; constructor; assumption.
Qed.

Lemma take_digits_app ds c rest :
  Forall (fun c => is_digit c = true) ds -> is_digit c = false ->
  take_digits (ds ++ c :: rest) = ds.
Proof.
  intros Hd Hc. induction Hd as [|d ds Hd _ IH]; simpl.
  - rewrite Hc. reflexivity.
  - rewrite Hd, IH. reflexivity.
Qed.

Lemma match_head_Some l ds rest :
  match_head l = Some (ds, rest) <->
  l = dash :: ds ++ wc :: dotc :: rest /\ ds <> [] /\ Forall (fun c => is_digit c = true) ds.
Proof.
  split.
  - destruct l as [|c l1]; [discriminate|]. simpl.
    destruct (char_eqb "-" c) eqn:Ec; [|discriminate]. apply char_eqb_eq in Ec. subst c.
    pose proof (take_digits_prefix l1) as Hp. pose proof (take_digits_digits l1) as Hd.
    destruct (take_digits l1) as [|d ds0] eqn:Et; [discriminate|].
    simpl length in Hp.
    destruct (drop (S (length ds0)) l1) as [|c1 [|c2 rest0]] eqn:Es; try discriminate.
    destruct (char_eqb "w" c1 && char_eqb "." c2) eqn:Ew; [|discriminate].
    apply andb_true_iff in Ew as [E1 E2]. apply char_eqb_eq in E1, E2. subst c1 c2.
    intros [= <- <-]. split; [|split; [discriminate | exact Hd]].
    unfold dash. f_equal. exact Hp.
  - intros (-> & Hne & Hd). simpl. change (char_eqb "-" dash) with true. cbv iota.
    rewrite (take_digits_app ds wc (dotc :: rest) Hd) by reflexivity.
    destruct ds as [|d ds0]; [contradiction|]. simpl.
    rewrite drop_app_length. reflexivity.
Qed.

Lemma dotless_suffix_true l :
  dotless_suffix l = true <-> l <> [] /\ Forall (fun c => c <> dotc) l.
Proof.
  unfold dotless_suffix. destruct l as [|c l]; [split; [discriminate | intros [H _]; contradiction]|].
  rewrite forallb_forall, Forall_forall. split.
  - intros H. split; [discriminate|]. intros x Hx Heq. subst x.
    apply list_elem_of_In in Hx. specialize (H _ Hx). discriminate.
  - intros [_ H] x Hx. apply negb_true_iff. destruct (char_eqb "." x) eqn:E; [|reflexivity].
    apply char_eqb_eq in E. subst x. exfalso. apply (H dotc); [apply list_elem_of_In, Hx | reflexivity].
Qed.

Lemma search_anchored_unfold l :
  search_anchored l
  = match match_head l with
    | Some (ds, rest) =>
        if dotless_suffix rest then Some (Z_of_digits ds)
        else match l with [] => None | _ :: l' => search_anchored l' end
    | None => match l with [] => None | _ :: l' => search_anchored l' end
    end.
Proof. destruct l; reflexivity. Qed.

(** A string has one way at most to be cut at a dot that no dot follows. *)
Lemma last_dot_unique a b a' b' :
  a ++ dotc :: b = a' ++ dotc :: b' ->
  Forall (fun c => c <> dotc) b -> Forall (fun c => c <> dotc) b' ->
  a = a' /\ b = b'.
Proof.
  revert a'. induction a as [|x a IH]; intros [|y a'] H Hb Hb'; simpl in H.
  - injection H as ->. auto.
  - injection H as <- ->. exfalso.
    rewrite Forall_app, Forall_cons in Hb. tauto.
  - injection H as -> <-. exfalso.
    rewrite Forall_app, Forall_cons in Hb'. tauto.
  - injection H as <- H. destruct (IH _ H Hb Hb') as [-> ->]. auto.
Qed.

Lemma search_anchored_sound l n : search_anchored l = Some n -> width_pattern l n.
Proof.
  induction l as [|c l IH]; rewrite search_anchored_unfold.
  - simpl. discriminate.
  - assert (Htail : search_anchored l = Some n -> width_pattern (c :: l) n).
    { intros H. destruct (IH H) as (pre & ds & suf & -> & Hrest).
      exists (c :: pre), ds, suf. split; [reflexivity | exact Hrest]. }
    destruct (match_head (c :: l)) as [[ds rest]|] eqn:E; [|exact Htail].
    destruct (dotless_suffix rest) eqn:Ed; [|exact Htail].
    intros [= <-]. apply match_head_Some in E as (E & Hne & Hd).
    apply dotless_suffix_true in Ed as [Hs Hdot].
    exists [], ds, rest. repeat split; assumption.
Qed.

Lemma search_anchored_complete pre ds suf :
  ds <> [] -> Forall (fun c => is_digit c = true) ds ->
  suf <> [] -> Forall (fun c => c <> dotc) suf ->
  search_anchored (pre ++ dash :: ds ++ wc :: dotc :: suf) = Some (Z_of_digits ds).
Proof.
  intros Hne Hd Hs Hdot.
  assert (Hm : match_head (dash :: ds ++ wc :: dotc :: suf) = Some (ds, suf))
    by (apply match_head_Some; auto).
  assert (Hsuf : dotless_suffix suf = true) by (apply dotless_suffix_true; auto).
  induction pre as [|c pre IH]; rewrite search_anchored_unfold.
  - simpl app. rewrite Hm, Hsuf. reflexivity.
  - destruct (match_head ((c :: pre) ++ dash :: ds ++ wc :: dotc :: suf))
      as [[ds0 rest0]|] eqn:E; [|exact IH].
    destruct (dotless_suffix rest0) eqn:Ed; [|exact IH]. exfalso.
    apply match_head_Some in E as (E & _ & Hd0).
    apply dotless_suffix_true in Ed as [_ Hdot0].
    assert (E' : (c :: pre ++ dash :: ds ++ [wc]) ++ dotc :: suf
                 = (dash :: ds0 ++ [wc]) ++ dotc :: rest0).
    { simpl in E. repeat (rewrite <- app_assoc || simpl). exact E. }
    destruct (last_dot_unique _ _ _ _ E' Hdot Hdot0) as [Hpre _].
    injection Hpre as _ Hpre.
    change (pre ++ dash :: ds ++ [wc]) with (pre ++ (dash :: ds) ++ [wc]) in Hpre.
    rewrite app_assoc in Hpre. apply app_inj_tail in Hpre as [Hpre _].
    rewrite <- Hpre in Hd0. rewrite Forall_app, Forall_cons in Hd0.
    destruct Hd0 as [_ [Hdash _]]. discriminate.
Qed.

(** [re.search] with the anchored pattern finds a width exactly when the
    name has the shape of the pattern. *)
Lemma search_anchored_spec l n : search_anchored l = Some n <-> width_pattern l n.
Proof.
  split; [apply search_anchored_sound|].
  intros (pre & ds & suf & -> & Hne & Hd & Hs & Hdot & ->).
  apply search_anchored_complete; assumption.
Qed.

Lemma search_anchored_None l : search_anchored l = None <-> forall n, ~ width_pattern l n.
Proof.
  split.
  - intros H n Hp. apply search_anchored_spec in Hp. congruence.
  - intros H. destruct (search_anchored l) as [n|] eqn:E; [|reflexivity].
    exfalso. apply (H n), search_anchored_spec, E.
Qed.

End WidthFacts.

(** ** Files only accumulate while variants are made *)

Lemma fs_grows_same {A} (c : M A) :
  (forall st, cwd (snd (c st)) = cwd st /\ files (snd (c st)) = files st) -> fs_grows c.
Proof.
  intros Hc st r st' H. specialize (Hc st). rewrite H in Hc. simpl in Hc.
  destruct Hc as [-> ->]. auto.
Qed.

Lemma fs_grows_bind {A B} (c : M A) (k : A -> M B) :
  fs_grows c -> (forall a, fs_grows (k a)) -> fs_grows (bind c k).
Proof.
  intros Hc Hk st r st' H. unfold bind in H.
  destruct (c st) as [[a|e] st1] eqn:E.
  - destruct (Hc _ _ _ E) as [C1 F1]. destruct (Hk a _ _ _ H) as [C2 F2].
    split; [congruence | auto].
  - injection H as _ <-. exact (Hc _ _ _ E).
Qed.

Lemma fs_grows_ret {A} (a : A) : fs_grows (ret a).
Proof. apply fs_grows_same. auto. Qed.
Lemma fs_grows_lift {A} (r : result A) : fs_grows (lift r).
Proof. apply fs_grows_same. auto. Qed.
Lemma fs_grows_gets {A} (f : State -> A) : fs_grows (gets f).
Proof. apply fs_grows_same. auto. Qed.
Lemma fs_grows_log c : fs_grows (log_pil c).
Proof. apply fs_grows_same. auto. Qed.
Lemma fs_grows_read p : fs_grows (read_file p).
Proof. apply fs_grows_same. intros st. unfold read_file. repeat case_match; auto. Qed.
Lemma fs_grows_ensure_dir p : fs_grows (ensure_dir p).
Proof. apply fs_grows_same. intros st. unfold ensure_dir. repeat case_match; auto. Qed.
Lemma fs_grows_write p d : fs_grows (write_file p d).
Proof.
  intros st r st' H. unfold write_file in H.
  repeat case_match; injection H as _ <-; simpl; (split; [reflexivity|]); auto.
  intros k Hk. destruct (decide (fs_key st p = k)) as [->|Hne].
  - rewrite lookup_insert_eq. eauto.
  - rewrite lookup_insert_ne by exact Hne. exact Hk.
Qed.

Lemma fs_grows_mapM {A B} (f : A -> M B) l :
  (forall x, fs_grows (f x)) -> fs_grows (mapM f l).
Proof.
  intros Hf. induction l as [|x l IH]; simpl.
  - apply fs_grows_ret.
  - apply fs_grows_bind; [apply Hf|]. intros y.
    apply fs_grows_bind; [apply IH|]. intros ys. apply fs_grows_ret.
Qed.

#[local] Hint Resolve fs_grows_ret fs_grows_lift fs_grows_gets fs_grows_read
  fs_grows_write fs_grows_ensure_dir fs_grows_log : pil.

Ltac fs_steps :=
  repeat first
    [ apply fs_grows_bind; [|intros ?]
    | solve [auto with pil]
    | match goal with |- fs_grows (if ?b then _ else _) => destruct b end
    | match goal with |- fs_grows (match ?x with _ => _ end) => destruct x end ].

Lemma is_file_kept {A} (c : M A) p st r st' :
  fs_grows c -> c st = (r, st') -> is_file st p = true -> is_file st' p = true.
Proof.
  intros Hg H Hf. destruct (Hg _ _ _ H) as [Hc Hk].
  unfold is_file, fs_key in *. rewrite Hc.
  apply andb_true_iff in Hf as [H1 H2]. apply andb_true_iff. split; [exact H1|].
  apply bool_decide_eq_true in H2. apply bool_decide_eq_true. auto.
Qed.

Lemma write_file_is_file p data st u st' :
  write_file p data st = (Ok u, st') -> is_file st' p = true.
Proof.
  intros H. apply write_file_Ok in H as [-> Hne].
  unfold is_file, fs_key. simpl. apply andb_true_iff. split.
  - apply negb_true_iff, String.eqb_neq, Hne.
  - apply bool_decide_eq_true. rewrite lookup_insert_eq. eauto.
Qed.

Section OnDisk.

Variable env : Env.

Lemma fs_grows_make_one img_path data out_dir stem ext w h qual target :
  fs_grows (make_one_variant env img_path data out_dir stem ext w h qual target).
Proof. unfold make_one_variant. fs_steps. Qed.

Lemma make_one_variant_file img_path data out_dir stem ext w h qual target st made st' :
  make_one_variant env img_path data out_dir stem ext w h qual target st = (Ok made, st') ->
  Forall (fun wp => is_file st' (snd wp) = true) made.
Proof.
  unfold make_one_variant. intros H.
  destruct (w <=? target).
  - inv_ret H. constructor.
  - inv_bind H as height s1 H1 H. inv_ret H1.
    inv_bind H as u s2 H2 H. inv_bind H as bytes s3 H3 H. inv_ret H3.
    inv_bind H as u' s4 H4 H. inv_ret H.
    repeat constructor. simpl. exact (write_file_is_file _ _ _ _ _ H4).
Qed.

Lemma make_all_variants_files img_path data out_dir stem ext w h qual widths :
  forall st made st',
  mapM (make_one_variant env img_path data out_dir stem ext w h qual) widths st = (Ok made, st') ->
  Forall (fun wp => is_file st' (snd wp) = true) (concat made).
Proof.
  induction widths as [|t widths IH]; intros st made st' H; simpl in H.
  - inv_ret H. constructor.
  - inv_bind H as one s1 H1 H. inv_bind H as rest s2 H2 H. inv_ret H. simpl.
    apply Forall_app. split; [|exact (IH _ _ _ H2)].
    apply make_one_variant_file in H1. rewrite Forall_forall in *.
    intros wp Hwp. refine (is_file_kept _ _ _ _ _ _ H2 (H1 _ Hwp)).
    apply fs_grows_mapM. intros x. apply fs_grows_make_one.
Qed.

Lemma Forall_sort_by_width (P : Z * string -> Prop) l :
  Forall P l -> Forall P (sort_by_width l).
Proof.
  intros H. induction H as [|x l Hx H IH]; simpl; [constructor|].
  rewrite Forall_forall in *. intros y Hy.
  apply insert_by_width_elem in Hy as [->|Hy]; auto.
Qed.

(** Every path that [make_variants] returns is a file afterwards. *)
Lemma make_variants_files img_path out_dir widths fmt qual st pairs st' :
  make_variants env img_path out_dir widths fmt qual st = (Ok pairs, st') ->
  Forall (fun wp => is_file st' (snd wp) = true) pairs.
Proof.
  unfold make_variants. intros H.
  inv_bind H as u s1 H1 H. inv_bind H as u1 s2 H2 H.
  inv_bind H as data s3 H3 H. inv_bind H as [w h] s4 H4 H.
  inv_bind H as made s5 H5 H. apply make_all_variants_files in H5.
  inv_bind H as u2 s6 H6 H. inv_ret H.
  apply Forall_sort_by_width, Forall_app. split.
  - rewrite Forall_forall in *. intros wp Hwp. refine (is_file_kept _ _ _ _ _ _ H6 (H5 _ Hwp)).
    unfold copy2. fs_steps.
  - repeat constructor. simpl.
    destruct (String.eqb fmt "keep").
    + unfold copy2 in H6. inv_bind H6 as d s7 H7 H6. apply read_file_Ok in H7 as [-> _].
      exact (write_file_is_file _ _ _ _ _ H6).
    + inv_bind H6 as u3 s7 H7 H6. inv_bind H6 as bytes s8 H8 H6. inv_ret H8.
      exact (write_file_is_file _ _ _ _ _ H6).
Qed.

(** What [ensure_variants_with_cache] returns is recorded under the
    content hash and exists on disk. *)
Lemma ensure_variants_recorded downloaded h var_dir widths fmt qual st paths st' :
  ensure_variants_with_cache env downloaded h var_dir widths fmt qual st = (Ok paths, st') ->
  (exists entry, manifest st' !! h = Some entry /\ variants entry = paths)
  /\ Forall (fun p => path_exists st' p = true) paths.
Proof.
  intros H.
  destruct (C5_hit_or_miss env downloaded h var_dir widths fmt qual st) as [Hhit Hmiss].
  destruct (cache_hit st h) as [recorded|] eqn:E.
  - rewrite (Hhit _ eq_refl) in H. injection H as <- <-.
    apply cache_hit_Some in E as (entry & Hm & Hv & Hall). eauto.
  - specialize (Hmiss eq_refl).
    destruct (make_variants env downloaded var_dir widths fmt qual st) as [[pairs|e] st1] eqn:Em.
    + rewrite Hmiss in H. injection H as <- <-. simpl. split.
      * rewrite lookup_insert_eq. eauto.
      * apply make_variants_files in Em. rewrite Forall_forall in Em.
        rewrite Forall_forall. intros p Hp. apply list_elem_of_fmap in Hp as (wp & -> & Hwp).
        unfold path_exists. apply orb_true_iff. left. exact (Em _ Hwp).
    + rewrite Hmiss in H. discriminate.
Qed.

End OnDisk.

(** ** Variant paths whose names do not carry a width *)

Lemma sort_by_width_elem_iff x l : x ∈ sort_by_width l <-> x ∈ l.
Proof.
  induction l as [|y l IH]; simpl; [reflexivity|].
  rewrite insert_by_width_elem, elem_of_cons, IH. reflexivity.
Qed.

Lemma pairs_of_paths_elem variant_paths n p :
  (n, p) ∈ pairs_of_paths variant_paths <->
  p ∈ variant_paths /\ width_pattern (Text.chars (Path.basename p)) n.
Proof.
  unfold pairs_of_paths. rewrite sort_by_width_elem_iff, list_elem_of_omap. split.
  - intros (q & Hq & Hf).
    destruct (Width.search_anchored (Text.chars (Path.basename q))) as [m|] eqn:E; [|discriminate].
    injection Hf as -> ->. split; [exact Hq|]. apply WidthFacts.search_anchored_spec, E.
  - intros [Hp Hw]. exists p. split; [exact Hp|].
    apply WidthFacts.search_anchored_spec in Hw. rewrite Hw. reflexivity.
Qed.

Lemma pairs_of_paths_nil variant_paths :
  (forall p n, p ∈ variant_paths -> ~ width_pattern (Text.chars (Path.basename p)) n) ->
  pairs_of_paths variant_paths = [].
Proof.
  intros H. destruct (pairs_of_paths variant_paths) as [|[n p] l] eqn:E; [reflexivity|].
  exfalso. assert (Hin : (n, p) ∈ pairs_of_paths variant_paths) by (rewrite E; left).
  apply pairs_of_paths_elem in Hin as [Hp Hw]. exact (H _ _ Hp Hw).
Qed.

(** C10. The HTML rewriter rebuilds its (width, path) pairs from the
    variant paths alone: a pair (n, p) is kept exactly when p is one of
    the paths and its base name has the shape hyphen, digits, [w.], suffix
    without a dot, with n the number the digits denote; every other path
    is dropped. When no path has that shape the element is left as it
    was, although the variants are recorded in the manifest under the
    content hash and exist on disk. This happens with the format [keep]
    and an original without extension, whose variants are named with a
    bare dot at the end. *)
Theorem C10_unmatched_variants_dropped env cfg dist_root html_dir :
  (forall variant_paths n p,
     (n, p) ∈ pairs_of_paths variant_paths <->
     p ∈ variant_paths /\ width_pattern (Text.chars (Path.basename p)) n)
  /\ (forall img src st downloaded h st1 variant_paths st2,
        download_images cfg = true ->
        attrs img !! "src" = Some src ->
        src <> "" ->
        resolve_source env cfg dist_root html_dir (scheme_fix src) st
        = (Ok (Some (downloaded, h)), st1) ->
        cached_variants env cfg dist_root downloaded h st1 = (Ok variant_paths, st2) ->
        (forall p n, p ∈ variant_paths -> ~ width_pattern (Text.chars (Path.basename p)) n) ->
        rewrite_img env cfg dist_root html_dir img st = (Ok (img, false), st2)
        /\ (exists entry, manifest st2 !! h = Some entry /\ variants entry = variant_paths)
        /\ Forall (fun p => path_exists st2 p = true) variant_paths)
  /\ (let img := Sample.img [("src", "img/logo")] in
      let run := rewrite_img Sample.env Sample.cfg_keep "/site" "/site" img Sample.site in
      variant_ext "keep" "/site/images/original/0d858ee65ef1-logo" = ""
      /\ fst run = Ok (img, false)
      /\ variants <$> manifest (snd run) !! "0d858ee65ef1"
         = Some ["/site/images/responsive/0d858ee65ef1-logo-300w."]
      /\ is_file (snd run) "/site/images/responsive/0d858ee65ef1-logo-300w." = true).
Proof.
  split; [exact pairs_of_paths_elem|]. split.
  - intros img src st downloaded h st1 variant_paths st2 Hd Hsrc Hne Hres Hcache Hnone.
    split; [|exact (ensure_variants_recorded _ _ _ _ _ _ _ _ _ _ Hcache)].
    unfold rewrite_img. rewrite Hd, (truthy_attr_Some _ _ _ Hsrc Hne).
    change (negb true) with false. cbv iota.
    assert (Hp : process_one_image_url env cfg dist_root html_dir src st
                 = (Ok (match variant_paths with [] => None | _ => Some [] end), st2)).
    { unfold process_one_image_url.
      rewrite (bind_Ok_step _ _ _ _ _ Hres). cbv iota beta.
      rewrite (bind_Ok_step _ _ _ _ _ Hcache).
      rewrite (pairs_of_paths_nil _ Hnone). destruct variant_paths; reflexivity. }
    rewrite (bind_Ok_step _ _ _ _ _ Hp). destruct variant_paths; reflexivity.
  - vm_compute. repeat split; reflexivity.
Qed.

Lemma C10_unmatched_variants_dropped_witness :
  let img := Sample.img [("src", "img/logo")] in
  let st1 := snd (resolve_source Sample.env Sample.cfg_keep "/site" "/site" "img/logo" Sample.site) in
  let paths := ["/site/images/responsive/0d858ee65ef1-logo-300w."] in
  let st2 := snd (cached_variants Sample.env Sample.cfg_keep "/site"
                    "/site/images/original/0d858ee65ef1-logo" "0d858ee65ef1" st1) in
  download_images Sample.cfg_keep = true
  /\ attrs img !! "src" = Some "img/logo"
  /\ "img/logo" <> ""
  /\ resolve_source Sample.env Sample.cfg_keep "/site" "/site" (scheme_fix "img/logo") Sample.site
     = (Ok (Some ("/site/images/original/0d858ee65ef1-logo", "0d858ee65ef1")), st1)
  /\ cached_variants Sample.env Sample.cfg_keep "/site"
       "/site/images/original/0d858ee65ef1-logo" "0d858ee65ef1" st1 = (Ok paths, st2)
  /\ (forall p n, p ∈ paths -> ~ width_pattern (Text.chars (Path.basename p)) n)
  /\ rewrite_img Sample.env Sample.cfg_keep "/site" "/site" img Sample.site = (Ok (img, false), st2)
  /\ Forall (fun p => path_exists st2 p = true) paths.
Proof.
  intros img st1 paths st2.
  assert (H1 : download_images Sample.cfg_keep = true) by reflexivity.
  assert (H2 : attrs img !! "src" = Some "img/logo") by (vm_compute; reflexivity).
  assert (H3 : "img/logo" <> "") by discriminate.
  assert (H4 : resolve_source Sample.env Sample.cfg_keep "/site" "/site" (scheme_fix "img/logo")
                 Sample.site
               = (Ok (Some ("/site/images/original/0d858ee65ef1-logo", "0d858ee65ef1")), st1))
    by (vm_compute; reflexivity).
  assert (H5 : cached_variants Sample.env Sample.cfg_keep "/site"
                 "/site/images/original/0d858ee65ef1-logo" "0d858ee65ef1" st1 = (Ok paths, st2))
    by (vm_compute; reflexivity).
  assert (H6 : forall p n, p ∈ paths -> ~ width_pattern (Text.chars (Path.basename p)) n).
  { intros p n Hp Hw. apply list_elem_of_singleton in Hp. subst p.
    apply WidthFacts.search_anchored_spec in Hw. vm_compute in Hw. discriminate. }
  split; [exact H1|]. split; [exact H2|]. split; [exact H3|]. split; [exact H4|].
  split; [exact H5|]. split; [exact H6|].
  destruct (proj1 (proj2 (C10_unmatched_variants_dropped Sample.env Sample.cfg_keep "/site" "/site"))
              img _ _ _ _ _ _ _ H1 H2 H3 H4 H5 H6) as (Hrun & _ & Hdisk).
  split; [exact Hrun | exact Hdisk].
Defined.

(** ** The CSS rewriter *)

Section Css.

Variable env : Env.
Variable cfg : Config.
Variable dist_root css_dir : string.

(** [repl] never raises: whatever happens while the reference is resolved,
    the token is either replaced or returned as it was. *)
Lemma css_repl_returns m st :
  exists s st', css_repl env cfg dist_root css_dir m st = (Ok s, st').
Proof.
  unfold css_repl, bind, try_except, ret.
  destruct (css_resolve env cfg dist_root css_dir m st) as [[[s|]|e] st']; eauto.
Qed.

Lemma css_repl_failure_verbatim m st e st' :
  css_resolve env cfg dist_root css_dir m st = (Raise e, st') ->
  css_repl env cfg dist_root css_dir m st = (Ok (group0 m), st').
Proof. intros H. unfold css_repl, bind, try_except, ret. rewrite H. reflexivity. Qed.

Lemma css_repl_unresolved_verbatim m st st' :
  css_resolve env cfg dist_root css_dir m st = (Ok None, st') ->
  css_repl env cfg dist_root css_dir m st = (Ok (group0 m), st').
Proof. intros H. unfold css_repl, bind, try_except, ret. rewrite H. reflexivity. Qed.

End Css.

(** C9, on the code: the CSS rewriter ranks the variants by the first
    [-<digits>w.] found in the file name, not by their width. For a source
    named [bg-1200w.min.jpg], 1600 pixels wide, every variant name carries
    [-1200w.] from the source name, all keys are 1200, and [max] returns
    the first path: the token is replaced by the 480 pixel variant although
    the 1600 pixel one was generated. The anchored pattern of the HTML
    rewriter reads the four widths correctly from the same names. *)
Theorem C9_css_picks_smallest_variant :
  let run := rewrite_css_urls Sample.env Sample.cfg "/site" "/site/css/site.css" Sample.site in
  let recorded := ["/site/images/responsive/0ddcdc8036c6-bg-1200w.min-480w.webp";
                   "/site/images/responsive/0ddcdc8036c6-bg-1200w.min-800w.webp";
                   "/site/images/responsive/0ddcdc8036c6-bg-1200w.min-1200w.webp";
                   "/site/images/responsive/0ddcdc8036c6-bg-1200w.min-1600w.webp"] in
  file_content Sample.site "/site/css/site.css"
  = Some "body{background:url(../img/bg-1200w.min.jpg)}"
  /\ natural_size Sample.env Sample.site "/site/img/bg-1200w.min.jpg" = Some (1600, 900)
  /\ fst run = Ok tt
  /\ variants <$> manifest (snd run) !! "0ddcdc8036c6" = Some recorded
  /\ map width_of recorded = [1200; 1200; 1200; 1200]
  /\ max_by_width recorded = Some "/site/images/responsive/0ddcdc8036c6-bg-1200w.min-480w.webp"
  /\ widths_of (pairs_of_paths recorded) = [480; 800; 1200; 1600]
  /\ file_content (snd run) "/site/css/site.css"
     = Some "body{background:url(../images/responsive/0ddcdc8036c6-bg-1200w.min-480w.webp)}".
Proof. vm_compute. repeat split; reflexivity. Qed.

(** ** Two runs of the pipeline on an export folder *)

(** C4, on the code: with a folder as input, [copy_src] removes the
    output directory, and with it every variant file, after the manifest
    was loaded from it. When the first run ends the cache would hit; the
    second run loads the recorded paths, finds none of them on disk after
    [copy_src], and encodes every variant again. The files it leaves are
    those of the first run, except the manifest, which carries the new
    time. *)
Theorem C4_second_run_encodes_again :
  let run1 := main Sample.env Sample.idle Sample.cfg_plain "export" "" Sample.export in
  let later := set_clock (clock (snd run1) + 3600) (snd run1) in
  let run2 := main Sample.env Sample.idle Sample.cfg_plain "export" "" later in
  let original := "/work/dist/images/original/0ddcdc8036c6-hero.jpg" in
  let encodes :=
    [PilOpen original;
     PilResizeSave original (480, 270)
       "/work/dist/images/responsive/0ddcdc8036c6-hero-480w.webp" "WEBP" (Some 82);
     PilResizeSave original (800, 450)
       "/work/dist/images/responsive/0ddcdc8036c6-hero-800w.webp" "WEBP" (Some 82);
     PilResizeSave original (1200, 675)
       "/work/dist/images/responsive/0ddcdc8036c6-hero-1200w.webp" "WEBP" (Some 82);
     PilSave original "/work/dist/images/responsive/0ddcdc8036c6-hero-1600w.webp" "WEBP" 82] in
  let manifest_file := "/work/dist/images/manifest.json" in
  fst run1 = Ok tt
  /\ fst run2 = Ok tt
  /\ pil_calls (snd run1) = encodes
  /\ cache_hit (snd run1) "0ddcdc8036c6"
     = Some ["/work/dist/images/responsive/0ddcdc8036c6-hero-480w.webp";
             "/work/dist/images/responsive/0ddcdc8036c6-hero-800w.webp";
             "/work/dist/images/responsive/0ddcdc8036c6-hero-1200w.webp";
             "/work/dist/images/responsive/0ddcdc8036c6-hero-1600w.webp"]
  /\ loaded_variants "/work/dist" "0ddcdc8036c6" later
     = Some ["/work/dist/images/responsive/0ddcdc8036c6-hero-480w.webp";
             "/work/dist/images/responsive/0ddcdc8036c6-hero-800w.webp";
             "/work/dist/images/responsive/0ddcdc8036c6-hero-1200w.webp";
             "/work/dist/images/responsive/0ddcdc8036c6-hero-1600w.webp"]
  /\ cache_hit (snd (bind (copy_src Sample.env "/work/export" "/work/dist")
                       (fun _ => ret tt) later)) "0ddcdc8036c6" = None
  /\ pil_calls (snd run2) = encodes ++ encodes
  /\ files_except manifest_file (snd run2) = files_except manifest_file (snd run1)
  /\ file_content (snd run2) manifest_file <> file_content (snd run1) manifest_file
  /\ ts <$> manifest (snd run1) !! "0ddcdc8036c6" = Some 1700000000
  /\ ts <$> manifest (snd run2) !! "0ddcdc8036c6" = Some 1700003600.
Proof.
  intros run1 later run2 original encodes manifest_file.
  split; [vm_compute; reflexivity|]. split; [vm_compute; reflexivity|].
  split; [vm_compute; reflexivity|]. split; [vm_compute; reflexivity|].
  split; [vm_compute; reflexivity|]. split; [vm_compute; reflexivity|].
  split; [vm_compute; reflexivity|]. split; [vm_compute; reflexivity|].
  split; [|split; vm_compute; reflexivity].
  intros H.
  apply (f_equal (fun o => match o, file_content (snd run1) manifest_file with
                           | Some a, Some b => String.eqb a b
                           | _, _ => false
                           end)) in H.
  vm_compute in H. discriminate.
Qed.

(** * Further properties of the pipeline *)

(** ** The cache after a successful call *)

Section CacheAgain.

Variable env : Env.

(** X1. After a successful [ensure_variants_with_cache] for a content
    hash, any further call for the same hash, whatever original path,
    directory, widths, format or quality it is given, is a cache hit: it
    returns the same paths and changes nothing. *)
Theorem ensure_variants_second_call_hits
    downloaded h var_dir widths fmt qual st paths st'
    downloaded' var_dir' widths' fmt' qual' :
  ensure_variants_with_cache env downloaded h var_dir widths fmt qual st = (Ok paths, st') ->
  ensure_variants_with_cache env downloaded' h var_dir' widths' fmt' qual' st' = (Ok paths, st').
Proof.
  intros H. apply ensure_variants_recorded in H as [(entry & Hm & Hv) Hall].
  apply (proj1 (C5_hit_or_miss env downloaded' h var_dir' widths' fmt' qual' st')).
  apply cache_hit_Some. exists entry. auto.
Qed.

End CacheAgain.

Lemma ensure_variants_second_call_hits_witness :
  let paths := ["/site/images/responsive/hero-480w.webp"; "/site/images/responsive/hero-800w.webp";
                "/site/images/responsive/hero-1600w.webp"] in
  let st' := snd (ensure_variants_with_cache Sample.env "/site/img/hero.jpg" "0ddcdc8036c6"
                    "/site/images/responsive" [480; 800] "webp" 82 Sample.site) in
  ensure_variants_with_cache Sample.env "/site/img/hero.jpg" "0ddcdc8036c6"
    "/site/images/responsive" [480; 800] "webp" 82 Sample.site = (Ok paths, st')
  /\ ensure_variants_with_cache Sample.env "/site/img/photo.png" "0ddcdc8036c6"
       "/site/elsewhere" [200; 1200] "keep" 50 st' = (Ok paths, st').
Proof.
  intros paths st'.
  assert (H : ensure_variants_with_cache Sample.env "/site/img/hero.jpg" "0ddcdc8036c6"
                "/site/images/responsive" [480; 800] "webp" 82 Sample.site = (Ok paths, st'))
    by (vm_compute; reflexivity).
  split; [exact H|].
  exact (ensure_variants_second_call_hits Sample.env _ _ _ _ _ _ _ _ _
           "/site/img/photo.png" "/site/elsewhere" [200; 1200] "keep" 50 H).
Defined.

(** ** Ingestion writes once *)

Section StoreOnce.

Variable env : Env.

(** X2. A successful ingestion, local or remote, leaves a path that
    exists, and touches the file system in one place at most: either no
    file changes, or nothing was stored at the destination before and the
    only change is that the destination now holds the bytes of the
    source.  The manifest, the imaging log, the clock and the working
    directory stay as they were. *)
Theorem ingest_writes_once s dest data st out h st' :
  source_bytes env st s = Some data ->
  ingest env s dest st = (Ok (out, h), st') ->
  path_exists st' out = true
  /\ manifest st' = manifest st /\ pil_calls st' = pil_calls st
  /\ clock st' = clock st /\ cwd st' = cwd st
  /\ (files st' = files st
      \/ (files st !! fs_key st out = None
          /\ files st' = <[fs_key st out := data]> (files st))).
Proof.
  intros Hb H. destruct (ingest_Ok env _ _ _ _ _ _ _ Hb H) as (st_a & Hd & Hs).
  apply ensure_dir_Ok_exact in Hd. subst st_a.
  pose proof (store_bytes_Ok _ _ _ _ _ _ _ Hs) as (_ & _ & Hex & _ & _ & _).
  split; [exact Hex|].
  unfold store_bytes in Hs.
  inv_bind Hs as present s1 H1 Hs. unfold gets in H1. injection H1 as <- <-.
  match type of Hs with context [if ?b then _ else _] => destruct b eqn:E end.
  - inv_bind Hs as u s2 H2 Hs. inv_ret H2. inv_ret Hs. simpl. auto 10.
  - inv_bind Hs as u s2 H2 Hs. inv_ret Hs.
    apply write_file_Ok in H2 as [-> Hne]. simpl.
    repeat (split; [reflexivity|]). right. split; [|reflexivity].
    apply orb_false_iff in E as [E _]. unfold is_file, fs_key in E. simpl in E.
    apply andb_false_iff in E as [E|E].
    + apply negb_false_iff, String.eqb_eq in E. congruence.
    + apply bool_decide_eq_false in E. unfold fs_key.
      apply eq_None_not_Some. exact E.
Qed.

End StoreOnce.

Lemma ingest_writes_once_witness :
  let s := Remote "https://cdn.example.com/photo.png" in
  let r := ingest Sample.env s "/site/images/original" Sample.site in
  source_bytes Sample.env Sample.site s = Some Sample.photo
  /\ (exists out h, r = (Ok (out, h), snd r)
      /\ path_exists (snd r) out = true
      /\ files Sample.site !! fs_key Sample.site out = None
      /\ files (snd r) <> files Sample.site).
Proof.
  intros s r.
  assert (Hb : source_bytes Sample.env Sample.site s = Some Sample.photo)
    by (vm_compute; reflexivity).
  split; [exact Hb|].
  destruct r as [[[o h]|e] st'] eqn:E; [|vm_compute in E; discriminate].
  exists o, h. split; [reflexivity|]. simpl.
  destruct (ingest_writes_once Sample.env s _ _ _ _ _ _ Hb E) as (Hex & _ & _ & _ & _ & Hf).
  split; [exact Hex|].
  assert (Hne : files st' <> files Sample.site).
  { intros Heq. assert (Hsz : size (files st') = size (files Sample.site)) by (rewrite Heq; reflexivity).
    revert Hsz. replace st' with (snd (ingest Sample.env s "/site/images/original" Sample.site))
      by (fold r; rewrite E; reflexivity).
    vm_compute. discriminate. }
  destruct Hf as [Hf|[Hf _]]; [contradiction|]. split; [exact Hf | exact Hne].
Defined.

(** ** Loops that change nothing *)

Lemma mapM_idle {A B} (f : A -> M B) (g : A -> B) l st :
  (forall x, x ∈ l -> f x st = (Ok (g x), st)) -> mapM f l st = (Ok (map g l), st).
Proof.
  induction l as [|x l IH]; intros H; simpl; [reflexivity|].
  assert (Hx : x ∈ x :: l) by (apply elem_of_cons; left; reflexivity).
  rewrite (bind_Ok_step _ _ _ _ _ (H x Hx)).
  assert (Hl : forall y, y ∈ l -> f y st = (Ok (g y), st)).
  { intros y Hy. apply H, elem_of_cons. right. exact Hy. }
  rewrite (bind_Ok_step _ _ _ _ _ (IH Hl)). reflexivity.
Qed.

Lemma mapM_Forall2 {A B} (f : A -> M B) (R : A -> B -> Prop) :
  (forall x st y st', f x st = (Ok y, st') -> R x y) ->
  forall l st ys st', mapM f l st = (Ok ys, st') -> Forall2 R l ys.
Proof.
  intros Hf. induction l as [|x l IH]; intros st ys st' H; simpl in H.
  - inv_ret H. constructor.
  - inv_bind H as y s1 H1 H. inv_bind H as ys' s2 H2 H. inv_ret H.
    constructor; eauto.
Qed.

Section Documents.

Variable env : Env.
Variable cfg : Config.
Variable dist_root : string.

Lemma resolve_source_nothing doc_dir ref st :
  names_nothing dist_root st doc_dir ref = true ->
  resolve_source env cfg dist_root doc_dir (scheme_fix ref) st = (Ok None, st).
Proof.
  intros H. unfold names_nothing in H.
  apply andb_true_iff in H as [H H2]. apply andb_true_iff in H as [Hr H1].
  apply negb_true_iff in Hr, H1, H2. unfold resolve_source. rewrite Hr.
  unfold local_candidate, bind, gets, ret. rewrite H1, H2. reflexivity.
Qed.

Lemma process_nothing html_dir src st :
  names_nothing dist_root st html_dir src = true ->
  process_one_image_url env cfg dist_root html_dir src st = (Ok None, st).
Proof.
  intros H. unfold process_one_image_url.
  rewrite (bind_Ok_step _ _ _ _ _ (resolve_source_nothing _ _ _ H)). reflexivity.
Qed.

(** X3. An [img] element without a [src] attribute, with an empty one, or
    with a local [src] that names nothing that exists (next to the
    document or under the output root) is returned as it is, and nothing
    is imported, generated or recorded: the state is unchanged. *)
Theorem img_without_target_untouched html_dir img st :
  attrs img !! "src" = None
  \/ attrs img !! "src" = Some ""
  \/ (exists src, attrs img !! "src" = Some src /\ names_nothing dist_root st html_dir src = true) ->
  rewrite_img env cfg dist_root html_dir img st = (Ok (img, false), st).
Proof.
  intros H. unfold rewrite_img.
  destruct (negb (download_images cfg)); [reflexivity|].
  unfold truthy_attr.
  destruct H as [-> | [-> | (src & -> & Hn)]]; [reflexivity | reflexivity |].
  destruct (String.eqb src ""); [reflexivity|].
  rewrite (bind_Ok_step _ _ _ _ _ (process_nothing _ _ _ Hn)). reflexivity.
Qed.

(** What one loop body does to its element: the tag name stays, and an
    element that did not set [changed] is the element it was. *)
Lemma rewrite_img_frame html_dir img st r st' :
  rewrite_img env cfg dist_root html_dir img st = (Ok r, st') ->
  tag_name (fst r) = tag_name img /\ (snd r = false -> fst r = img).
Proof.
  unfold rewrite_img. intros H.
  destruct (negb (download_images cfg)); [inv_ret H; auto|].
  destruct (truthy_attr img "src") as [src|]; [|inv_ret H; auto].
  inv_bind H as p s1 H1 H.
  destruct p as [[|wp pairs]|]; try (inv_ret H; auto; fail).
  inv_bind H as wd s2 H2 H. inv_ret H2.
  match type of H with context [match ?x with Some _ => _ | None => _ end] => destruct x end;
    inv_ret H; simpl; split; (reflexivity || discriminate).
Qed.

Lemma rewrite_source_frame html_dir source st r st' :
  rewrite_source env cfg dist_root html_dir source st = (Ok r, st') ->
  tag_name (fst r) = tag_name source /\ (snd r = false -> fst r = source).
Proof.
  unfold rewrite_source. intros H.
  destruct (negb (download_images cfg)); [inv_ret H; auto|].
  destruct (truthy_attr source "srcset") as [srcset|]; [|inv_ret H; auto].
  match type of H with context [if ?b then _ else _] => destruct b end; [inv_ret H; auto|].
  inv_bind H as p s1 H1 H.
  destruct p as [[|wp pairs]|]; try (inv_ret H; auto; fail).
  inv_bind H as wd s2 H2 H. inv_ret H2. inv_ret H. simpl. split; [reflexivity | discriminate].
Qed.

Lemma on_tags_frame name (body : Tag -> M (Tag * bool)) :
  (forall t st r st', body t st = (Ok r, st') ->
     tag_name (fst r) = tag_name t /\ (snd r = false -> fst r = t)) ->
  forall soup st res st',
  on_tags name body soup st = (Ok res, st') ->
  Forall2 (fun t r => tag_name (fst r) = tag_name t
                      /\ (snd r = false -> fst r = t)
                      /\ (tag_name t <> name -> r = (t, false))) soup res.
Proof.
  intros Hb. unfold on_tags. apply mapM_Forall2.
  intros t st r st' H. destruct (String.eqb (tag_name t) name) eqn:E.
  - destruct (Hb _ _ _ _ H) as [H1 H2]. repeat split; auto.
    intros Hne. apply String.eqb_eq in E. contradiction.
  - inv_ret H. simpl. auto.
Qed.

Lemma existsb_snd_false {A} (l : list (A * bool)) :
  existsb snd l = false -> Forall (fun r => snd r = false) l.
Proof.
  induction l as [|x l IH]; simpl; [constructor|].
  intros H. apply orb_false_iff in H as [H1 H2]. constructor; auto.
Qed.

(** X4. The two loops of [rewrite_img_tags] keep the document's shape:
    the elements afterwards are as many as before and carry the same tag
    names in the same order, an element that is neither [img] nor
    [source] is not touched, and when [changed] stays false the document
    is the one that was parsed, so that skipping the write loses
    nothing. *)
Theorem rewrite_soup_frame html_dir soup st soup' changed st' :
  rewrite_soup env cfg dist_root html_dir soup st = (Ok (soup', changed), st') ->
  map tag_name soup' = map tag_name soup
  /\ (forall i t, soup !! i = Some t -> tag_name t <> "img" -> tag_name t <> "source" ->
                  soup' !! i = Some t)
  /\ (changed = false -> soup' = soup).
Proof.
  unfold rewrite_soup. intros H.
  inv_bind H as imgs s1 H1 H. inv_bind H as sources s2 H2 H. inv_ret H.
  apply (on_tags_frame _ _ (rewrite_img_frame html_dir)) in H1.
  apply (on_tags_frame _ _ (rewrite_source_frame html_dir)) in H2.
  revert sources H2. induction H1 as [|t r soup imgs (Hn & Hk & Ho) H1 IH]; intros sources H2.
  - simpl in H2. apply Forall2_nil_inv_l in H2. subst sources. simpl. auto.
  - simpl in H2. apply Forall2_cons_inv_l in H2 as (r2 & sources' & (Hn2 & Hk2 & Ho2) & H2 & ->).
    destruct (IH _ H2) as (IH1 & IH2 & IH3). simpl. split; [|split].
    + rewrite Hn2, Hn, IH1. reflexivity.
    + intros [|i] t0 Hi Hi1 Hi2; simpl in *.
      * injection Hi as ->. rewrite Ho2 by congruence. simpl. rewrite Ho by congruence. reflexivity.
      * eauto.
    + intros Hc. apply orb_false_iff in Hc as [Hc1 Hc2].
      simpl in Hc1, Hc2. apply orb_false_iff in Hc1 as [Hr Hc1]. apply orb_false_iff in Hc2 as [Hr2 Hc2].
      rewrite (Hk2 Hr2), (Hk Hr). f_equal. apply IH3. rewrite Hc1, Hc2. reflexivity.
Qed.

(** X5. With [download_images] off, [rewrite_img_tags] reads the document
    and does nothing else: no element is changed, nothing is written, and
    the state is the one it started in. *)
Theorem images_off_document_untouched file_path st data :
  download_images cfg = false ->
  file_content st file_path = Some data ->
  rewrite_img_tags env cfg dist_root file_path st = (Ok tt, st)
  /\ forall html_dir soup,
       rewrite_soup env cfg dist_root html_dir soup st = (Ok (soup, false), st).
Proof.
  intros Hoff Hf.
  assert (Hsoup : forall html_dir soup,
            rewrite_soup env cfg dist_root html_dir soup st = (Ok (soup, false), st)).
  { intros html_dir soup. unfold rewrite_soup, on_tags.
    erewrite bind_Ok_step; cycle 1.
    { apply (mapM_idle _ (fun t => (t, false))). intros t _.
      unfold rewrite_img. rewrite Hoff. simpl. destruct (String.eqb _ _); reflexivity. }
    erewrite bind_Ok_step; cycle 1.
    { apply (mapM_idle _ (fun t => (t, false))). intros t _.
      unfold rewrite_source. rewrite Hoff. simpl. destruct (String.eqb _ _); reflexivity. }
    unfold ret. rewrite !map_map. simpl. rewrite !map_id.
    replace (existsb snd (map (fun t : Tag => (t, false)) soup)) with false; [reflexivity|].
    induction soup; simpl; auto. }
  split; [|exact Hsoup].
  unfold rewrite_img_tags.
  rewrite (bind_Ok_step _ _ _ _ _ (file_content_read _ _ _ Hf)).
  rewrite (bind_Ok_step _ _ _ _ _ (Hsoup _ _)). reflexivity.
Qed.

(** X6. For a [source] element whose first [srcset] candidate resolves to
    a non-empty list of pairs, the rewriter replaces [srcset] by the whole
    ladder of that one image, built from the first candidate alone; the
    tag name and every other attribute stay.  An element whose [srcset]
    starts with an empty candidate is left alone. *)
Theorem source_srcset_from_first_candidate html_dir source srcset pairs st st' :
  download_images cfg = true ->
  attrs source !! "srcset" = Some srcset ->
  Text.strip (hd "" (Text.split ","%char srcset)) <> "" ->
  process_one_image_url env cfg dist_root html_dir
    (ws_split_first (Text.strip (hd "" (Text.split ","%char srcset)))) st = (Ok (Some pairs), st') ->
  pairs <> [] ->
  exists source',
    rewrite_source env cfg dist_root html_dir source st = (Ok (source', true), st')
    /\ tag_name source' = tag_name source
    /\ attrs source' !! "srcset" = Some (srcset_of (cwd st') html_dir pairs)
    /\ forall name, name <> "srcset" -> attrs source' !! name = attrs source !! name.
Proof.
  intros Hon Hs Hfirst Hp Hne.
  assert (Hsrc : srcset <> "").
  { intros ->. apply Hfirst. reflexivity. }
  exists (set_attr "srcset" (srcset_of (cwd st') html_dir pairs) source).
  split; [|split; [reflexivity|split]].
  - unfold rewrite_source. rewrite Hon. change (negb true) with false. cbv iota.
    rewrite (truthy_attr_Some _ _ _ Hs Hsrc). cbv zeta.
    apply String.eqb_neq in Hfirst. rewrite Hfirst.
    rewrite (bind_Ok_step _ _ _ _ _ Hp).
    destruct pairs as [|wp pairs]; [contradiction|]. reflexivity.
  - simpl. apply lookup_insert_eq.
  - intros name Hname. simpl. apply lookup_insert_ne. congruence.
Qed.

End Documents.

Lemma img_without_target_untouched_witness :
  let img := Sample.img [("src", "img/nowhere.png"); ("alt", "gone")] in
  (exists src, attrs img !! "src" = Some src
               /\ names_nothing "/site" Sample.site "/site" src = true)
  /\ rewrite_img Sample.env Sample.cfg "/site" "/site" img Sample.site
     = (Ok (img, false), Sample.site).
Proof.
  intros img.
  assert (H : exists src, attrs img !! "src" = Some src
                          /\ names_nothing "/site" Sample.site "/site" src = true).
  { exists "img/nowhere.png". split; [vm_compute; reflexivity|].
    repeat split; vm_compute; reflexivity. }
  split; [exact H|].
  exact (img_without_target_untouched Sample.env Sample.cfg "/site" "/site" img Sample.site
           (or_intror (or_intror H))).
Defined.

Lemma rewrite_soup_frame_witness :
  let par := {| tag_name := "p"; attrs := {[ "class" := "lead" ]} |} in
  let soup := [par; Sample.img [("src", "img/hero.jpg")]] in
  exists soup' changed st',
    rewrite_soup Sample.env Sample.cfg "/site" "/site" soup Sample.site
    = (Ok (soup', changed), st')
    /\ map tag_name soup' = ["p"; "img"]
    /\ soup' !! 0%nat = Some par.
Proof.
  intros par soup.
  destruct (rewrite_soup Sample.env Sample.cfg "/site" "/site" soup Sample.site)
    as [[[soup' changed]|e] st'] eqn:E; [|vm_compute in E; discriminate].
  exists soup', changed, st'. split; [reflexivity|].
  destruct (rewrite_soup_frame _ _ _ _ _ _ _ _ _ E) as (Hn & Hk & _).
  split; [exact Hn|].
  apply (Hk 0%nat par); [reflexivity | discriminate | discriminate].
Defined.

Lemma images_off_document_untouched_witness :
  download_images CONFIG_NO_IMAGES = false
  /\ file_content Sample.site "/site/index.html" = Some Sample.index_html
  /\ rewrite_img_tags Sample.env CONFIG_NO_IMAGES "/site" "/site/index.html" Sample.site
     = (Ok tt, Sample.site).
Proof.
  assert (H1 : download_images CONFIG_NO_IMAGES = false) by reflexivity.
  assert (H2 : file_content Sample.site "/site/index.html" = Some Sample.index_html)
    by (vm_compute; reflexivity).
  split; [exact H1|]. split; [exact H2|].
  exact (proj1 (images_off_document_untouched Sample.env CONFIG_NO_IMAGES "/site" _ _ _ H1 H2)).
Defined.

Lemma source_srcset_from_first_candidate_witness :
  let srcset := "img/photo.png 1x, img/hero.jpg 2x" in
  let source := {| tag_name := "source";
                   attrs := {[ "srcset" := srcset; "media" := "(min-width: 800px)" ]} |} in
  download_images Sample.cfg = true
  /\ attrs source !! "srcset" = Some srcset
  /\ ws_split_first (Text.strip (hd "" (Text.split ","%char srcset))) = "img/photo.png"
  /\ exists pairs source' st',
       process_one_image_url Sample.env Sample.cfg "/site" "/site" "img/photo.png" Sample.site
       = (Ok (Some pairs), st')
       /\ widths_of pairs = [480; 800; 1000]
       /\ rewrite_source Sample.env Sample.cfg "/site" "/site" source Sample.site
          = (Ok (source', true), st')
       /\ attrs source' !! "media" = Some "(min-width: 800px)"
       /\ attrs source' !! "srcset" = Some (srcset_of (cwd st') "/site" pairs).
Proof.
  intros srcset source.
  assert (H1 : download_images Sample.cfg = true) by reflexivity.
  assert (H2 : attrs source !! "srcset" = Some srcset) by (vm_compute; reflexivity).
  assert (H3 : Text.strip (hd "" (Text.split ","%char srcset)) <> "")
    by (vm_compute; discriminate).
  assert (H0 : ws_split_first (Text.strip (hd "" (Text.split ","%char srcset))) = "img/photo.png")
    by (vm_compute; reflexivity).
  split; [exact H1|]. split; [exact H2|]. split; [exact H0|].
  assert (Hw : match fst (process_one_image_url Sample.env Sample.cfg "/site" "/site"
                            "img/photo.png" Sample.site) with
               | Ok (Some pairs) => widths_of pairs
               | _ => []
               end = [480; 800; 1000]) by (vm_compute; reflexivity).
  destruct (process_one_image_url Sample.env Sample.cfg "/site" "/site" "img/photo.png"
              Sample.site) as [[[pairs|]|e] st'] eqn:E; simpl in Hw; try discriminate Hw.
  assert (H4 : pairs <> []) by (intros ->; discriminate Hw).
  assert (E' : process_one_image_url Sample.env Sample.cfg "/site" "/site"
                 (ws_split_first (Text.strip (hd "" (Text.split ","%char srcset)))) Sample.site
               = (Ok (Some pairs), st')) by (rewrite H0; exact E).
  destruct (source_srcset_from_first_candidate Sample.env Sample.cfg "/site" "/site"
              source srcset pairs Sample.site st' H1 H2 H3 E' H4) as (source' & Hrun & _ & Hs & Hk).
  exists pairs, source', st'. split; [reflexivity|]. split; [exact Hw|]. split; [exact Hrun|].
  split; [|exact Hs].
  rewrite Hk by discriminate. vm_compute. reflexivity.
Defined.

(** ** The CSS pattern cuts the text without loss *)

Module CssFacts.

Import Text CssRe.

#[local] Arguments char_eqb : simpl never.

Lemma str_app a b : str (a ++ b) = str a +:+ str b.
Proof. induction a as [|c a IH]; simpl; [reflexivity|]. rewrite IH. reflexivity. Qed.

Lemma chars_str l : chars (str l) = l.
Proof. apply list_ascii_of_string_of_list_ascii. Qed.

Lemma str_chars s : str (chars s) = s.
Proof. apply string_of_list_ascii_of_string. Qed.

Lemma length_str l : String.length (str l) = length l.
Proof. induction l as [|c l IH]; simpl; [reflexivity|]. rewrite IH. reflexivity. Qed.

Lemma length_chars s : length (chars s) = String.length s.
Proof. induction s as [|c s IH]; simpl; [reflexivity|]. rewrite IH. reflexivity. Qed.

Lemma append_empty_r s : s +:+ "" = s.
Proof.
  induction s as [|c s IH]; [reflexivity|].
  change (String c (s +:+ "") = String c s). f_equal. exact IH.
Qed.

Lemma join_empty_cons p ps : join "" (p :: ps) = p +:+ join "" ps.
Proof. destruct ps; simpl; [rewrite append_empty_r|]; reflexivity. Qed.

Lemma starts_with_split p l : starts_with p l = true -> l = p ++ skipn (length p) l.
Proof.
  revert l. induction p as [|a p IH]; intros l H; [reflexivity|].
  destruct l as [|b l]; [discriminate|]. simpl in H.
  apply andb_true_iff in H as [H1 H2]. apply WidthFacts.char_eqb_eq in H1 as ->.
  simpl. f_equal. auto.
Qed.

Lemma take_url_chars_firstn l :
  forall k, (k <= length (take_url_chars l))%nat ->
  Forall (fun c => url_char c = true) (firstn k l) /\ (k <= length l)%nat.
Proof.
  induction l as [|c l IH]; intros k Hk; simpl in *.
  - assert (k = 0%nat) by lia. subst k. split; [constructor | lia].
  - destruct (url_char c) eqn:E; simpl in Hk.
    + destruct k as [|k]; simpl; [split; [constructor | lia]|].
      destruct (IH k ltac:(lia)) as [H1 H2]. split; [constructor; assumption | lia].
    + assert (k = 0%nat) by lia. subst k. split; [constructor | lia].
Qed.

Lemma backtrack_Some q l k g :
  backtrack q l k = Some g ->
  exists n, (1 <= n <= k)%nat /\ g = firstn n l
            /\ starts_with (q ++ [")"%char]) (skipn n l) = true.
Proof.
  induction k as [|k IH]; simpl; [discriminate|].
  destruct (starts_with (q ++ [")"%char]) (skipn (S k) l)) eqn:E.
  - intros [= <-]. exists (S k). split; [lia|]. split; [reflexivity | exact E].
  - intros H. destruct (IH H) as (n & Hn & Hg & Hs). exists n. split; [lia | auto].
Qed.

Lemma match_with_quote_Some q l m :
  match_with_quote q l = Some m ->
  exists g rest,
    l = g ++ q ++ ")"%char :: rest
    /\ g <> [] /\ Forall (fun c => url_char c = true) g
    /\ group0 m = str (chars "url(" ++ q ++ g ++ q ++ [")"%char])
    /\ group1 m = str q /\ group2 m = str g.
Proof.
  unfold match_with_quote.
  destruct (backtrack q l (length (take_url_chars l))) as [g|] eqn:E; [|discriminate].
  intros [= <-]. apply backtrack_Some in E as (n & Hn & -> & Hs).
  destruct (take_url_chars_firstn l n ltac:(lia)) as [Hall Hlen].
  apply starts_with_split in Hs.
  exists (firstn n l), (skipn (length (q ++ [")"%char])) (skipn n l)).
  split; [|split; [|split; [exact Hall | simpl; auto]]].
  - rewrite <- (firstn_skipn n l) at 1. f_equal.
    rewrite Hs at 1. rewrite <- app_assoc. reflexivity.
  - intros H0. apply (f_equal (@length ascii)) in H0.
    rewrite length_firstn in H0. simpl in H0. lia.
Qed.

Lemma match_here_Some l m :
  match_here l = Some m ->
  exists q g rest,
    l = chars "url(" ++ q ++ g ++ q ++ ")"%char :: rest
    /\ (q = [] \/ q = [dquote] \/ q = ["'"%char])
    /\ g <> [] /\ Forall (fun c => url_char c = true) g
    /\ group0 m = str (chars "url(" ++ q ++ g ++ q ++ [")"%char])
    /\ group1 m = str q /\ group2 m = str g.
Proof.
  unfold match_here.
  destruct (starts_with (chars "url(") l) eqn:E; [|discriminate].
  apply starts_with_split in E. change (length (chars "url(")) with 4%nat in E.
  destruct (skipn 4 l) as [|c r'] eqn:Er; [discriminate|].
  assert (Hplain : match_with_quote [] (c :: r') = Some m ->
    exists q g rest,
      l = chars "url(" ++ q ++ g ++ q ++ ")"%char :: rest
      /\ (q = [] \/ q = [dquote] \/ q = ["'"%char])
      /\ g <> [] /\ Forall (fun c => url_char c = true) g
      /\ group0 m = str (chars "url(" ++ q ++ g ++ q ++ [")"%char])
      /\ group1 m = str q /\ group2 m = str g).
  { intros H. apply match_with_quote_Some in H as (g & rest & Hl & Hg).
    exists [], g, rest. split; [rewrite E, Hl; reflexivity|]. split; [auto | exact Hg]. }
  destruct (char_eqb dquote c || char_eqb "'"%char c) eqn:Eq; [|exact Hplain].
  destruct (match_with_quote [c] r') as [m'|] eqn:Em; [|exact Hplain].
  intros [= <-]. apply match_with_quote_Some in Em as (g & rest & Hl & Hg).
  exists [c], g, rest. split; [rewrite E, Hl; reflexivity|]. split; [|exact Hg].
  apply orb_true_iff in Eq as [Eq|Eq]; apply WidthFacts.char_eqb_eq in Eq; subst c; auto.
Qed.

Lemma match_here_prefix l m :
  match_here l = Some m ->
  exists rest, l = chars (group0 m) ++ rest
               /\ skipn (String.length (group0 m)) l = rest
               /\ (length rest < length l)%nat.
Proof.
  intros H. apply match_here_Some in H as (q & g & rest & Hl & _ & _ & _ & H0 & _).
  exists rest. rewrite H0, chars_str, length_str.
  assert (Hl' : l = (chars "url(" ++ q ++ g ++ q ++ [")"%char]) ++ rest).
  { rewrite Hl. rewrite <- !app_assoc. reflexivity. }
  split; [exact Hl'|]. split.
  - rewrite Hl' at 1. apply drop_app_length.
  - rewrite Hl'. rewrite length_app. simpl. lia.
Qed.

Lemma scan_lossless fuel :
  forall l, (length l <= fuel)%nat -> join "" (map piece_text (scan fuel l)) = str l.
Proof.
  induction fuel as [|fuel IH]; intros l Hl.
  - destruct l; [reflexivity | simpl in Hl; lia].
  - destruct l as [|c l']; [reflexivity|].
    change (scan (S fuel) (c :: l'))
      with (match match_here (c :: l') with
            | Some m => inr m :: scan fuel (skipn (String.length (group0 m)) (c :: l'))
            | None => inl c :: scan fuel l'
            end).
    destruct (match_here (c :: l')) as [m|] eqn:E.
    + apply match_here_prefix in E as (rest & Hr & Hs & Hlt).
      rewrite Hs. rewrite map_cons, join_empty_cons. rewrite IH by (simpl in *; lia).
      simpl piece_text. rewrite Hr. rewrite str_app, str_chars. reflexivity.
    + rewrite map_cons, join_empty_cons. rewrite IH by (simpl in *; lia). reflexivity.
Qed.

Lemma tokens_lossless css : join "" (map piece_text (tokens css)) = css.
Proof.
  unfold tokens. rewrite scan_lossless.
  - apply str_chars.
  - rewrite length_chars. reflexivity.
Qed.

End CssFacts.

(** X7. [CSS_URL_RE] cuts a style sheet without loss: the characters
    outside the matches and the matched tokens, in order, give the text
    back.  Every match is the text [url(], a quote that is empty, single
    or double, a non-empty URL without closing parenthesis or white
    space, the same quote again, and [)]. *)
Theorem css_tokens_partition css :
  Text.join "" (map piece_text (CssRe.tokens css)) = css
  /\ forall m, inr m ∈ CssRe.tokens css ->
       group0 m = "url(" +:+ group1 m +:+ group2 m +:+ group1 m +:+ ")"
       /\ (group1 m = "" \/ group1 m = String CssRe.dquote "" \/ group1 m = "'")
       /\ group2 m <> ""
       /\ Forall (fun c => CssRe.url_char c = true) (Text.chars (group2 m)).
Proof.
  split; [apply CssFacts.tokens_lossless|].
  - unfold CssRe.tokens. generalize (String.length css).
    intros fuel. revert css. induction fuel as [|fuel IH]; intros css m Hin.
    + destruct (Text.chars css); simpl in Hin; apply elem_of_nil in Hin; contradiction.
    + destruct (Text.chars css) as [|c l'] eqn:El; [simpl in Hin; apply elem_of_nil in Hin; contradiction|].
      change (CssRe.scan (S fuel) (c :: l'))
        with (match CssRe.match_here (c :: l') with
              | Some m => inr m :: CssRe.scan fuel (skipn (String.length (group0 m)) (c :: l'))
              | None => inl c :: CssRe.scan fuel l'
              end) in Hin.
      destruct (CssRe.match_here (c :: l')) as [m'|] eqn:E.
      * apply elem_of_cons in Hin as [Hin|Hin].
        -- injection Hin as ->.
           apply CssFacts.match_here_Some in E as (q & g & rest & _ & Hq & Hg & Hall & H0 & H1 & H2).
           rewrite H0, H1, H2. split; [|split; [|split]].
           ++ rewrite !CssFacts.str_app. reflexivity.
           ++ destruct Hq as [->|[->| ->]]; auto.
           ++ destruct g; [contradiction | discriminate].
           ++ rewrite CssFacts.chars_str. exact Hall.
        -- apply (IH (Text.str (skipn (String.length (group0 m')) (c :: l')))).
           rewrite CssFacts.chars_str. exact Hin.
      * apply elem_of_cons in Hin as [Hin|Hin]; [discriminate|].
        apply (IH (Text.str l')). rewrite CssFacts.chars_str. exact Hin.
Qed.

Section StyleSheets.

Variable env : Env.
Variable cfg : Config.
Variable dist_root : string.

Lemma css_repl_nothing css_dir m st :
  names_nothing dist_root st css_dir (group2 m) = true ->
  css_repl env cfg dist_root css_dir m st = (Ok (group0 m), st).
Proof.
  intros H. apply css_repl_unresolved_verbatim. unfold css_resolve.
  rewrite (bind_Ok_step _ _ _ _ _ (resolve_source_nothing env cfg dist_root _ _ _ H)).
  reflexivity.
Qed.

(** X8. A style sheet in which every [url(...)] token is a local
    reference that names nothing that exists is not rewritten:
    [rewrite_css_urls] returns every token as it was, finds the text
    unchanged, writes no file, and leaves the state as it was. *)
Theorem css_without_targets_untouched file_path st data :
  file_content st file_path = Some data ->
  (forall m, inr m ∈ CssRe.tokens (decode_ignore env data) ->
             names_nothing dist_root st (Path.dirname file_path) (group2 m) = true) ->
  rewrite_css_urls env cfg dist_root file_path st = (Ok tt, st).
Proof.
  intros Hf Hall. unfold rewrite_css_urls.
  rewrite (bind_Ok_step _ _ _ _ _ (file_content_read _ _ _ Hf)). cbv zeta.
  assert (Hsub : css_sub env cfg dist_root (Path.dirname file_path) (decode_ignore env data) st
                 = (Ok (decode_ignore env data), st)).
  { unfold css_sub.
    erewrite bind_Ok_step; cycle 1.
    { apply (mapM_idle _ piece_text). intros [c|m] Hin; simpl; [reflexivity|].
      apply css_repl_nothing, Hall, Hin. }
    unfold ret. rewrite CssFacts.tokens_lossless. reflexivity. }
  rewrite (bind_Ok_step _ _ _ _ _ Hsub). rewrite String.eqb_refl. reflexivity.
Qed.

End StyleSheets.

Lemma css_without_targets_untouched_witness :
  file_content Demo.stale "/site/css/stale.css" = Some Demo.stale_css
  /\ forallb (fun t => match t with
                       | inr m => names_nothing "/site" Demo.stale "/site/css" (group2 m)
                       | inl _ => true
                       end) (CssRe.tokens Demo.stale_css) = true
  /\ map group2 (omap (fun t => match t with inr m => Some m | inl _ => None end)
                      (CssRe.tokens Demo.stale_css)) = ["gone.png"; "#clip"]
  /\ rewrite_css_urls Sample.env Sample.cfg "/site" "/site/css/stale.css" Demo.stale
     = (Ok tt, Demo.stale).
Proof.
  assert (H1 : file_content Demo.stale "/site/css/stale.css" = Some Demo.stale_css)
    by (vm_compute; reflexivity).
  assert (H2 : forallb (fun t => match t with
                       | inr m => names_nothing "/site" Demo.stale "/site/css" (group2 m)
                       | inl _ => true
                       end) (CssRe.tokens Demo.stale_css) = true) by (vm_compute; reflexivity).
  split; [exact H1|]. split; [exact H2|]. split; [vm_compute; reflexivity|].
  apply (css_without_targets_untouched Sample.env Sample.cfg "/site" _ _ _ H1).
  intros m Hin. rewrite forallb_forall in H2.
  apply list_elem_of_In in Hin. exact (H2 _ Hin).
Defined.

(** ** Order of the variants *)

Lemma insert_by_width_perm x l : insert_by_width x l ≡ₚ x :: l.
Proof.
  induction l as [|y l IH]; simpl; [reflexivity|].
  destruct (fst x <=? fst y); [reflexivity|].
  rewrite IH. apply Permutation_swap.
Qed.

Lemma sort_by_width_perm l : sort_by_width l ≡ₚ l.
Proof.
  induction l as [|x l IH]; simpl; [reflexivity|].
  rewrite insert_by_width_perm, IH. reflexivity.
Qed.

Lemma insert_by_width_ascending x l :
  StronglySorted (fun a b : Z * string => fst a <= fst b) l ->
  StronglySorted (fun a b : Z * string => fst a <= fst b) (insert_by_width x l).
Proof.
  induction 1 as [|y l Hs IH Hy]; simpl; [repeat constructor|].
  destruct (fst x <=? fst y) eqn:E.
  - apply Z.leb_le in E. constructor; [constructor; assumption|].
    constructor; [exact E|]. rewrite Forall_forall in *. intros z Hz.
    specialize (Hy z Hz). lia.
  - apply Z.leb_gt in E. constructor; [exact IH|].
    rewrite Forall_forall in *. intros z Hz.
    apply insert_by_width_elem in Hz as [->|Hz]; [lia | auto].
Qed.

Lemma sort_by_width_ascending l :
  StronglySorted (fun a b : Z * string => fst a <= fst b) (sort_by_width l).
Proof.
  induction l as [|x l IH]; simpl; [constructor|].
  apply insert_by_width_ascending, IH.
Qed.

Lemma widths_ascending l :
  StronglySorted (fun a b : Z * string => fst a <= fst b) l ->
  StronglySorted Z.le (widths_of l).
Proof.
  induction 1 as [|x l Hs IH Hx]; simpl; constructor; [exact IH|].
  unfold widths_of. rewrite Forall_map. exact Hx.
Qed.

(** X9. Whatever the requested widths are (unsorted, repeated, negative),
    a successful [make_variants] returns its pairs in non-decreasing
    order of width; they are a rearrangement of one pair per requested
    width below the natural width plus the pair of the natural width, so
    no width exceeds the natural one and the list is never empty. *)
Theorem make_variants_any_widths env img_path out_dir widths fmt qual st pairs st' w h :
  natural_size env st img_path = Some (w, h) ->
  make_variants env img_path out_dir widths fmt qual st = (Ok pairs, st') ->
  StronglySorted Z.le (widths_of pairs)
  /\ pairs ≡ₚ ladder img_path out_dir widths fmt w
  /\ Forall (fun t => t <= w) (widths_of pairs)
  /\ length pairs = S (length (List.filter (fun t => t <? w) widths)).
Proof.
  intros Hn H. apply make_variants_Ok in H as (w' & h' & Hn' & ->).
  rewrite Hn in Hn'. injection Hn' as <- <-.
  pose proof (sort_by_width_perm (ladder img_path out_dir widths fmt w)) as Hp.
  split; [apply widths_ascending, sort_by_width_ascending|].
  split; [exact Hp|]. split.
  - unfold widths_of. rewrite Hp. unfold ladder.
    rewrite map_app, Forall_app, map_map. simpl. split.
    + rewrite Forall_map. pose proof (filter_lt_bound w widths) as Hb.
      rewrite Forall_forall in *. intros t Ht. specialize (Hb t Ht). simpl. lia.
    + repeat constructor. lia.
  - rewrite Hp. unfold ladder. rewrite length_app, length_map. simpl. lia.
Qed.

Lemma make_variants_any_widths_witness :
  natural_size Sample.env Sample.site "/site/img/photo.png" = Some (1000, 666)
  /\ exists pairs st',
       make_variants Sample.env "/site/img/photo.png" "/site/v" [1200; 800; 300; 800; 1000]
         "webp" 82 Sample.site = (Ok pairs, st')
       /\ StronglySorted Z.le (widths_of pairs)
       /\ length pairs = 4%nat.
Proof.
  assert (Hn : natural_size Sample.env Sample.site "/site/img/photo.png" = Some (1000, 666))
    by (vm_compute; reflexivity).
  split; [exact Hn|].
  destruct (make_variants Sample.env "/site/img/photo.png" "/site/v" [1200; 800; 300; 800; 1000]
              "webp" 82 Sample.site) as [[pairs|e] st'] eqn:E; [|vm_compute in E; discriminate].
  exists pairs, st'. split; [reflexivity|].
  destruct (make_variants_any_widths _ _ _ _ _ _ _ _ _ _ _ Hn E) as (Hs & _ & _ & Hl).
  split; [exact Hs | exact Hl].
Defined.

(** ** The pairs behind a rewritten element *)

Section Pairs.

Variable env : Env.
Variable cfg : Config.
Variable dist_root : string.

(** X10. When [process_one_image_url] returns pairs, they are in
    non-decreasing order of width (so is the [srcset] built from them),
    and every pair names a variant that exists on disk, is recorded in
    the manifest under one content hash, and whose base name carries the
    pair's width in the shape hyphen, digits, [w.], suffix. *)
Theorem process_one_image_url_pairs html_dir src st pairs st' :
  process_one_image_url env cfg dist_root html_dir src st = (Ok (Some pairs), st') ->
  StronglySorted Z.le (widths_of pairs)
  /\ exists h entry,
       manifest st' !! h = Some entry
       /\ pairs = pairs_of_paths (variants entry)
       /\ Forall (fun wp => snd wp ∈ variants entry
                            /\ path_exists st' (snd wp) = true
                            /\ width_pattern (Text.chars (Path.basename (snd wp))) (fst wp))
                 pairs.
Proof.
  unfold process_one_image_url. intros H.
  inv_bind H as ingested s1 H1 H.
  destruct ingested as [[downloaded h]|]; [|unfold ret in H; discriminate].
  inv_bind H as paths s2 H2 H.
  assert (Hp : pairs = pairs_of_paths paths /\ s2 = st').
  { destruct paths as [|p paths]; [unfold ret in H; discriminate|].
    unfold ret in H. injection H as <- <-. auto. }
  destruct Hp as [-> ->]. unfold cached_variants in H2.
  apply ensure_variants_recorded in H2 as [(entry & Hm & Hv) Hall].
  split; [apply widths_ascending, sort_by_width_ascending|].
  exists h, entry. subst paths. split; [exact Hm|]. split; [reflexivity|].
  rewrite Forall_forall. intros [n p] Hin. simpl.
  apply pairs_of_paths_elem in Hin as [Hin Hw].
  rewrite Forall_forall in Hall. auto.
Qed.

End Pairs.

Lemma process_one_image_url_pairs_witness :
  exists pairs st',
    process_one_image_url Sample.env Sample.cfg "/site" "/site" "img/photo.png" Sample.site
    = (Ok (Some pairs), st')
    /\ StronglySorted Z.le (widths_of pairs)
    /\ Forall (fun wp => path_exists st' (snd wp) = true) pairs.
Proof.
  assert (Hok : match fst (process_one_image_url Sample.env Sample.cfg "/site" "/site"
                             "img/photo.png" Sample.site) with
                | Ok (Some _) => true
                | _ => false
                end = true) by (vm_compute; reflexivity).
  destruct (process_one_image_url Sample.env Sample.cfg "/site" "/site" "img/photo.png"
              Sample.site) as [[[pairs|]|e] st'] eqn:E; simpl in Hok; try discriminate Hok.
  exists pairs, st'. split; [reflexivity|].
  destruct (process_one_image_url_pairs _ _ _ _ _ _ _ _ E) as (Hs & h & entry & _ & _ & Hall).
  split; [exact Hs|].
  rewrite Forall_forall in *. intros wp Hwp. exact (proj1 (proj2 (Hall wp Hwp))).
Defined.

(** ** The choice of the CSS rewriter *)

Lemma max_from_spec l :
  forall best,
  exists pre post,
    best :: l = pre ++ max_from best l :: post
    /\ Forall (fun q => width_of q < width_of (max_from best l)) pre
    /\ Forall (fun q => width_of q <= width_of (max_from best l)) post.
Proof.
  induction l as [|q l IH]; intros best; simpl.
  - exists [], []. repeat split; constructor.
  - destruct (width_of best <? width_of q) eqn:E.
    + apply Z.ltb_lt in E. destruct (IH q) as (pre & post & Hl & Hpre & Hpost).
      exists (best :: pre), post. split; [rewrite Hl; reflexivity|]. split; [|exact Hpost].
      constructor; [|exact Hpre].
      destruct pre as [|q' pre]; simpl in Hl.
      * injection Hl as Hq _. rewrite <- Hq. exact E.
      * injection Hl as Hq _. subst q'. apply Forall_cons in Hpre as [Hq _]. lia.
    + apply Z.ltb_ge in E. destruct (IH best) as (pre & post & Hl & Hpre & Hpost).
      destruct pre as [|b pre]; simpl in Hl.
      * injection Hl as Hb Hpost'. exists [], (q :: l). split; [rewrite <- Hb; reflexivity|].
        split; [constructor|]. constructor; [rewrite <- Hb; exact E|].
        subst post. exact Hpost.
      * injection Hl as Hb Hl. subst b. apply Forall_cons in Hpre as [Hb Hpre].
        exists (best :: q :: pre), post. split; [simpl; do 2 f_equal; exact Hl|].
        split; [|exact Hpost]. constructor; [exact Hb|]. constructor; [lia | exact Hpre].
Qed.

(** X11. [max(variant_paths, key=width_of)] returns a member of the list
    whose key no other member exceeds, and the first such member: every
    path before it has a strictly smaller key.  Of several paths with the
    same greatest key the CSS rewriter therefore takes the one recorded
    first. *)
Theorem max_by_width_first_greatest l p :
  max_by_width l = Some p ->
  exists pre post,
    l = pre ++ p :: post
    /\ Forall (fun q => width_of q < width_of p) pre
    /\ Forall (fun q => width_of q <= width_of p) post.
Proof.
  destruct l as [|best l]; simpl; [discriminate|].
  intros [= <-]. apply max_from_spec.
Qed.

Lemma max_by_width_first_greatest_witness :
  let l := ["/v/a-480w.webp"; "/v/a-1200w.min-800w.webp"; "/v/a-1200w.webp"; "/v/a-1000w.webp"] in
  max_by_width l = Some "/v/a-1200w.min-800w.webp"
  /\ exists pre post,
       l = pre ++ "/v/a-1200w.min-800w.webp" :: post
       /\ Forall (fun q => width_of q < 1200) pre
       /\ Forall (fun q => width_of q <= 1200) post.
Proof.
  intros l.
  assert (H : max_by_width l = Some "/v/a-1200w.min-800w.webp") by (vm_compute; reflexivity).
  split; [exact H|].
  destruct (max_by_width_first_greatest _ _ H) as (pre & post & Hl & Hpre & Hpost).
  exists pre, post. split; [exact Hl|].
  change (width_of "/v/a-1200w.min-800w.webp") with 1200 in Hpre, Hpost. auto.
Defined.

(** ** The shape of a slug *)

Module SlugFacts.

Import Text.

#[local] Arguments char_eqb : simpl never.

Lemma slug_hyphen : slug_char "-"%char = true.
Proof. reflexivity. Qed.

Lemma lstrip_by_suffix P l : exists a, l = a ++ lstrip_by P l.
Proof.
  induction l as [|c l [a IH]]; simpl; [exists []; reflexivity|].
  destruct (P c); [exists (c :: a); simpl; f_equal; exact IH | exists []; reflexivity].
Qed.

Lemma rstrip_by_prefix P l : exists b, l = rstrip_by P l ++ b.
Proof.
  unfold rstrip_by. destruct (lstrip_by_suffix P (rev l)) as [a Ha].
  exists (rev a). rewrite <- rev_app_distr, <- Ha, rev_involutive. reflexivity.
Qed.

Lemma strip_by_middle P l : exists a b, l = a ++ strip_by P l ++ b.
Proof.
  unfold strip_by. destruct (lstrip_by_suffix P l) as [a Ha].
  destruct (rstrip_by_prefix P (lstrip_by P l)) as [b Hb].
  exists a, b. rewrite <- Hb. exact Ha.
Qed.

Lemma Forall_strip_by (Q : ascii -> Prop) P l : Forall Q l -> Forall Q (strip_by P l).
Proof.
  intros H. destruct (strip_by_middle P l) as (a & b & Hl). rewrite Hl in H.
  apply Forall_app in H as [_ H]. apply Forall_app in H as [H _]. exact H.
Qed.

Lemma lstrip_by_head P l : match lstrip_by P l with c :: _ => P c = false | [] => True end.
Proof.
  induction l as [|c l IH]; simpl; [exact I|].
  destruct (P c) eqn:E; [exact IH | exact E].
Qed.

Lemma lstrip_by_snoc P l c : P c = false -> lstrip_by P (l ++ [c]) = lstrip_by P l ++ [c].
Proof.
  intros Hc. induction l as [|x l IH]; simpl; [rewrite Hc; reflexivity|].
  destruct (P x); [exact IH | reflexivity].
Qed.

(** What [strip] leaves neither starts nor ends with a stripped character. *)
Lemma strip_by_ends P l :
  match strip_by P l with c :: _ => P c = false | [] => True end
  /\ match rev (strip_by P l) with c :: _ => P c = false | [] => True end.
Proof.
  unfold strip_by, rstrip_by. rewrite rev_involutive.
  split; [|apply lstrip_by_head].
  pose proof (lstrip_by_head P l) as Hh.
  destruct (lstrip_by P l) as [|c a]; [exact I|].
  simpl rev. rewrite (lstrip_by_snoc _ _ _ Hh), rev_app_distr. exact Hh.
Qed.

Lemma flush_run_cases n run : flush_run n run = ["-"%char] \/ flush_run n run = run.
Proof.
  unfold flush_run. destruct run; [right; reflexivity|].
  destruct (n <=? _)%nat; auto.
Qed.

(** A substitution of runs puts hyphens in and takes characters of the
    class out: what held of the text and holds of the hyphen still holds. *)
Lemma Forall_sub_runs_from (Q : ascii -> Prop) C n :
  Q "-"%char ->
  forall l run, Forall Q run -> Forall Q l -> Forall Q (sub_runs_from C n run l).
Proof.
  intros Hh. induction l as [|c l IH]; intros run Hrun Hl; simpl.
  - destruct (flush_run_cases n run) as [-> | ->]; [repeat constructor; exact Hh | exact Hrun].
  - apply Forall_cons in Hl as [Hc Hl]. destruct (C c).
    + apply IH; [|exact Hl]. apply Forall_app. split; [exact Hrun | repeat constructor; exact Hc].
    + apply Forall_app. split.
      * destruct (flush_run_cases n run) as [-> | ->]; [repeat constructor; exact Hh | exact Hrun].
      * constructor; [exact Hc | apply IH; [constructor | exact Hl]].
Qed.

(** With runs of length one and more replaced, no character of the class
    is left. *)
Lemma sub_runs_from_one (Q : ascii -> Prop) C :
  Q "-"%char -> (forall c, C c = false -> Q c) ->
  forall l run, Forall Q (sub_runs_from C 1 run l).
Proof.
  intros Hh HC.
  assert (Hf : forall run, Forall Q (flush_run 1 run)).
  { intros [|c run]; simpl; [constructor | repeat constructor; exact Hh]. }
  induction l as [|c l IH]; intros run; simpl; [apply Hf|].
  destruct (C c) eqn:E; [apply IH|].
  apply Forall_app. split; [apply Hf|]. constructor; [apply HC, E | apply IH].
Qed.

Lemma single_hyphens_app_r a b : single_hyphens (a ++ b) = true -> single_hyphens b = true.
Proof.
  induction a as [|x a IH]; [trivial|].
  intros H. apply IH. destruct a as [|y a]; simpl in *.
  - destruct b; [reflexivity|]. apply andb_true_iff in H as [_ H]. exact H.
  - apply andb_true_iff in H as [_ H]. exact H.
Qed.

Lemma single_hyphens_app_l a b : single_hyphens (a ++ b) = true -> single_hyphens a = true.
Proof.
  induction a as [|x a IH]; [reflexivity|].
  destruct a as [|y a]; [reflexivity|].
  intros H. change (single_hyphens (x :: y :: a ++ b)) with
    (negb (char_eqb "-"%char x && char_eqb "-"%char y) && single_hyphens ((y :: a) ++ b)) in H.
  apply andb_true_iff in H as [H1 H2].
  change (single_hyphens (x :: y :: a)) with
    (negb (char_eqb "-"%char x && char_eqb "-"%char y) && single_hyphens (y :: a)).
  rewrite H1. simpl. apply IH, H2.
Qed.

Lemma single_hyphens_strip_by P l : single_hyphens l = true -> single_hyphens (strip_by P l) = true.
Proof.
  intros H. destruct (strip_by_middle P l) as (a & b & Hl). rewrite Hl in H.
  apply single_hyphens_app_r, single_hyphens_app_l in H. exact H.
Qed.

Lemma single_hyphens_cons c l :
  char_eqb "-"%char c = false -> single_hyphens l = true -> single_hyphens (c :: l) = true.
Proof.
  intros Hc Hl. destruct l as [|b l]; [reflexivity|].
  change (single_hyphens (c :: b :: l))
    with (negb (char_eqb "-"%char c && char_eqb "-"%char b) && single_hyphens (b :: l)).
  rewrite Hc, Hl. reflexivity.
Qed.

Lemma sub_runs_from_two_single :
  forall l run, Forall (fun c => char_eqb "-"%char c = true) run ->
  single_hyphens (sub_runs_from (char_eqb "-"%char) 2 run l) = true.
Proof.
  assert (Hf : forall run, Forall (fun c => char_eqb "-"%char c = true) run ->
            flush_run 2 run = [] \/ flush_run 2 run = ["-"%char]).
  { intros [|a [|b run]] Hrun; simpl; auto.
    apply Forall_cons in Hrun as [Ha _]. apply WidthFacts.char_eqb_eq in Ha. subst a. auto. }
  induction l as [|c l IH]; intros run Hrun; simpl.
  - destruct (Hf run Hrun) as [-> | ->]; reflexivity.
  - destruct (char_eqb "-"%char c) eqn:E.
    + apply IH. apply Forall_app. split; [exact Hrun | repeat constructor; exact E].
    + pose proof (single_hyphens_cons c _ E (IH [] (Forall_nil_2 _))) as Hrest.
      destruct (Hf run Hrun) as [-> | ->]; [exact Hrest|].
      simpl app.
      change (single_hyphens ("-"%char :: c :: sub_runs_from (char_eqb "-"%char) 2 [] l))
        with (negb (char_eqb "-"%char "-"%char && char_eqb "-"%char c)
              && single_hyphens (c :: sub_runs_from (char_eqb "-"%char) 2 [] l)).
      rewrite E, Hrest, andb_false_r. reflexivity.
Qed.

Lemma slugify_name_body name :
  slugify_name name = if String.eqb (str (slug_body name)) "" then "asset" else str (slug_body name).
Proof. reflexivity. Qed.

Lemma slug_body_slug name : Forall (fun c => slug_char c = true) (slug_body name).
Proof.
  unfold slug_body. apply Forall_strip_by.
  unfold sub_runs at 1. rewrite CssFacts.chars_str.
  apply (Forall_sub_runs_from (fun c => slug_char c = true)); [exact slug_hyphen | constructor|].
  unfold sub_runs at 1. rewrite CssFacts.chars_str.
  apply (sub_runs_from_one (fun c => slug_char c = true)); [exact slug_hyphen|].
  intros c Hc. apply negb_false_iff in Hc. exact Hc.
Qed.

Lemma slug_body_single name : single_hyphens (slug_body name) = true.
Proof.
  unfold slug_body. apply single_hyphens_strip_by.
  unfold sub_runs at 1. rewrite CssFacts.chars_str.
  apply sub_runs_from_two_single. constructor.
Qed.

Lemma starts_with_hyphen l :
  starts_with ["-"%char] l = false <->
  match l with c :: _ => char_eqb "-"%char c = false | [] => True end.
Proof.
  destruct l as [|c l]; [simpl; tauto|].
  change (starts_with ["-"%char] (c :: l)) with (char_eqb "-"%char c && true).
  rewrite andb_true_r. tauto.
Qed.

Lemma slug_shaped_spec l :
  slug_shaped l = true <->
  l <> [] /\ Forall (fun c => slug_char c = true) l
  /\ starts_with ["-"%char] l = false /\ starts_with ["-"%char] (rev l) = false
  /\ single_hyphens l = true.
Proof.
  unfold slug_shaped. rewrite !andb_true_iff, !negb_true_iff, forallb_forall, Forall_forall.
  split.
  - intros ((((H1 & H2) & H3) & H4) & H5). repeat split; auto.
    + intros ->. discriminate.
    + intros c Hc. apply H2, list_elem_of_In, Hc.
  - intros (H1 & H2 & H3 & H4 & H5). repeat split; auto.
    + destruct l; [contradiction | reflexivity].
    + intros c Hc. apply H2, list_elem_of_In, Hc.
Qed.

(** [slugify_name] returns a string of the shape of a slug. *)
Lemma slugify_name_shaped name :
  exists l, slugify_name name = str l /\ slug_shaped l = true.
Proof.
  rewrite slugify_name_body.
  destruct (slug_body name) as [|c body] eqn:E.
  - exists (chars "asset"). split; reflexivity.
  - exists (c :: body). split; [reflexivity|].
    apply slug_shaped_spec. rewrite <- E.
    split; [rewrite E; discriminate|]. split; [apply slug_body_slug|].
    destruct (strip_by_ends (char_eqb "-"%char)
                (chars (sub_runs (char_eqb "-"%char) 2
                   (sub_runs (fun c => negb (slug_char c)) 1
                      (sub_runs is_space 1
                         (remove_char ")"%char
                            (remove_char "("%char (lower (strip name)))))))))
      as [Hfirst Hlast].
    fold (slug_body name) in Hfirst, Hlast.
    split; [apply starts_with_hyphen, Hfirst|].
    split; [apply starts_with_hyphen, Hlast | apply slug_body_single].
Qed.

(** A character of the slug alphabet is no capital, no white space, no
    parenthesis and no slash. *)
Lemma slug_char_plain c :
  slug_char c = true ->
  is_upper_alpha c = false /\ is_space c = false
  /\ char_eqb "("%char c = false /\ char_eqb ")"%char c = false
  /\ char_eqb "/"%char c = false.
Proof.
  destruct c as [[] [] [] [] [] [] [] []]; vm_compute; intros H;
    first [discriminate H | repeat split].
Qed.

Lemma lstrip_by_id P l :
  match l with c :: _ => P c = false | [] => True end -> lstrip_by P l = l.
Proof. destruct l as [|c l]; simpl; [trivial|]. intros ->. reflexivity. Qed.

Lemma strip_by_id P l :
  match l with c :: _ => P c = false | [] => True end ->
  match rev l with c :: _ => P c = false | [] => True end ->
  strip_by P l = l.
Proof.
  intros H1 H2. unfold strip_by, rstrip_by.
  rewrite (lstrip_by_id P l H1), (lstrip_by_id P (rev l) H2). apply rev_involutive.
Qed.

Lemma sub_runs_from_none C n l :
  Forall (fun c => C c = false) l -> sub_runs_from C n [] l = l.
Proof.
  induction 1 as [|c l Hc Hl IH]; simpl; [reflexivity|].
  rewrite Hc, IH. reflexivity.
Qed.

Lemma filter_none (P : ascii -> bool) l :
  Forall (fun c => P c = true) l -> List.filter P l = l.
Proof.
  induction 1 as [|c l Hc Hl IH]; simpl; [reflexivity|].
  rewrite Hc, IH. reflexivity.
Qed.

Lemma sub_runs_from_two_id l :
  forall run, (run = [] \/ run = ["-"%char]) ->
  single_hyphens (run ++ l) = true ->
  sub_runs_from (char_eqb "-"%char) 2 run l = run ++ l.
Proof.
  induction l as [|c l IH]; intros run Hrun Hs.
  - simpl. destruct Hrun as [-> | ->]; reflexivity.
  - simpl. destruct (char_eqb "-"%char c) eqn:E.
    + apply WidthFacts.char_eqb_eq in E. subst c.
      destruct Hrun as [-> | ->].
      * apply (IH ["-"%char]); [auto | exact Hs].
      * exfalso. revert Hs. simpl app.
        change (single_hyphens ("-"%char :: "-"%char :: l))
          with (negb (char_eqb "-"%char "-"%char && char_eqb "-"%char "-"%char)
                && single_hyphens ("-"%char :: l)).
        discriminate.
    + assert (Hl : single_hyphens l = true).
      { apply (single_hyphens_app_r (run ++ [c])). rewrite <- app_assoc. exact Hs. }
      rewrite (IH [] (or_introl eq_refl) Hl).
      destruct Hrun as [-> | ->]; reflexivity.
Qed.

(** A string of the shape of a slug is its own slug. *)
Lemma slugify_name_fixed l : slug_shaped l = true -> slugify_name (str l) = str l.
Proof.
  intros H. apply slug_shaped_spec in H as (Hne & Hall & Hfirst & Hlast & Hsingle).
  apply starts_with_hyphen in Hfirst, Hlast.
  assert (Hplain : Forall (fun c => is_upper_alpha c = false /\ is_space c = false
                           /\ char_eqb "("%char c = false /\ char_eqb ")"%char c = false
                           /\ char_eqb "/"%char c = false) l).
  { rewrite Forall_forall in *. intros c Hc. apply slug_char_plain, Hall, Hc. }
  assert (Hhead : forall (P : ascii -> bool) (l0 : list ascii),
            Forall (fun c => P c = false) l0 ->
            match l0 with c :: _ => P c = false | [] => True end).
  { intros P l0 H0. destruct H0; [exact I | assumption]. }
  assert (Hsp : Forall (fun c => is_space c = false) l).
  { rewrite Forall_forall in *. intros c Hc. apply (Hplain c Hc). }
  assert (E1 : strip (str l) = str l).
  { unfold strip. rewrite CssFacts.chars_str. f_equal. apply strip_by_id.
    - apply Hhead, Hsp.
    - apply Hhead. apply List.Forall_rev. exact Hsp. }
  assert (E2 : lower (str l) = str l).
  { unfold lower. rewrite CssFacts.chars_str. f_equal.
    clear -Hplain. induction Hplain as [|c l (Hc & _) Hl IH]; simpl; [reflexivity|].
    rewrite IH. unfold lower_char. rewrite Hc. reflexivity. }
  assert (E3 : remove_char "("%char (str l) = str l).
  { unfold remove_char. rewrite CssFacts.chars_str. f_equal. apply filter_none.
    rewrite Forall_forall in *. intros c Hc. destruct (Hplain c Hc) as (_ & _ & -> & _).
    reflexivity. }
  assert (E4 : remove_char ")"%char (str l) = str l).
  { unfold remove_char. rewrite CssFacts.chars_str. f_equal. apply filter_none.
    rewrite Forall_forall in *. intros c Hc. destruct (Hplain c Hc) as (_ & _ & _ & -> & _).
    reflexivity. }
  assert (E5 : sub_runs is_space 1 (str l) = str l).
  { unfold sub_runs. rewrite CssFacts.chars_str. f_equal. apply sub_runs_from_none, Hsp. }
  assert (E6 : sub_runs (fun c => negb (slug_char c)) 1 (str l) = str l).
  { unfold sub_runs. rewrite CssFacts.chars_str. f_equal. apply sub_runs_from_none.
    rewrite Forall_forall in *. intros c Hc. rewrite (Hall c Hc). reflexivity. }
  assert (E7 : sub_runs (char_eqb "-"%char) 2 (str l) = str l).
  { unfold sub_runs. rewrite CssFacts.chars_str. f_equal.
    apply (sub_runs_from_two_id l []); auto. }
  assert (E8 : strip_char "-"%char (str l) = str l).
  { unfold strip_char. rewrite CssFacts.chars_str. f_equal.
    apply strip_by_id; assumption. }
  unfold slugify_name. rewrite E1, E2, E3, E4, E5, E6, E7, E8.
  destruct l as [|c l]; [contradiction | reflexivity].
Qed.

End SlugFacts.

(** X12. Whatever the name, [slugify_name] returns a non-empty string
    made of lower-case letters, digits, dots, underscores and hyphens
    only (so without any path separator), that neither starts nor ends
    with a hyphen and has no two hyphens in a row. *)
Theorem slugify_name_shape name :
  slugify_name name <> ""
  /\ Forall (fun c => slug_char c = true) (Text.chars (slugify_name name))
  /\ Text.startswith (slugify_name name) "-" = false
  /\ Text.endswith (slugify_name name) "-" = false
  /\ Text.contains_at (Text.chars "--") (Text.chars (slugify_name name)) = false.
Proof.
  destruct (SlugFacts.slugify_name_shaped name) as (l & -> & H).
  apply SlugFacts.slug_shaped_spec in H as (Hne & Hall & Hfirst & Hlast & Hsingle).
  split; [destruct l; [contradiction | discriminate]|].
  unfold Text.startswith, Text.endswith. rewrite CssFacts.chars_str.
  split; [exact Hall|]. split; [exact Hfirst|]. split; [exact Hlast|].
  clear -Hsingle. induction l as [|a l IH]; [reflexivity|].
  destruct l as [|b l].
  - change (Text.contains_at (Text.chars "--") [a])
      with (Text.char_eqb "-"%char a && false || false).
    rewrite andb_false_r. reflexivity.
  - change (single_hyphens (a :: b :: l))
      with (negb (Text.char_eqb "-"%char a && Text.char_eqb "-"%char b)
            && single_hyphens (b :: l)) in Hsingle.
    apply andb_true_iff in Hsingle as [H1 H2]. apply negb_true_iff in H1.
    change (Text.contains_at (Text.chars "--") (a :: b :: l))
      with (Text.starts_with (Text.chars "--") (a :: b :: l)
            || Text.contains_at (Text.chars "--") (b :: l)).
    rewrite (IH H2), orb_false_r.
    change (Text.starts_with (Text.chars "--") (a :: b :: l))
      with (Text.char_eqb "-"%char a && (Text.char_eqb "-"%char b && true)).
    rewrite andb_true_r. exact H1.
Qed.

(** X13. [slugify_name] is idempotent: the slug of a slug is the slug
    itself, so a name that has been through the content store keeps its
    form when the variant generator slugs it again. *)
Theorem slugify_name_idempotent name :
  slugify_name (slugify_name name) = slugify_name name.
Proof.
  destruct (SlugFacts.slugify_name_shaped name) as (l & -> & H).
  apply SlugFacts.slugify_name_fixed, H.
Qed.

(** ** Names in the content store *)

Module NameFacts.

Import Text Path.

#[local] Arguments char_eqb : simpl never.

Lemma chars_app a b : chars (a +:+ b) = chars a ++ chars b.
Proof.
  induction a as [|c a IH]; [reflexivity|].
  change (chars (String c a +:+ b)) with (c :: chars (a +:+ b)). rewrite IH. reflexivity.
Qed.

Lemma take_until_absent c l :
  Forall (fun x => char_eqb c x = false) l -> take_until c l = l.
Proof. induction 1 as [|x l Hx Hl IH]; simpl; [reflexivity|]. rewrite Hx, IH. reflexivity. Qed.

Lemma take_until_first c p r :
  Forall (fun x => char_eqb c x = false) p -> take_until c (p ++ c :: r) = p.
Proof.
  induction 1 as [|x l Hx Hl IH]; simpl.
  - assert (E : char_eqb c c = true) by (apply WidthFacts.char_eqb_eq; reflexivity).
    rewrite E. reflexivity.
  - rewrite Hx, IH. reflexivity.
Qed.

Lemma after_last_absent c l :
  Forall (fun x => char_eqb c x = false) l -> after_last c l = l.
Proof.
  intros H. unfold after_last. rewrite take_until_absent by (apply List.Forall_rev, H).
  apply rev_involutive.
Qed.

Lemma after_last_app c a b :
  Forall (fun x => char_eqb c x = false) b -> after_last c (a ++ c :: b) = b.
Proof.
  intros H. unfold after_last. rewrite rev_app_distr. simpl. rewrite <- app_assoc. simpl.
  rewrite take_until_first by (apply List.Forall_rev, H). apply rev_involutive.
Qed.

Lemma slashless_spec l :
  slashless l = true <-> Forall (fun x => char_eqb slash x = false) l.
Proof.
  unfold slashless. rewrite forallb_forall, Forall_forall. split; intros H x Hx.
  - apply negb_true_iff, H, list_elem_of_In, Hx.
  - apply negb_true_iff, H, list_elem_of_In, Hx.
Qed.

Lemma slashless_app a b : slashless (a ++ b) = slashless a && slashless b.
Proof. unfold slashless. apply forallb_app. Qed.

(** The base name of a directory joined with a name without separator
    is that name. *)
Lemma basename_join d name :
  slashless (chars name) = true -> basename (join d name) = name.
Proof.
  intros Hs. pose proof Hs as Hall. apply slashless_spec in Hall.
  assert (Hstart : startswith name "/" = false).
  { unfold startswith. destruct (chars name) as [|c l]; [reflexivity|].
    apply Forall_cons in Hall as [Hc _].
    change (starts_with (chars "/") (c :: l)) with (char_eqb slash c && true).
    rewrite Hc. reflexivity. }
  unfold join. rewrite Hstart. unfold basename.
  destruct (String.eqb d "" || endswith d "/") eqn:E.
  - rewrite chars_app. apply orb_true_iff in E as [E|E].
    + apply String.eqb_eq in E. subst d. simpl. rewrite after_last_absent by exact Hall.
      apply CssFacts.str_chars.
    + unfold endswith in E. destruct (rev (chars d)) as [|z zs] eqn:Er; [discriminate|].
      change (starts_with (rev (chars "/")) (z :: zs)) with (char_eqb slash z && true) in E.
      rewrite andb_true_r in E. apply WidthFacts.char_eqb_eq in E. subst z.
      apply (f_equal (@rev ascii)) in Er. rewrite rev_involutive in Er. simpl in Er.
      rewrite Er, <- app_assoc. simpl.
      rewrite after_last_app by exact Hall. apply CssFacts.str_chars.
  - rewrite !chars_app. change (chars "/") with [slash]. simpl.
    rewrite after_last_app by exact Hall. apply CssFacts.str_chars.
Qed.

Lemma slug_slashless l : Forall (fun c => slug_char c = true) l -> slashless l = true.
Proof.
  intros H. apply slashless_spec. rewrite Forall_forall in *. intros c Hc.
  apply (SlugFacts.slug_char_plain c (H c Hc)).
Qed.

Lemma hex_char_hex d : 0 <= d < 16 -> is_hex (Sha1.hex_char d) = true.
Proof.
  intros Hd.
  assert (Hcases : d = 0 \/ d = 1 \/ d = 2 \/ d = 3 \/ d = 4 \/ d = 5 \/ d = 6 \/ d = 7
                   \/ d = 8 \/ d = 9 \/ d = 10 \/ d = 11 \/ d = 12 \/ d = 13 \/ d = 14
                   \/ d = 15) by lia.
  repeat (destruct Hcases as [->|Hcases]; [vm_compute; reflexivity|]).
  subst d. vm_compute. reflexivity.
Qed.

Lemma hex_word_hex n x : Forall (fun c => is_hex c = true) (Sha1.hex_word n x).
Proof.
  induction n as [|n IH]; simpl; constructor; [|exact IH].
  apply hex_char_hex. change 15 with (Z.ones 4). rewrite Z.land_ones by lia.
  apply Z.mod_pos_bound. reflexivity.
Qed.

Lemma hex_word_length n x : length (Sha1.hex_word n x) = n.
Proof. induction n as [|n IH]; simpl; [reflexivity|]. rewrite IH. reflexivity. Qed.

Lemma hash12_chars data :
  exists l, hash12 data = str l /\ length l = 12%nat /\ Forall (fun c => is_hex c = true) l.
Proof.
  unfold hash12, Sha1.hexdigest.
  destruct (Sha1.digest _) as [[[[h0 h1] h2] h3] h4].
  rewrite CssFacts.chars_str. eexists. split; [reflexivity|]. split.
  - rewrite length_firstn, !length_app, !hex_word_length. reflexivity.
  - apply Forall_take. rewrite !Forall_app. repeat split; apply hex_word_hex.
Qed.

Lemma hex_slug c : is_hex c = true -> slug_char c = true.
Proof.
  destruct c as [[] [] [] [] [] [] [] []]; vm_compute; intros H;
    first [discriminate H | reflexivity].
Qed.

End NameFacts.

(** X14. A content hash is twelve lower-case hexadecimal digits. *)
Theorem hash12_shape data :
  String.length (hash12 data) = 12%nat
  /\ Forall (fun c => is_hex c = true) (Text.chars (hash12 data)).
Proof.
  destruct (NameFacts.hash12_chars data) as (l & -> & Hlen & Hall).
  rewrite CssFacts.length_str, CssFacts.chars_str. auto.
Qed.

Section StoredNames.

Variable env : Env.


End StoredNames.


(** ** Widths written into names and read back *)

Module DigitFacts.

Import Text.

#[local] Arguments char_eqb : simpl never.

Lemma digit_char_digit d :
  0 <= d < 10 -> is_digit (digit_char d) = true /\ code (digit_char d) - 48 = d.
Proof.
  intros Hd.
  assert (Hcases : d = 0 \/ d = 1 \/ d = 2 \/ d = 3 \/ d = 4 \/ d = 5 \/ d = 6 \/ d = 7
                   \/ d = 8 \/ d = 9) by lia.
  repeat (destruct Hcases as [->|Hcases]; [vm_compute; auto|]).
  subst d. vm_compute. auto.
Qed.

Lemma Z_of_digits_snoc ds c : Z_of_digits (ds ++ [c]) = 10 * Z_of_digits ds + (code c - 48).
Proof. unfold Z_of_digits. rewrite fold_left_app. reflexivity. Qed.

Lemma pos_digits_spec fuel :
  forall n acc, 0 <= n < 2 ^ Z.of_nat (S fuel) ->
  exists ds, pos_digits (S fuel) n acc = ds ++ acc
             /\ ds <> [] /\ Forall (fun c => is_digit c = true) ds /\ Z_of_digits ds = n.
Proof.
  induction fuel as [|fuel IH]; intros n acc Hn.
  - change (2 ^ Z.of_nat 1) with 2 in Hn.
    assert (E : (n <? 10) = true) by (apply Z.ltb_lt; lia).
    simpl. rewrite E. exists [digit_char n].
    destruct (digit_char_digit n ltac:(lia)) as [H1 H2].
    split; [reflexivity|]. split; [discriminate|]. split; [repeat constructor; exact H1|].
    unfold Z_of_digits. simpl. lia.
  - change (pos_digits (S (S fuel)) n acc)
      with (if n <? 10 then digit_char n :: acc
            else pos_digits (S fuel) (n / 10) (digit_char (n mod 10) :: acc)).
    destruct (n <? 10) eqn:E.
    + apply Z.ltb_lt in E. exists [digit_char n].
      destruct (digit_char_digit n ltac:(lia)) as [H1 H2].
      split; [reflexivity|]. split; [discriminate|]. split; [repeat constructor; exact H1|].
      unfold Z_of_digits. simpl. lia.
    + apply Z.ltb_ge in E.
      assert (Hq : 0 <= n / 10 < 2 ^ Z.of_nat (S fuel)).
      { split; [apply Z.div_pos; lia|].
        apply Z.div_lt_upper_bound; [lia|].
        rewrite (Nat2Z.inj_succ (S fuel)), Z.pow_succ_r in Hn by lia.
        assert (0 < 2 ^ Z.of_nat (S fuel)) by (apply Z.pow_pos_nonneg; lia). lia. }
      destruct (IH (n / 10) (digit_char (n mod 10) :: acc) Hq) as (ds & Hds & Hne & Hall & Hval).
      assert (Hm : 0 <= n mod 10 < 10) by (apply Z.mod_pos_bound; lia).
      destruct (digit_char_digit _ Hm) as [H1 H2].
      exists (ds ++ [digit_char (n mod 10)]).
      split; [rewrite Hds, <- app_assoc; reflexivity|].
      split; [destruct ds; discriminate|].
      split; [apply Forall_app; split; [exact Hall | repeat constructor; exact H1]|].
      rewrite Z_of_digits_snoc, Hval, H2. symmetry. apply Z.div_mod. lia.
Qed.

(** [int(str(n)) == n] for a natural number, and [str(n)] is a non-empty
    run of digits. *)
Lemma str_of_Z_digits n :
  0 <= n ->
  exists ds, chars (str_of_Z n) = ds
             /\ ds <> [] /\ Forall (fun c => is_digit c = true) ds /\ Z_of_digits ds = n.
Proof.
  intros Hn. unfold str_of_Z.
  assert (E : (n <? 0) = false) by (apply Z.ltb_ge; lia). rewrite E.
  rewrite Nat.add_1_r.
  assert (Hb : 0 <= n < 2 ^ Z.of_nat (S (Z.to_nat (Z.log2 n)))).
  { split; [exact Hn|]. rewrite Nat2Z.inj_succ, Z2Nat.id by apply Z.log2_nonneg.
    destruct (Z.eq_dec n 0) as [->|Hz]; [reflexivity|].
    apply Z.log2_spec. lia. }
  destruct (pos_digits_spec _ n [] Hb) as (ds & Hds & Hne & Hall & Hval).
  rewrite Hds, app_nil_r, CssFacts.chars_str. exists ds. auto.
Qed.

Lemma digit_slashless ds :
  Forall (fun c => is_digit c = true) ds -> slashless ds = true.
Proof.
  intros H. apply NameFacts.slashless_spec. rewrite Forall_forall in *. intros c Hc.
  specialize (H c Hc). destruct (char_eqb "/"%char c) eqn:E; [|exact E].
  apply WidthFacts.char_eqb_eq in E. subst c. discriminate H.
Qed.

End DigitFacts.

Lemma omap_read_back {A B} (f : B -> option (A * B)) (l : list (A * B)) :
  Forall (fun wp => f (snd wp) = Some wp) l -> omap f (map snd l) = l.
Proof.
  induction 1 as [|wp l Hwp Hl IH]; [reflexivity|].
  change (omap f (map snd (wp :: l)))
    with (match f (snd wp) with
          | Some y => y :: omap f (map snd l)
          | None => omap f (map snd l)
          end).
  rewrite Hwp, IH. reflexivity.
Qed.

(** The name of a variant carries its width in the shape the HTML
    rewriter looks for. *)
Lemma variant_path_read_back out_dir img_path ext t :
  0 <= t -> ext <> "" ->
  forallb (fun c => negb (Text.char_eqb "."%char c) && negb (Text.char_eqb "/"%char c))
          (Text.chars ext) = true ->
  Width.search_anchored
    (Text.chars (Path.basename (Path.join out_dir (variant_name (variant_stem img_path) t ext))))
  = Some t.
Proof.
  intros Ht Hne Hext.
  destruct (DigitFacts.str_of_Z_digits t Ht) as (ds & Hds & Hdne & Hdig & Hval).
  destruct (SlugFacts.slugify_name_shaped (fst (Path.splitext (Path.basename img_path))))
    as (stem & Hstem & Hshape).
  apply SlugFacts.slug_shaped_spec in Hshape as (_ & Hslug & _).
  assert (Hdot : Forall (fun c => c <> dotc) (Text.chars ext)
                 /\ slashless (Text.chars ext) = true).
  { rewrite forallb_forall in Hext. split.
    - rewrite Forall_forall. intros c Hc Hcd. apply list_elem_of_In in Hc.
      specialize (Hext c Hc). apply andb_true_iff in Hext as [Hext _].
      apply negb_true_iff in Hext. subst c. discriminate Hext.
    - unfold slashless. apply forallb_forall. intros c Hc.
      specialize (Hext c Hc). apply andb_true_iff in Hext as [_ Hext]. exact Hext. }
  destruct Hdot as [Hdot Hslash].
  assert (Hchars : Text.chars (variant_name (variant_stem img_path) t ext)
                   = stem ++ dash :: ds ++ wc :: dotc :: Text.chars ext).
  { unfold variant_name, variant_stem. rewrite Hstem, !NameFacts.chars_app, Hds.
    rewrite CssFacts.chars_str. reflexivity. }
  rewrite NameFacts.basename_join.
  - rewrite Hchars. rewrite WidthFacts.search_anchored_complete; auto.
    + rewrite Hval. reflexivity.
    + destruct ext; [contradiction | discriminate].
  - rewrite Hchars.
    change (stem ++ dash :: ds ++ wc :: dotc :: Text.chars ext)
      with (stem ++ [dash] ++ ds ++ [wc; dotc] ++ Text.chars ext).
    rewrite !NameFacts.slashless_app.
    rewrite (NameFacts.slug_slashless _ Hslug), (DigitFacts.digit_slashless _ Hdig), Hslash.
    reflexivity.
Qed.

(** X16. What the variant generator writes into the file names, the HTML
    rewriter reads back: when the widths are not negative and the
    extension is not empty and has neither dot nor slash, the pairs that
    [process_one_image_url] rebuilds from the paths alone are exactly the
    pairs [make_variants] returned, width for width and in the same
    order. *)
Theorem variant_widths_read_back env img_path out_dir widths fmt qual st pairs st' w h :
  natural_size env st img_path = Some (w, h) ->
  make_variants env img_path out_dir widths fmt qual st = (Ok pairs, st') ->
  0 <= w -> Forall (fun t => 0 <= t) widths ->
  variant_ext fmt img_path <> "" ->
  forallb (fun c => negb (Text.char_eqb "."%char c) && negb (Text.char_eqb "/"%char c))
          (Text.chars (variant_ext fmt img_path)) = true ->
  pairs_of_paths (map snd pairs) = pairs.
Proof.
  intros Hn H Hw Hwidths Hne Hext.
  apply make_variants_Ok in H as (w' & h' & Hn' & ->).
  rewrite Hn in Hn'. injection Hn' as <- <-.
  unfold pairs_of_paths. rewrite omap_read_back.
  - apply sort_by_width_sorted, sort_by_width_ascending.
  - apply Forall_sort_by_width. unfold ladder. apply Forall_app. split.
    + rewrite Forall_map, Forall_forall. intros t Ht. cbv beta. cbn [snd].
      apply list_elem_of_In, filter_In in Ht as [Ht _]. apply list_elem_of_In in Ht.
      rewrite Forall_forall in Hwidths.
      rewrite (variant_path_read_back out_dir img_path _ t (Hwidths t Ht) Hne Hext).
      reflexivity.
    + constructor; [|constructor]. cbn [snd].
      rewrite (variant_path_read_back out_dir img_path _ w Hw Hne Hext). reflexivity.
Qed.

Lemma variant_widths_read_back_witness :
  natural_size Sample.env Sample.site "/site/img/photo.png" = Some (1000, 666)
  /\ variant_ext "keep" "/site/img/photo.png" = "png"
  /\ exists pairs st',
       make_variants Sample.env "/site/img/photo.png" "/site/v" [800; 480; 1200]
         "keep" 82 Sample.site = (Ok pairs, st')
       /\ pairs_of_paths (map snd pairs) = pairs.
Proof.
  assert (Hn : natural_size Sample.env Sample.site "/site/img/photo.png" = Some (1000, 666))
    by (vm_compute; reflexivity).
  split; [exact Hn|]. split; [vm_compute; reflexivity|].
  destruct (make_variants Sample.env "/site/img/photo.png" "/site/v" [800; 480; 1200]
              "keep" 82 Sample.site) as [[pairs|e] st'] eqn:E; [|vm_compute in E; discriminate].
  exists pairs, st'. split; [reflexivity|].
  apply (variant_widths_read_back _ _ _ _ _ _ _ _ _ _ _ Hn E).
  - lia.
  - repeat constructor; lia.
  - vm_compute. discriminate.
  - vm_compute. reflexivity.
Defined.

(** ** Links to renamed pages *)

Module LinkFacts.

Import Text Path Passes.

#[local] Arguments char_eqb : simpl never.

Lemma char_eqb_refl c : char_eqb c c = true.
Proof. apply WidthFacts.char_eqb_eq. reflexivity. Qed.

Lemma char_eqb_neq a b : char_eqb a b = false <-> a <> b.
Proof.
  split.
  - intros H E. apply WidthFacts.char_eqb_eq in E. congruence.
  - intros H. destruct (char_eqb a b) eqn:E; [|reflexivity].
    apply WidthFacts.char_eqb_eq in E. contradiction.
Qed.

Lemma lstrip_by_app P x r : stops P r -> lstrip_by P (x ++ r) = lstrip_by P x ++ r.
Proof.
  intros Hr. induction x as [|c x IH]; simpl.
  - destruct r as [|c r]; [reflexivity|]. simpl in Hr. simpl. rewrite Hr. reflexivity.
  - destruct (P c); [exact IH | reflexivity].
Qed.

Lemma drop_dot_slash_app r :
  stops (fun c => char_eqb "."%char c || char_eqb "/"%char c) r ->
  forall n p, (length p <= n)%nat -> drop_dot_slash (p ++ r) = drop_dot_slash p ++ r.
Proof.
  intros Hr. induction n as [|n IH]; intros p Hp.
  - destruct p; [|simpl in Hp; lia]. simpl.
    destruct r as [|a [|b r]]; try reflexivity.
    simpl in Hr. apply orb_false_iff in Hr as [Ha _].
    cbn [drop_dot_slash]. rewrite Ha. reflexivity.
  - destruct p as [|a [|b p]].
    + apply (IH []). simpl. lia.
    + destruct r as [|c r]; [reflexivity|]. simpl in Hr. apply orb_false_iff in Hr as [_ Hc].
      cbn [app drop_dot_slash]. rewrite Hc, andb_false_r. reflexivity.
    + cbn [app drop_dot_slash].
      destruct (char_eqb "."%char a && char_eqb "/"%char b); [|reflexivity].
      apply IH. simpl in Hp. lia.
Qed.

Lemma drop_dot_slash_suffix : forall n p, (length p <= n)%nat -> exists a, p = a ++ drop_dot_slash p.
Proof.
  induction n as [|n IH]; intros p Hp.
  - destruct p; [exists []; reflexivity | simpl in Hp; lia].
  - destruct p as [|a [|b p]]; [exists []; reflexivity | exists []; reflexivity|].
    cbn [drop_dot_slash].
    destruct (char_eqb "."%char a && char_eqb "/"%char b); [|exists []; reflexivity].
    destruct (IH p ltac:(simpl in Hp; lia)) as [x Hx].
    exists (a :: b :: x). simpl. rewrite <- Hx. reflexivity.
Qed.

Lemma find_char_absent c l :
  Forall (fun x => char_eqb c x = false) l -> find_char c l = None.
Proof. induction 1 as [|x l Hx Hl IH]; simpl; [reflexivity|]. rewrite Hx, IH. reflexivity. Qed.

Lemma find_char_first c p r :
  Forall (fun x => char_eqb c x = false) p -> find_char c (p ++ c :: r) = Some (length p).
Proof.
  induction 1 as [|x l Hx Hl IH]; simpl.
  - rewrite char_eqb_refl. reflexivity.
  - rewrite Hx, IH. reflexivity.
Qed.

Lemma find_char_beyond c p r i :
  Forall (fun x => char_eqb c x = false) p -> stops (char_eqb c) r ->
  find_char c (p ++ r) = Some i -> (length p < i)%nat.
Proof.
  intros Hp Hr. revert i. induction Hp as [|x l Hx Hl IH]; intros i; simpl.
  - destruct r as [|y r]; simpl; [discriminate|]. simpl in Hr. rewrite Hr.
    destruct (find_char c r); simpl; [|discriminate]. intros [= <-]. lia.
  - rewrite Hx. destruct (find_char c (l ++ r)) as [j|]; simpl; [|discriminate].
    intros [= <-]. specialize (IH j eq_refl). lia.
Qed.

(** A value that starts with [data:] has a scheme. *)
Lemma data_has_scheme l :
  starts_with (chars "data:") l = true -> has_scheme (str l) = true.
Proof.
  intros H. apply CssFacts.starts_with_split in H. rewrite H. reflexivity.
Qed.

(** Where the base is not a key of the map, the value stays. *)
Lemma fix_link_not_renamed renamed v :
  renamed !! link_base v = None -> fix_link renamed v = v.
Proof.
  intros H. unfold fix_link. rewrite H.
  destruct (has_scheme v); [reflexivity|].
  destruct (startswith v "#" || startswith v "data:"); reflexivity.
Qed.

Lemma take_unquoted_prefix l : l = take_unquoted l ++ skipn (length (take_unquoted l)) l.
Proof.
  induction l as [|c l IH]; simpl; [reflexivity|].
  destruct (is_quote c); simpl; [reflexivity|]. f_equal. exact IH.
Qed.

Lemma firstn_before (a b : list ascii) : firstn (length (a ++ b) - length b) (a ++ b) = a.
Proof.
  rewrite length_app. replace (length a + length b - length b)%nat with (length a) by lia.
  apply take_app_length.
Qed.

Lemma match_after_name_Some l x r m :
  l = x ++ r -> match_after_name l r = Some m ->
  l = attr m ++ val m ++ closing m :: after m /\ attr m <> [] /\ val m <> [].
Proof.
  intros Hl. unfold match_after_name.
  destruct (SlugFacts.lstrip_by_suffix is_space r) as [s1 Hs1].
  destruct (lstrip_by is_space r) as [|e r1]; [discriminate|].
  destruct (char_eqb "="%char e); [|discriminate].
  destruct (SlugFacts.lstrip_by_suffix is_space r1) as [s2 Hs2].
  destruct (lstrip_by is_space r1) as [|q r2]; [discriminate|].
  destruct (is_quote q); [|discriminate].
  pose proof (take_unquoted_prefix r2) as Hv.
  destruct (take_unquoted r2) as [|v0 v] eqn:Ev; [discriminate|].
  destruct (skipn (length (v0 :: v)) r2) as [|q3 rest] eqn:Er; [discriminate|].
  intros [= <-]. simpl attr. simpl val. simpl closing. simpl after.
  assert (Hl' : l = (x ++ s1 ++ e :: s2 ++ [q]) ++ r2).
  { rewrite Hl, Hs1, Hs2. repeat (rewrite <- app_assoc; simpl). reflexivity. }
  split; [|split; [|discriminate]].
  - rewrite Hl' at 1 2 3. rewrite firstn_before. rewrite <- Hv. reflexivity.
  - rewrite Hl' at 1 2. rewrite firstn_before.
    destruct x; simpl; [destruct s1; simpl|]; discriminate.
Qed.

Lemma match_names_Some names l m :
  match_names names l = Some m ->
  l = attr m ++ val m ++ closing m :: after m /\ attr m <> [] /\ val m <> [].
Proof.
  induction names as [|name names IH]; simpl; [discriminate|].
  destruct (starts_with_nocase (chars name) l); [|exact IH].
  destruct (match_after_name l (skipn (String.length name) l)) as [m'|] eqn:E; [|exact IH].
  intros [= <-].
  apply (match_after_name_Some l (firstn (String.length name) l) _ _
           (eq_sym (firstn_skipn _ l)) E).
Qed.

Lemma match_attr_here_Some prev l m :
  match_attr_here prev l = Some m ->
  l = attr m ++ val m ++ closing m :: after m /\ attr m <> [] /\ val m <> [].
Proof.
  unfold match_attr_here.
  destruct (match prev with Some p => is_word p | None => false end); [discriminate|].
  apply match_names_Some.
Qed.

(** With a replacement that returns every value as it is, the
    substitution gives the text back. *)
Lemma scan_attrs_lossless renamed :
  (forall v, fix_link renamed v = v) ->
  forall fuel prev l, (length l <= fuel)%nat ->
  Text.join "" (map (link_repl renamed) (scan_attrs fuel prev l)) = str l.
Proof.
  intros Hid. induction fuel as [|fuel IH]; intros prev l Hl.
  - destruct l; [reflexivity | simpl in Hl; lia].
  - destruct l as [|c l']; [reflexivity|].
    change (scan_attrs (S fuel) prev (c :: l'))
      with (match match_attr_here prev (c :: l') with
            | Some m => inr m :: scan_attrs fuel (Some (closing m)) (after m)
            | None => inl c :: scan_attrs fuel (Some c) l'
            end).
    destruct (match_attr_here prev (c :: l')) as [m|] eqn:E.
    + apply match_attr_here_Some in E as (Hm & Hattr & _).
      rewrite map_cons, CssFacts.join_empty_cons. rewrite IH.
      * unfold link_repl. rewrite Hid.
        change (String (closing m) "") with (str [closing m]).
        rewrite <- !CssFacts.str_app. rewrite Hm. f_equal.
        rewrite <- !app_assoc. reflexivity.
      * apply (f_equal (@length ascii)) in Hm. rewrite !length_app in Hm. simpl in Hm, Hl.
        destruct (attr m); [contradiction|]. simpl in Hm. lia.
    + rewrite map_cons, CssFacts.join_empty_cons. rewrite IH by (simpl in Hl; lia). reflexivity.
Qed.

End LinkFacts.

(** X17. When the path of a site-relative link is a key of the rename
    map, [fix_link] replaces the path by the new name and keeps the query
    and the fragment as they are; leading [./] and slashes do not count
    for the lookup, and the result starts with one slash exactly when the
    link started with a slash. *)
Theorem fix_link_keeps_query_and_fragment renamed (p q f : list ascii) target :
  Passes.has_scheme (Text.str (p ++ q ++ f)) = false ->
  Text.startswith (Text.str (p ++ q ++ f)) "#" = false ->
  Forall (fun c => c <> "?"%char /\ c <> "#"%char) p ->
  (q = [] \/ exists q', q = "?"%char :: q' /\ Forall (fun c => c <> "#"%char) q') ->
  (f = [] \/ exists f', f = "#"%char :: f') ->
  renamed !! Passes.link_base (Text.str p) = Some target ->
  Passes.fix_link renamed (Text.str (p ++ q ++ f))
  = (if Text.startswith (Text.str p) "/" then "/" else "")
    +:+ target +:+ Text.str q +:+ Text.str f.
Proof.
  intros Hscheme Hfrag Hp Hq Hf Hbase.
  assert (Hpq : Forall (fun x => Text.char_eqb "?"%char x = false) p
                /\ Forall (fun x => Text.char_eqb "#"%char x = false) p).
  { split; rewrite Forall_forall in *; intros c Hc; apply LinkFacts.char_eqb_neq;
      intros <-; destruct (Hp _ Hc); congruence. }
  destruct Hpq as [Hpq Hph].
  assert (Hqh : Forall (fun x => Text.char_eqb "#"%char x = false) q).
  { destruct Hq as [-> | (q' & -> & Hq')]; [constructor|].
    constructor; [reflexivity|]. rewrite Forall_forall in *. intros c Hc.
    apply LinkFacts.char_eqb_neq. intros <-. exact (Hq' _ Hc eq_refl). }
  assert (Hstop : stops (fun c => Text.char_eqb "."%char c || Text.char_eqb "/"%char c)
                    (q ++ f)
                  /\ stops (Text.char_eqb "/"%char) (q ++ f)).
  { destruct Hq as [-> | (q' & -> & _)]; [|split; reflexivity].
    destruct Hf as [-> | (f' & ->)]; split; (exact I || reflexivity). }
  destruct Hstop as [Hstop1 Hstop2].
  (* the base of the whole value is the base of its path *)
  assert (Hb : Passes.link_base (Text.str (p ++ q ++ f)) = Passes.link_base (Text.str p)).
  { unfold Passes.link_base. rewrite !CssFacts.chars_str.
    rewrite (LinkFacts.drop_dot_slash_app _ Hstop1 (length p) p (le_n _)).
    rewrite (LinkFacts.lstrip_by_app _ _ _ Hstop2).
    destruct (LinkFacts.drop_dot_slash_suffix (length p) p (le_n _)) as [x1 Hx1].
    destruct (SlugFacts.lstrip_by_suffix (Text.char_eqb "/"%char) (Passes.drop_dot_slash p))
      as [x2 Hx2].
    set (x := Text.lstrip_by (Text.char_eqb "/"%char) (Passes.drop_dot_slash p)) in *.
    assert (Hx : Forall (fun c => Text.char_eqb "?"%char c = false) x
                 /\ Forall (fun c => Text.char_eqb "#"%char c = false) x).
    { rewrite Hx1, Hx2 in Hpq, Hph.
      apply Forall_app in Hpq as [_ Hpq]. apply Forall_app in Hpq as [_ Hpq].
      apply Forall_app in Hph as [_ Hph]. apply Forall_app in Hph as [_ Hph]. auto. }
    destruct Hx as [Hxq Hxh].
    rewrite (NameFacts.take_until_absent "#"%char x Hxh).
    rewrite (NameFacts.take_until_absent "?"%char x Hxq).
    assert (E1 : Path.take_until "#"%char (x ++ q ++ f) = x ++ q).
    { destruct Hf as [-> | (f' & ->)].
      - rewrite app_nil_r. apply NameFacts.take_until_absent, Forall_app. auto.
      - rewrite app_assoc. apply NameFacts.take_until_first, Forall_app. auto. }
    rewrite E1.
    destruct Hq as [-> | (q' & -> & _)].
    - rewrite app_nil_r, (NameFacts.take_until_absent "?"%char x Hxq). reflexivity.
    - rewrite (NameFacts.take_until_first "?"%char x q' Hxq). reflexivity. }
  assert (Hdata : Text.startswith (Text.str (p ++ q ++ f)) "data:" = false).
  { destruct (Text.startswith (Text.str (p ++ q ++ f)) "data:") eqn:E; [|reflexivity].
    unfold Text.startswith in E. rewrite CssFacts.chars_str in E.
    apply LinkFacts.data_has_scheme in E. congruence. }
  assert (Hslash : Text.startswith (Text.str (p ++ q ++ f)) "/" = Text.startswith (Text.str p) "/").
  { unfold Text.startswith. rewrite !CssFacts.chars_str.
    destruct p as [|c p]; [|reflexivity]. simpl app.
    destruct Hq as [-> | (q' & -> & _)]; [|reflexivity].
    destruct Hf as [-> | (f' & ->)]; reflexivity. }
  unfold Passes.fix_link. rewrite Hscheme, Hfrag, Hdata, Hb, Hbase, Hslash. cbv zeta.
  rewrite !CssFacts.chars_str. simpl orb. cbv iota.
  f_equal. f_equal.
  (* the positions of the question mark and of the hash sign *)
  assert (Hh : Passes.find_char "#"%char (p ++ q ++ f)
               = match f with [] => None | _ => Some (length (p ++ q)) end).
  { destruct Hf as [-> | (f' & ->)].
    - rewrite app_nil_r. apply LinkFacts.find_char_absent, Forall_app. auto.
    - rewrite app_assoc. apply LinkFacts.find_char_first, Forall_app. auto. }
  rewrite Hh.
  destruct Hq as [-> | (q' & -> & Hq')].
  - (* no query *)
    simpl app. rewrite app_nil_r.
    destruct Hf as [-> | (f' & ->)].
    + rewrite app_nil_r, (LinkFacts.find_char_absent _ _ Hpq). reflexivity.
    + destruct (Passes.find_char "?"%char (p ++ "#"%char :: f')) as [i|] eqn:Ei.
      * apply LinkFacts.find_char_beyond in Ei; [|exact Hpq|reflexivity].
        assert (E : (i <? length p)%nat = false) by (apply Nat.ltb_ge; lia).
        rewrite E. rewrite drop_app_length. reflexivity.
      * rewrite drop_app_length. reflexivity.
  - (* a query *)
    change (("?"%char :: q') ++ f) with ("?"%char :: q' ++ f).
    rewrite (LinkFacts.find_char_first "?"%char p (q' ++ f) Hpq).
    destruct Hf as [-> | (f' & ->)].
    + rewrite app_nil_r, drop_app_length. reflexivity.
    + assert (E : (length p <? length (p ++ "?"%char :: q'))%nat = true).
      { apply Nat.ltb_lt. rewrite length_app. simpl. lia. }
      rewrite E. rewrite drop_app_length.
      replace (length (p ++ "?"%char :: q') - length p)%nat with (length ("?"%char :: q'))
        by (rewrite length_app; lia).
      change ("?"%char :: q' ++ "#"%char :: f') with (("?"%char :: q') ++ "#"%char :: f').
      rewrite take_app_length.
      rewrite (app_assoc p), drop_app_length. reflexivity.
Qed.

Lemma fix_link_keeps_query_and_fragment_witness :
  let renamed : gmap string string := {[ "blog/post" := "blog/post.html" ]} in
  Passes.fix_link renamed "/./blog/post?p=1#top" = "/./blog/post?p=1#top"
  /\ Passes.fix_link renamed "././/blog/post?p=1#top?x" = "blog/post.html?p=1#top?x"
  /\ Passes.fix_link renamed "/blog/post#top" = "/blog/post.html#top".
Proof.
  intros renamed.
  split; [vm_compute; reflexivity|]. split.
  - apply (fix_link_keeps_query_and_fragment renamed
             (Text.chars "././/blog/post") (Text.chars "?p=1") (Text.chars "#top?x")
             "blog/post.html").
    + vm_compute. reflexivity.
    + vm_compute. reflexivity.
    + repeat constructor; discriminate.
    + right. eexists. split; [reflexivity|]. repeat constructor; discriminate.
    + right. eexists. reflexivity.
    + vm_compute. reflexivity.
  - apply (fix_link_keeps_query_and_fragment renamed
             (Text.chars "/blog/post") [] (Text.chars "#top") "blog/post.html").
    + vm_compute. reflexivity.
    + vm_compute. reflexivity.
    + repeat constructor; discriminate.
    + left. reflexivity.
    + right. eexists. reflexivity.
    + vm_compute. reflexivity.
Defined.

Section LinksUntouched.

Variable env : Env.

(** X18. With an empty rename map [rewrite_links_in_html] reads the
    document and does nothing else: every attribute value comes back as
    it was, the new text equals the old one, nothing is written, the
    state is unchanged. *)
Theorem nothing_renamed_links_untouched file_path dist_root st data :
  file_content st file_path = Some data ->
  Passes.rewrite_links_in_html env file_path ∅ dist_root st = (Ok tt, st).
Proof.
  intros Hf. unfold Passes.rewrite_links_in_html.
  rewrite (bind_Ok_step _ _ _ _ _ (file_content_read _ _ _ Hf)). cbv zeta.
  assert (Hsub : Passes.sub_links ∅ (decode_ignore env data) = decode_ignore env data).
  { unfold Passes.sub_links. rewrite LinkFacts.scan_attrs_lossless.
    - apply CssFacts.str_chars.
    - intros v. apply LinkFacts.fix_link_not_renamed, lookup_empty.
    - rewrite CssFacts.length_chars. reflexivity. }
  rewrite Hsub, String.eqb_refl. reflexivity.
Qed.

End LinksUntouched.

Lemma nothing_renamed_links_untouched_witness :
  file_content Sample.site "/site/index.html" = Some Sample.index_html
  /\ Passes.rewrite_links_in_html Sample.env "/site/index.html" ∅ "/site" Sample.site
     = (Ok tt, Sample.site).
Proof.
  assert (H : file_content Sample.site "/site/index.html" = Some Sample.index_html)
    by (vm_compute; reflexivity).
  split; [exact H|].
  exact (nothing_renamed_links_untouched Sample.env _ "/site" _ _ H).
Defined.

(** ** The index page *)

Section IndexPage.

Import Index.

Lemma choose_index_spec preferred all_html :
  (choose_index preferred all_html = "" /\ all_html = []
   \/ choose_index preferred all_html ∈ all_html)
  /\ (preferred <> "" ->
      (exists p, p ∈ all_html /\ Path.basename p = preferred) ->
      Path.basename (choose_index preferred all_html) = preferred)
  /\ ((preferred = "" \/ forall p, p ∈ all_html -> Path.basename p <> preferred) ->
      choose_index preferred all_html = hd "" all_html).
Proof.
  unfold choose_index.
  assert (Hhd : hd "" all_html = "" /\ all_html = [] \/ hd "" all_html ∈ all_html).
  { destruct all_html as [|p l]; [left; auto | right; simpl; left]. }
  destruct (existsb (named preferred) all_html) eqn:E.
  - apply existsb_exists in E as (p & Hp & Hn).
    destruct (List.find (named preferred) all_html) as [p'|] eqn:F.
    + apply find_some in F as [Hin Hn']. unfold named in Hn'. apply String.eqb_eq in Hn'.
      destruct (String.eqb preferred "") eqn:Ep; simpl.
      * apply String.eqb_eq in Ep. split; [exact Hhd|]. split; [congruence | auto].
      * split; [right; apply list_elem_of_In, Hin|]. split; [auto|].
        intros [Hemp | Hnone].
        -- apply String.eqb_neq in Ep. contradiction.
        -- exfalso. apply (Hnone p'); [apply list_elem_of_In, Hin | exact Hn'].
    + exfalso. apply (find_none _ _ F) in Hp. congruence.
  - rewrite andb_false_r. split; [exact Hhd|]. split; [|auto].
    intros _ (p & Hp & Hn). exfalso.
    assert (Hex : existsb (named preferred) all_html = true).
    { apply existsb_exists. exists p. split; [apply list_elem_of_In, Hp|].
      unfold named. apply String.eqb_eq, Hn. }
    congruence.
Qed.


End IndexPage.


(** ** Frames *)

Section Frames.

Variable R : State -> State -> Prop.
Hypothesis R_refl : forall st, R st st.
Hypothesis R_trans : forall a b c, R a b -> R b c -> R a c.

Lemma steps_in_pure {A} (c : M A) : (forall st, snd (c st) = st) -> steps_in R c.
Proof.
  intros Hc st r st' H. specialize (Hc st). rewrite H in Hc. simpl in Hc. subst. apply R_refl.
Qed.

Lemma steps_in_ret {A} (a : A) : steps_in R (ret a).
Proof. apply steps_in_pure. reflexivity. Qed.

Lemma steps_in_raise {A} (e : exn) : steps_in R (@raise A e).
Proof. apply steps_in_pure. reflexivity. Qed.

Lemma steps_in_lift {A} (r : result A) : steps_in R (lift r).
Proof. apply steps_in_pure. reflexivity. Qed.

Lemma steps_in_gets {A} (f : State -> A) : steps_in R (gets f).
Proof. apply steps_in_pure. reflexivity. Qed.

Lemma steps_in_read p : steps_in R (read_file p).
Proof. apply steps_in_pure. intros st. unfold read_file. repeat case_match; reflexivity. Qed.

Lemma steps_in_bind {A B} (c : M A) (k : A -> M B) :
  steps_in R c -> (forall a, steps_in R (k a)) -> steps_in R (bind c k).
Proof.
  intros Hc Hk st r st' H. unfold bind in H.
  destruct (c st) as [[a|e] st1] eqn:E.
  - exact (R_trans _ _ _ (Hc _ _ _ E) (Hk a _ _ _ H)).
  - injection H as _ <-. exact (Hc _ _ _ E).
Qed.

Lemma steps_in_try {A} (c : M A) (h : A) : steps_in R c -> steps_in R (try_except c h).
Proof.
  intros Hc st r st' H. unfold try_except in H.
  destruct (c st) as [[a|e] st1] eqn:E; injection H as _ <-; exact (Hc _ _ _ E).
Qed.

Lemma steps_in_mapM {A B} (f : A -> M B) l :
  (forall x, steps_in R (f x)) -> steps_in R (mapM f l).
Proof.
  intros Hf. induction l as [|x l IH]; simpl.
  - apply steps_in_ret.
  - apply steps_in_bind; [apply Hf|]. intros y.
    apply steps_in_bind; [apply IH|]. intros ys. apply steps_in_ret.
Qed.

End Frames.

Lemma extends_refl st : extends st st.
Proof. unfold extends. repeat split; auto. Qed.

Lemma extends_trans a b c : extends a b -> extends b c -> extends a c.
Proof.
  unfold extends. intros (C1 & M1 & P1 & K1 & F1 & D1) (C2 & M2 & P2 & K2 & F2 & D2).
  repeat split; try congruence; [auto | set_solver].
Qed.

Lemma extends_write p d : steps_in extends (write_file p d).
Proof.
  intros st r st' H. unfold write_file in H.
  repeat case_match; injection H as _ <-; try apply extends_refl.
  unfold extends. simpl. repeat split; auto.
  intros k Hk. destruct (decide (fs_key st p = k)) as [->|Hne].
  - rewrite lookup_insert_eq. eauto.
  - rewrite lookup_insert_ne by exact Hne. exact Hk.
Qed.

Lemma extends_ensure_dir p : steps_in extends (ensure_dir p).
Proof.
  intros st r st' H. unfold ensure_dir in H.
  repeat case_match; injection H as _ <-; try apply extends_refl.
  unfold extends. simpl. repeat split; auto. set_solver.
Qed.

Lemma extends_path_exists st st' p :
  extends st st' -> path_exists st p = true -> path_exists st' p = true.
Proof.
  intros (C & _ & _ & _ & F & D). unfold path_exists, is_file, is_dir, fs_key. rewrite C.
  intros H. apply orb_true_iff in H as [H|H]; apply andb_true_iff in H as [H1 H2];
    apply bool_decide_eq_true in H2; apply orb_true_iff; [left|right];
    apply andb_true_iff; (split; [exact H1|]); apply bool_decide_eq_true; auto.
Qed.

Lemma extends_cache_hit st st' h paths :
  extends st st' -> cache_hit st h = Some paths -> cache_hit st' h = Some paths.
Proof.
  intros He H. apply cache_hit_Some in H as (entry & Hm & Hv & Hall).
  apply cache_hit_Some. exists entry. destruct He as (C & M' & He).
  split; [rewrite M'; exact Hm|]. split; [exact Hv|].
  rewrite Forall_forall in *. intros p Hp.
  apply (extends_path_exists st); [|auto]. unfold extends. auto.
Qed.

Section CopySource.

Variable env : Env.

Lemma extends_extractall src outdir : steps_in extends (extractall env src outdir).
Proof.
  unfold extractall.
  apply (steps_in_bind _ extends_trans); [apply (steps_in_read _ extends_refl)|]. intros data.
  apply (steps_in_bind _ extends_trans); [apply (steps_in_lift _ extends_refl)|]. intros entries.
  apply (steps_in_bind _ extends_trans); [|intros; apply (steps_in_ret _ extends_refl)].
  apply (steps_in_mapM _ extends_refl extends_trans). intros kv.
  apply (steps_in_bind _ extends_trans); [apply extends_ensure_dir|]. intros _.
  apply extends_write.
Qed.

(** X20. With a [.zip] input, [copy_src] unpacks over what is there:
    whether the extraction succeeds or stops at a failure, every file
    and directory that existed still exists, the manifest in memory is
    the same, and every content hash that was a cache hit before the
    copy is a cache hit after it. *)
Theorem zip_input_keeps_cache src outdir st r st' :
  Text.endswith (Text.lower src) ".zip" && is_file st src = true ->
  copy_src env src outdir st = (r, st') ->
  (forall p, path_exists st p = true -> path_exists st' p = true)
  /\ manifest st' = manifest st
  /\ forall h paths, cache_hit st h = Some paths -> cache_hit st' h = Some paths.
Proof.
  intros Hz H. unfold copy_src, bind, gets in H. rewrite Hz in H.
  assert (He : extends st st').
  { destruct (extractall env src outdir st) as [[u|e] s1] eqn:E.
    - injection H as _ <-. exact (extends_extractall _ _ _ _ _ E).
    - injection H as _ <-. exact (extends_extractall _ _ _ _ _ E). }
  split; [intros p; apply (extends_path_exists _ _ _ He)|].
  split; [apply He|]. intros h paths. apply (extends_cache_hit _ _ _ _ He).
Qed.

End CopySource.

Lemma zip_input_keeps_cache_witness :
  Text.endswith (Text.lower "site.zip") ".zip" && is_file Demo3.earlier "site.zip" = true
  /\ cache_hit Demo3.earlier "0ddcdc8036c6" = Some [Demo3.variant]
  /\ exists st',
       copy_src Demo3.env "site.zip" "/work/dist" Demo3.earlier = (Ok tt, st')
       /\ cache_hit st' "0ddcdc8036c6" = Some [Demo3.variant].
Proof.
  assert (H1 : Text.endswith (Text.lower "site.zip") ".zip" && is_file Demo3.earlier "site.zip"
               = true) by (vm_compute; reflexivity).
  assert (H2 : cache_hit Demo3.earlier "0ddcdc8036c6" = Some [Demo3.variant])
    by (vm_compute; reflexivity).
  split; [exact H1|]. split; [exact H2|].
  assert (Hok : is_ok (fst (copy_src Demo3.env "site.zip" "/work/dist" Demo3.earlier)) = true)
    by (vm_compute; reflexivity).
  destruct (copy_src Demo3.env "site.zip" "/work/dist" Demo3.earlier) as [[[]|e] st'] eqn:E;
    [|discriminate Hok].
  exists st'. split; [reflexivity|].
  exact (proj2 (proj2 (zip_input_keeps_cache Demo3.env _ _ _ _ _ H1 E)) _ _ H2).
Defined.

(** ** A folder input replaces the output tree *)

Lemma NoDup_fst_filter {A} (P : string * A -> bool) (l : list (string * A)) :
  NoDup (l.*1) -> NoDup ((List.filter P l).*1).
Proof.
  induction l as [|x l IH]; simpl; [trivial|].
  intros H. apply NoDup_cons in H as [Hx Hl].
  destruct (P x); [|auto]. simpl. apply NoDup_cons. split; [|auto].
  intros Hin. apply Hx. apply list_elem_of_fmap in Hin as (y & Hy & Hin).
  apply list_elem_of_fmap. exists y. split; [exact Hy|].
  apply list_elem_of_In in Hin. apply filter_In in Hin as [Hin _].
  apply list_elem_of_In, Hin.
Qed.

(** The files kept by a filter on the paths. *)
Lemma lookup_filter_keys {A} (P : string -> bool) (m : gmap string A) k :
  (list_to_map (List.filter (fun kv => P (fst kv)) (map_to_list m)) : gmap string A) !! k
  = if P k then m !! k else None.
Proof.
  destruct (P k) eqn:E.
  - destruct (m !! k) as [v|] eqn:F.
    + apply elem_of_list_to_map_1.
      * apply NoDup_fst_filter, NoDup_fst_map_to_list.
      * apply list_elem_of_In, filter_In. split; [|exact E].
        apply list_elem_of_In, elem_of_map_to_list, F.
    + apply not_elem_of_list_to_map_1. intros Hin.
      apply list_elem_of_fmap in Hin as ([k' v] & Hk & Hin). simpl in Hk. subst k'.
      apply list_elem_of_In, filter_In in Hin as [Hin _].
      apply list_elem_of_In, elem_of_map_to_list in Hin. congruence.
  - apply not_elem_of_list_to_map_1. intros Hin.
    apply list_elem_of_fmap in Hin as ([k' v] & Hk & Hin). simpl in Hk. subst k'.
    apply list_elem_of_In, filter_In in Hin as [_ Hin]. simpl in Hin. congruence.
Qed.

Lemma same_records_refl st : same_records st st.
Proof. unfold same_records. auto. Qed.

Lemma same_records_trans a b c : same_records a b -> same_records b c -> same_records a c.
Proof.
  unfold same_records. intros (C1 & M1 & P1 & K1) (C2 & M2 & P2 & K2).
  repeat split; congruence.
Qed.

Lemma same_records_write p d : steps_in same_records (write_file p d).
Proof.
  intros st r st' H. unfold write_file in H.
  repeat case_match; injection H as _ <-; unfold same_records; auto.
Qed.

Lemma same_records_ensure_dir p : steps_in same_records (ensure_dir p).
Proof.
  intros st r st' H. unfold ensure_dir in H.
  repeat case_match; injection H as _ <-; unfold same_records; auto.
Qed.

Lemma same_records_rmtree d : steps_in same_records (rmtree d).
Proof.
  intros st r st' H. unfold rmtree in H.
  repeat case_match; injection H as _ <-; unfold same_records; auto.
Qed.

(** After [rmtree(d)] nothing is left below [d], and what is left
    elsewhere is what was there. *)
Lemma rmtree_Ok d st u st' :
  rmtree d st = (Ok u, st') ->
  same_records st st'
  /\ forall k, files st' !! k
               = if String.eqb k (fs_key st d) || below (fs_key st d) k then None
                 else files st !! k.
Proof.
  intros H. split; [exact (same_records_rmtree _ _ _ _ H)|].
  unfold rmtree in H. destruct (is_dir st d); [|discriminate].
  injection H as _ <-. intros k. simpl.
  rewrite (lookup_filter_keys
             (fun p => negb (String.eqb p (fs_key st d) || below (fs_key st d) p))).
  destruct (String.eqb k (fs_key st d) || below (fs_key st d) k); reflexivity.
Qed.

(** Ensuring directories changes no file. *)
Lemma ensure_dirs_files {A} (g : A -> string) l :
  forall st r st', mapM (fun x => ensure_dir (g x)) l st = (r, st') ->
  files st' = files st /\ cwd st' = cwd st.
Proof.
  induction l as [|x l IH]; intros st r st' H; simpl in H.
  - unfold ret in H. injection H as _ <-. auto.
  - unfold bind in H. destruct (ensure_dir (g x) st) as [[u|e] s1] eqn:E.
    + apply ensure_dir_Ok_exact in E. subst s1.
      destruct (mapM _ l _) as [[ys|e] s2] eqn:E2.
      * unfold ret in H. injection H as _ <-. apply IH in E2. exact E2.
      * injection H as _ <-. apply IH in E2. exact E2.
    + injection H as _ <-. unfold ensure_dir in E.
      repeat case_match; try discriminate E; injection E as _ <-; auto.
Qed.

(** Every file found after a series of writes was there before or is one
    of the files written. *)
Lemma writes_files {A} (g : A -> string) (d : A -> string) l :
  forall st r st', mapM (fun x => write_file (g x) (d x)) l st = (r, st') ->
  cwd st' = cwd st
  /\ forall k v, files st' !! k = Some v ->
       files st !! k = Some v \/ exists x, x ∈ l /\ k = fs_key st (g x) /\ v = d x.
Proof.
  induction l as [|x l IH]; intros st r st' H; simpl in H.
  - unfold ret in H. injection H as _ <-. auto.
  - unfold bind in H. destruct (write_file (g x) (d x) st) as [[u|e] s1] eqn:E.
    + apply write_file_Ok in E as [-> _].
      assert (Hrest : exists r2, mapM (fun x => write_file (g x) (d x)) l
                        (set_files (<[fs_key st (g x) := d x]> (files st)) st) = (r2, st')).
      { destruct (mapM _ l _) as [[ys|e] s2] eqn:E2; unfold ret in H;
          injection H as _ <-; eauto. }
      destruct Hrest as [r2 Hrest]. apply IH in Hrest as [Hc Hf]. simpl in Hc.
      split; [exact Hc|]. intros k v Hk. apply Hf in Hk as [Hk | (y & Hy & Hk & Hv)].
      * simpl in Hk. destruct (decide (fs_key st (g x) = k)) as [<-|Hne].
        -- rewrite lookup_insert_eq in Hk. injection Hk as <-.
           right. exists x. split; [apply elem_of_cons; auto | auto].
        -- rewrite lookup_insert_ne in Hk by exact Hne. auto.
      * right. exists y. split; [apply elem_of_cons; auto|]. split; [|exact Hv].
        rewrite Hk. reflexivity.
    + injection H as _ <-. unfold write_file in E.
      repeat case_match; try discriminate E; injection E as _ <-; auto.
Qed.

Section FreshCopy.

Variable env : Env.

Lemma copytree_Ok src dst st u st' :
  copytree src dst st = (Ok u, st') ->
  same_records st st'
  /\ forall k v, files st' !! k = Some v ->
       files st !! k = Some v
       \/ exists ks, below (fs_key st src) ks = true /\ files st !! ks = Some v
                     /\ k = fs_key st (Path.join dst (relative_to (fs_key st src) ks)).
Proof.
  unfold copytree. intros H.
  inv_bind H as s0 s1 H0 H. unfold gets in H0. injection H0 as <- <-.
  destruct (negb (is_dir st src)); [discriminate|].
  destruct (path_exists st dst); [discriminate|].
  inv_bind H as u1 s1 H1 H. inv_bind H as u2 s2 H2 H. inv_bind H as u3 s3 H3 H. inv_ret H.
  pose proof (same_records_ensure_dir _ _ _ _ H1) as R1.
  pose proof (steps_in_mapM _ same_records_refl same_records_trans _ _
                (fun d => same_records_ensure_dir _) _ _ _ H2) as R2.
  pose proof (steps_in_mapM _ same_records_refl same_records_trans _ _
                (fun kv => same_records_write _ _) _ _ _ H3) as R3.
  split; [exact (same_records_trans _ _ _ (same_records_trans _ _ _ R1 R2) R3)|].
  apply ensure_dir_Ok_exact in H1. subst s1.
  apply ensure_dirs_files in H2 as [F2 C2]. simpl in F2, C2.
  apply (writes_files (fun kv => Path.join dst (relative_to (fs_key st src) (fst kv))) snd)
    in H3 as [C3 F3].
  intros k v Hk. apply F3 in Hk as [Hk | ([ks v'] & Hin & Hk & Hv)].
  - left. rewrite F2 in Hk. exact Hk.
  - right. simpl in Hk, Hv. subst v'. exists ks.
    apply list_elem_of_In, filter_In in Hin as [Hin Hb]. simpl in Hb.
    apply list_elem_of_In, elem_of_map_to_list in Hin.
    split; [exact Hb|]. split; [exact Hin|]. rewrite Hk. unfold fs_key. rewrite C2. reflexivity.
Qed.

(** X21. With a folder input and an output directory that exists,
    [copy_src] replaces the output tree: after a successful copy every
    file below the output directory is the copy of a file of the source
    tree, at the same relative path, so nothing that an earlier run
    wrote there is left; the manifest in memory is not touched. *)
Theorem folder_input_replaces_output src outdir st st' :
  Text.endswith (Text.lower src) ".zip" && is_file st src = false ->
  path_exists st outdir = true ->
  copy_src env src outdir st = (Ok tt, st') ->
  manifest st' = manifest st
  /\ forall k v, below (fs_key st outdir) k = true -> files st' !! k = Some v ->
       exists ks, below (fs_key st src) ks = true /\ files st !! ks = Some v
                  /\ k = fs_key st (Path.join outdir (relative_to (fs_key st src) ks)).
Proof.
  intros Hz Hex H. unfold copy_src in H.
  inv_bind H as z s0 H0 H. unfold gets in H0. injection H0 as <- <-. rewrite Hz in H.
  inv_bind H as present s1 H1 H. unfold gets in H1. injection H1 as <- <-. rewrite Hex in H.
  inv_bind H as u1 s1 H1 H. destruct u1.
  apply rmtree_Ok in H1 as [R1 F1]. apply copytree_Ok in H as [R2 F2].
  assert (Hc : cwd s1 = cwd st) by apply R1.
  split; [destruct R1 as (_ & M1 & _), R2 as (_ & M2 & _); congruence|].
  intros k v Hb Hk. apply F2 in Hk as [Hk | (ks & Hks & Hv & Hk)].
  - rewrite F1, Hb, orb_true_r in Hk. discriminate.
  - exists ks. unfold fs_key in *. rewrite Hc in *. split; [exact Hks|]. split; [|exact Hk].
    rewrite F1 in Hv. destruct (_ || _); [discriminate | exact Hv].
Qed.

End FreshCopy.

Lemma folder_input_replaces_output_witness :
  Text.endswith (Text.lower "export") ".zip" && is_file Demo3.earlier "export" = false
  /\ path_exists Demo3.earlier "/work/dist" = true
  /\ cache_hit Demo3.earlier "0ddcdc8036c6" = Some [Demo3.variant]
  /\ exists st',
       copy_src Demo3.env "export" "/work/dist" Demo3.earlier = (Ok tt, st')
       /\ files st' !! Demo3.variant = None
       /\ cache_hit st' "0ddcdc8036c6" = None.
Proof.
  assert (H1 : Text.endswith (Text.lower "export") ".zip" && is_file Demo3.earlier "export"
               = false) by (vm_compute; reflexivity).
  assert (H2 : path_exists Demo3.earlier "/work/dist" = true) by (vm_compute; reflexivity).
  split; [exact H1|]. split; [exact H2|]. split; [vm_compute; reflexivity|].
  assert (Hok : is_ok (fst (copy_src Demo3.env "export" "/work/dist" Demo3.earlier)) = true)
    by (vm_compute; reflexivity).
  assert (Hmiss : cache_hit (snd (copy_src Demo3.env "export" "/work/dist" Demo3.earlier))
                    "0ddcdc8036c6" = None) by (vm_compute; reflexivity).
  destruct (copy_src Demo3.env "export" "/work/dist" Demo3.earlier) as [[[]|e] st'] eqn:E;
    [|discriminate Hok].
  exists st'. split; [reflexivity|]. split; [|exact Hmiss].
  destruct (folder_input_replaces_output Demo3.env _ _ _ _ H1 H2 E) as [_ Hf].
  destruct (files st' !! Demo3.variant) as [v|] eqn:F; [|reflexivity]. exfalso.
  assert (Hb : below (fs_key Demo3.earlier "/work/dist") Demo3.variant = true)
    by (vm_compute; reflexivity).
  destruct (Hf _ _ Hb F) as (ks & Hks & Hv & Hk).
  apply elem_of_map_to_list in Hv.
  assert (Hall : forallb (fun kv =>
             negb (below (fs_key Demo3.earlier "export") (fst kv))
             || negb (String.eqb Demo3.variant
                        (fs_key Demo3.earlier
                           (Path.join "/work/dist"
                              (relative_to (fs_key Demo3.earlier "export") (fst kv))))))
           (map_to_list (files Demo3.earlier)) = true) by (vm_compute; reflexivity).
  rewrite forallb_forall in Hall. apply list_elem_of_In in Hv. specialize (Hall _ Hv).
  cbn [fst] in Hall. rewrite Hks in Hall. cbn [negb orb] in Hall.
  apply negb_true_iff, String.eqb_neq in Hall. contradiction.
Defined.

(** ** Pages exported without extension *)

Module ExtFacts.

Import Text Path Extensionless.

#[local] Arguments char_eqb : simpl never.

Lemma take_until_app_absent c s r :
  Forall (fun x => char_eqb c x = false) s -> take_until c (s ++ r) = s ++ take_until c r.
Proof. induction 1 as [|x s Hx Hs IH]; simpl; [reflexivity|]. rewrite Hx, IH. reflexivity. Qed.

Lemma after_last_snoc c l s :
  Forall (fun x => char_eqb c x = false) s -> after_last c (l ++ s) = after_last c l ++ s.
Proof.
  intros H. unfold after_last. rewrite rev_app_distr.
  rewrite take_until_app_absent by (apply List.Forall_rev, H).
  rewrite rev_app_distr, rev_involutive. reflexivity.
Qed.

Lemma has_extension_html k : has_extension (k +:+ ".html") = true.
Proof.
  unfold has_extension, basename, has_char.
  rewrite NameFacts.chars_app, after_last_snoc by (repeat constructor).
  rewrite CssFacts.chars_str, existsb_app. apply orb_true_iff. right. reflexivity.
Qed.

Lemma append_inj_r a b s : a +:+ s = b +:+ s -> a = b.
Proof.
  intros H. apply (f_equal chars) in H. rewrite !NameFacts.chars_app in H.
  apply app_inv_tail in H. apply (f_equal str) in H.
  rewrite !CssFacts.str_chars in H. exact H.
Qed.

Section WithEnv.

Variable env : Env.

Lemma looks_like_html_run path st :
  exists b, looks_like_html env path st = (Ok b, st)
            /\ (b = true <-> exists data, read_file path st = (Ok data, st)
                                          /\ html_head env data = true).
Proof.
  unfold looks_like_html, try_except, bind, ret.
  destruct (read_file path st) as [[data|e] s1] eqn:E.
  - apply read_file_Ok in E as [-> _]. exists (html_head env data). split; [reflexivity|].
    split; [intros H; eauto | intros (d & [= <-] & H); exact H].
  - assert (s1 = st).
    { unfold read_file in E. repeat case_match; injection E as _ <-; reflexivity. }
    subst s1. exists false. split; [reflexivity|].
    split; [discriminate | intros (d & Hd & _); discriminate].
Qed.

(** One turn of the loop either leaves everything as it is or moves the
    file to its name with [.html] and records the pair. *)
Lemma fix_one_Ok dist_root acc x st acc' st' :
  fix_one env dist_root acc x st = (Ok acc', st') ->
  (acc' = acc /\ st' = st
   /\ (has_extension x = true
       \/ forall data, read_file x st = (Ok data, st) -> html_head env data = false))
  \/ (has_extension x = false
      /\ exists data,
           read_file x st = (Ok data, st) /\ html_head env data = true
           /\ st' = set_files (<[fs_key st (x +:+ ".html") := data]>
                                 (delete (fs_key st x) (files st))) st
           /\ acc' = <[Path.relpath (cwd st) x dist_root
                       := Path.relpath (cwd st) (x +:+ ".html") dist_root]> acc).
Proof.
  unfold fix_one. intros H.
  destruct (has_extension x) eqn:Ex; [inv_ret H; left; auto|].
  destruct (looks_like_html_run x st) as (b & Hb & Hbt).
  rewrite (bind_Ok_step _ _ _ _ _ Hb) in H.
  destruct b.
  - right. split; [reflexivity|].
    destruct (proj1 Hbt eq_refl) as (data & Hd & Hh). exists data.
    split; [exact Hd|]. split; [exact Hh|].
    inv_bind H as u s1 H1 H. inv_bind H as wd s2 H2 H. inv_ret H2. inv_ret H.
    apply read_file_Ok in Hd as [_ Hd].
    unfold rename in H1. rewrite Hd in H1.
    destruct (is_dir st (x +:+ ".html")); [discriminate|].
    destruct (bool_decide _); [|discriminate].
    destruct u. injection H1 as <-. split; reflexivity.
  - inv_ret H. left. split; [reflexivity|]. split; [reflexivity|]. right.
    intros data Hd. destruct (html_head env data) eqn:Hh; [|reflexivity].
    assert (Hf : false = true) by (apply Hbt; eauto). discriminate.
Qed.

Lemma read_file_same st cur x :
  cwd cur = cwd st -> dirs cur = dirs st -> files cur !! fs_key st x = files st !! fs_key st x ->
  forall data, read_file x cur = (Ok data, cur) <-> read_file x st = (Ok data, st).
Proof.
  intros Hc Hd Hf data. unfold read_file, is_dir, fs_key in *. rewrite Hc, Hd, Hf.
  split; intros H; repeat case_match; try discriminate; injection H as <-; reflexivity.
Qed.

Lemma read_file_data st x data :
  fs_key st x = x ->
  read_file x st = (Ok data, st) <-> files st !! x = Some data /\ is_dir st x = false /\ x <> "".
Proof.
  intros Hk. unfold read_file. rewrite Hk. split.
  - destruct (is_dir st x); [discriminate|].
    destruct (String.eqb x "") eqn:E; [discriminate|].
    destruct (files st !! x); [|discriminate]. intros [= <-].
    apply String.eqb_neq in E. auto.
  - intros (-> & -> & Hne). apply String.eqb_neq in Hne. rewrite Hne. reflexivity.
Qed.

Lemma fold_fix dist_root st :
  forall l acc cur renamed st',
  NoDup l ->
  (forall k, k ∈ l -> k <> "" /\ fs_key st k = k /\ fs_key st (k +:+ ".html") = k +:+ ".html") ->
  cwd cur = cwd st -> dirs cur = dirs st ->
  (forall k, k ∈ l -> has_extension k = false -> files cur !! k = files st !! k) ->
  foldM (fix_one env dist_root) acc l cur = (Ok renamed, st') ->
  same_records cur st' /\ dirs st' = dirs cur
  /\ (forall k, k ∈ l -> html_file env st k ->
        files st' !! k = None /\ files st' !! (k +:+ ".html") = files st !! k)
  /\ (forall k, ~ (k ∈ l /\ html_file env st k) ->
        (forall c, c ∈ l -> html_file env st c -> k <> c +:+ ".html") ->
        files st' !! k = files cur !! k)
  /\ (forall r r', renamed !! r = Some r' ->
        acc !! r = Some r'
        \/ exists k, k ∈ l /\ html_file env st k /\ r = Path.relpath (cwd st) k dist_root
                     /\ r' = Path.relpath (cwd st) (k +:+ ".html") dist_root)
  /\ (forall r, is_Some (acc !! r) -> is_Some (renamed !! r))
  /\ (forall k, k ∈ l -> html_file env st k -> is_Some (renamed !! Path.relpath (cwd st) k dist_root)).
Proof.
  induction l as [|x l IH]; intros acc cur renamed st' Hnd Hnorm Hc Hd Hinv H.
  - simpl in H. inv_ret H. split; [apply same_records_refl|]. split; [reflexivity|].
    split; [intros k Hk; apply elem_of_nil in Hk; contradiction|].
    split; [reflexivity|]. split; [auto|]. split; [auto|].
    intros k Hk. apply elem_of_nil in Hk. contradiction.
  - simpl in H. inv_bind H as acc1 cur1 H1 H.
    apply NoDup_cons in Hnd as [Hx Hnd].
    assert (Hxin : x ∈ x :: l) by (apply elem_of_cons; auto).
    destruct (Hnorm x Hxin) as (Hxne & Hkx & Hkxh).
    assert (Hkeys : fs_key cur x = x /\ fs_key cur (x +:+ ".html") = x +:+ ".html").
    { unfold fs_key in *. rewrite Hc. auto. }
    destruct Hkeys as [Hcx Hcxh].
    assert (Hnorm' : forall k, k ∈ l ->
              k <> "" /\ fs_key st k = k /\ fs_key st (k +:+ ".html") = k +:+ ".html").
    { intros k Hk. apply Hnorm, elem_of_cons. auto. }
    apply fix_one_Ok in H1 as [(-> & -> & Hno) | (Hext & data & Hread & Hhead & -> & ->)].
    + (* the file stays *)
      assert (Hnc : ~ html_file env st x).
      { intros (Hext & data & Hf & Hdir & Hh). destruct Hno as [Hno|Hno]; [congruence|].
        assert (Hr : read_file x cur = (Ok data, cur)).
        { apply (read_file_same st cur x Hc Hd); [rewrite Hkx; apply Hinv; auto|].
          apply read_file_data; auto. }
        rewrite (Hno _ Hr) in Hh. discriminate. }
      destruct (IH acc cur renamed st' Hnd Hnorm' Hc Hd) as (R & D & Ha & Hb & He & Hm & Hs);
        [intros k Hk; apply Hinv, elem_of_cons; auto | exact H|].
      split; [exact R|]. split; [exact D|]. split; [|split; [|split; [|split]]].
      * intros k Hk Hcand. apply elem_of_cons in Hk as [-> | Hk]; [contradiction | auto].
      * intros k Hk Hfree. apply Hb.
        -- intros [Hin Hcand]. apply Hk. split; [apply elem_of_cons; auto | exact Hcand].
        -- intros c Hcin. apply Hfree, elem_of_cons. auto.
      * intros r r' Hr. destruct (He r r' Hr) as [Hacc | (k & Hk & Hrest)]; [auto|].
        right. exists k. split; [apply elem_of_cons; auto | exact Hrest].
      * exact Hm.
      * intros k Hk Hcand. apply elem_of_cons in Hk as [-> | Hk]; [contradiction | auto].
    + (* the file is renamed *)
      rewrite Hcx, Hcxh in *.
      assert (Hdata : files st !! x = Some data /\ is_dir st x = false).
      { apply (read_file_same st cur x Hc Hd) in Hread; [|rewrite Hkx; apply Hinv; auto].
        apply read_file_data in Hread as (H1 & H2 & _); auto. }
      assert (Hcx' : html_file env st x).
      { split; [exact Hext|]. exists data. destruct Hdata. auto. }
      assert (Hxh : x <> x +:+ ".html").
      { intros E. pose proof (has_extension_html x) as E'. rewrite <- E in E'. congruence. }
      set (cur1 := set_files (<[x +:+ ".html" := data]> (delete x (files cur))) cur) in *.
      destruct (IH (<[Path.relpath (cwd cur) x dist_root
                      := Path.relpath (cwd cur) (x +:+ ".html") dist_root]> acc)
                  cur1 renamed st' Hnd Hnorm' Hc Hd) as (R & D & Ha & Hb & He & Hm & Hs);
        [|exact H|].
      { intros k Hk Hkext. unfold cur1. simpl.
        assert (k <> x +:+ ".html").
        { intros ->. rewrite has_extension_html in Hkext. discriminate. }
        assert (k <> x) by (intros ->; contradiction).
        rewrite lookup_insert_ne, lookup_delete_ne by congruence.
        apply Hinv; [apply elem_of_cons; auto | exact Hkext]. }
      assert (Hfree : forall c, c ∈ l -> html_file env st c -> x <> c +:+ ".html" /\ x +:+ ".html" <> c +:+ ".html").
      { intros c Hcin _. split.
        - intros E. pose proof (has_extension_html c) as E'. rewrite <- E in E'. congruence.
        - intros E. apply append_inj_r in E. subst c. contradiction. }
      split; [exact R|]. split; [exact D|]. split; [|split; [|split; [|split]]].
      * intros k Hk Hcand. apply elem_of_cons in Hk as [-> | Hk]; [|auto].
        split.
        -- rewrite Hb.
           ++ unfold cur1. simpl. rewrite lookup_insert_ne by congruence.
              apply lookup_delete_eq.
           ++ intros [Hin _]. contradiction.
           ++ intros c Hcin Hcc. apply (Hfree c Hcin Hcc).
        -- rewrite Hb.
           ++ unfold cur1. simpl. rewrite lookup_insert_eq. symmetry. apply Hdata.
           ++ intros [_ (Hext' & _)]. rewrite has_extension_html in Hext'. discriminate.
           ++ intros c Hcin Hcc. apply (Hfree c Hcin Hcc).
      * intros k Hk Hfr.
        assert (k <> x +:+ ".html") by (apply Hfr; auto).
        assert (k <> x).
        { intros ->. apply Hk. auto. }
        rewrite Hb.
        -- unfold cur1. simpl. rewrite lookup_insert_ne, lookup_delete_ne by congruence.
           reflexivity.
        -- intros [Hin Hcand]. apply Hk. split; [apply elem_of_cons; auto | exact Hcand].
        -- intros c Hcin. apply Hfr, elem_of_cons. auto.
      * intros r r' Hr. rewrite Hc in He. destruct (He r r' Hr) as [Hacc | (k & Hk & Hrest)].
        -- destruct (decide (Path.relpath (cwd st) x dist_root = r)) as [<-|Hne].
           ++ rewrite lookup_insert_eq in Hacc. injection Hacc as <-.
              right. exists x. auto.
           ++ rewrite lookup_insert_ne in Hacc by exact Hne. auto.
        -- right. exists k. split; [apply elem_of_cons; auto | exact Hrest].
      * intros r Hr. apply Hm.
        destruct (decide (Path.relpath (cwd cur) x dist_root = r)) as [<-|Hne].
        -- rewrite lookup_insert_eq. eauto.
        -- rewrite lookup_insert_ne by exact Hne. exact Hr.
      * intros k Hk Hcand. apply elem_of_cons in Hk as [-> | Hk]; [|auto].
        apply Hm. rewrite Hc, lookup_insert_eq. eauto.
Qed.

End WithEnv.

End ExtFacts.

Lemma normpath_nonempty p : Path.normpath p <> "".
Proof.
  unfold Path.normpath. destruct (Text.chars p); [discriminate|].
  match goal with |- (if String.eqb ?x "" then _ else _) <> _ =>
    destruct (String.eqb x "") eqn:E end; [discriminate|].
  apply String.eqb_neq, E.
Qed.

Lemma fs_key_nonempty st p : fs_key st p <> "".
Proof. unfold fs_key, Path.abspath. destruct (Path.isabs p); apply normpath_nonempty. Qed.

Lemma NoDup_list_filter {A} (f : A -> bool) (l : list A) : NoDup l -> NoDup (List.filter f l).
Proof.
  induction 1 as [|x l Hx Hl IH]; simpl; [constructor|].
  destruct (f x); [|exact IH]. constructor; [|exact IH].
  intros Hin. apply Hx. apply list_elem_of_In, filter_In in Hin as [Hin _].
  apply list_elem_of_In, Hin.
Qed.

Lemma walk_NoDup suffix dist_root st : NoDup (walk suffix dist_root st).
Proof. unfold walk. apply NoDup_list_filter, NoDup_fst_map_to_list. Qed.

Lemma walk_file suffix dist_root st k :
  k ∈ walk suffix dist_root st -> exists v, files st !! k = Some v.
Proof.
  unfold walk. intros H. apply list_elem_of_In, filter_In in H as [H _].
  apply in_map_iff in H as ([k' v] & Hk & H). simpl in Hk. subst k'.
  exists v. apply elem_of_map_to_list, list_elem_of_In, H.
Qed.

Section RenamedPages.

Variable env : Env.

(** X22. In a tree whose files are stored under normalised paths, a
    successful [find_and_fix_extensionless_html] moves every file below
    the root that has no dot in its name and the head of an HTML
    document to the same path with [.html] appended: the old path is
    gone and the new one holds the content, replacing whatever file was
    there.  Every other file that is not the target of such a move keeps
    its content, no directory and no record changes, and the returned
    map holds exactly the pairs of old and new relative paths of the
    files moved. *)
Theorem extensionless_pages_renamed dist_root st renamed st' :
  Extensionless.keys_normal st = true ->
  Extensionless.find_and_fix_extensionless_html env dist_root st = (Ok renamed, st') ->
  same_records st st' /\ dirs st' = dirs st
  /\ (forall k, Extensionless.renamable env dist_root st k ->
        files st' !! k = None /\ files st' !! (k +:+ ".html") = files st !! k
        /\ is_Some (renamed !! Path.relpath (cwd st) k dist_root))
  /\ (forall k, ~ Extensionless.renamable env dist_root st k ->
        (forall c, Extensionless.renamable env dist_root st c -> k <> c +:+ ".html") ->
        files st' !! k = files st !! k)
  /\ (forall r r', renamed !! r = Some r' ->
        exists k, Extensionless.renamable env dist_root st k
                  /\ r = Path.relpath (cwd st) k dist_root
                  /\ r' = Path.relpath (cwd st) (k +:+ ".html") dist_root).
Proof.
  intros Hn H. unfold Extensionless.find_and_fix_extensionless_html in H.
  inv_bind H as found s1 H1 H. unfold gets in H1. injection H1 as <- <-.
  assert (Hnorm : forall k, k ∈ walk "" dist_root st ->
            k <> "" /\ fs_key st k = k /\ fs_key st (k +:+ ".html") = k +:+ ".html").
  { intros k Hk. destruct (walk_file _ _ _ _ Hk) as [v Hv].
    unfold Extensionless.keys_normal in Hn. rewrite forallb_forall in Hn.
    apply elem_of_map_to_list, list_elem_of_In in Hv. specialize (Hn _ Hv). simpl in Hn.
    apply andb_true_iff in Hn as [E1 E2]. apply String.eqb_eq in E1, E2.
    split; [|auto]. intros ->. exact (fs_key_nonempty st "" E1). }
  destruct (ExtFacts.fold_fix env dist_root st _ _ _ _ _ (walk_NoDup _ _ _) Hnorm
              eq_refl eq_refl (fun _ _ _ => eq_refl) H) as (R & D & Ha & Hb & He & _ & Hs).
  split; [exact R|]. split; [exact D|]. split; [|split].
  - intros k [Hk Hc]. destruct (Ha k Hk Hc) as [H1 H2]. auto.
  - intros k Hk Hfree. apply Hb.
    + intros [Hin Hc]. apply Hk. split; assumption.
    + intros c Hcin Hc. apply Hfree. split; assumption.
  - intros r r' Hr. destruct (He r r' Hr) as [Hacc | (k & Hk & Hc & Hrr)].
    + rewrite lookup_empty in Hacc. discriminate.
    + exists k. split; [split; assumption | exact Hrr].
Qed.

End RenamedPages.

Lemma extensionless_pages_renamed_witness :
  Extensionless.keys_normal Demo4.bare = true
  /\ Extensionless.renamable Sample.env "/site" Demo4.bare "/site/about"
  /\ exists renamed st',
       Extensionless.find_and_fix_extensionless_html Sample.env "/site" Demo4.bare
       = (Ok renamed, st')
       /\ files st' !! "/site/about" = None
       /\ files st' !! "/site/about.html" = Some "<!DOCTYPE html><html>about</html>"
       /\ files st' !! "/site/LICENSE" = Some "Permission is hereby granted".
Proof.
  assert (H1 : Extensionless.keys_normal Demo4.bare = true) by (vm_compute; reflexivity).
  assert (H2 : Extensionless.renamable Sample.env "/site" Demo4.bare "/site/about").
  { split; [apply list_elem_of_In; vm_compute; auto|].
    split; [vm_compute; reflexivity|].
    exists "<!DOCTYPE html><html>about</html>". repeat split; vm_compute; reflexivity. }
  split; [exact H1|]. split; [exact H2|].
  assert (Hok : is_ok (fst (Extensionless.find_and_fix_extensionless_html Sample.env "/site"
                              Demo4.bare)) = true) by (vm_compute; reflexivity).
  destruct (Extensionless.find_and_fix_extensionless_html Sample.env "/site" Demo4.bare)
    as [[renamed|e] st'] eqn:E; [|discriminate Hok].
  exists renamed, st'. split; [reflexivity|].
  destruct (extensionless_pages_renamed Sample.env _ _ _ _ H1 E) as (_ & _ & Ha & Hb & _).
  destruct (Ha _ H2) as (Hgone & Hmoved & _).
  split; [exact Hgone|]. split.
  - change ("/site/about" +:+ ".html") with "/site/about.html" in Hmoved.
    rewrite Hmoved. vm_compute. reflexivity.
  - rewrite Hb; [vm_compute; reflexivity | |].
    + intros (_ & _ & data & Hd & _ & Hh).
      assert (Hd' : files Demo4.bare !! "/site/LICENSE" = Some "Permission is hereby granted")
        by (vm_compute; reflexivity).
      rewrite Hd' in Hd. injection Hd as <-. vm_compute in Hh. discriminate.
    + intros c _ Hc. apply (f_equal Extensionless.has_extension) in Hc.
      rewrite ExtFacts.has_extension_html in Hc. vm_compute in Hc. discriminate.
Defined.

(** ** Small utilities *)

Lemma ancestors_head fuel p : p ∈ ancestors fuel p.
Proof.
  destruct fuel as [|fuel]; simpl; [apply list_elem_of_singleton; reflexivity|].
  destruct (String.eqb (Path.dirname p) p || String.eqb (Path.dirname p) "");
    apply elem_of_cons; auto.
Qed.

(** X23. [ensure_dir] has the effect of [exist_ok=True]: after a
    successful call the path is a directory, no file has changed and no
    directory is lost, and a second call succeeds and changes nothing. *)
Theorem ensure_dir_idempotent p st st' :
  ensure_dir p st = (Ok tt, st') ->
  is_dir st' p = true
  /\ files st' = files st /\ dirs st ⊆ dirs st'
  /\ ensure_dir p st' = (Ok tt, st').
Proof.
  intros H. pose proof H as Hrun. unfold ensure_dir in H.
  destruct (String.eqb p "") eqn:Ep; [discriminate|].
  destruct (existsb _ _) eqn:Ex; [discriminate|].
  injection H as <-. split; [|split; [reflexivity|split; [simpl; set_solver|]]].
  - unfold is_dir, fs_key. simpl. rewrite Ep. simpl. apply bool_decide_eq_true.
    apply elem_of_union_l, elem_of_list_to_set, ancestors_head.
  - unfold ensure_dir. rewrite Ep. unfold fs_key. simpl.
    unfold fs_key in Ex. rewrite Ex. f_equal.
    match goal with |- set_dirs ?d ?s = _ =>
      assert (Hd : d = dirs s) by (simpl; set_solver) end.
    rewrite Hd. apply set_dirs_same.
Qed.

Lemma ensure_dir_idempotent_witness :
  let st' := snd (ensure_dir "/site/images/original" Sample.site) in
  ensure_dir "/site/images/original" Sample.site = (Ok tt, st')
  /\ is_dir Sample.site "/site/images" = false
  /\ is_dir st' "/site/images/original" = true
  /\ ensure_dir "/site/images/original" st' = (Ok tt, st').
Proof.
  intros st'.
  assert (H : ensure_dir "/site/images/original" Sample.site = (Ok tt, st'))
    by (vm_compute; reflexivity).
  split; [exact H|]. split; [vm_compute; reflexivity|].
  destruct (ensure_dir_idempotent _ _ _ H) as (Hd & _ & _ & Hagain).
  split; [exact Hd | exact Hagain].
Defined.

Lemma take_until_without c l :
  Forall (fun x => Text.char_eqb c x = false) (Path.take_until c l).
Proof.
  induction l as [|x l IH]; simpl; [constructor|].
  destruct (Text.char_eqb c x) eqn:E; constructor; assumption.
Qed.

Lemma basename_slashless p : slashless (Text.chars (Path.basename p)) = true.
Proof.
  unfold Path.basename. rewrite CssFacts.chars_str. apply NameFacts.slashless_spec.
  unfold Path.after_last. apply List.Forall_rev, take_until_without.
Qed.

(** X24. The file name taken from a URL is never empty and never holds
    a path separator, so that what is stored for a download lies directly
    in the destination directory. *)
Theorem filename_from_url_shape url :
  filename_from_url url <> ""
  /\ slashless (Text.chars (filename_from_url url)) = true.
Proof.
  unfold filename_from_url.
  destruct (String.eqb (Path.basename (Url.url_path url)) "") eqn:E.
  - split; [discriminate | reflexivity].
  - split; [apply String.eqb_neq, E | apply basename_slashless].
Qed.

(** ** The manifest at the end of a run *)

Section Saved.

Variable env : Env.
Variable others : Collaborators.

Lemma save_manifest_Ok dist_root st u st' :
  save_manifest dist_root st = (Ok u, st') ->
  manifest st' = manifest st
  /\ files st' !! fs_key st' (manifest_path dist_root)
     = Some (Json.dumps (json_of_manifest (manifest st'))).
Proof.
  unfold save_manifest. intros H.
  inv_bind H as u1 s1 H1 H. apply ensure_dir_Ok_exact in H1. subst s1.
  inv_bind H as m s2 H2 H. unfold gets in H2. injection H2 as <- <-.
  apply write_file_Ok in H as [-> _]. simpl. split; [reflexivity|].
  unfold fs_key. simpl. apply lookup_insert_eq.
Qed.


End Saved.


(** ** Formatting with a cache *)

Lemma set_files_same st : set_files (files st) st = st.
Proof. destruct st. reflexivity. Qed.

Lemma foldM_noop {A B} (f : B -> A -> M B) (acc : B) (l : list A) st :
  (forall x, x ∈ l -> f acc x st = (Ok acc, st)) ->
  Extensionless.foldM f acc l st = (Ok acc, st).
Proof.
  induction l as [|x l IH]; intros H; simpl; [reflexivity|].
  rewrite (bind_Ok_step _ _ _ _ _ (H x ltac:(apply elem_of_cons; auto))).
  apply IH. intros y Hy. apply H, elem_of_cons. auto.
Qed.

Lemma walk_elem suffix dist_root st k :
  k ∈ walk suffix dist_root st <->
  is_Some (files st !! k)
  /\ below (fs_key st dist_root) k && Text.endswith (Text.lower (Path.basename k)) suffix = true.
Proof.
  unfold walk. rewrite list_elem_of_In, filter_In, in_map_iff. split.
  - intros [([k' v] & Hk & Hin) Hb]. simpl in Hk. subst k'. split; [|exact Hb].
    exists v. apply elem_of_map_to_list, list_elem_of_In, Hin.
  - intros [[v Hv] Hb]. split; [|exact Hb]. exists (k, v). split; [reflexivity|].
    apply list_elem_of_In, elem_of_map_to_list, Hv.
Qed.

Section Formatting.

Import Format.

Variable env : Env.
Variable have_jsb : bool.
Variable html_parser : string -> list Tag.
Variable beautify_css beautify : string -> result string.
Variable dist_root : string.
Variable fh fcj : bool.

Local Abbreviation format_one := (Format.format_one env have_jsb html_parser beautify_css beautify
                          dist_root fh fcj).
Local Abbreviation turn := (Format.turn env have_jsb html_parser beautify_css beautify fh fcj).
Local Abbreviation formatted := (Format.formatted env have_jsb html_parser beautify_css beautify fh fcj).

Lemma read_readable st p d : readable st p = Some d -> read_file p st = (Ok d, st).
Proof.
  unfold readable, read_file. destruct (is_dir st p); [discriminate|].
  destruct (String.eqb p ""); [discriminate|]. simpl. intros ->. reflexivity.
Qed.

Lemma read_unreadable st p : readable st p = None -> exists e, read_file p st = (Raise e, st).
Proof.
  unfold readable, read_file. destruct (is_dir st p); [eauto|].
  destruct (String.eqb p ""); [eauto|]. simpl. intros ->. eauto.
Qed.

Lemma readable_Some st p d :
  readable st p = Some d ->
  is_dir st p = false /\ String.eqb p "" = false /\ files st !! fs_key st p = Some d.
Proof.
  unfold readable. destruct (is_dir st p); [discriminate|].
  destruct (String.eqb p ""); [discriminate|]. auto.
Qed.

Lemma file_hash_run p st :
  file_hash p st = (Ok (option_map Sha1.hexdigest (readable st p)), st).
Proof.
  unfold file_hash, try_except, bind, ret.
  destruct (readable st p) as [d|] eqn:E.
  - rewrite (read_readable _ _ _ E). reflexivity.
  - destruct (read_unreadable _ _ E) as [e ->]. reflexivity.
Qed.

Lemma write_readable st p d d' :
  readable st p = Some d ->
  write_file p d' st
  = if writable st p then (Ok tt, put_content st p (Some d')) else (Raise FileNotFoundError, st).
Proof.
  intros H. apply readable_Some in H as (Hd & Hp & _).
  unfold write_file, writable. rewrite Hd, Hp. reflexivity.
Qed.

Lemma readable_put st p d d' :
  readable st p = Some d -> readable (put_content st p (Some d')) p = Some d'.
Proof.
  intros H. apply readable_Some in H as (Hd & Hp & _).
  unfold readable, put_content, is_dir, fs_key in *. simpl. rewrite Hd, Hp. simpl.
  apply lookup_insert_eq.
Qed.

Lemma put_content_same st p : put_content st p (readable st p) = st.
Proof.
  destruct (readable st p) as [d|] eqn:E; [|reflexivity].
  apply readable_Some in E as (_ & _ & E). unfold put_content.
  rewrite insert_id by exact E. apply set_files_same.
Qed.

Lemma put_content_Some st p d : readable st p = Some d -> put_content st p (Some d) = st.
Proof. intros E. rewrite <- E. apply put_content_same. Qed.

Lemma put_entry_same (c : gmap string string) key : put_entry c key (c !! key) = c.
Proof.
  unfold put_entry. destruct (c !! key) as [h|] eqn:E; [|reflexivity].
  apply insert_id, E.
Qed.

(** The formatting branches, on a file that can be read. *)
Lemma format_file_run st p d :
  readable st p = Some d ->
  format_file env have_jsb html_parser beautify_css beautify fh fcj p
    (Text.lower (Path.basename p)) st
  = match formatted (Text.lower (Path.basename p)) d with
    | Ok (Some d') =>
        if writable st p then (Ok tt, put_content st p (Some d'))
        else (Raise FileNotFoundError, st)
    | Ok None => (Ok tt, st)
    | Raise e => (Raise e, st)
    end.
Proof.
  intros H. unfold format_file, Format.formatted.
  destruct (fh && Text.endswith _ ".html").
  - rewrite (bind_Ok_step _ _ _ _ _ (read_readable _ _ _ H)).
    apply (write_readable _ _ _ _ H).
  - destruct (fcj && have_jsb && _); [|reflexivity].
    rewrite (bind_Ok_step _ _ _ _ _ (read_readable _ _ _ H)). cbv zeta.
    destruct (if Text.endswith _ ".css" then _ else _) as [f|e]; unfold bind, lift.
    + apply (write_readable _ _ _ _ H).
    + reflexivity.
Qed.

Lemma format_file_unreadable st p :
  readable st p = None ->
  exists r, format_file env have_jsb html_parser beautify_css beautify fh fcj p
              (Text.lower (Path.basename p)) st = (r, st).
Proof.
  intros H. destruct (read_unreadable _ _ H) as [e He]. unfold format_file.
  destruct (fh && _); [rewrite (bind_Raise_step _ _ _ _ _ He); eauto|].
  destruct (fcj && have_jsb && _); [rewrite (bind_Raise_step _ _ _ _ _ He); eauto|].
  unfold ret. eauto.
Qed.

(** One turn of the loop on the state and the cache is one [turn] on the
    content and the entry of the file. *)
Lemma format_one_turn c k st :
  format_one (Some c) k st
  = (Ok (Some (put_entry c (Path.relpath (cwd st) k dist_root)
                 (snd (turn (Text.lower (Path.basename k)) (writable st k) (readable st k)
                         (c !! Path.relpath (cwd st) k dist_root))))),
     put_content st k
       (fst (turn (Text.lower (Path.basename k)) (writable st k) (readable st k)
               (c !! Path.relpath (cwd st) k dist_root)))).
Proof.
  unfold Format.format_one.
  rewrite (bind_Ok_step _ _ _ _ _ (file_hash_run k st)).
  rewrite (bind_Ok_step _ _ st (cwd st) st) by reflexivity.
  set (key := Path.relpath (cwd st) k dist_root).
  unfold Format.turn, cached.
  destruct (readable st k) as [d|] eqn:E; cbn [option_map].
  - destruct (entry_matches (c !! key) (Some (Sha1.hexdigest d))) eqn:Em.
    + cbn [fst snd]. unfold ret. rewrite put_entry_same, (put_content_Some _ _ _ E).
      reflexivity.
    + unfold try_except. unfold bind at 1. rewrite (format_file_run _ _ _ E).
      destruct (formatted (Text.lower (Path.basename k)) d) as [[d'|]|e].
      * destruct (writable st k); cbv beta iota.
        -- rewrite (bind_Ok_step _ _ _ _ _ (read_readable _ _ _ (readable_put _ _ _ d' E))).
           reflexivity.
        -- cbn [fst snd]. rewrite put_entry_same, (put_content_Some _ _ _ E). reflexivity.
      * cbv beta iota. rewrite (bind_Ok_step _ _ _ _ _ (read_readable _ _ _ E)).
        cbn [fst snd]. unfold ret. rewrite (put_content_Some _ _ _ E). reflexivity.
      * cbv beta iota. cbn [fst snd].
        rewrite put_entry_same, (put_content_Some _ _ _ E). reflexivity.
  - assert (Em : entry_matches (c !! key) None = false) by (destruct (c !! key); reflexivity).
    rewrite Em. cbn [fst snd]. rewrite put_entry_same.
    unfold try_except. unfold bind at 1.
    destruct (format_file_unreadable _ _ E) as [r Hr]. rewrite Hr.
    destruct r as [u|e]; cbv beta iota; [|reflexivity].
    destruct (read_unreadable _ _ E) as [e He].
    rewrite (bind_Raise_step _ _ _ _ _ He). reflexivity.
Qed.

(** A second turn finds the file as the first one left it. *)
Lemma turn_idempotent low w content entry :
  turn low w (fst (turn low w content entry)) (snd (turn low w content entry))
  = turn low w content entry.
Proof.
  unfold Format.turn. destruct content as [d|]; [|reflexivity].
  destruct (entry_matches entry (Some (Sha1.hexdigest d))) eqn:Em.
  - simpl. rewrite Em. reflexivity.
  - destruct (formatted low d) as [[d'|]|e] eqn:Ef.
    + destruct w.
      * simpl. rewrite String.eqb_refl. reflexivity.
      * simpl. rewrite Em, Ef. reflexivity.
    + simpl. rewrite String.eqb_refl. reflexivity.
    + simpl. rewrite Em, Ef. reflexivity.
Qed.

Lemma turn_content low w content entry :
  is_Some (fst (turn low w content entry)) <-> is_Some content.
Proof.
  unfold Format.turn. destruct content as [d|]; [|reflexivity].
  destruct (entry_matches _ _); [reflexivity|].
  destruct (formatted low d) as [[d'|]|e]; try reflexivity.
  destruct w; simpl; split; eauto.
Qed.

Lemma turn_entry low w content entry :
  snd (turn low w content entry) = None -> entry = None.
Proof.
  unfold Format.turn. destruct content as [d|]; [|cbn [snd]; auto].
  destruct (entry_matches _ _); [cbn [snd]; auto|].
  destruct (formatted low d) as [[d'|]|e]; [destruct w| |];
    cbn [snd]; intros H; first [exact H | discriminate H].
Qed.

End Formatting.

Lemma same_tree_refl st : same_tree st st.
Proof. split; [apply same_records_refl | reflexivity]. Qed.

Lemma same_tree_trans a b c : same_tree a b -> same_tree b c -> same_tree a c.
Proof.
  intros [R1 D1] [R2 D2]. split; [exact (same_records_trans _ _ _ R1 R2) | congruence].
Qed.

Lemma same_tree_write p d : steps_in same_tree (write_file p d).
Proof.
  intros st r st' H. split; [exact (same_records_write _ _ _ _ _ H)|].
  unfold write_file in H. repeat case_match; injection H as _ <-; reflexivity.
Qed.

Lemma same_tree_foldM {A B} (f : B -> A -> M B) l :
  (forall acc x, steps_in same_tree (f acc x)) ->
  forall acc, steps_in same_tree (Extensionless.foldM f acc l).
Proof.
  intros Hf. induction l as [|x l IH]; intros acc; simpl.
  - apply (steps_in_ret _ same_tree_refl).
  - apply (steps_in_bind _ same_tree_trans); [apply Hf | intros acc'; apply IH].
Qed.

Section FormattingRuns.

Import Format.

Variable env : Env.
Variable have_jsb : bool.
Variable html_parser : string -> list Tag.
Variable beautify_css beautify : string -> result string.
Variable dist_root : string.
Variable fh fcj : bool.

Local Abbreviation format_one := (Format.format_one env have_jsb html_parser beautify_css beautify
                          dist_root fh fcj).
Local Abbreviation format_code := (Format.format_code env have_jsb html_parser beautify_css beautify
                          dist_root fh fcj).
Local Abbreviation turn := (Format.turn env have_jsb html_parser beautify_css beautify fh fcj).

Lemma same_tree_format_one cache k : steps_in same_tree (format_one cache k).
Proof.
  unfold Format.format_one.
  apply (steps_in_bind _ same_tree_trans).
  { unfold file_hash. apply (steps_in_try _), (steps_in_bind _ same_tree_trans);
      [apply (steps_in_read _ same_tree_refl) | intros; apply (steps_in_ret _ same_tree_refl)]. }
  intros cur_hash. apply (steps_in_bind _ same_tree_trans);
    [apply (steps_in_gets _ same_tree_refl)|].
  intros wd. destruct (cached _ _ _); [apply (steps_in_ret _ same_tree_refl)|].
  apply (steps_in_try _), (steps_in_bind _ same_tree_trans).
  - unfold format_file.
    destruct (fh && _).
    + apply (steps_in_bind _ same_tree_trans); [apply (steps_in_read _ same_tree_refl)|].
      intros data. apply same_tree_write.
    + destruct (fcj && have_jsb && _); [|apply (steps_in_ret _ same_tree_refl)].
      apply (steps_in_bind _ same_tree_trans); [apply (steps_in_read _ same_tree_refl)|].
      intros data. apply (steps_in_bind _ same_tree_trans);
        [apply (steps_in_lift _ same_tree_refl) | intros; apply same_tree_write].
  - intros _. apply (steps_in_bind _ same_tree_trans);
      [apply (steps_in_read _ same_tree_refl) | intros; apply (steps_in_ret _ same_tree_refl)].
Qed.

Lemma format_one_returns cache k st :
  exists c' st', format_one cache k st = (Ok c', st') /\ (is_Some cache <-> is_Some c').
Proof.
  unfold Format.format_one.
  rewrite (bind_Ok_step _ _ _ _ _ (file_hash_run k st)).
  rewrite (bind_Ok_step _ _ st (cwd st) st) by reflexivity.
  destruct (cached _ _ _); [unfold ret; eauto|].
  unfold try_except.
  match goal with |- context [bind ?a ?b st] => destruct (bind a b st) as [[c'|e] st'] eqn:E end.
  - exists c', st'. split; [reflexivity|].
    inv_bind E as u s1 E1 E. inv_bind E as data s2 E2 E. inv_ret E.
    destruct cache; split; intros [x Hx]; try discriminate; eauto.
  - eauto.
Qed.

Lemma foldM_format_returns l :
  forall cache st,
  exists c' st', Extensionless.foldM format_one cache l st = (Ok c', st')
                 /\ (is_Some cache <-> is_Some c').
Proof.
  induction l as [|x l IH]; intros cache st; simpl.
  - unfold ret. eauto.
  - destruct (format_one_returns cache x st) as (c1 & s1 & H1 & Hc1).
    rewrite (bind_Ok_step _ _ _ _ _ H1).
    destruct (IH c1 s1) as (c' & st' & H & Hc). exists c', st'. split; [exact H | tauto].
Qed.

(** X26. [format_code] never raises, whatever the formatters do and
    whether or not the files can be read and written: every turn of the
    loop is caught.  It changes no directory and no record, only the
    content of files, and it returns a cache exactly when it was given
    one. *)
Theorem format_code_never_raises cache st :
  exists cache' st',
    format_code cache st = (Ok cache', st')
    /\ (is_Some cache <-> is_Some cache')
    /\ same_records st st' /\ dirs st' = dirs st.
Proof.
  unfold Format.format_code.
  rewrite (bind_Ok_step _ _ st (walk "" dist_root st) st) by reflexivity.
  destruct (foldM_format_returns (walk "" dist_root st) cache st) as (c' & st' & H & Hc).
  exists c', st'. split; [exact H|]. split; [exact Hc|].
  exact (same_tree_foldM _ _ same_tree_format_one _ _ _ _ H).
Qed.

Lemma readable_put_other st x nd k :
  fs_key st k <> fs_key st x -> readable (put_content st x nd) k = readable st k.
Proof.
  intros Hne. destruct nd as [d|]; [|reflexivity].
  unfold readable, put_content, is_dir, fs_key in *. simpl.
  rewrite lookup_insert_ne by congruence. reflexivity.
Qed.

Lemma readable_put_turn st x low w entry :
  readable (put_content st x (fst (turn low w (readable st x) entry))) x
  = fst (turn low w (readable st x) entry).
Proof.
  pose proof (turn_content env have_jsb html_parser beautify_css beautify fh fcj
                low w (readable st x) entry) as Hc.
  destruct (readable st x) as [d|] eqn:E.
  - destruct (fst (turn low w (Some d) entry)) as [d'|] eqn:Et.
    + apply (readable_put _ _ _ _ E).
    + exfalso. destruct (proj2 Hc ltac:(eauto)) as [y Hy]. discriminate.
  - destruct (fst (turn low w None entry)) as [d'|] eqn:Et; [|exact E].
    exfalso. destruct (proj1 Hc ltac:(eauto)) as [y Hy]. discriminate.
Qed.

Lemma writable_put st x nd k : writable (put_content st x nd) k = writable st k.
Proof. destruct nd; reflexivity. Qed.

Lemma cwd_put st x nd : cwd (put_content st x nd) = cwd st.
Proof. destruct nd; reflexivity. Qed.

Lemma same_tree_put st x nd : same_tree st (put_content st x nd).
Proof. destruct nd; [|apply same_tree_refl]. repeat split. Qed.

Lemma files_put_turn st x low w entry k :
  is_Some (files (put_content st x (fst (turn low w (readable st x) entry))) !! k)
  <-> is_Some (files st !! k).
Proof.
  pose proof (turn_content env have_jsb html_parser beautify_css beautify fh fcj
                low w (readable st x) entry) as Hc.
  destruct (fst (turn low w (readable st x) entry)) as [d'|]; [|reflexivity].
  destruct (proj1 Hc ltac:(eauto)) as [d Hd].
  apply readable_Some in Hd as (_ & _ & Hd). simpl.
  destruct (decide (fs_key st x = k)) as [<-|Hne].
  - rewrite lookup_insert_eq, Hd. split; eauto.
  - rewrite lookup_insert_ne by exact Hne. reflexivity.
Qed.

Lemma lookup_put_entry_turn (c : gmap string string) key low w content :
  put_entry c key (snd (turn low w content (c !! key))) !! key
  = snd (turn low w content (c !! key)).
Proof.
  destruct (snd (turn low w content (c !! key))) as [h|] eqn:E; simpl.
  - apply lookup_insert_eq.
  - apply (turn_entry env have_jsb html_parser beautify_css beautify fh fcj) in E. exact E.
Qed.

Lemma lookup_put_entry_other (c : gmap string string) key ne key' :
  key <> key' -> put_entry c key ne !! key' = c !! key'.
Proof. intros Hne. destruct ne; simpl; [apply lookup_insert_ne, Hne | reflexivity]. Qed.

(** After the loop every file it went through is settled: one more turn
    would leave its content and its entry as they are. *)
Lemma fold_format st0 :
  forall l c st r st1,
  NoDup l ->
  (forall k, k ∈ l -> fs_key st0 k = k) ->
  (forall k1 k2, k1 ∈ l -> k2 ∈ l ->
     Path.relpath (cwd st0) k1 dist_root = Path.relpath (cwd st0) k2 dist_root -> k1 = k2) ->
  cwd st = cwd st0 ->
  Extensionless.foldM format_one (Some c) l st = (r, st1) ->
  exists c1, r = Ok (Some c1)
    /\ same_tree st st1
    /\ (forall k, is_Some (files st1 !! k) <-> is_Some (files st !! k))
    /\ (forall k, k ∈ l ->
          turn (Text.lower (Path.basename k)) (writable st1 k) (readable st1 k)
               (c1 !! Path.relpath (cwd st0) k dist_root)
          = (readable st1 k, c1 !! Path.relpath (cwd st0) k dist_root))
    /\ (forall k, fs_key st0 k = k -> k ∉ l -> readable st1 k = readable st k)
    /\ (forall k, writable st1 k = writable st k)
    /\ (forall key, (forall x, x ∈ l -> Path.relpath (cwd st0) x dist_root <> key) ->
          c1 !! key = c !! key).
Proof.
  induction l as [|x l IH]; intros c st r st1 Hnd Hnorm Hinj Hc H.
  - simpl in H. unfold ret in H. injection H as <- <-. exists c.
    split; [reflexivity|]. split; [apply same_tree_refl|]. split; [reflexivity|].
    split; [intros k Hk; apply elem_of_nil in Hk; contradiction|]. auto.
  - simpl in H. rewrite (bind_Ok_step _ _ _ _ _ (format_one_turn _ _ _ _ _ _ _ _ _ _ _)) in H.
    rewrite Hc in H.
    set (key := Path.relpath (cwd st0) x dist_root) in *.
    set (low := Text.lower (Path.basename x)) in *.
    set (t := turn low (writable st x) (readable st x) (c !! key)) in *.
    apply NoDup_cons in Hnd as [Hx Hnd].
    assert (Hxin : x ∈ x :: l) by (apply elem_of_cons; auto).
    assert (Hkx : fs_key st x = x).
    { unfold fs_key. rewrite Hc. apply Hnorm, Hxin. }
    destruct (IH (put_entry c key (snd t)) (put_content st x (fst t)) r st1 Hnd)
      as (c1 & -> & T & Hfiles & Hset & Hread & Hwr & Hent).
    { intros k Hk. apply Hnorm, elem_of_cons. auto. }
    { intros k1 k2 H1 H2. apply Hinj; apply elem_of_cons; auto. }
    { rewrite cwd_put. exact Hc. }
    { exact H. }
    exists c1. split; [reflexivity|].
    split; [exact (same_tree_trans _ _ _ (same_tree_put _ _ _) T)|].
    split; [|split; [|split; [|split]]].
    + intros k. rewrite Hfiles. apply files_put_turn.
    + intros k Hk. apply elem_of_cons in Hk as [-> | Hk]; [|auto].
      rewrite Hwr, writable_put.
      rewrite (Hread x (Hnorm x Hxin) Hx).
      assert (He : c1 !! key = snd t).
      { rewrite Hent.
        - apply lookup_put_entry_turn.
        - intros y Hy E. apply Hinj in E; [|apply elem_of_cons; auto | exact Hxin].
          subst y. contradiction. }
      fold key. rewrite He. unfold t at 1 3. rewrite readable_put_turn.
      fold t. rewrite <- (surjective_pairing t). apply turn_idempotent.
    + intros k Hk Hnot. rewrite Hread; [|exact Hk|].
      * apply readable_put_other. unfold fs_key. rewrite Hc.
        fold (fs_key st0 k). fold (fs_key st0 x). rewrite Hk, (Hnorm x Hxin).
        intros ->. apply Hnot, elem_of_cons. auto.
      * intros Hin. apply Hnot, elem_of_cons. auto.
    + intros k. rewrite Hwr. apply writable_put.
    + intros key' Hfree. rewrite Hent.
      * apply lookup_put_entry_other. apply Hfree, Hxin.
      * intros y Hy. apply Hfree, elem_of_cons. auto.
Qed.


End FormattingRuns.


(** ** Two instances *)

Lemma css_tokens_partition_witness :
  Text.join "" (map piece_text (CssRe.tokens Demo.stale_css)) = Demo.stale_css
  /\ exists m, inr m ∈ CssRe.tokens Demo.stale_css
               /\ group2 m = "gone.png"
               /\ group0 m = "url(" +:+ group1 m +:+ group2 m +:+ group1 m +:+ ")"
               /\ group2 m <> "".
Proof.
  destruct (css_tokens_partition Demo.stale_css) as [Hjoin Hall].
  split; [exact Hjoin|].
  exists {| group0 := "url('gone.png')"; group1 := "'"; group2 := "gone.png" |}.
  assert (Hin : inr {| group0 := "url('gone.png')"; group1 := "'"; group2 := "gone.png" |}
                ∈ CssRe.tokens Demo.stale_css).
  { apply list_elem_of_In. vm_compute. do 13 right. left. reflexivity. }
  split; [exact Hin|]. split; [reflexivity|].
  destruct (Hall _ Hin) as (H0 & _ & Hne & _). split; [exact H0 | exact Hne].
Defined.

Lemma format_code_never_raises_witness :
  exists cache' st',
    Format.format_code Sample.env true Demo5.html_parser Demo5.beautify_css Demo5.beautify
      "/site" true true (Some ∅) Demo5.tree = (Ok cache', st')
    /\ is_Some cache' /\ dirs st' = dirs Demo5.tree.
Proof.
  destruct (format_code_never_raises Sample.env true Demo5.html_parser Demo5.beautify_css
              Demo5.beautify "/site" true true (Some ∅) Demo5.tree)
    as (cache' & st' & H & Hc & _ & Hd).
  exists cache', st'. split; [exact H|]. split; [apply Hc; eauto | exact Hd].
Defined.

(** ** Failures *)

Lemma same_manifest_refl st : same_manifest st st.
Proof. reflexivity. Qed.

Lemma same_manifest_trans a b c : same_manifest a b -> same_manifest b c -> same_manifest a c.
Proof. unfold same_manifest. congruence. Qed.

Lemma same_manifest_write p d : steps_in same_manifest (write_file p d).
Proof. intros st r st' H. apply (same_records_write _ _ _ _ _ H). Qed.

Lemma same_manifest_ensure_dir p : steps_in same_manifest (ensure_dir p).
Proof. intros st r st' H. apply (same_records_ensure_dir _ _ _ _ H). Qed.

Lemma same_manifest_log c : steps_in same_manifest (log_pil c).
Proof. intros st r st' H. unfold log_pil, modify in H. injection H as _ <-. reflexivity. Qed.

Ltac manifest_steps :=
  repeat first
    [ apply (steps_in_bind _ same_manifest_trans); [|intros ?]
    | apply (steps_in_ret _ same_manifest_refl)
    | apply (steps_in_lift _ same_manifest_refl)
    | apply (steps_in_gets _ same_manifest_refl)
    | apply (steps_in_read _ same_manifest_refl)
    | apply same_manifest_write
    | apply same_manifest_ensure_dir
    | apply same_manifest_log
    | apply (steps_in_mapM _ same_manifest_refl same_manifest_trans); intros ?
    | match goal with |- steps_in _ (if ?b then _ else _) => destruct b end
    | match goal with |- steps_in _ (match ?x with _ => _ end) => destruct x end
    | match goal with |- steps_in _ (let '(_, _) := ?x in _) => destruct x end ].

Section FailedGeneration.

Variable env : Env.

Lemma same_manifest_make_variants img_path out_dir widths fmt qual :
  steps_in same_manifest (make_variants env img_path out_dir widths fmt qual).
Proof. unfold make_variants, make_one_variant, copy2. manifest_steps. Qed.

(** X28. A generation that fails records nothing: when
    [ensure_variants_with_cache] raises, the hash was a cache miss, the
    exception is the one of [make_variants], and the manifest is as it
    was, although variant files written before the failure stay on
    disk. *)
Theorem failed_generation_records_nothing downloaded h var_dir widths fmt qual st e st' :
  ensure_variants_with_cache env downloaded h var_dir widths fmt qual st = (Raise e, st') ->
  cache_hit st h = None
  /\ make_variants env downloaded var_dir widths fmt qual st = (Raise e, st')
  /\ manifest st' = manifest st.
Proof.
  intros H.
  destruct (C5_hit_or_miss env downloaded h var_dir widths fmt qual st) as [Hhit Hmiss].
  destruct (cache_hit st h) as [recorded|] eqn:E.
  - rewrite (Hhit _ eq_refl) in H. discriminate.
  - rewrite (Hmiss eq_refl) in H. split; [reflexivity|].
    destruct (make_variants env downloaded var_dir widths fmt qual st) as [[pairs|e'] st1] eqn:Em;
      [discriminate|].
    injection H as <- <-. split; [reflexivity|].
    exact (same_manifest_make_variants _ _ _ _ _ _ _ _ Em).
Qed.

End FailedGeneration.

Lemma failed_generation_records_nothing_witness :
  let r := ensure_variants_with_cache Sample.env "/site/img/broken.png" "8f2e1c6a9d30"
             "/site/images/responsive" [480; 800] "webp" 82 Sample.site in
  r = (Raise UnidentifiedImageError, snd r)
  /\ manifest (snd r) = manifest Sample.site
  /\ is_dir (snd r) "/site/images/responsive" = true.
Proof.
  intros r.
  assert (H : r = (Raise UnidentifiedImageError, snd r)) by (vm_compute; reflexivity).
  split; [exact H|].
  destruct (failed_generation_records_nothing Sample.env _ _ _ _ _ _ _ _ _ H) as (_ & _ & Hm).
  split; [exact Hm | vm_compute; reflexivity].
Defined.

Lemma mapM_returns {A B} (f : A -> M B) :
  (forall x st, exists y st', f x st = (Ok y, st')) ->
  forall l st, exists ys st', mapM f l st = (Ok ys, st').
Proof.
  intros Hf. induction l as [|x l IH]; intros st; simpl.
  - unfold ret. eauto.
  - destruct (Hf x st) as (y & s1 & H1). rewrite (bind_Ok_step _ _ _ _ _ H1).
    destruct (IH s1) as (ys & s2 & H2). rewrite (bind_Ok_step _ _ _ _ _ H2).
    unfold ret. eauto.
Qed.

Section CssFailures.

Variable env : Env.
Variable cfg : Config.
Variable dist_root : string.

Lemma css_sub_returns css_dir css st :
  exists s st', css_sub env cfg dist_root css_dir css st = (Ok s, st').
Proof.
  unfold css_sub.
  destruct (mapM_returns (css_piece env cfg dist_root css_dir)) with (l := CssRe.tokens css)
    (st := st) as (pieces & st' & H).
  - intros [c|m] s; simpl; [unfold ret; eauto | apply css_repl_returns].
  - rewrite (bind_Ok_step _ _ _ _ _ H). unfold ret. eauto.
Qed.

(** X29. No image can make the CSS pass fail: when [rewrite_css_urls]
    raises, the exception comes from reading the style sheet or from
    writing it back, and every [url(...)] token had been handled before;
    a style sheet that can be read and needs no change always gives a
    normal return. *)
Theorem css_pass_fails_only_on_its_file file_path st e st' :
  rewrite_css_urls env cfg dist_root file_path st = (Raise e, st') ->
  read_file file_path st = (Raise e, st')
  \/ exists data new_css st1,
       read_file file_path st = (Ok data, st)
       /\ css_sub env cfg dist_root (Path.dirname file_path) (decode_ignore env data) st
          = (Ok new_css, st1)
       /\ new_css <> decode_ignore env data
       /\ write_file file_path new_css st1 = (Raise e, st').
Proof.
  unfold rewrite_css_urls. intros H.
  destruct (read_file file_path st) as [[data|e0] s0] eqn:Er.
  - pose proof (read_file_Ok _ _ _ _ Er) as [-> _].
    rewrite (bind_Ok_step _ _ _ _ _ Er) in H. cbv zeta in H.
    destruct (css_sub_returns (Path.dirname file_path) (decode_ignore env data) st)
      as (new_css & st1 & Hs).
    rewrite (bind_Ok_step _ _ _ _ _ Hs) in H.
    destruct (String.eqb new_css (decode_ignore env data)) eqn:E; [discriminate|].
    right. exists data, new_css, st1. split; [reflexivity|]. split; [exact Hs|].
    split; [apply String.eqb_neq, E | exact H].
  - rewrite (bind_Raise_step _ _ _ _ _ Er) in H. left. injection H as <- <-. reflexivity.
Qed.

End CssFailures.

Lemma css_pass_fails_only_on_its_file_witness :
  rewrite_css_urls Sample.env Sample.cfg "/site" "/site/css/print.css" Sample.site
  = (Raise FileNotFoundError, Sample.site)
  /\ read_file "/site/css/print.css" Sample.site = (Raise FileNotFoundError, Sample.site).
Proof.
  assert (H : rewrite_css_urls Sample.env Sample.cfg "/site" "/site/css/print.css" Sample.site
              = (Raise FileNotFoundError, Sample.site)) by (vm_compute; reflexivity).
  split; [exact H|].
  destruct (css_pass_fails_only_on_its_file Sample.env Sample.cfg "/site" _ _ _ _ H)
    as [Hr | (data & new_css & st1 & Hr & _)]; [exact Hr|].
  exfalso. vm_compute in Hr. discriminate.
Defined.

(** ** The manifest file read back *)

Module JsonFacts.

Import Text Json Persist.

Lemma scan_string_S fuel acc c l :
  scan_string (S fuel) acc (c :: l)
  = if char_eqb dquote c then Ok (str acc, l)
    else if char_eqb backslash c then
      match l with
      | [] => Raise JSONDecodeError
      | e :: l'' =>
          if char_eqb "u"%char e then
            match unicode_escape l'' with
            | Some (units, rest) => scan_string fuel (acc ++ units) rest
            | None => Raise JSONDecodeError
            end
          else match simple_escape e with
               | Some x => scan_string fuel (acc ++ [x]) l''
               | None => Raise JSONDecodeError
               end
      end
    else if code c <? 32 then Raise JSONDecodeError
    else scan_string fuel (acc ++ [c]) l.
Proof. reflexivity. Qed.

(** One character of a string, escaped, is read back as that character. *)
Lemma scan_escaped c fuel acc tail :
  plain_char c = true ->
  scan_string (S fuel) acc (escape_ascii c ++ tail) = scan_string fuel (acc ++ [c]) tail.
Proof.
  intros Hc.
  destruct c as [[] [] [] [] [] [] [] []];
    try (vm_compute in Hc; discriminate Hc); reflexivity.
Qed.

Lemma escape_ascii_plain c : plain_char c = true -> forallb plain_char (escape_ascii c) = true.
Proof.
  intros Hc.
  destruct c as [[] [] [] [] [] [] [] []];
    try (vm_compute in Hc; discriminate Hc); vm_compute; reflexivity.
Qed.

Lemma escape_ascii_length c : (1 <= length (escape_ascii c))%nat.
Proof. unfold escape_ascii. repeat case_match; simpl; lia. Qed.

Lemma escape_units_plain l :
  forallb plain_char l = true -> escape_units l = flat_map escape_ascii l.
Proof.
  induction l as [|c l IH]; [reflexivity|]. intros H.
  apply andb_true_iff in H as [Hc Hl].
  change (escape_units (c :: l))
    with (if code c <? 128 then escape_ascii c ++ escape_units l
          else match l with
               | c1 :: l2 =>
                   if code c <? 224 then u_escape ((code c - 192) * 64 + cont c1) ++ escape_units l2
                   else match l2 with
                        | c2 :: l3 =>
                            if code c <? 240 then
                              u_escape (((code c - 224) * 64 + cont c1) * 64 + cont c2)
                              ++ escape_units l3
                            else match l3 with
                                 | c3 :: l4 =>
                                     let v := (((code c - 240) * 64 + cont c1) * 64 + cont c2) * 64
                                              + cont c3 - 65536 in
                                     u_escape (55296 + v / 1024) ++ u_escape (56320 + v mod 1024)
                                     ++ escape_units l4
                                 | [] => []
                                 end
                        | [] => []
                        end
               | [] => []
               end).
  unfold plain_char in Hc. rewrite Hc, (IH Hl). reflexivity.
Qed.

Lemma scan_string_plain l : forall acc fuel tail,
  forallb plain_char l = true -> (length l < fuel)%nat ->
  scan_string fuel acc (flat_map escape_ascii l ++ dquote :: tail) = Ok (str (acc ++ l), tail).
Proof.
  induction l as [|c l IH]; intros acc fuel tail Hl Hf.
  - destruct fuel as [|fuel]; [simpl in Hf; lia|].
    change (flat_map escape_ascii [] ++ dquote :: tail) with (dquote :: tail).
    rewrite scan_string_S. change (char_eqb dquote dquote) with true. cbv iota.
    rewrite app_nil_r. reflexivity.
  - apply andb_true_iff in Hl as [Hc Hl].
    destruct fuel as [|fuel]; [simpl in Hf; lia|].
    change (flat_map escape_ascii (c :: l)) with (escape_ascii c ++ flat_map escape_ascii l).
    rewrite <- app_assoc, (scan_escaped _ _ _ _ Hc), (IH _ _ _ Hl) by (simpl in Hf; lia).
    rewrite <- app_assoc. reflexivity.
Qed.

Lemma flat_escape_plain l :
  forallb plain_char l = true -> forallb plain_char (flat_map escape_ascii l) = true.
Proof.
  induction l as [|c l IH]; [reflexivity|]. intros H.
  apply andb_true_iff in H as [Hc Hl].
  change (flat_map escape_ascii (c :: l)) with (escape_ascii c ++ flat_map escape_ascii l).
  rewrite forallb_app, (escape_ascii_plain _ Hc), (IH Hl). reflexivity.
Qed.

Lemma flat_escape_length l : (length l <= length (flat_map escape_ascii l))%nat.
Proof.
  induction l as [|c l IH]; [reflexivity|].
  change (flat_map escape_ascii (c :: l)) with (escape_ascii c ++ flat_map escape_ascii l).
  rewrite length_app. pose proof (escape_ascii_length c). simpl. lia.
Qed.

(** *** White space *)

Lemma skip_ws_value c l : starts_value c = true -> skip_ws (c :: l) = c :: l.
Proof.
  intros H. apply andb_true_iff in H as [H _]. apply negb_true_iff in H.
  change (skip_ws (c :: l)) with (if is_ws c then skip_ws l else c :: l).
  rewrite H. reflexivity.
Qed.

Lemma skip_ws_spaces n l : skip_ws (repeat " "%char n ++ l) = skip_ws l.
Proof. induction n as [|n IH]; [reflexivity|]. exact IH. Qed.

Lemma chars_indent d : chars (indent d) = repeat " "%char (2 * d).
Proof. apply CssFacts.chars_str. Qed.

Lemma skip_ws_break d l : skip_ws (chars newline ++ chars (indent d) ++ l) = skip_ws l.
Proof.
  rewrite chars_indent.
  change (skip_ws (chars newline ++ repeat " "%char (2 * d) ++ l))
    with (skip_ws (repeat " "%char (2 * d) ++ l)).
  apply skip_ws_spaces.
Qed.

Lemma skip_ws_closing d c rest :
  is_ws c = false -> skip_ws (closing d c ++ rest) = c :: rest.
Proof.
  intros H. unfold closing. rewrite <- !app_assoc, skip_ws_break.
  change (skip_ws ([c] ++ rest)) with (if is_ws c then skip_ws rest else c :: rest).
  rewrite H. reflexivity.
Qed.

Lemma value_end_closing d c rest : value_end (closing d c ++ rest) = true.
Proof. reflexivity. Qed.

Lemma plain_indent d : forallb plain_char (chars (indent d)) = true.
Proof.
  rewrite chars_indent. induction (2 * d)%nat as [|n IH]; [reflexivity|]. exact IH.
Qed.

Lemma plain_closing d c : plain_char c = true -> forallb plain_char (closing d c) = true.
Proof.
  intros H. unfold closing. rewrite !forallb_app, plain_indent. simpl. rewrite H. reflexivity.
Qed.

(** *** Strings *)

Lemma chars_quote s :
  chars (quote_string s) = dquote :: escape_units (chars s) ++ [dquote].
Proof. apply CssFacts.chars_str. Qed.

Lemma once_string fuel l s rest :
  scan_string fuel [] l = Ok (s, rest) ->
  scan_once (S fuel) (dquote :: l) = Ok (JStr s, rest).
Proof. intros H. simpl. rewrite H. reflexivity. Qed.

Lemma scan_key s fuel tail :
  plain s = true -> (length (escape_units (chars s)) < fuel)%nat ->
  scan_string fuel [] (escape_units (chars s) ++ dquote :: tail) = Ok (s, tail).
Proof.
  intros Hs Hf. rewrite (escape_units_plain _ Hs) in *.
  rewrite (scan_string_plain _ [] fuel tail Hs).
  - change ([] ++ chars s) with (chars s). rewrite CssFacts.str_chars. reflexivity.
  - pose proof (flat_escape_length (chars s)). lia.
Qed.

Lemma plain_quote s : plain s = true -> forallb plain_char (chars (quote_string s)) = true.
Proof.
  intros Hs. rewrite chars_quote, (escape_units_plain _ Hs).
  change (forallb plain_char (dquote :: flat_map escape_ascii (chars s) ++ [dquote]))
    with (forallb plain_char (flat_map escape_ascii (chars s) ++ [dquote])).
  rewrite forallb_app, (flat_escape_plain _ Hs). reflexivity.
Qed.

Lemma reads_back_string d s : plain s = true -> reads_back d (JStr s).
Proof.
  intros Hs. unfold reads_back.
  change (dumps_at d (JStr s)) with (quote_string s).
  split; [apply plain_quote, Hs|]. split.
  - rewrite chars_quote. eexists _, _. split; reflexivity.
  - intros fuel rest Hf Hr. rewrite chars_quote in *.
    destruct fuel as [|fuel]; [simpl in Hf; lia|].
    change ((dquote :: escape_units (chars s) ++ [dquote]) ++ rest)
      with (dquote :: (escape_units (chars s) ++ [dquote]) ++ rest).
    rewrite <- app_assoc. apply once_string.
    change ([dquote] ++ rest) with (dquote :: rest).
    apply scan_key; [exact Hs|]. simpl in Hf. rewrite length_app in Hf. simpl in Hf. lia.
Qed.

(** *** Integers *)

Lemma value_end_head rest :
  value_end rest = true ->
  rest = [] \/ exists c l, rest = c :: l /\ is_digit c = false /\ char_eqb "."%char c = false
                           /\ char_eqb "e"%char c || char_eqb "E"%char c = false.
Proof.
  destruct rest as [|c l]; [auto|]. intros H. right. exists c, l.
  split; [reflexivity|]. unfold value_end in H.
  destruct c as [[] [] [] [] [] [] [] []];
    try (vm_compute in H; discriminate H); vm_compute; auto.
Qed.

Lemma frac_part_end rest : value_end rest = true -> frac_part rest = ([], rest).
Proof.
  intros H. destruct (value_end_head _ H) as [->|(c & l & -> & _ & Hd & _)]; [reflexivity|].
  unfold frac_part. rewrite Hd. reflexivity.
Qed.

Lemma exp_part_end rest : value_end rest = true -> exp_part rest = ([], rest).
Proof.
  intros H. destruct (value_end_head _ H) as [->|(c & l & -> & _ & _ & He)]; [reflexivity|].
  unfold exp_part. rewrite He. reflexivity.
Qed.

Lemma take_digits_end ds rest :
  Forall (fun c => is_digit c = true) ds -> value_end rest = true ->
  Width.take_digits (ds ++ rest) = ds.
Proof.
  intros Hd H. destruct (value_end_head _ H) as [->|(c & l & -> & Hc & _)].
  - rewrite app_nil_r. induction Hd as [|d ds Hd _ IH]; [reflexivity|].
    simpl. rewrite Hd, IH. reflexivity.
  - apply WidthFacts.take_digits_app; assumption.
Qed.

Lemma digit_char_lead d : 0 < d < 10 -> char_eqb "0"%char (digit_char d) = false.
Proof.
  intros Hd.
  assert (Hcases : d = 1 \/ d = 2 \/ d = 3 \/ d = 4 \/ d = 5 \/ d = 6 \/ d = 7
                   \/ d = 8 \/ d = 9) by lia.
  repeat (destruct Hcases as [->|Hcases]; [reflexivity|]).
  subst d. reflexivity.
Qed.

Lemma pos_digits_lead fuel :
  forall n acc, 0 < n < 2 ^ Z.of_nat (S fuel) ->
  exists c tl, pos_digits (S fuel) n acc = c :: tl /\ char_eqb "0"%char c = false.
Proof.
  induction fuel as [|fuel IH]; intros n acc Hn.
  - change (2 ^ Z.of_nat 1) with 2 in Hn.
    assert (E : (n <? 10) = true) by (apply Z.ltb_lt; lia).
    simpl. rewrite E. eexists _, _. split; [reflexivity|]. apply digit_char_lead. lia.
  - change (pos_digits (S (S fuel)) n acc)
      with (if n <? 10 then digit_char n :: acc
            else pos_digits (S fuel) (n / 10) (digit_char (n mod 10) :: acc)).
    destruct (n <? 10) eqn:E.
    + apply Z.ltb_lt in E. eexists _, _. split; [reflexivity|]. apply digit_char_lead. lia.
    + apply Z.ltb_ge in E. apply IH. split.
      * apply Z.div_str_pos. lia.
      * apply Z.div_lt_upper_bound; [lia|].
        rewrite (Nat2Z.inj_succ (S fuel)), Z.pow_succ_r in Hn by lia.
        assert (0 < 2 ^ Z.of_nat (S fuel)) by (apply Z.pow_pos_nonneg; lia). lia.
Qed.

(** The digits of a natural number: no zero in front, unless the number
    is zero. *)
Lemma nat_text n :
  0 <= n ->
  exists c ds, chars (str_of_Z n) = c :: ds
               /\ Forall (fun c => is_digit c = true) (c :: ds)
               /\ Z_of_digits (c :: ds) = n
               /\ (char_eqb "0"%char c = true -> ds = []).
Proof.
  intros Hn. destruct (DigitFacts.str_of_Z_digits n Hn) as (l & Hl & Hne & Hall & Hval).
  destruct (Z.eq_dec n 0) as [->|Hz].
  - exists "0"%char, []. split; [reflexivity|]. split; [repeat constructor|]. auto.
  - assert (Hlead : exists c tl, chars (str_of_Z n) = c :: tl /\ char_eqb "0"%char c = false).
    { unfold str_of_Z.
      assert (E : (n <? 0) = false) by (apply Z.ltb_ge; lia). rewrite E.
      rewrite Nat.add_1_r, CssFacts.chars_str. apply pos_digits_lead.
      split; [lia|]. rewrite Nat2Z.inj_succ, Z2Nat.id by apply Z.log2_nonneg.
      apply Z.log2_spec. lia. }
    destruct Hlead as (c & tl & Hc & Hz0). exists c, tl.
    rewrite Hc in Hl. subst l. split; [exact Hc|]. split; [exact Hall|].
    split; [exact Hval|]. intros H. congruence.
Qed.

Lemma int_part_nat c ds rest :
  Forall (fun c => is_digit c = true) (c :: ds) ->
  (char_eqb "0"%char c = true -> ds = []) -> value_end rest = true ->
  int_part ((c :: ds) ++ rest) = Some (c :: ds, rest).
Proof.
  intros Hall Hz Hr. pose proof (Forall_inv Hall) as Hc. cbv beta in Hc.
  assert (Hm : char_eqb "-"%char c = false).
  { apply LinkFacts.char_eqb_neq. intros <-. discriminate Hc. }
  unfold int_part. change ((c :: ds) ++ rest) with (c :: ds ++ rest). cbv beta iota.
  rewrite Hm. cbv beta iota.
  destruct (char_eqb "0"%char c) eqn:E.
  - rewrite (Hz eq_refl). reflexivity.
  - rewrite Hc. change (c :: ds ++ rest) with ((c :: ds) ++ rest).
    rewrite (take_digits_end _ _ Hall Hr), drop_app_length. reflexivity.
Qed.

Lemma int_part_neg c ds rest :
  Forall (fun c => is_digit c = true) (c :: ds) ->
  char_eqb "0"%char c = false -> value_end rest = true ->
  int_part (("-"%char :: c :: ds) ++ rest) = Some ("-"%char :: c :: ds, rest).
Proof.
  intros Hall Hz Hr. pose proof (Forall_inv Hall) as Hc. cbv beta in Hc.
  unfold int_part. change (("-"%char :: c :: ds) ++ rest) with ("-"%char :: c :: ds ++ rest).
  cbv beta iota. change (char_eqb "-"%char "-"%char) with true. cbv beta iota. rewrite Hz, Hc.
  change (c :: ds ++ rest) with ((c :: ds) ++ rest).
  rewrite (take_digits_end _ _ Hall Hr), drop_app_length. reflexivity.
Qed.

Lemma Z_of_int_nat c ds :
  is_digit c = true -> Z_of_int_lexeme (c :: ds) = Z_of_digits (c :: ds).
Proof.
  intros Hc. unfold Z_of_int_lexeme.
  assert (Hm : char_eqb "-"%char c = false).
  { apply LinkFacts.char_eqb_neq. intros <-. discriminate Hc. }
  rewrite Hm. reflexivity.
Qed.

(** The text of an integer, as a head (a digit or the sign) and the
    lexeme the number scanner takes. *)
Lemma scan_int n rest :
  value_end rest = true ->
  exists c l, chars (str_of_Z n) = c :: l
              /\ is_digit c || char_eqb "-"%char c = true
              /\ forallb plain_char (c :: l) = true
              /\ scan_number ((c :: l) ++ rest) = Some (JInt n, rest).
Proof.
  intros Hr.
  assert (Hplain : forall l, Forall (fun c => is_digit c = true) l -> forallb plain_char l = true).
  { intros l H. apply forallb_forall. rewrite Forall_forall in H. intros c Hc.
    specialize (H c (proj2 (list_elem_of_In _ _) Hc)). unfold is_digit, in_range in H. apply andb_true_iff in H as [_ H].
    apply Z.leb_le in H. apply Z.ltb_lt. lia. }
  destruct (Z.ltb_spec n 0) as [Hneg|Hpos].
  - destruct (nat_text (- n) ltac:(lia)) as (c & ds & Htext & Hall & Hval & Hz).
    assert (Hlead : char_eqb "0"%char c = false).
    { destruct (char_eqb "0"%char c) eqn:E; [|reflexivity].
      apply WidthFacts.char_eqb_eq in E. subst c. rewrite (Hz eq_refl) in Hval.
      change (Z_of_digits ["0"%char]) with 0 in Hval. lia. }
    assert (Htext' : chars (str_of_Z n) = "-"%char :: c :: ds).
    { unfold str_of_Z in *.
      assert (E1 : (n <? 0) = true) by (apply Z.ltb_lt; lia).
      assert (E2 : (- n <? 0) = false) by (apply Z.ltb_ge; lia).
      rewrite E1. rewrite E2 in Htext. rewrite CssFacts.chars_str in *.
      rewrite Htext. reflexivity. }
    exists "-"%char, (c :: ds). split; [exact Htext'|]. split; [reflexivity|].
    split; [exact (Hplain _ Hall)|].
    unfold scan_number. rewrite (int_part_neg _ _ _ Hall Hlead Hr).
    rewrite (frac_part_end _ Hr), (exp_part_end _ Hr).
    unfold Z_of_int_lexeme. change (char_eqb "-"%char "-"%char) with true. cbv iota.
    rewrite Hval, Z.opp_involutive. reflexivity.
  - destruct (nat_text n Hpos) as (c & ds & Htext & Hall & Hval & Hz).
    exists c, ds. split; [exact Htext|]. split; [rewrite (Forall_inv Hall); reflexivity|].
    split; [exact (Hplain _ Hall)|].
    unfold scan_number. rewrite (int_part_nat _ _ _ Hall Hz Hr).
    rewrite (frac_part_end _ Hr), (exp_part_end _ Hr).
    rewrite (Z_of_int_nat _ _ (Forall_inv Hall)), Hval. reflexivity.
Qed.

Lemma once_number fuel c l r :
  is_digit c || char_eqb "-"%char c = true ->
  scan_number (c :: l) = Some r ->
  scan_once (S fuel) (c :: l) = Ok r.
Proof.
  intros Hc Hn.
  destruct c as [[] [] [] [] [] [] [] []];
    try (vm_compute in Hc; discriminate Hc);
    cbn [scan_once]; cbv beta iota delta [char_eqb Ascii.eqb Bool.eqb dquote ascii_of_N
      ascii_of_pos andb literal starts_with chars list_ascii_of_string first_of fold_right];
    rewrite Hn; reflexivity.
Qed.

Lemma reads_back_int d n : reads_back d (JInt n).
Proof.
  unfold reads_back. change (dumps_at d (JInt n)) with (str_of_Z n).
  destruct (scan_int n [] eq_refl) as (c & l & Htext & Hc & Hplain & _).
  split; [rewrite Htext; exact Hplain|]. split.
  - exists c, l. split; [exact Htext|].
    destruct c as [[] [] [] [] [] [] [] []];
      try (vm_compute in Hc; discriminate Hc); reflexivity.
  - intros fuel rest Hf Hr.
    destruct (scan_int n rest Hr) as (c' & l' & Htext' & Hc' & _ & Hscan).
    rewrite Htext' in *. destruct fuel as [|fuel]; [simpl in Hf; lia|].
    change ((c' :: l') ++ rest) with (c' :: l' ++ rest) in *.
    apply once_number; assumption.
Qed.

(** *** Arrays *)

Lemma chars_join sep (f : json -> string) x xs :
  chars (join sep (map f (x :: xs)))
  = chars (f x) ++ flat_map (fun y => chars sep ++ chars (f y)) xs.
Proof.
  revert x. induction xs as [|y ys IH]; intros x.
  - simpl. rewrite app_nil_r. reflexivity.
  - change (join sep (map f (x :: y :: ys))) with (f x +:+ sep +:+ join sep (map f (y :: ys))).
    rewrite !NameFacts.chars_app, IH. simpl. rewrite <- !app_assoc. reflexivity.
Qed.

Lemma chars_join_members sep (f : string * json -> string) x xs :
  chars (join sep (map f (x :: xs)))
  = chars (f x) ++ flat_map (fun y => chars sep ++ chars (f y)) xs.
Proof.
  revert x. induction xs as [|y ys IH]; intros x.
  - simpl. rewrite app_nil_r. reflexivity.
  - change (join sep (map f (x :: y :: ys))) with (f x +:+ sep +:+ join sep (map f (y :: ys))).
    rewrite !NameFacts.chars_app, IH. simpl. rewrite <- !app_assoc. reflexivity.
Qed.

Lemma array_text d x xs :
  chars (dumps_at d (JArr (x :: xs)))
  = "["%char :: chars newline ++ chars (indent (S d)) ++ chars (dumps_at (S d) x)
    ++ more_items (S d) xs ++ closing d "]"%char.
Proof.
  change (dumps_at d (JArr (x :: xs)))
    with ("[" +:+ newline +:+
          join ("," +:+ newline)
            (map (fun x => indent (S d) +:+ dumps_at (S d) x) (x :: xs))
          +:+ newline +:+ indent d +:+ "]").
  rewrite !NameFacts.chars_app, chars_join, !NameFacts.chars_app.
  unfold more_items, closing. rewrite <- !app_assoc. reflexivity.
Qed.

Lemma more_items_cons d y ys t :
  more_items d (y :: ys) ++ t
  = ","%char :: chars newline ++ chars (indent d) ++ chars (dumps_at d y) ++ more_items d ys ++ t.
Proof.
  unfold more_items. simpl flat_map. rewrite !NameFacts.chars_app. cbn [app].
  rewrite <- !app_assoc. reflexivity.
Qed.

Lemma more_items_length d y ys :
  length (more_items d (y :: ys))
  = (2 + length (chars (indent d)) + length (chars (dumps_at d y)) + length (more_items d ys))%nat.
Proof.
  rewrite <- (app_nil_r (more_items d (y :: ys))), more_items_cons, app_nil_r.
  simpl. rewrite !length_app. lia.
Qed.

Lemma value_end_more_items d xs c rest :
  value_end (more_items (S d) xs ++ closing d c ++ rest) = true.
Proof. destruct xs as [|y ys]; [reflexivity|]. rewrite more_items_cons. reflexivity. Qed.

Lemma items_last fuel x l t rest :
  scan_once fuel l = Ok (x, t) -> skip_ws t = "]"%char :: rest ->
  scan_items (S fuel) l = Ok ([x], rest).
Proof. intros H1 H2. simpl. rewrite H1. simpl. rewrite H2. reflexivity. Qed.

Lemma items_more fuel x l t t' xs rest :
  scan_once fuel l = Ok (x, t) -> skip_ws t = ","%char :: t' ->
  scan_items fuel (skip_ws t') = Ok (xs, rest) ->
  scan_items (S fuel) l = Ok (x :: xs, rest).
Proof. intros H1 H2 H3. simpl. rewrite H1. simpl. rewrite H2, H3. reflexivity. Qed.

Lemma skip_to_value d v t :
  reads_back d v ->
  skip_ws (chars newline ++ chars (indent d) ++ chars (dumps_at d v) ++ t)
  = chars (dumps_at d v) ++ t.
Proof.
  intros (_ & (c & l & Htext & Hc) & _). rewrite skip_ws_break, Htext.
  apply (skip_ws_value c (l ++ t) Hc).
Qed.

Lemma scan_items_spec d : forall xs x fuel rest,
  reads_back (S d) x -> Forall (reads_back (S d)) xs ->
  (length (chars (dumps_at (S d) x)) + length (more_items (S d) xs) < fuel)%nat ->
  scan_items fuel (chars (dumps_at (S d) x) ++ more_items (S d) xs ++ closing d "]"%char ++ rest)
  = Ok (x :: xs, rest).
Proof.
  induction xs as [|y ys IH]; intros x fuel rest Hx Hxs Hf.
  - destruct fuel as [|fuel]; [lia|].
    apply items_last with (t := closing d "]"%char ++ rest).
    + apply Hx; [simpl in Hf; lia | apply value_end_closing].
    + apply skip_ws_closing. reflexivity.
  - destruct fuel as [|fuel]; [lia|]. rewrite more_items_length in Hf.
    inversion Hxs as [|? ? Hy Hys]; subst.
    apply items_more with (t := more_items (S d) (y :: ys) ++ closing d "]"%char ++ rest)
      (t' := chars newline ++ chars (indent (S d)) ++ chars (dumps_at (S d) y)
             ++ more_items (S d) ys ++ closing d "]"%char ++ rest).
    + apply Hx; [lia | apply value_end_more_items].
    + rewrite more_items_cons. reflexivity.
    + rewrite (skip_to_value _ _ _ Hy). apply IH; [exact Hy | exact Hys | lia].
Qed.

Lemma once_array fuel l c1 l1 xs rest :
  skip_ws l = c1 :: l1 -> char_eqb "]"%char c1 = false ->
  scan_items fuel (c1 :: l1) = Ok (xs, rest) ->
  scan_once (S fuel) ("["%char :: l) = Ok (JArr xs, rest).
Proof.
  intros H1 H2 H3. cbn [scan_once].
  change (char_eqb dquote "["%char) with false. change (char_eqb "{"%char "["%char) with false.
  change (char_eqb "["%char "["%char) with true. cbv iota.
  rewrite H1, H2, H3. reflexivity.
Qed.

Lemma plain_more_items d xs :
  Forall (reads_back d) xs -> forallb plain_char (more_items d xs) = true.
Proof.
  induction 1 as [|y ys Hy _ IH]; [reflexivity|].
  rewrite <- (app_nil_r (more_items d (y :: ys))), more_items_cons, app_nil_r.
  change (forallb plain_char (","%char :: ?l)) with (forallb plain_char l).
  rewrite !forallb_app, plain_indent, (proj1 Hy), IH. reflexivity.
Qed.

Lemma reads_back_array d xs : Forall (reads_back (S d)) xs -> reads_back d (JArr xs).
Proof.
  intros Hxs. destruct xs as [|x xs].
  - split; [reflexivity|]. split; [eexists _, _; split; reflexivity|].
    intros fuel rest Hf _. destruct fuel as [|fuel]; [simpl in Hf; lia|]. reflexivity.
  - inversion Hxs as [|? ? Hx Hrest]; subst. unfold reads_back. rewrite array_text.
    split; [|split].
    + change (forallb plain_char ("["%char :: ?l)) with (forallb plain_char l).
      rewrite !forallb_app, plain_indent, (proj1 Hx), (plain_more_items _ _ Hrest).
      rewrite plain_closing by reflexivity. reflexivity.
    + eexists _, _. split; reflexivity.
    + intros fuel rest Hf Hr. destruct fuel as [|fuel]; [simpl in Hf; lia|].
      simpl in Hf. rewrite !length_app in Hf.
      destruct Hx as (Hp & (c & l & Htext & Hc) & Hscan).
      assert (Hx : reads_back (S d) x) by (split; [exact Hp|]; split; [eauto | exact Hscan]).
      change (("["%char :: ?a) ++ rest) with ("["%char :: a ++ rest).
      rewrite <- !app_assoc.
      apply once_array with (c1 := c)
        (l1 := l ++ more_items (S d) xs ++ closing d "]"%char ++ rest).
      * rewrite (skip_to_value _ _ _ Hx), Htext. reflexivity.
      * apply andb_true_iff in Hc as [_ Hc]. apply negb_true_iff in Hc. exact Hc.
      * change (c :: l ++ ?t) with ((c :: l) ++ t). rewrite <- Htext.
        apply scan_items_spec; [exact Hx | exact Hrest | lia].
Qed.

(** *** Objects *)

Lemma member_text d k v t :
  chars (indent d +:+ quote_string k +:+ ": " +:+ dumps_at d v) ++ t
  = chars (indent d) ++ dquote :: escape_units (chars k)
    ++ dquote :: ":"%char :: " "%char :: chars (dumps_at d v) ++ t.
Proof.
  rewrite !NameFacts.chars_app, chars_quote.
  repeat (rewrite <- app_assoc || rewrite <- app_comm_cons). reflexivity.
Qed.

Lemma object_text d k v kv :
  chars (dumps_at d (JObj ((k, v) :: kv)))
  = "{"%char :: chars newline ++ chars (indent (S d)) ++ dquote :: escape_units (chars k)
    ++ dquote :: ":"%char :: " "%char :: chars (dumps_at (S d) v)
    ++ more_members (S d) kv ++ closing d "}"%char.
Proof.
  change (dumps_at d (JObj ((k, v) :: kv)))
    with ("{" +:+ newline +:+
          join ("," +:+ newline)
            (map (fun kv => indent (S d) +:+ quote_string (fst kv) +:+ ": "
                            +:+ dumps_at (S d) (snd kv)) ((k, v) :: kv))
          +:+ newline +:+ indent d +:+ "}").
  rewrite (NameFacts.chars_app "{"), (NameFacts.chars_app newline), (NameFacts.chars_app (join _ _)).
  rewrite chars_join_members. cbn [fst snd].
  rewrite <- app_assoc, member_text.
  rewrite !NameFacts.chars_app. unfold more_members, closing. reflexivity.
Qed.

Lemma more_members_cons d k v kv t :
  more_members d ((k, v) :: kv) ++ t
  = ","%char :: chars newline ++ chars (indent d) ++ dquote :: escape_units (chars k)
    ++ dquote :: ":"%char :: " "%char :: chars (dumps_at d v) ++ more_members d kv ++ t.
Proof.
  unfold more_members. simpl flat_map. cbn [fst snd].
  rewrite <- !app_comm_cons, <- app_assoc, member_text. reflexivity.
Qed.

Lemma more_members_length d k v kv :
  length (more_members d ((k, v) :: kv))
  = (4 + length (chars (indent d)) + length (escape_units (chars k))
     + (2 + length (chars (dumps_at d v))) + length (more_members d kv))%nat.
Proof.
  rewrite <- (app_nil_r (more_members d ((k, v) :: kv))), more_members_cons, app_nil_r.
  simpl. rewrite !length_app. simpl. rewrite !length_app. simpl. rewrite !length_app. lia.
Qed.

Lemma value_end_more_members d kv c rest :
  value_end (more_members (S d) kv ++ closing d c ++ rest) = true.
Proof.
  destruct kv as [|[k v] kv]; [reflexivity|]. rewrite more_members_cons. reflexivity.
Qed.

Lemma members_last fuel l key l1 l2 value l3 rest :
  scan_string fuel [] l = Ok (key, l1) -> skip_ws l1 = ":"%char :: l2 ->
  scan_once fuel (skip_ws l2) = Ok (value, l3) -> skip_ws l3 = "}"%char :: rest ->
  scan_members (S fuel) l = Ok ([(key, value)], rest).
Proof.
  intros H1 H2 H3 H4. cbn [scan_members]. rewrite H1. cbn [result_bind].
  rewrite H2. change (char_eqb ":"%char ":"%char) with true. cbv iota.
  rewrite H3. cbn [result_bind]. rewrite H4. reflexivity.
Qed.

Lemma members_more fuel l key l1 l2 value l3 l4 l5 kv rest :
  scan_string fuel [] l = Ok (key, l1) -> skip_ws l1 = ":"%char :: l2 ->
  scan_once fuel (skip_ws l2) = Ok (value, l3) -> skip_ws l3 = ","%char :: l4 ->
  skip_ws l4 = dquote :: l5 -> scan_members fuel l5 = Ok (kv, rest) ->
  scan_members (S fuel) l = Ok ((key, value) :: kv, rest).
Proof.
  intros H1 H2 H3 H4 H5 H6. cbn [scan_members]. rewrite H1. cbn [result_bind].
  rewrite H2. change (char_eqb ":"%char ":"%char) with true. cbv iota.
  rewrite H3. cbn [result_bind]. rewrite H4.
  change (char_eqb "}"%char ","%char) with false. change (char_eqb ","%char ","%char) with true.
  cbv iota. rewrite H5. change (char_eqb dquote dquote) with true. cbv iota.
  rewrite H6. reflexivity.
Qed.

Lemma skip_space_value d v t :
  reads_back d v -> skip_ws (" "%char :: chars (dumps_at d v) ++ t) = chars (dumps_at d v) ++ t.
Proof.
  intros (_ & (c & l & Htext & Hc) & _). rewrite Htext.
  change (skip_ws (" "%char :: (c :: l) ++ t)) with (skip_ws (c :: l ++ t)).
  apply skip_ws_value, Hc.
Qed.

Lemma scan_members_spec d : forall kv k v fuel rest,
  plain k = true -> reads_back (S d) v ->
  Forall (fun m => plain (fst m) = true /\ reads_back (S d) (snd m)) kv ->
  (length (escape_units (chars k)) + (2 + length (chars (dumps_at (S d) v)))
   + length (more_members (S d) kv) < fuel)%nat ->
  scan_members fuel
    (escape_units (chars k) ++ dquote :: ":"%char :: " "%char :: chars (dumps_at (S d) v)
     ++ more_members (S d) kv ++ closing d "}"%char ++ rest)
  = Ok ((k, v) :: kv, rest).
Proof.
  induction kv as [|[k' v'] kv IH]; intros k v fuel rest Hk Hv Hkv Hf.
  - destruct fuel as [|fuel]; [lia|].
    eapply members_last.
    + apply scan_key; [exact Hk | lia].
    + reflexivity.
    + rewrite (skip_space_value _ _ _ Hv). apply Hv; [lia | apply value_end_closing].
    + apply skip_ws_closing. reflexivity.
  - destruct fuel as [|fuel]; [lia|]. rewrite more_members_length in Hf.
    inversion Hkv as [|? ? [Hk' Hv'] Hrest]; subst. cbn [fst snd] in Hk', Hv'.
    eapply members_more.
    + apply scan_key; [exact Hk | lia].
    + reflexivity.
    + rewrite (skip_space_value _ _ _ Hv). apply Hv; [lia | apply value_end_more_members].
    + rewrite more_members_cons. reflexivity.
    + rewrite skip_ws_break. reflexivity.
    + apply IH; [exact Hk' | exact Hv' | exact Hrest | lia].
Qed.

Lemma once_object fuel l l1 kv rest :
  skip_ws l = dquote :: l1 -> scan_members fuel l1 = Ok (kv, rest) ->
  scan_once (S fuel) ("{"%char :: l) = Ok (JObj kv, rest).
Proof.
  intros H1 H2. cbn [scan_once].
  change (char_eqb dquote "{"%char) with false. change (char_eqb "{"%char "{"%char) with true.
  cbv iota. rewrite H1.
  change (char_eqb "}"%char dquote) with false. change (char_eqb dquote dquote) with true.
  cbv iota. rewrite H2. reflexivity.
Qed.

Lemma plain_more_members d kv :
  Forall (fun m => plain (fst m) = true /\ reads_back d (snd m)) kv ->
  forallb plain_char (more_members d kv) = true.
Proof.
  induction 1 as [|[k v] kv [Hk Hv] _ IH]; [reflexivity|]. cbn [fst snd] in Hk, Hv.
  rewrite <- (app_nil_r (more_members d ((k, v) :: kv))), more_members_cons, app_nil_r.
  change (forallb plain_char (","%char :: ?l)) with (forallb plain_char l).
  pose proof (plain_quote _ Hk) as Hq. rewrite chars_quote in Hq.
  change (forallb plain_char (dquote :: ?l)) with (forallb plain_char l) in Hq.
  rewrite forallb_app in Hq. apply andb_true_iff in Hq as [Hq _].
  rewrite !forallb_app. rewrite plain_indent.
  change (forallb plain_char (dquote :: ?l)) with (forallb plain_char l).
  rewrite forallb_app, Hq.
  change (forallb plain_char (dquote :: ":"%char :: " "%char :: ?l)) with (forallb plain_char l).
  rewrite forallb_app, (proj1 Hv), IH. reflexivity.
Qed.

Lemma reads_back_object d kv :
  Forall (fun m => plain (fst m) = true /\ reads_back (S d) (snd m)) kv ->
  reads_back d (JObj kv).
Proof.
  intros Hkv. destruct kv as [|[k v] kv].
  - split; [reflexivity|]. split; [eexists _, _; split; reflexivity|].
    intros fuel rest Hf _. destruct fuel as [|fuel]; [simpl in Hf; lia|]. reflexivity.
  - inversion Hkv as [|? ? [Hk Hv] Hrest]; subst. cbn [fst snd] in Hk, Hv.
    unfold reads_back. rewrite object_text. split; [|split].
    + pose proof (plain_more_members (S d) ((k, v) :: kv) Hkv) as Hm.
      rewrite <- (app_nil_r (more_members _ _)), more_members_cons, app_nil_r in Hm.
      change (forallb plain_char (","%char :: ?l)) with (forallb plain_char l) in Hm.
      change (forallb plain_char ("{"%char :: ?l)) with (forallb plain_char l).
      match type of Hm with forallb _ ?M = _ =>
        replace (forallb plain_char _) with (forallb plain_char (M ++ closing d "}"%char))
      end.
      * rewrite forallb_app, Hm. apply plain_closing. reflexivity.
      * f_equal. repeat (rewrite <- app_assoc || rewrite <- app_comm_cons). reflexivity.
    + eexists _, _. split; reflexivity.
    + intros fuel rest Hf Hr. destruct fuel as [|fuel]; [simpl in Hf; lia|].
      simpl in Hf. rewrite !length_app in Hf. simpl in Hf. rewrite !length_app in Hf.
      simpl in Hf. rewrite !length_app in Hf.
      change (("{"%char :: ?a) ++ rest) with ("{"%char :: a ++ rest).
      repeat (rewrite <- app_assoc || rewrite <- app_comm_cons).
      apply once_object
        with (l1 := escape_units (chars k) ++ dquote :: ":"%char :: " "%char
                    :: chars (dumps_at (S d) v) ++ more_members (S d) kv
                    ++ closing d "}"%char ++ rest).
      * rewrite skip_ws_break. reflexivity.
      * apply scan_members_spec; [exact Hk | exact Hv | exact Hrest | lia].
Qed.

(** *** A whole text *)

Lemma utf8_valid_plain l : forallb plain_char l = true -> utf8_valid l = true.
Proof.
  induction l as [|c l IH]; [reflexivity|]. intros H.
  apply andb_true_iff in H as [Hc Hl]. unfold plain_char in Hc.
  cbn [utf8_valid]. rewrite Hc. exact (IH Hl).
Qed.

Lemma loads_dumps v : reads_back 0 v -> loads (dumps v) = Ok v.
Proof.
  intros (_ & (c & l & Htext & Hc) & Hscan). unfold loads, dumps. cbv zeta.
  assert (Hskip : skip_ws (chars (dumps_at 0 v)) = chars (dumps_at 0 v)).
  { rewrite Htext. apply skip_ws_value, Hc. }
  pose proof (Hscan (2 * length (chars (dumps_at 0 v)) + 2)%nat [] ltac:(lia) eq_refl) as Hs.
  rewrite app_nil_r in Hs. rewrite Hskip, Hs. reflexivity.
Qed.

End JsonFacts.

Section ManifestRoundTrip.

Import Persist.

Lemma json_load_dumps v : reads_back 0 v -> json_load (Json.dumps v) = Ok v.
Proof.
  intros H. unfold json_load, Json.dumps.
  rewrite (JsonFacts.utf8_valid_plain _ (proj1 H)). apply JsonFacts.loads_dumps, H.
Qed.

Lemma strings_of_map l : strings_of (map JStr l) = Some l.
Proof. induction l as [|s l IH]; [reflexivity|]. simpl. rewrite IH. reflexivity. Qed.

Lemma entry_of_json_of_entry e : entry_of_json (json_of_entry e) = Some e.
Proof.
  destruct e as [o vs t]. unfold entry_of_json, json_of_entry.
  cbn [original variants ts].
  change (Json.member "original" _) with (Some (JStr o)).
  change (Json.member "variants" _) with (Some (JArr (map JStr vs))).
  change (Json.member "ts" _) with (Some (JInt t)).
  cbv iota. rewrite strings_of_map. reflexivity.
Qed.

Lemma entries_of_entries (l : list (string * Entry)) :
  NoDup l.*1 ->
  entries_of (map (fun he => (fst he, json_of_entry (snd he))) l) = Some (list_to_map l).
Proof.
  induction l as [|[h e] l IH]; [reflexivity|]. intros Hd.
  apply NoDup_cons in Hd as [Hh Hd].
  change (entries_of (map (fun he => (fst he, json_of_entry (snd he))) ((h, e) :: l)))
    with (match entry_of_json (json_of_entry e),
                entries_of (map (fun he => (fst he, json_of_entry (snd he))) l) with
          | Some e, Some m => Some (match m !! h with Some _ => m | None => <[h := e]> m end)
          | _, _ => None
          end).
  rewrite entry_of_json_of_entry, (IH Hd).
  rewrite (not_elem_of_list_to_map_1 _ _ Hh). reflexivity.
Qed.

(** The typed view of the JSON value of a manifest is that manifest. *)
Lemma manifest_of_json_of_manifest m : manifest_of_json (json_of_manifest m) = Some m.
Proof.
  unfold manifest_of_json, json_of_manifest.
  change (Json.member "images" [("images", ?j)]) with (Some j). cbv iota.
  rewrite (entries_of_entries _ (NoDup_fst_map_to_list m)), list_to_map_to_list. reflexivity.
Qed.

Lemma reads_back_entry d e : plain_entry e = true -> reads_back d (json_of_entry e).
Proof.
  intros H. apply andb_true_iff in H as [Ho Hv].
  apply JsonFacts.reads_back_object.
  constructor; [split; [reflexivity|] | constructor; [split; [reflexivity|] |
    constructor; [split; [reflexivity|] | constructor]]]; cbn [fst snd].
  - apply JsonFacts.reads_back_string, Ho.
  - apply JsonFacts.reads_back_array. apply Forall_forall. intros j Hj.
    apply list_elem_of_fmap in Hj as (s & -> & Hs).
    apply JsonFacts.reads_back_string.
    rewrite forallb_forall in Hv. apply Hv, list_elem_of_In, Hs.
  - apply JsonFacts.reads_back_int.
Qed.

Lemma reads_back_manifest m : plain_manifest m = true -> reads_back 0 (json_of_manifest m).
Proof.
  intros H. unfold plain_manifest in H. rewrite forallb_forall in H.
  apply JsonFacts.reads_back_object.
  constructor; [split; [reflexivity|] | constructor]; cbn [fst snd].
  apply JsonFacts.reads_back_object. apply Forall_forall. intros kv Hkv.
  apply list_elem_of_fmap in Hkv as (he & -> & Hhe). cbn [fst snd].
  specialize (H he (proj1 (list_elem_of_In _ _) Hhe)). apply andb_true_iff in H as [Hk He].
  split; [exact Hk | apply reads_back_entry, He].
Qed.

Lemma write_then_read p data st u st' :
  write_file p data st = (Ok u, st') ->
  path_exists st' p = true /\ read_file p st' = (Ok data, st').
Proof.
  intros H. pose proof (write_file_is_file _ _ _ _ _ H) as Hfile.
  split; [unfold path_exists; rewrite Hfile; reflexivity|].
  unfold write_file in H.
  destruct (is_dir st p) eqn:Hd; [discriminate|].
  destruct (String.eqb p "") eqn:Hp; [discriminate|].
  destruct (bool_decide _); [|discriminate]. injection H as _ <-.
  unfold read_file.
  change (is_dir (set_files _ st) p) with (is_dir st p). rewrite Hd, Hp.
  change (files (set_files ?f st)) with f. change (fs_key (set_files _ st) p) with (fs_key st p).
  rewrite lookup_insert_eq. reflexivity.
Qed.

(** X30. What [save_manifest] writes, [load_manifest] reads back: after
    a successful save of records whose hashes and paths are plain ASCII,
    loading the manifest of the same directory returns a JSON value whose
    records are exactly the records that were in memory, so a later run
    starts with the cache of this one. *)
Theorem saved_manifest_loads_back dist_root st st1 :
  plain_manifest (manifest st) = true ->
  save_manifest dist_root st = (Ok tt, st1) ->
  exists j, load_manifest dist_root st1 = (Ok j, st1)
            /\ manifest_of_json j = Some (manifest st)
            /\ manifest st1 = manifest st.
Proof.
  intros Hplain H. unfold save_manifest in H.
  inv_bind H as u1 s1 H1 H. inv_bind H as m s2 H2 H. unfold gets in H2. injection H2 as <- <-.
  pose proof (same_manifest_ensure_dir _ _ _ _ H1) as Hm1. unfold same_manifest in Hm1.
  pose proof (same_manifest_write _ _ _ _ _ H) as Hm2. unfold same_manifest in Hm2.
  destruct (write_then_read _ _ _ _ _ H) as [Hex Hread].
  exists (json_of_manifest (manifest st)). split; [|split].
  - unfold load_manifest. cbv zeta.
    rewrite (bind_Ok_step _ _ st1 true st1) by (unfold gets; rewrite Hex; reflexivity).
    rewrite (bind_Ok_step _ _ _ _ _ Hread). unfold lift.
    rewrite Hm1, json_load_dumps by (apply reads_back_manifest, Hplain). reflexivity.
  - apply manifest_of_json_of_manifest.
  - congruence.
Qed.

End ManifestRoundTrip.

Lemma saved_manifest_loads_back_witness :
  exists st1 j,
    Persist.plain_manifest (manifest Demo6.recorded) = true
    /\ save_manifest "/site" Demo6.recorded = (Ok tt, st1)
    /\ load_manifest "/site" st1 = (Ok j, st1)
    /\ manifest_of_json j = Some (manifest Demo6.recorded).
Proof.
  assert (Hp : Persist.plain_manifest (manifest Demo6.recorded) = true) by (vm_compute; reflexivity).
  assert (Hok : is_ok (fst (save_manifest "/site" Demo6.recorded)) = true)
    by (vm_compute; reflexivity).
  destruct (save_manifest "/site" Demo6.recorded) as [[[]|e] st1] eqn:E; [|discriminate Hok].
  destruct (saved_manifest_loads_back "/site" Demo6.recorded st1 Hp E) as (j & Hl & Hj & _).
  exists st1, j. auto.
Defined.
